(* ===== verification/_CoqProject ===== *)
-Q . S2P
Prelude.v
StreamPos.v
RingBuffer.v
Segments.v
SendWindow.v
RecvWindow.v
UnitTests.v
BandwidthLimiter.v
Packet.v
Wire.v
ReliableChannel.v
ReliableTask.v
ReliableSafety.v
System.v
Delivery.v
Async.v
Spsc.v
SpscSafety.v
EventWatch.v
Unreliable.v
UnreliableSafety.v
Mux.v
MuxSafety.v
Bincode.v
BincodeSafety.v
MessageChannel.v
Compressed.v
CompressedSafety.v
CompressedMessages.v
CancelSafety.v
Messages.v
UnreliableBincode.v
Maps.v
OrderedChannel.v
MessageDelivery.v
ChannelTask.v
ChannelSystem.v
MessageChannels.v
MessageChannelsSafety.v
JoinedTasks.v
JoinedTasksSafety.v
TypeNodes.v
ChannelsRefinement.v
MuxSystem.v
MuxedChannels.v
NodeBounds.v
Stack.v
StackSim.v
StackSafety.v
