(* ===== verification/Prelude.v ===== *)
(** * A verification of turbulence

    turbulence is a networking library in Rust: it carries typed messages over channels,
    reliable or not, that share one stream of packets which may be lost, repeated and
    reordered. This development models the crate (the files of src/src) and proves what
    its parts promise to one another and to their users.

    ** The parts of the program and where they are modelled

    From the bytes up; every model file is followed by its theorems, in a file of its
    own where it is long. The names of definitions are those of the source.

    - StreamPos (windows.rs, [stream_cmp] and its kin): the order of wrapping positions.
    - RingBuffer (ring_buffer.rs): the shared ring of bytes with its reader and writer.
    - Segments, SendWindow, RecvWindow (windows.rs): the bytes that wait for an
      acknowledgment, and the reassembly of ranges that come in any order. Segments is
      the arithmetic of lists of ranges that both use. UnitTests: the unit tests of both
      source files, run on the model.
    - BandwidthLimiter (bandwidth_limiter.rs, [Timer] of runtime.rs): credit kept in an
      IEEE double.
    - Packet (packet.rs, buffer.rs) and Wire: packets and pools as type classes with the
      instance of buffers; byte order, and handlers that may fail and change a state.
    - ReliableChannel, ReliableTask, ReliableSafety (reliable_channel.rs): the handle's
      methods, the task's handlers and one iteration of its main loop for each reason to
      wake up; what they do to the task; what a channel guarantees by itself. System: two
      channels and a network between them. Delivery: what was sent can still be received.
    - Async: wakers, polled handlers, the methods that only try, and futures.
    - Spsc, SpscSafety (spsc.rs) and EventWatch (event_watch.rs): the methods as programs
      over the atomic steps they take, and all interleavings of these.
    - Unreliable, UnreliableSafety (unreliable_channel.rs): messages coalesced into
      packets.
    - Mux, MuxSafety (packet_multiplexer.rs): the channels of one stream of packets.
    - Bincode, BincodeSafety (reliable_bincode_channel.rs), Compressed, CompressedSafety,
      CompressedMessages (compressed_bincode_channel.rs), UnreliableBincode
      (unreliable_bincode_channel.rs): messages over these channels, and the channels of
      one message type; MessageChannel is the interface [MessageBincodeChannel] of
      message_channels.rs with its laws; CancelSafety is about the futures of the async
      methods; Messages puts two typed channels over a connection, and MessageDelivery
      shows that what was sent can still be received.
    - ChannelTask, ChannelSystem (message_channels.rs, [channel_task]): the task of a
      message type between the user's queues and a typed channel, by itself and at both
      ends of a connection.
    - MessageChannels, MessageChannelsSafety (message_channels.rs): registration,
      [build], and the methods of the handle. JoinedTasks, JoinedTasksSafety: the future
      that joins the tasks, and [recv_err]. ChannelsRefinement: both together are a
      family of the nodes of ChannelTask, one for each message type.
      TypeNodes finds the node of a type in the joined tasks and the map of queues; Maps
      says when what is done on one state is what is done on its image in another.
    - MuxSystem: ports, which are a multiplexer with what is on its way through it, and two
      hosts of any stations over a port each, with one network. MuxedChannels: nodes as the
      stations. NodeBounds: their streams are bounded by what their users have sent.
    - Stack: a host of the whole program, [MessageChannels] with its joined tasks over a
      port, and two of them. OrderedChannel is what its reliable and compressed channels
      have in common; StackSim simulates a stack by a host of MuxSystem, of which every
      message type is a station; StackSafety draws the conclusion.

    A component uses another one through a type class that states what it relies on:
    [Packet], [PacketPool], [PacketSink], [ByteStream], [MessageChannel], [Station], each
    with a class of laws; the theorems of the client are proved from the laws, and the
    component below has an instance that discharges them.

    ** How code is modelled

    An operation that can panic is in the fault monad [res] of this file; one that also
    returns errors, or changes its state before it fails, is a [handler] (Wire); one that
    is polled may in addition leave with [Pending] (Async). Integers are [Z] with the
    width written out where the source's arithmetic has one: checked additions are
    faults when they overflow, [Wrapping] and [as] wrap. Strings of bytes are lists of
    integers. Handles that share an [Arc] are one record, on which the methods of either
    handle act; what several owners share in the multiplexer and in [MessageChannels] is
    in a store under the channel's number or the message's type.

    ** What the theorems show

    - Windows and ring: the ring is a bounded queue of bytes and its counts never
      overflow, and the test of its two threads passes under every interleaving of their
      calls ([threaded_test_passes]); whatever ranges are acknowledged or arrive, the windows send and reassemble
      the stream in order, and keep their documented invariants up to the deviation noted
      in RecvWindow ([recv_leaves_stale_range]): ranges that cause it are allowed for, as
      long as the window's end stays within 2^31 of where it happened.
    - Reliable channel: no packet and no interleaving of the user's calls makes the task
      panic (but for the one length field of [recv_packet_overflow]); what is released,
      sent and sent again is told exactly ([ack_post], [send_post], [resend_plan]), and an
      iteration of the loop ends in the invariant it started from; whatever two
      channels do over the network, what is read is a prefix of what was written, and
      what is not yet acknowledged is retained; the loop makes progress when it can, and
      from any state the stream that was sent can be completed ([connection_completes]).
    - Queues and flags: order and exactly-once transfer, and no lost wakeups while both
      ends are alive.
    - Unreliable channel and multiplexer: exact results of sending and receiving on all
      branches, round trips, and routing by the channel byte.
    - Messages: typed channels deliver the messages sent, in order and unchanged, and
      their async methods are cancel safe, and from any state the messages that were
      flushed can all be received ([messages_complete]); tasks neither lose, repeat nor
      reorder.
    - Message channels: methods panic only for types that are not registered, [build]
      opens and starts exactly what was registered, the channels are disconnected only by
      the error that [recv_err] gives, which is that of the first task to fail, under the
      name of its type, and [recv_err] ends the tasks; until then each
      message type has its task and its queues to itself, whatever happens to the others.
    - The whole: [stack_messages_in_order] in StackSafety, for what [MessageChannels] makes
      of registered types; [multiplexed_messages_in_order] in MuxedChannels, for any family
      of typed channels.

    ** Bounds and fuel

    Loops of the source that are not structural take fuel, and each is proved to end
    within it: [send_loop], [finish_read_loop] and [finish_write_loop] get the length of
    their buffer, of which every turn moves at least one byte; [flush_loop] the number of
    channels to flush, of which every turn removes one; [cc_poll_recv_ready] any positive
    number, as no chunk is empty; a packet is handled by structural recursion over lists.
    The theorems about connections hold within a horizon ([horizon] in System): what one
    side has written, plus the receive window of the other, is less than 2^31 bytes, for
    each direction; in StackSafety the bytes of the messages sent and three for each.
    Positions are 32 bits wide, and a packet that is delayed by more than half their range
    cannot be told from a new one. The theorems about messages are of users who send only
    messages that their channel can encode: what the code does with the others is in
    CompressedMessages and, as it is in the code, in the models of [start_send].

    ** What is not modelled, and why

    - The executor: [Spawn] of runtime.rs, [select!], [FuturesUnordered], [SelectAll] and
      remote handles choose what runs next. Here any choice is a step: the reason to wake
      up is an argument of an iteration, the branch of a [select!] and the tasks polled
      are arguments of a poll. That polls follow wakeups is shown for the queue and the
      flag, whose atomic steps are interleaved; the other models take a call, a poll, or an
      iteration of the main loop as one step. A packet that waits in a sink waits in the
      outbox of its host (MuxSystem).
    - bincode, snap, crossbeam's queue, [AtomicWaker] and byteorder are type classes with
      the laws that their documentation states, and an instance for the examples.
    - The statistics are counters; their atomics are relaxed and read by nobody else.
    - That time passes is up to the timer: delivery is shown for what was sent, not that the
      bandwidth limiter lets everything be sent.
    - lib.rs has only declarations; the integration tests run on executors. *)

(** Shared vocabulary of the development: the fault monad in which every
    operation that can panic is written, checked machine-width arithmetic,
    slices, the total-correctness predicate [returns], and the tactics and hint
    databases the components use. *)

From stdpp Require Export base tactics numbers list gmap.
From Stdlib Require Export ZArith Lia.

#[global] Open Scope Z_scope.

(** * Faults and the fault monad *)

(** The ways an operation of the program can fail to return: a checked integer
    operation overflows, an [assert!]/[assert_eq!]/[panic!] fires, a slice or
    vector index is out of range, [unwrap] meets [None]/[Err], or (undefined
    behaviour in the source) a byte that was never written is read.
    [OutOfFuel] is not a behaviour of the program: it marks a loop that ran
    longer than the bound the model gives it, and the loops are proved never to
    produce it. *)
Inductive fault :=
| Overflow
| AssertFailed
| IndexOutOfRange
| UnwrapNone
| UninitRead
| OutOfFuel.

#[export] Instance fault_eq_dec : EqDecision fault.
Proof. solve_decision. Defined.

Inductive res (A : Type) :=
| Val (a : A)
| Fault (f : fault).
Arguments Val {A} _.
Arguments Fault {A} _.

#[export] Instance res_eq_dec {A} `{EqDecision A} : EqDecision (res A).
Proof. solve_decision. Defined.

#[export] Instance res_ret : MRet res := fun A a => Val a.
#[export] Instance res_bind : MBind res := fun A B f m =>
  match m with Val a => f a | Fault e => Fault e end.
#[export] Instance res_fmap : FMap res := fun A B f m =>
  match m with Val a => Val (f a) | Fault e => Fault e end.

(** [assert!(b)] *)
Definition assert (b : bool) : res unit :=
  if b then Val tt else Fault AssertFailed.

(** [o.unwrap()] *)
Definition unwrap {A} (o : option A) : res A :=
  match o with Some a => Val a | None => Fault UnwrapNone end.

(** [std::task::Poll]: what polling a future gives. *)
Inductive Poll (A : Type) :=
| Pending
| Ready (a : A).
Arguments Pending {A}.
Arguments Ready {A} _.

(** * Checked machine-width arithmetic *)

(** [chk w x] is [x] when it fits an unsigned integer of [w] bits. *)
Definition chk (w x : Z) : res Z :=
  if (0 <=? x) && (x <? 2 ^ w) then Val x else Fault Overflow.
Definition add_u (w a b : Z) : res Z := chk w (a + b).
Definition sub_u (w a b : Z) : res Z := chk w (a - b).

Definition usize_bits : Z := 64.
Abbreviation usize_add := (add_u usize_bits).
Abbreviation usize_sub := (sub_u usize_bits).
Abbreviation u32_add := (add_u 32).
Abbreviation u32_sub := (sub_u 32).

Abbreviation usize_modulus := 18446744073709551616 (only parsing).

(** * Slices *)

Definition zlen {A} (l : list A) : Z := Z.of_nat (length l).
Definition ztake {A} (n : Z) (l : list A) : list A := take (Z.to_nat n) l.
Definition zdrop {A} (n : Z) (l : list A) : list A := drop (Z.to_nat n) l.

(** [&l[a..b]] *)
Definition slice {A} (l : list A) (a b : Z) : res (list A) :=
  if (0 <=? a) && (a <=? b) && (b <=? zlen l)
  then Val (ztake (b - a) (zdrop a l))
  else Fault IndexOutOfRange.

(** [&l[a..]] *)
Definition slice_from {A} (l : list A) (a : Z) : res (list A) :=
  slice l a (zlen l).

(** [l[off..off + src.len()].copy_from_slice(src)] on a destination that is
    known to be long enough. *)
Definition splice {A} (off : Z) (src dst : list A) : list A :=
  ztake off dst ++ src ++ zdrop (off + zlen src) dst.

(** [l[i]] *)
Definition index {A} (l : list A) (i : Z) : res A :=
  match l !! Z.to_nat i with
  | Some a => if 0 <=? i then Val a else Fault IndexOutOfRange
  | None => Fault IndexOutOfRange
  end.

(** [l[i] = x] *)
Definition set_index {A} (l : list A) (i : Z) (x : A) : res (list A) :=
  if (0 <=? i) && (i <? zlen l)
  then Val (<[Z.to_nat i := x]> l) else Fault IndexOutOfRange.

(** [l.drain(a..b)], the drained elements dropped *)
Definition drain {A} (l : list A) (a b : Z) : res (list A) :=
  if (0 <=? a) && (a <=? b) && (b <=? zlen l)
  then Val (ztake a l ++ zdrop b l) else Fault IndexOutOfRange.

(** [l.remove(i)] *)
Definition vec_remove {A} (l : list A) (i : Z) : res (list A) :=
  if (0 <=? i) && (i <? zlen l)
  then Val (ztake i l ++ zdrop (i + 1) l) else Fault IndexOutOfRange.

(** [l.insert(i, x)] *)
Definition vec_insert {A} (l : list A) (i : Z) (x : A) : res (list A) :=
  if (0 <=? i) && (i <=? zlen l)
  then Val (ztake i l ++ x :: zdrop i l) else Fault IndexOutOfRange.

(** [l.get(i)], for an index that may be negative in a specification *)
Definition zlookup {A} (i : Z) (l : list A) : option A :=
  if 0 <=? i then l !! Z.to_nat i else None.

(** * Total correctness *)

(** [returns m Q]: the operation returns, and its value satisfies [Q]. *)
Definition returns {A} (m : res A) (Q : A -> Prop) : Prop :=
  match m with Val a => Q a | Fault _ => False end.

Lemma returns_val {A} (a : A) (Q : A -> Prop) : Q a -> returns (Val a) Q.
Proof. done. Qed.

Lemma returns_ret {A} (a : A) (Q : A -> Prop) : Q a -> returns (mret a) Q.
Proof. done. Qed.

Lemma returns_bind {A B} (m : res A) (k : A -> res B) Q :
  returns m (fun a => returns (k a) Q) -> returns (m ≫= k) Q.
Proof. by destruct m. Qed.

Lemma returns_mono {A} (m : res A) (P Q : A -> Prop) :
  returns m P -> (forall a, P a -> Q a) -> returns m Q.
Proof. destruct m; simpl; naive_solver. Qed.

Lemma returns_iff {A} (m : res A) Q :
  returns m Q <-> exists a, m = Val a /\ Q a.
Proof. destruct m; simpl; naive_solver. Qed.

Lemma returns_assert (b : bool) (Q : unit -> Prop) :
  b = true -> Q tt -> returns (assert b) Q.
Proof. by intros ->. Qed.

Lemma returns_unwrap {A} (o : option A) a (Q : A -> Prop) :
  o = Some a -> Q a -> returns (unwrap o) Q.
Proof. by intros ->. Qed.

Lemma bind_val {A B} (m : res A) (k : A -> res B) b :
  m ≫= k = Val b <-> exists a, m = Val a /\ k a = Val b.
Proof.
  split.
  - destruct m as [a|f]; [intros; by exists a | discriminate].
  - by intros (a & -> & ?).
Qed.

(** * Lemmas on the primitives *)

Lemma chk_ok w x : 0 <= x < 2 ^ w -> chk w x = Val x.
Proof.
  intros []. unfold chk.
  by rewrite (proj2 (Z.leb_le _ _)), (proj2 (Z.ltb_lt _ _)).
Qed.

Lemma usize_add_ok a b : 0 <= a + b < usize_modulus -> usize_add a b = Val (a + b).
Proof. intros. by apply chk_ok. Qed.
Lemma usize_sub_ok a b : 0 <= a - b < usize_modulus -> usize_sub a b = Val (a - b).
Proof. intros. by apply chk_ok. Qed.
Lemma u32_add_ok a b : 0 <= a + b < 4294967296 -> u32_add a b = Val (a + b).
Proof. intros. by apply chk_ok. Qed.
Lemma u32_sub_ok a b : 0 <= a - b < 4294967296 -> u32_sub a b = Val (a - b).
Proof. intros. by apply chk_ok. Qed.

Section lists.
Context {A : Type}.
Implicit Types l : list A.

Lemma zlen_nonneg l : 0 <= zlen l.
Proof. unfold zlen. lia. Qed.
Lemma zlen_nil : zlen (@nil A) = 0.
Proof. done. Qed.
Lemma zlen_cons x l : zlen (x :: l) = 1 + zlen l.
Proof. unfold zlen. simpl. lia. Qed.
Lemma zlen_app l1 l2 : zlen (l1 ++ l2) = zlen l1 + zlen l2.
Proof. unfold zlen. rewrite length_app. lia. Qed.
Lemma zlen_ztake n l : zlen (ztake n l) = Z.min (Z.max 0 n) (zlen l).
Proof. unfold zlen, ztake. rewrite length_take. lia. Qed.
Lemma zlen_zdrop n l : zlen (zdrop n l) = Z.max 0 (zlen l - Z.max 0 n).
Proof. unfold zlen, zdrop. rewrite length_drop. lia. Qed.
Lemma zlen_splice off src dst :
  0 <= off -> off + zlen src <= zlen dst -> zlen (splice off src dst : list A) = zlen dst.
Proof.
  intros. unfold splice. rewrite !zlen_app, zlen_ztake, zlen_zdrop.
  pose proof (zlen_nonneg src). lia.
Qed.
Lemma zlen_zero_nil l : zlen l = 0 -> l = [].
Proof. destruct l; [done|]. rewrite zlen_cons. pose proof (zlen_nonneg l). lia. Qed.

Lemma zlen_sub a n l :
  0 <= a -> 0 <= n -> a + n <= zlen l -> zlen (ztake n (zdrop a l)) = n.
Proof. intros. rewrite zlen_ztake, zlen_zdrop. lia. Qed.

Lemma ztake_0 n l : n <= 0 -> ztake n l = [].
Proof. intros. unfold ztake. by replace (Z.to_nat n) with 0%nat by lia. Qed.
Lemma zdrop_0 n l : n <= 0 -> zdrop n l = l.
Proof. intros. unfold zdrop. by replace (Z.to_nat n) with 0%nat by lia. Qed.
Lemma ztake_ge n l : zlen l <= n -> ztake n l = l.
Proof. unfold zlen, ztake. intros. apply take_ge. lia. Qed.
Lemma zdrop_ge n l : zlen l <= n -> zdrop n l = [].
Proof. unfold zlen, zdrop. intros. apply drop_ge. lia. Qed.
Lemma ztake_zdrop n l : ztake n l ++ zdrop n l = l.
Proof. apply take_drop. Qed.
Lemma zdrop_zdrop a b l : 0 <= a -> 0 <= b -> zdrop a (zdrop b l) = zdrop (b + a) l.
Proof.
  intros. unfold zdrop. rewrite drop_drop. f_equal. lia.
Qed.
Lemma ztake_ztake a b l : ztake a (ztake b l) = ztake (Z.min a b) l.
Proof. unfold ztake. rewrite take_take. f_equal. lia. Qed.
Lemma zdrop_ztake a b l : 0 <= a -> zdrop a (ztake b l) = ztake (b - a) (zdrop a l).
Proof. intros. unfold ztake, zdrop. rewrite skipn_firstn_comm. f_equal. lia. Qed.
Lemma ztake_app_le n l1 l2 : n <= zlen l1 -> ztake n (l1 ++ l2) = ztake n l1.
Proof. unfold ztake, zlen. intros. apply take_app_le. lia. Qed.
Lemma ztake_app_ge n l1 l2 :
  zlen l1 <= n -> ztake n (l1 ++ l2) = l1 ++ ztake (n - zlen l1) l2.
Proof.
  unfold ztake, zlen. intros. rewrite take_app_ge by lia. do 2 f_equal. lia.
Qed.
Lemma ztake_app n l1 l2 : ztake n (l1 ++ l2) = ztake n l1 ++ ztake (n - zlen l1) l2.
Proof. unfold ztake, zlen. rewrite take_app. do 2 f_equal. lia. Qed.
Lemma zdrop_app n l1 l2 : zdrop n (l1 ++ l2) = zdrop n l1 ++ zdrop (n - zlen l1) l2.
Proof. unfold zdrop, zlen. rewrite drop_app. do 2 f_equal. lia. Qed.
(** Two counts that agree up to the length take, and drop, the same. *)
Lemma ztake_ext n m l :
  Z.min (Z.max 0 n) (zlen l) = Z.min (Z.max 0 m) (zlen l) -> ztake n l = ztake m l.
Proof.
  unfold ztake, zlen. intros. destruct (decide (length l <= Z.to_nat n)%nat).
  - by rewrite !take_ge by lia.
  - f_equal. lia.
Qed.
Lemma zdrop_ext n m l :
  Z.min (Z.max 0 n) (zlen l) = Z.min (Z.max 0 m) (zlen l) -> zdrop n l = zdrop m l.
Proof.
  unfold zdrop, zlen. intros. destruct (decide (length l <= Z.to_nat n)%nat).
  - by rewrite !drop_ge by lia.
  - f_equal. lia.
Qed.
Lemma zdrop_app_le n l1 l2 : n <= zlen l1 -> zdrop n (l1 ++ l2) = zdrop n l1 ++ l2.
Proof. unfold zdrop, zlen. intros. apply drop_app_le. lia. Qed.
Lemma zdrop_app_ge n l1 l2 :
  zlen l1 <= n -> zdrop n (l1 ++ l2) = zdrop (n - zlen l1) l2.
Proof. unfold zdrop, zlen. intros. rewrite drop_app_ge by lia. f_equal. lia. Qed.

Lemma zlookup_None i l : zlookup i l = None <-> i < 0 \/ zlen l <= i.
Proof.
  unfold zlookup, zlen. destruct (Z.leb_spec 0 i).
  - rewrite lookup_ge_None. lia.
  - split; [lia | done].
Qed.
Lemma zlookup_Some_lt i l x : zlookup i l = Some x -> 0 <= i < zlen l.
Proof.
  intros H. destruct (decide (0 <= i < zlen l)); [done|].
  assert (zlookup i l = None) by (apply zlookup_None; lia). congruence.
Qed.
Lemma zlookup_is_Some i l : 0 <= i < zlen l -> exists x, zlookup i l = Some x.
Proof.
  intros. destruct (zlookup i l) eqn:E; [eauto|]. apply zlookup_None in E. lia.
Qed.
Lemma zlist_eq l1 l2 :
  zlen l1 = zlen l2 -> (forall i, 0 <= i < zlen l1 -> zlookup i l1 = zlookup i l2) ->
  l1 = l2.
Proof.
  unfold zlen. intros Hlen H. apply list_eq. intros n.
  destruct (decide (n < length l1)%nat).
  - specialize (H (Z.of_nat n) ltac:(lia)). unfold zlookup in H.
    rewrite (proj2 (Z.leb_le 0 (Z.of_nat n))), Nat2Z.id in H by lia. done.
  - rewrite !lookup_ge_None_2 by lia. done.
Qed.
Lemma zlookup_app i l1 l2 :
  zlookup i (l1 ++ l2) =
  if i <? zlen l1 then zlookup i l1 else zlookup (i - zlen l1) l2.
Proof.
  unfold zlookup, zlen. destruct (Z.ltb_spec i (Z.of_nat (length l1))).
  - destruct (Z.leb_spec 0 i); [|done]. apply lookup_app_l. lia.
  - rewrite !(proj2 (Z.leb_le _ _)) by lia.
    rewrite lookup_app_r by lia. f_equal. lia.
Qed.
Lemma zlookup_ztake i n l :
  zlookup i (ztake n l) = if i <? n then zlookup i l else None.
Proof.
  unfold zlookup, ztake. destruct (Z.leb_spec 0 i), (Z.ltb_spec i n); try done.
  - rewrite lookup_take_lt by lia. done.
  - rewrite lookup_take_ge by lia. done.
Qed.
Lemma zlookup_zdrop i n l :
  0 <= i -> zlookup i (zdrop n l) = zlookup (i + Z.max 0 n) l.
Proof.
  intros. unfold zlookup, zdrop. rewrite !(proj2 (Z.leb_le _ _)) by lia.
  rewrite lookup_drop. f_equal. lia.
Qed.
Lemma zlookup_splice i off (src dst : list A) :
  0 <= off -> off + zlen src <= zlen dst ->
  zlookup i (splice off src dst) =
  if (off <=? i) && (i <? off + zlen src) then zlookup (i - off) src else zlookup i dst.
Proof.
  intros. pose proof (zlen_nonneg src). unfold splice.
  rewrite zlookup_app, zlen_ztake, zlookup_ztake.
  rewrite Z.max_r, Z.min_l by lia. rewrite zlookup_app.
  destruct (Z.ltb_spec i off).
  { rewrite (proj2 (Z.leb_gt _ _)) by lia. done. }
  rewrite (proj2 (Z.leb_le _ _)) by lia. simpl.
  destruct (Z.ltb_spec (i - off) (zlen src)), (Z.ltb_spec i (off + zlen src)); try lia; [done|].
  rewrite zlookup_zdrop by lia. f_equal. lia.
Qed.

Lemma splice_nil off (dst : list A) : 0 <= off -> splice off [] dst = dst.
Proof. intros. unfold splice. cbn. rewrite zlen_nil, Z.add_0_r. apply ztake_zdrop. Qed.

Lemma splice_mid (a b c d : list A) :
  zlen c = zlen b -> splice (zlen a) b (a ++ c ++ d) = a ++ b ++ d.
Proof.
  intros H. unfold splice. pose proof (zlen_nonneg a). pose proof (zlen_nonneg b).
  rewrite ztake_app_le, ztake_ge by lia. do 2 f_equal.
  rewrite app_assoc, zdrop_app, zdrop_ge by (rewrite zlen_app; lia). apply zdrop_0.
  rewrite zlen_app. lia.
Qed.

(** Access to the element behind a prefix. *)
Lemma zlookup_mid l1 x l2 : zlookup (zlen l1) (l1 ++ x :: l2) = Some x.
Proof. rewrite zlookup_app, Z.ltb_irrefl, Z.sub_diag. done. Qed.
Lemma index_mid l1 x l2 : index (l1 ++ x :: l2) (zlen l1) = Val x.
Proof.
  unfold index, zlen. rewrite Nat2Z.id, list_lookup_middle by done.
  by rewrite (proj2 (Z.leb_le _ _)) by lia.
Qed.
Lemma vec_remove_mid l1 x l2 : vec_remove (l1 ++ x :: l2) (zlen l1) = Val (l1 ++ l2).
Proof.
  unfold vec_remove. pose proof (zlen_nonneg l1). pose proof (zlen_nonneg l2).
  rewrite (proj2 (Z.leb_le _ _)), (proj2 (Z.ltb_lt _ _)) by (rewrite ?zlen_app, ?zlen_cons; lia).
  cbn [andb]. rewrite ztake_app_le, ztake_ge by lia. rewrite zdrop_app, zdrop_ge by lia.
  by replace (zlen l1 + 1 - zlen l1) with 1 by lia.
Qed.
Lemma set_index_mid l1 x y l2 : set_index (l1 ++ x :: l2) (zlen l1) y = Val (l1 ++ y :: l2).
Proof.
  unfold set_index. pose proof (zlen_nonneg l1). pose proof (zlen_nonneg l2).
  rewrite (proj2 (Z.leb_le _ _)), (proj2 (Z.ltb_lt _ _)) by (rewrite ?zlen_app, ?zlen_cons; lia).
  cbn [andb]. unfold zlen. by rewrite Nat2Z.id, insert_app_r_alt, Nat.sub_diag by lia.
Qed.

Lemma drain_mid l1 l2 l3 : drain (l1 ++ l2 ++ l3) (zlen l1) (zlen l1 + zlen l2) = Val (l1 ++ l3).
Proof.
  unfold drain. pose proof (zlen_nonneg l1). pose proof (zlen_nonneg l2). pose proof (zlen_nonneg l3).
  rewrite !(proj2 (Z.leb_le _ _)) by (rewrite ?zlen_app; lia). cbn [andb].
  rewrite ztake_app_le, ztake_ge by lia. do 2 f_equal.
  rewrite zdrop_app, zdrop_ge by lia. rewrite zdrop_app, zdrop_ge by lia. cbn [app].
  apply zdrop_0. lia.
Qed.
Lemma drain_prefix l1 l2 : drain (l1 ++ l2) 0 (zlen l1) = Val l2.
Proof. exact (drain_mid [] l1 l2). Qed.
Lemma vec_insert_mid l1 l2 x : vec_insert (l1 ++ l2) (zlen l1) x = Val (l1 ++ x :: l2).
Proof.
  unfold vec_insert. pose proof (zlen_nonneg l1). pose proof (zlen_nonneg l2).
  rewrite !(proj2 (Z.leb_le _ _)) by (rewrite ?zlen_app; lia). cbn [andb].
  rewrite ztake_app_le, ztake_ge by lia.
  by rewrite zdrop_app, zdrop_ge, zdrop_0 by lia.
Qed.

Lemma slice_ok l a b :
  0 <= a -> a <= b -> b <= zlen l -> slice l a b = Val (ztake (b - a) (zdrop a l)).
Proof. intros. unfold slice. by rewrite !(proj2 (Z.leb_le _ _)). Qed.
Lemma slice_mid (a b c : list A) : slice (a ++ b ++ c) (zlen a) (zlen a + zlen b) = Val b.
Proof.
  pose proof (zlen_nonneg a). pose proof (zlen_nonneg b). pose proof (zlen_nonneg c).
  rewrite slice_ok by (rewrite ?zlen_app; lia). f_equal.
  rewrite zdrop_app, zdrop_ge, zdrop_0 by lia. cbn [app].
  rewrite ztake_app_le, ztake_ge by lia. done.
Qed.
Lemma slice_from_ok l a : 0 <= a <= zlen l -> slice_from l a = Val (zdrop a l).
Proof.
  intros. unfold slice_from. rewrite slice_ok by lia.
  by rewrite ztake_ge by (rewrite zlen_zdrop; lia).
Qed.
Lemma index_ok l i x : zlookup i l = Some x -> index l i = Val x.
Proof. unfold zlookup, index. destruct (0 <=? i); [|done]. by intros ->. Qed.
End lists.

(** * Automation *)

Create Rewrite HintDb res.
Create Rewrite HintDb zlen.
#[export] Hint Rewrite @usize_add_ok @usize_sub_ok @u32_add_ok @u32_sub_ok using lia : res.
#[export] Hint Rewrite @zlen_app @zlen_cons @zlen_nil @zlen_ztake @zlen_zdrop : zlen.

(** Normalise lengths, remember that they are not negative, and call [lia]. *)
Ltac zlen_facts :=
  repeat match goal with
  | |- context [zlen ?l] =>
    lazymatch goal with
    | _ : 0 <= zlen l |- _ => fail
    | _ => pose proof (zlen_nonneg l)
    end
  | _ : context [zlen ?l] |- _ =>
    lazymatch goal with
    | _ : 0 <= zlen l |- _ => fail
    | _ => pose proof (zlen_nonneg l)
    end
  end.
Ltac zlia := autorewrite with zlen in *; zlen_facts; lia.

(** Case analysis on the comparison that decides the next branch. *)
Ltac zcase :=
  match goal with
  | |- context [Z.ltb ?a ?b] => destruct (Z.ltb_spec a b)
  | |- context [Z.leb ?a ?b] => destruct (Z.leb_spec a b)
  | |- context [Z.eqb ?a ?b] => destruct (Z.eqb_spec a b)
  end.
