(* ===== verification/StreamPos.v ===== *)
(** Wrapping stream positions: [StreamPos], [stream_cmp] and the four order
    predicates of windows.rs, and their meaning on unbounded positions. *)

From S2P Require Import Prelude.

Abbreviation u32_modulus := 4294967296 (only parsing).
Abbreviation u32_half := 2147483648 (only parsing).

(** [Wrapping<u32>]: an integer of [0, 2^32). *)
Abbreviation StreamPos := Z (only parsing).

Definition wrap (x : Z) : StreamPos := x mod u32_modulus.
Definition wadd (a b : StreamPos) : StreamPos := wrap (a + b).
Definition wsub (a b : StreamPos) : StreamPos := wrap (a - b).

Definition u32_max : Z := 4294967295.
(** [x as u32] *)
Definition as_u32 (x : Z) : Z := wrap x.

Definition is_pos (a : StreamPos) : Prop := 0 <= a < u32_modulus.

(** * The order predicates *)

Definition stream_cmp (a b : StreamPos) : option comparison :=
  let ord := Z.compare (wsub b a) (wsub a b) in
  match ord with
  | Eq => if a =? b then Some ord else None
  | _ => Some ord
  end.

Definition is_lt (c : comparison) : bool := match c with Lt => true | _ => false end.
Definition is_le (c : comparison) : bool := match c with Gt => false | _ => true end.
Definition is_gt (c : comparison) : bool := match c with Gt => true | _ => false end.
Definition is_ge (c : comparison) : bool := match c with Lt => false | _ => true end.

Definition unwrap_or_false (o : option bool) : bool := default false o.

Definition stream_lt (a b : StreamPos) : bool := unwrap_or_false (is_lt <$> stream_cmp a b).
Definition stream_le (a b : StreamPos) : bool := unwrap_or_false (is_le <$> stream_cmp a b).
Definition stream_gt (a b : StreamPos) : bool := unwrap_or_false (is_gt <$> stream_cmp a b).
Definition stream_ge (a b : StreamPos) : bool := unwrap_or_false (is_ge <$> stream_cmp a b).

(** * Wrapping *)

Lemma wrap_pos x : is_pos (wrap x).
Proof. unfold is_pos, wrap. apply Z.mod_pos_bound. lia. Qed.
Lemma wrap_id x : is_pos x -> wrap x = x.
Proof. apply Z.mod_small. Qed.
Lemma wadd_wrap x y : wadd (wrap x) y = wrap (x + y).
Proof. unfold wadd, wrap. by rewrite Zplus_mod_idemp_l. Qed.
Lemma wsub_wrap_l x y : wsub (wrap x) y = wrap (x - y).
Proof. unfold wsub, wrap. by rewrite Zminus_mod_idemp_l. Qed.
Lemma wsub_wrap x y : wsub (wrap x) (wrap y) = wrap (x - y).
Proof. unfold wsub, wrap. by rewrite <- Zminus_mod. Qed.
Lemma wsub_dist x y : 0 <= x - y < u32_modulus -> wsub (wrap x) (wrap y) = x - y.
Proof. intros. rewrite wsub_wrap. by apply wrap_id. Qed.
Lemma wrap_add x : wrap (x + u32_modulus) = wrap x.
Proof. unfold wrap. by rewrite <- (Z_mod_plus_full x 1). Qed.
Lemma wrap_inj x y : -u32_modulus < x - y < u32_modulus -> wrap x = wrap y -> x = y.
Proof.
  unfold wrap. intros H Heq.
  pose proof (Z.div_mod x u32_modulus). pose proof (Z.div_mod y u32_modulus). lia.
Qed.
Lemma wrap_eqb x y :
  -u32_modulus < x - y < u32_modulus -> (wrap x =? wrap y) = (x =? y).
Proof.
  intros. destruct (Z.eqb_spec (wrap x) (wrap y)) as [E|E], (Z.eqb_spec x y); try done.
  - by apply wrap_inj in E.
  - congruence.
Qed.

(** Every position has a representative in any window of [2^32] positions. *)
Lemma wrap_surj a lo : is_pos a -> exists x, wrap x = a /\ lo <= x < lo + u32_modulus.
Proof.
  intros Ha. exists (lo + wsub a (wrap lo)). split.
  - rewrite <- (wrap_id a Ha) at 2. unfold wsub, wrap, is_pos in *.
    rewrite Zplus_mod_idemp_r, <- Zplus_mod_idemp_l.
    replace (lo mod 4294967296 + (a - lo mod 4294967296)) with a by lia. done.
  - pose proof (wrap_pos (a - wrap lo)). unfold wsub, is_pos in *. lia.
Qed.

(** * The comparison on unbounded positions *)

Section windowed.
Context (x y : Z) (Hnear : -u32_half < x - y < u32_half).

Lemma stream_cmp_wrap : stream_cmp (wrap x) (wrap y) = Some (x ?= y).
Proof.
  unfold stream_cmp. rewrite !wsub_wrap, wrap_eqb by lia. unfold wrap.
  destruct (Z.compare_spec x y) as [->| |].
  - rewrite Z.sub_diag. cbn. by rewrite Z.eqb_refl.
  - rewrite (Z.mod_small (y - x)) by lia.
    rewrite <- (Z_mod_plus_full (x - y) 1), Z.mod_small by lia.
    destruct (Z.compare_spec (y - x) (x - y + 1 * 4294967296)); [lia|done|lia].
  - rewrite (Z.mod_small (x - y)) by lia.
    rewrite <- (Z_mod_plus_full (y - x) 1), Z.mod_small by lia.
    destruct (Z.compare_spec (y - x + 1 * 4294967296) (x - y)); [lia|lia|done].
Qed.
Lemma stream_lt_wrap : stream_lt (wrap x) (wrap y) = (x <? y).
Proof. unfold stream_lt. rewrite stream_cmp_wrap. cbn. unfold Z.ltb. by destruct (x ?= y). Qed.
Lemma stream_le_wrap : stream_le (wrap x) (wrap y) = (x <=? y).
Proof. unfold stream_le. rewrite stream_cmp_wrap. cbn. unfold Z.leb. by destruct (x ?= y). Qed.
Lemma stream_gt_wrap : stream_gt (wrap x) (wrap y) = (y <? x).
Proof.
  unfold stream_gt. rewrite stream_cmp_wrap. cbn. rewrite <- Z.gtb_ltb. unfold Z.gtb.
  by destruct (x ?= y).
Qed.
Lemma stream_ge_wrap : stream_ge (wrap x) (wrap y) = (y <=? x).
Proof.
  unfold stream_ge. rewrite stream_cmp_wrap. cbn. rewrite <- Z.geb_leb. unfold Z.geb.
  by destruct (x ?= y).
Qed.
End windowed.

(** Distances in the upper half count as negative. *)
Lemma stream_cmp_far x y :
  u32_half < x - y < u32_modulus -> stream_cmp (wrap x) (wrap y) = Some Lt.
Proof.
  intros. replace (wrap x) with (wrap (x - u32_modulus)).
  - rewrite stream_cmp_wrap by lia. f_equal. apply Z.compare_lt_iff. lia.
  - rewrite <- wrap_add. f_equal. lia.
Qed.

Lemma stream_cmp_tie x y : x - y = u32_half -> stream_cmp (wrap x) (wrap y) = None.
Proof.
  intros. unfold stream_cmp. rewrite !wsub_wrap, wrap_eqb by lia.
  replace (x - y) with u32_half by lia. replace (y - x) with (- u32_half) by lia. cbn.
  destruct (Z.eqb_spec x y); [lia|done].
Qed.

(** [a < b] when going right from [a] reaches [b] first. *)
Lemma stream_lt_dist x y :
  0 <= y - x < u32_modulus ->
  stream_lt (wrap x) (wrap y) = (0 <? y - x) && (y - x <? u32_half).
Proof.
  intros. destruct (Z.ltb_spec (y - x) u32_half).
  - rewrite stream_lt_wrap by lia. rewrite andb_true_r.
    destruct (Z.ltb_spec x y), (Z.ltb_spec 0 (y - x)); done || lia.
  - rewrite andb_false_r. rewrite <- (wrap_add x). unfold stream_lt.
    destruct (Z.eqb_spec (x + u32_modulus - y) u32_half).
    + by rewrite stream_cmp_tie.
    + rewrite stream_cmp_wrap by lia. cbn.
      destruct (Z.compare_spec (x + u32_modulus) y); [done|lia|done].
Qed.

Lemma stream_ge_dist x y :
  -u32_half <= x - y < u32_half -> stream_ge (wrap x) (wrap y) = (y <=? x).
Proof.
  intros. destruct (Z.eqb_spec (x - y) (-u32_half)).
  - unfold stream_ge. rewrite <- (wrap_add x), stream_cmp_tie by lia. cbn.
    destruct (Z.leb_spec y x); [lia|done].
  - apply stream_ge_wrap. lia.
Qed.

(** [StreamPos] distances split into the three cases the comparison sees. *)
Lemma stream_cmp_cases a b : is_pos a -> is_pos b ->
  exists x y, a = wrap x /\ b = wrap y /\
    -u32_half < x - y <= u32_half /\
    stream_cmp a b = (if x - y =? u32_half then None else Some (x ?= y)).
Proof.
  intros Ha Hb.
  destruct (wrap_surj a (b - u32_half + 1) Ha) as (x & Hx & ?).
  exists x, b. rewrite (wrap_id b Hb). split_and!; [done|done|lia|lia|].
  rewrite <- Hx. rewrite <- (wrap_id b Hb) at 1.
  destruct (Z.eqb_spec (x - b) u32_half).
  - by apply stream_cmp_tie.
  - apply stream_cmp_wrap. lia.
Qed.

(** * Properties *)

(** C40. On two positions fewer than [2^31] apart, [stream_cmp] and the four
    predicates built on it are the order of the unbounded positions they wrap. *)
Theorem stream_order_faithful x y :
  Z.abs (x - y) < u32_half ->
  stream_cmp (wrap x) (wrap y) = Some (x ?= y) /\
  stream_lt (wrap x) (wrap y) = (x <? y) /\ stream_le (wrap x) (wrap y) = (x <=? y) /\
  stream_gt (wrap x) (wrap y) = (y <? x) /\ stream_ge (wrap x) (wrap y) = (y <=? x).
Proof.
  intros. split_and!; [apply stream_cmp_wrap|apply stream_lt_wrap|apply stream_le_wrap
    |apply stream_gt_wrap|apply stream_ge_wrap]; lia.
Qed.

Lemma stream_order_faithful_witness :
  Z.abs (4294967290 - 4294967300) < u32_half /\
  stream_lt (wrap 4294967290) (wrap 4294967300) = true.
Proof.
  split; [vm_compute; reflexivity|].
  exact (proj1 (proj2 (stream_order_faithful 4294967290 4294967300 eq_refl))).
Defined.

(** [stream_cmp] has no answer exactly on opposite positions; otherwise it
    is antisymmetric, and it says [Eq] only on equal positions. *)
Theorem stream_cmp_partial a b :
  is_pos a -> is_pos b ->
  (stream_cmp a b = None <-> wsub a b = u32_half) /\
  (stream_cmp a b = Some Eq <-> a = b) /\
  stream_cmp b a = CompOpp <$> stream_cmp a b.
Proof.
  intros Ha Hb. destruct (stream_cmp_cases a b Ha Hb) as (x & y & -> & -> & Hxy & ->).
  rewrite wsub_wrap. destruct (Z.eqb_spec (x - y) u32_half) as [E|E].
  - rewrite E. split_and!; [done| |].
    + split; [done|]. intros Heq. apply wrap_inj in Heq; lia.
    + rewrite <- (wrap_id (wrap y)) by apply wrap_pos.
      rewrite <- (wrap_add y), wrap_id by apply wrap_pos.
      by rewrite stream_cmp_tie by lia.
  - rewrite (stream_cmp_wrap y x) by lia. split_and!.
    + split; [done|]. intros Hw. change u32_half with (wrap u32_half) in Hw.
      apply wrap_inj in Hw; lia.
    + split; [intros [= ->%Z.compare_eq_iff]; done|].
      intros ->%wrap_inj; [by rewrite Z.compare_refl|lia].
    + cbn. by rewrite <- Z.compare_antisym.
Qed.

Lemma stream_cmp_partial_witness :
  is_pos 0 /\ is_pos u32_half /\ stream_cmp 0 u32_half = None.
Proof.
  assert (is_pos 0) as H0 by (unfold is_pos; lia).
  assert (is_pos u32_half) as H1 by (unfold is_pos; lia).
  split; [exact H0|split; [exact H1|]].
  exact (proj2 (proj1 (stream_cmp_partial 0 u32_half H0 H1)) eq_refl).
Defined.
