(* ===== verification/RingBuffer.v ===== *)
(** The single-producer single-consumer byte ring of ring_buffer.rs: the shared
    [RingBuffer], the operations of its [Writer] and [Reader] handles with the
    index arithmetic they use, and the abstraction of a ring as the readable
    cells followed by the writable ones. *)

From S2P Require Import Prelude.

(** * Data *)

(** [MaybeUninit<u8>]: [None] is a byte that was never written. *)
Abbreviation cell := (option Z).

(** The shared structure both handles point to. [head] and [tail] run over
    [0, 2 * capacity), so that a full ring and an empty one differ. *)
Record RingBuffer := mkRingBuffer {
  buffer : list cell;
  capacity : Z;
  head : Z;
  tail : Z;
}.

Definition set_buffer (rb : RingBuffer) b := mkRingBuffer b (capacity rb) (head rb) (tail rb).
Definition set_head (rb : RingBuffer) h := mkRingBuffer (buffer rb) (capacity rb) h (tail rb).
Definition set_tail (rb : RingBuffer) t := mkRingBuffer (buffer rb) (capacity rb) (head rb) t.

Definition isize_max : Z := 9223372036854775807.

(** * Index arithmetic *)

Definition collapse_position (capacity pos : Z) : res Z :=
  if pos <? capacity then Val pos else usize_sub pos capacity.

Definition tail_to_head (capacity tail head : Z) : res Z :=
  if tail <=? head then usize_sub head tail
  else a ← usize_sub tail capacity; b ← usize_sub capacity a; usize_add b head.

Definition head_to_tail (capacity head tail : Z) : res Z :=
  n ← tail_to_head capacity tail head; usize_sub capacity n.

Definition increment (capacity pos n : Z) : res Z :=
  if n =? 0 then Val pos
  else
    a ← usize_sub capacity n;
    threshold ← usize_add a capacity;
    if pos <? threshold then usize_add pos n else usize_sub pos threshold.

(** * Operations *)

Definition RingBuffer_new (capacity : Z) : res RingBuffer :=
  _ ← assert (negb (capacity =? 0));
  (* Layout::array fails beyond isize::MAX bytes *)
  _ ← unwrap (if capacity <=? isize_max then Some tt else None);
  Val (mkRingBuffer (replicate (Z.to_nat capacity) None) capacity 0 0).

Definition write_available (rb : RingBuffer) : res Z :=
  head_to_tail (capacity rb) (head rb) (tail rb).

Definition read_available (rb : RingBuffer) : res Z :=
  tail_to_head (capacity rb) (tail rb) (head rb).

(** A mutable sub-slice of the ring: its first cell and its length. *)
Abbreviation region := (Z * Z)%type (only parsing).

(** [slice::from_raw_parts_mut(buffer.add(start), len)] *)
Definition raw_region (rb : RingBuffer) (start len : Z) : res region :=
  if (0 <=? start) && (0 <=? len) && (start + len <=? zlen (buffer rb))
  then Val (start, len) else Fault IndexOutOfRange.

Definition region_from (r : region) (n : Z) : res region :=
  if n <=? r.2 then Val (r.1 + n, r.2 - n) else Fault IndexOutOfRange.
Definition region_to (r : region) (n : Z) : res region :=
  if n <=? r.2 then Val (r.1, n) else Fault IndexOutOfRange.

Definition write_slice (b : list cell) (dst : region) (src : list Z) : res (list cell) :=
  _ ← assert (dst.2 =? zlen src);
  Val (splice dst.1 (Some <$> src) b).

(** The writable cells, in writing order. *)
Definition writer_regions (rb : RingBuffer) (h t : Z) : res (region * region) :=
  if h <? t then
    n ← usize_sub t h; l ← raw_region rb h n; Val (l, (0, 0))
  else
    n ← usize_sub (capacity rb) h; l ← raw_region rb h n;
    r ← raw_region rb 0 t; Val (l, r).

Definition writer_write (rb : RingBuffer) (offset : Z) (data : list Z)
    : res (RingBuffer * Z) :=
  h ← collapse_position (capacity rb) (head rb);
  t ← collapse_position (capacity rb) (tail rb);
  if (h =? t) && negb (head rb =? tail rb) then Val (rb, 0)
  else
    '(lhs, rhs) ← writer_regions rb h t;
    let left_eat := Z.min lhs.2 offset in
    lhs ← region_from lhs left_eat;
    offset ← usize_sub offset left_eat;
    let left_len := Z.min lhs.2 (zlen data) in
    dst ← region_to lhs left_len;
    src ← slice data 0 left_len;
    b ← write_slice (buffer rb) dst src;
    data ← slice_from data left_len;
    let right_eat := Z.min rhs.2 offset in
    rhs ← region_from rhs right_eat;
    let right_len := Z.min rhs.2 (zlen data) in
    dst ← region_to rhs right_len;
    src ← slice data 0 right_len;
    b ← write_slice b dst src;
    n ← usize_add left_len right_len;
    Val (set_buffer rb b, n).

Definition writer_advance (rb : RingBuffer) (offset : Z) : res (RingBuffer * Z) :=
  n ← head_to_tail (capacity rb) (head rb) (tail rb);
  let offset := Z.min offset n in
  h ← increment (capacity rb) (head rb) offset;
  Val (set_head rb h, offset).

(** Reading cells as bytes is defined only on cells that were written. *)
Fixpoint init_bytes (cs : list cell) : res (list Z) :=
  match cs with
  | [] => Val []
  | None :: _ => Fault UninitRead
  | Some x :: cs => xs ← init_bytes cs; Val (x :: xs)
  end.

(** The readable cells, in reading order. *)
Definition reader_slices (rb : RingBuffer) (h t : Z) : res (list cell * list cell) :=
  if t <? h then
    l ← slice (buffer rb) t h; Val (l, [])
  else
    l ← slice (buffer rb) t (capacity rb);
    r ← slice (buffer rb) 0 h; Val (l, r).

(** Returns the new contents of the caller's buffer and the number of bytes
    read. *)
Definition reader_read (rb : RingBuffer) (offset : Z) (data : list Z)
    : res (list Z * Z) :=
  h ← collapse_position (capacity rb) (head rb);
  t ← collapse_position (capacity rb) (tail rb);
  if (h =? t) && (head rb =? tail rb) then Val (data, 0)
  else
    '(lhs, rhs) ← reader_slices rb h t;
    let left_eat := Z.min (zlen lhs) offset in
    lhs ← slice_from lhs left_eat;
    offset ← usize_sub offset left_eat;
    let left_len := Z.min (zlen lhs) (zlen data) in
    lhs ← slice lhs 0 left_len;
    lhs ← init_bytes lhs;
    rest ← slice_from data left_len;
    let right_eat := Z.min (zlen rhs) offset in
    rhs ← slice_from rhs right_eat;
    let right_len := Z.min (zlen rhs) (zlen rest) in
    rhs ← slice rhs 0 right_len;
    rhs ← init_bytes rhs;
    n ← usize_add left_len right_len;
    Val (lhs ++ splice 0 rhs rest, n).

Definition reader_advance (rb : RingBuffer) (offset : Z) : res (RingBuffer * Z) :=
  n ← tail_to_head (capacity rb) (tail rb) (head rb);
  let offset := Z.min offset n in
  t ← increment (capacity rb) (tail rb) offset;
  Val (set_tail rb t, offset).

(** * Abstraction *)

Definition collapse (capacity pos : Z) : Z := if pos <? capacity then pos else pos - capacity.

Definition ready_len (rb : RingBuffer) : Z :=
  if tail rb <=? head rb then head rb - tail rb
  else 2 * capacity rb - tail rb + head rb.

(** The cells in reading order, starting at the tail. *)
Definition rotated (rb : RingBuffer) : list cell :=
  let t := collapse (capacity rb) (tail rb) in
  zdrop t (buffer rb) ++ ztake t (buffer rb).

(** The cells a reader sees, and behind them the cells a writer may fill. *)
Definition contents (rb : RingBuffer) : list cell := ztake (ready_len rb) (rotated rb).
Definition space (rb : RingBuffer) : list cell := zdrop (ready_len rb) (rotated rb).

Record ring_wf (rb : RingBuffer) : Prop := {
  rwf_cap : 0 < capacity rb <= isize_max;
  rwf_buffer : zlen (buffer rb) = capacity rb;
  rwf_head : 0 <= head rb < 2 * capacity rb;
  rwf_tail : 0 <= tail rb < 2 * capacity rb;
  rwf_len : ready_len rb <= capacity rb;
}.

(** Number of bytes an access of [len] bytes at [offset] of [room] cells moves. *)
Definition xfer (len room offset : Z) : Z := Z.max 0 (Z.min len (room - offset)).

(** * Specification

    What the two handles promise: a bounded byte queue. [q_ready] are the bytes
    a reader sees; [q_room] are the cells ahead, in writing order, of which a
    writer may fill any before it commits a prefix of them. *)
Record queue := mkQueue { q_ready : list cell; q_room : list cell }.

Inductive ring_op :=
| RbWrite (offset : Z) (data : list Z)
| RbCommit (n : Z)
| RbRead (offset : Z) (buf : list Z)
| RbConsume (n : Z)
| RbWriteAvailable
| RbReadAvailable.

(** One call on a ring: the ring, the caller's buffer after it, the count. *)
Definition ring_exec (o : ring_op) (rb : RingBuffer) : res (RingBuffer * list Z * Z) :=
  match o with
  | RbWrite offset data => '(rb, n) ← writer_write rb offset data; Val (rb, [], n)
  | RbCommit n => '(rb, n) ← writer_advance rb n; Val (rb, [], n)
  | RbRead offset buf => '(buf, n) ← reader_read rb offset buf; Val (rb, buf, n)
  | RbConsume n => '(rb, n) ← reader_advance rb n; Val (rb, [], n)
  | RbWriteAvailable => n ← write_available rb; Val (rb, [], n)
  | RbReadAvailable => n ← read_available rb; Val (rb, [], n)
  end.

Definition queue_exec (o : ring_op) (q : queue) : res (queue * list Z * Z) :=
  let (ready, room) := q in
  match o with
  | RbWrite offset data =>
    let n := xfer (zlen data) (zlen room) offset in
    Val (mkQueue ready (splice offset (Some <$> ztake n data) room), [], n)
  | RbCommit n =>
    let n := Z.min n (zlen room) in
    Val (mkQueue (ready ++ ztake n room) (zdrop n room), [], n)
  | RbRead offset buf =>
    let n := xfer (zlen buf) (zlen ready) offset in
    bs ← init_bytes (ztake n (zdrop offset ready)); Val (q, bs ++ zdrop n buf, n)
  | RbConsume n =>
    let n := Z.min n (zlen ready) in
    Val (mkQueue (zdrop n ready) (room ++ ztake n ready), [], n)
  | RbWriteAvailable => Val (q, [], zlen room)
  | RbReadAvailable => Val (q, [], zlen ready)
  end.

(** A sequence of calls, with what each hands back. *)
Fixpoint run_ops {S} (exec : ring_op -> S -> res (S * list Z * Z)) (ops : list ring_op) (s : S)
    : res (S * list (list Z * Z)) :=
  match ops with
  | [] => Val (s, [])
  | o :: ops =>
    '(s, buf, n) ← exec o s;
    '(s, outs) ← run_ops exec ops s;
    Val (s, (buf, n) :: outs)
  end.

(** The arguments are of type [usize]. *)
Definition ring_op_ok (o : ring_op) : Prop :=
  match o with
  | RbWrite n _ | RbCommit n | RbRead n _ | RbConsume n => 0 <= n < usize_modulus
  | _ => True
  end.

Definition view (rb : RingBuffer) : queue := mkQueue (contents rb) (space rb).

(** * Index lemmas *)

Lemma collapse_position_ok c p :
  0 < c <= isize_max -> 0 <= p < 2 * c -> collapse_position c p = Val (collapse c p).
Proof.
  unfold isize_max, collapse_position, collapse. intros. zcase; [done|].
  by apply usize_sub_ok; lia.
Qed.

Lemma ready_len_nonneg rb : ring_wf rb -> 0 <= ready_len rb <= capacity rb.
Proof. intros []. unfold ready_len in *. destruct (Z.leb_spec (tail rb) (head rb)); lia. Qed.

Lemma tail_to_head_ok rb :
  ring_wf rb -> tail_to_head (capacity rb) (tail rb) (head rb) = Val (ready_len rb).
Proof.
  intros []. unfold isize_max, ready_len, tail_to_head in *.
  destruct (Z.leb_spec (tail rb) (head rb)).
  - by rewrite usize_sub_ok by lia.
  - rewrite usize_sub_ok by lia. cbn. rewrite usize_sub_ok by lia. cbn.
    rewrite usize_add_ok by lia. f_equal. lia.
Qed.

Lemma head_to_tail_ok rb :
  ring_wf rb ->
  head_to_tail (capacity rb) (head rb) (tail rb) = Val (capacity rb - ready_len rb).
Proof.
  intros Hwf. pose proof (ready_len_nonneg rb Hwf). unfold head_to_tail.
  rewrite tail_to_head_ok by done. cbn. destruct Hwf. unfold isize_max in *.
  by rewrite usize_sub_ok by lia.
Qed.

(** [increment] is addition modulo [2 * capacity]. *)
Lemma increment_ok c p n :
  0 < c <= isize_max -> 0 <= p < 2 * c -> 0 <= n <= c ->
  increment c p n = Val (if p + n <? 2 * c then p + n else p + n - 2 * c).
Proof.
  unfold isize_max, increment. intros. destruct (Z.eqb_spec n 0) as [->|].
  - destruct (Z.ltb_spec (p + 0) (2 * c)); [|lia]. by rewrite Z.add_0_r.
  - rewrite usize_sub_ok by lia. cbn. rewrite (usize_add_ok (c - n)) by lia. cbn.
    destruct (Z.ltb_spec p (c - n + c)), (Z.ltb_spec (p + n) (2 * c)); try lia.
    + by rewrite usize_add_ok by lia.
    + rewrite usize_sub_ok by lia. f_equal. lia.
Qed.

(** The three shapes of a ring: wrapped, contiguous, or full. *)
Lemma ring_shape rb :
  ring_wf rb ->
  let c := capacity rb in
  let h := collapse c (head rb) in let t := collapse c (tail rb) in
  let n := ready_len rb in
  0 <= h < c /\ 0 <= t < c /\
  ((h < t /\ n = c - t + h) \/ (t <= h /\ n = h - t /\ (h = t -> head rb = tail rb)) \/
   (h = t /\ n = c /\ head rb <> tail rb)).
Proof.
  intros [? _ ? ? ?]. unfold ready_len, collapse in *. cbn.
  destruct (Z.leb_spec (tail rb) (head rb)), (Z.ltb_spec (head rb) (capacity rb)),
    (Z.ltb_spec (tail rb) (capacity rb)); lia.
Qed.

Ltac ring_shape_of Hwf :=
  let Hs := fresh "Hshape" in
  pose proof (ring_shape _ Hwf) as Hs; cbn zeta in Hs;
  destruct Hs as (? & ? & Hs); pose proof (ready_len_nonneg _ Hwf);
  pose proof (rwf_buffer _ Hwf); pose proof (rwf_cap _ Hwf); unfold isize_max in *.

Lemma zlen_rotated rb : ring_wf rb -> zlen (rotated rb) = capacity rb.
Proof.
  intros Hwf. ring_shape_of Hwf. unfold rotated. zlia.
Qed.
Lemma zlen_contents rb : ring_wf rb -> zlen (contents rb) = ready_len rb.
Proof.
  intros Hwf. pose proof (ready_len_nonneg rb Hwf).
  unfold contents. rewrite zlen_ztake, zlen_rotated by done. lia.
Qed.
Lemma zlen_space rb : ring_wf rb -> zlen (space rb) = capacity rb - ready_len rb.
Proof.
  intros Hwf. pose proof (ready_len_nonneg rb Hwf).
  unfold space. rewrite zlen_zdrop, zlen_rotated by done. lia.
Qed.
Lemma contents_space rb : contents rb ++ space rb = rotated rb.
Proof. apply ztake_zdrop. Qed.

(** Cell [i] in reading order sits at index [phys rb i] of the buffer. *)
Definition phys (rb : RingBuffer) (i : Z) : Z :=
  let p := collapse (capacity rb) (tail rb) + i in
  if p <? capacity rb then p else p - capacity rb.

Lemma zlookup_rotated rb i :
  ring_wf rb -> 0 <= i < capacity rb ->
  zlookup i (rotated rb) = zlookup (phys rb i) (buffer rb).
Proof.
  intros Hwf Hi. ring_shape_of Hwf. unfold rotated, phys. rewrite zlookup_app, zlen_zdrop, zlookup_zdrop by lia.
  rewrite zlookup_ztake.
  destruct (Z.ltb_spec i (Z.max 0 (zlen (buffer rb) - Z.max 0 (collapse (capacity rb) (tail rb)))));
    destruct (Z.ltb_spec (collapse (capacity rb) (tail rb) + i) (capacity rb)); try lia.
  - f_equal. lia.
  - rewrite (proj2 (Z.ltb_lt _ _)) by lia. f_equal. lia.
Qed.

Lemma init_bytes_ok cs bs : cs = Some <$> bs -> init_bytes cs = Val bs.
Proof. intros ->. induction bs as [|b bs IH]; [done|]. cbn. by rewrite IH. Qed.

Lemma fmap_Some_ztake n (bs : list Z) : ztake n (Some <$> bs) = Some <$> ztake n bs.
Proof. unfold ztake. by rewrite fmap_take. Qed.
Lemma fmap_Some_zdrop n (bs : list Z) : zdrop n (Some <$> bs) = Some <$> zdrop n bs.
Proof. unfold zdrop. by rewrite fmap_drop. Qed.
Lemma zlen_fmap {A B} (f : A -> B) l : zlen (f <$> l) = zlen l.
Proof. unfold zlen. by rewrite length_fmap. Qed.

(** * Writing *)

(** Where the two regions that [write] fills sit: [n1] cells from the head, then
    [n2] cells from the start of the buffer. *)
Definition room1 (rb : RingBuffer) : Z :=
  let h := collapse (capacity rb) (head rb) in let t := collapse (capacity rb) (tail rb) in
  if h <? t then t - h else capacity rb - h.
Definition room2 (rb : RingBuffer) : Z :=
  let h := collapse (capacity rb) (head rb) in let t := collapse (capacity rb) (tail rb) in
  if h <? t then 0 else t.

Definition is_full (rb : RingBuffer) : bool :=
  (collapse (capacity rb) (head rb) =? collapse (capacity rb) (tail rb)) &&
  negb (head rb =? tail rb).

Lemma is_full_spec rb : ring_wf rb -> is_full rb = (ready_len rb =? capacity rb).
Proof.
  intros Hwf. ring_shape_of Hwf. unfold is_full.
  destruct (Z.eqb_spec (collapse (capacity rb) (head rb)) (collapse (capacity rb) (tail rb)));
    destruct (Z.eqb_spec (head rb) (tail rb)); destruct (Z.eqb_spec (ready_len rb) (capacity rb));
    cbn; lia || (exfalso; congruence || lia).
Qed.

Lemma room_spec rb :
  ring_wf rb -> is_full rb = false ->
  0 < room1 rb /\ 0 <= room2 rb /\ room1 rb + room2 rb = capacity rb - ready_len rb /\
  collapse (capacity rb) (head rb) + room1 rb <= capacity rb /\
  room2 rb <= collapse (capacity rb) (head rb) /\
  (forall i, 0 <= i < capacity rb ->
    phys rb i = let j := i - ready_len rb in
                if j <? 0 then phys rb i
                else if j <? room1 rb then collapse (capacity rb) (head rb) + j
                else j - room1 rb) /\
  (forall i, 0 <= i < ready_len rb ->
    0 <= phys rb i < capacity rb /\
    (phys rb i < collapse (capacity rb) (head rb) \/
     collapse (capacity rb) (head rb) + room1 rb <= phys rb i) /\
    room2 rb <= phys rb i).
Proof.
  intros Hwf Hfull. rewrite is_full_spec in Hfull by done. apply Z.eqb_neq in Hfull.
  ring_shape_of Hwf. unfold room1, room2.
  assert (0 < capacity rb) by lia.
  destruct (Z.ltb_spec (collapse (capacity rb) (head rb)) (collapse (capacity rb) (tail rb)));
    split_and!; try lia; intros i Hi; unfold phys; cbn zeta; repeat zcase; lia.
Qed.

Lemma zlookup_fmap {A B} (f : A -> B) i l : zlookup i (f <$> l) = f <$> zlookup i l.
Proof. unfold zlookup. destruct (0 <=? i); [apply list_lookup_fmap|done]. Qed.

(** The buffer after both copies of [write]. *)
Definition written (rb : RingBuffer) (offset : Z) (data : list Z) : list cell :=
  let le := Z.min (room1 rb) offset in
  let d1 := Z.min (room1 rb - le) (zlen data) in
  let re := Z.min (room2 rb) (offset - le) in
  let d2 := Z.min (room2 rb - re) (zlen data - d1) in
  splice re (Some <$> ztake d2 (zdrop d1 data))
    (splice (collapse (capacity rb) (head rb) + le) (Some <$> ztake d1 data) (buffer rb)).

Lemma zlookup_written rb offset data i :
  ring_wf rb -> is_full rb = false -> 0 <= offset -> 0 <= i < capacity rb ->
  zlookup (phys rb i) (written rb offset data) =
  let n := xfer (zlen data) (capacity rb - ready_len rb) offset in
  let j := i - ready_len rb - offset in
  if (0 <=? j) && (j <? n) then Some <$> zlookup j data else zlookup (phys rb i) (buffer rb).
Proof.
  intros Hwf Hfull Hoff Hi. pose proof (zlen_nonneg data).
  destruct (room_spec rb Hwf Hfull) as (? & ? & ? & ? & ? & Hphys & Hold).
  ring_shape_of Hwf. specialize (Hphys i Hi). cbn zeta in Hphys. unfold written. cbn zeta.
  set (le := Z.min (room1 rb) offset). set (d1 := Z.min (room1 rb - le) (zlen data)).
  set (re := Z.min (room2 rb) (offset - le)).
  set (d2 := Z.min (room2 rb - re) (zlen data - d1)).
  assert (zlen (Some <$> ztake d1 data) = d1) as L1 by (rewrite zlen_fmap; zlia).
  assert (zlen (Some <$> ztake d2 (zdrop d1 data)) = d2) as L2 by (rewrite zlen_fmap; zlia).
  rewrite !zlookup_splice; rewrite ?zlen_splice, ?L1, ?L2; try lia.
  rewrite !zlookup_fmap, !zlookup_ztake. unfold xfer.
  destruct (Z.ltb_spec (i - ready_len rb) 0) as [Hlt|Hge].
  - destruct (Hold i ltac:(lia)) as (? & Hh & ?).
    rewrite (proj2 (Z.leb_gt 0 (i - _ - _))) by lia. cbn [andb].
    destruct (Z.leb_spec re (phys rb i)), (Z.ltb_spec (phys rb i) (re + d2)); try lia;
    destruct (Z.leb_spec (collapse (capacity rb) (head rb) + le) (phys rb i)),
      (Z.ltb_spec (phys rb i) (collapse (capacity rb) (head rb) + le + d1)); cbn [andb]; done || lia.
  - revert Hphys. destruct (Z.ltb_spec (i - ready_len rb) (room1 rb)); intros ->;
    repeat (zcase; cbn [andb]; try lia); try done;
      rewrite ?zlookup_zdrop by lia; do 2 f_equal; lia.
Qed.

Lemma zlen_written rb offset data :
  ring_wf rb -> is_full rb = false -> 0 <= offset ->
  zlen (written rb offset data) = capacity rb.
Proof.
  intros Hwf Hfull Hoff. pose proof (zlen_nonneg data).
  destruct (room_spec rb Hwf Hfull) as (? & ? & ? & ? & ? & _). ring_shape_of Hwf.
  unfold written. cbn zeta.
  rewrite zlen_splice; [rewrite zlen_splice; [done|..]|..];
    rewrite ?zlen_splice; rewrite ?zlen_fmap; autorewrite with zlen; lia.
Qed.

Lemma written_view rb offset data :
  ring_wf rb -> is_full rb = false -> 0 <= offset ->
  let rb' := set_buffer rb (written rb offset data) in
  let n := xfer (zlen data) (zlen (space rb)) offset in
  ring_wf rb' /\ contents rb' = contents rb /\
  space rb' = splice offset (Some <$> ztake n data) (space rb).
Proof.
  intros Hwf Hfull Hoff. cbn zeta. pose proof (zlen_nonneg data).
  pose proof (zlookup_written rb offset data) as Hlk.
  rewrite zlen_space by done.
  set (rb' := set_buffer rb (written rb offset data)).
  assert (ring_wf rb') as Hwf'.
  { pose proof (zlen_written rb offset data Hwf Hfull Hoff). by destruct Hwf. }
  split; [done|]. ring_shape_of Hwf.
  assert (forall i, 0 <= i < capacity rb -> zlookup i (rotated rb') =
    zlookup (phys rb i) (written rb offset data)) as Hrot.
  { intros i Hi. by rewrite zlookup_rotated. }
  set (n := xfer (zlen data) (capacity rb - ready_len rb) offset) in *.
  assert (0 <= n <= zlen data /\ (n = 0 \/ offset + n <= capacity rb - ready_len rb)) as [? Hn0]
    by (unfold n, xfer; lia).
  assert (zlen (Some <$> ztake n data) = n) as Hn by (rewrite zlen_fmap; zlia).
  split; apply zlist_eq.
  - by rewrite !zlen_contents.
  - rewrite zlen_contents by done. intros i Hi. change (ready_len rb') with (ready_len rb) in Hi.
    unfold contents. rewrite !zlookup_ztake. change (ready_len rb') with (ready_len rb).
    rewrite Hrot, Hlk by (done || lia). cbn zeta.
    rewrite (proj2 (Z.leb_gt 0 (i - _ - _))) by lia. cbn [andb].
    by rewrite zlookup_rotated by (done || lia).
  - rewrite zlen_space by done. destruct Hn0 as [->|?].
    + rewrite ztake_0 by lia. cbn. rewrite splice_nil by done. by rewrite zlen_space.
    + rewrite zlen_splice; rewrite ?Hn, ?zlen_space by done; done || lia.
  - rewrite zlen_space by done. intros i Hi. change (ready_len rb') with (ready_len rb) in Hi.
    cbn in Hi. unfold space at 1. rewrite zlookup_zdrop by lia.
    change (ready_len rb') with (ready_len rb).
    rewrite Hrot, Hlk by (done || lia). cbn zeta. fold n.
    rewrite <- zlookup_rotated by (done || lia).
    assert (zlookup (i + Z.max 0 (ready_len rb)) (rotated rb) = zlookup i (space rb)) as ->.
    { unfold space. by rewrite zlookup_zdrop by lia. }
    destruct Hn0 as [->|?].
    + rewrite ztake_0 by lia. cbn. rewrite splice_nil by done.
      destruct (Z.leb_spec 0 (i + Z.max 0 (ready_len rb) - ready_len rb - offset)),
        (Z.ltb_spec (i + Z.max 0 (ready_len rb) - ready_len rb - offset) 0); done || lia.
    + rewrite zlookup_splice; rewrite ?Hn, ?zlen_space by done; [|lia|lia].
      rewrite zlookup_fmap, zlookup_ztake.
      repeat (zcase; cbn [andb]; try lia); try done. do 2 f_equal. lia.
Qed.

Lemma writer_regions_ok rb :
  ring_wf rb -> is_full rb = false ->
  writer_regions rb (collapse (capacity rb) (head rb)) (collapse (capacity rb) (tail rb)) =
  Val ((collapse (capacity rb) (head rb), room1 rb), (0, room2 rb)).
Proof.
  intros Hwf Hfull. destruct (room_spec rb Hwf Hfull) as (? & ? & ? & ? & ? & _).
  ring_shape_of Hwf. unfold writer_regions, room1, room2, raw_region in *.
  destruct (Z.ltb_spec (collapse (capacity rb) (head rb)) (collapse (capacity rb) (tail rb)));
    rewrite usize_sub_ok by lia; cbn [mbind res_bind];
    rewrite !(proj2 (Z.leb_le _ _)) by lia; done.
Qed.

Lemma region_from_ok r n : n <= r.2 -> region_from r n = Val (r.1 + n, r.2 - n).
Proof. intros. unfold region_from. by rewrite (proj2 (Z.leb_le _ _)). Qed.
Lemma region_to_ok r n : n <= r.2 -> region_to r n = Val (r.1, n).
Proof. intros. unfold region_to. by rewrite (proj2 (Z.leb_le _ _)). Qed.
Lemma write_slice_ok b r src : r.2 = zlen src -> write_slice b r src = Val (splice r.1 (Some <$> src) b).
Proof. intros H. unfold write_slice. by rewrite H, Z.eqb_refl. Qed.

Lemma writer_write_ok rb offset data :
  ring_wf rb -> 0 <= offset < usize_modulus ->
  writer_write rb offset data =
  Val (if is_full rb then (rb, 0)
       else (set_buffer rb (written rb offset data),
             xfer (zlen data) (zlen (space rb)) offset)).
Proof.
  intros Hwf Hoff. pose proof (zlen_nonneg data).
  unfold writer_write. destruct (Hwf) as [? Hbuf ? ? ?].
  rewrite !collapse_position_ok by done. cbn [mbind res_bind]. fold (is_full rb).
  destruct (is_full rb) eqn:Hfull; [done|].
  destruct (room_spec rb Hwf Hfull) as (? & ? & Hsum & ? & ? & _). ring_shape_of Hwf.
  rewrite writer_regions_ok by done. cbn [mbind res_bind fst snd].
  rewrite region_from_ok by (cbn; lia). cbn [mbind res_bind fst snd].
  rewrite usize_sub_ok by lia. cbn [mbind res_bind].
  rewrite region_to_ok by (cbn; lia). cbn [mbind res_bind fst snd].
  rewrite slice_ok by lia. cbn [mbind res_bind].
  rewrite write_slice_ok by (cbn; zlia). cbn [mbind res_bind fst].
  rewrite slice_from_ok by lia. cbn [mbind res_bind].
  rewrite region_from_ok by (cbn; lia). cbn [mbind res_bind fst snd].
  rewrite region_to_ok by (cbn; lia). cbn [mbind res_bind fst snd].
  rewrite slice_ok by zlia. cbn [mbind res_bind].
  rewrite write_slice_ok by (cbn; zlia). cbn [mbind res_bind fst].
  rewrite usize_add_ok by zlia. cbn [mbind res_bind].
  rewrite zlen_space by done. unfold xfer. do 2 f_equal.
  - unfold set_buffer, written. cbn zeta. f_equal.
    rewrite !(zdrop_0 0) by lia. rewrite !Z.sub_0_r.
    by rewrite zlen_zdrop, !Z.max_r by zlia.
  - zlia.
Qed.

(** Summary of [write] on the abstraction. *)
Lemma writer_write_view rb offset data :
  ring_wf rb -> 0 <= offset < usize_modulus ->
  exists rb', let n := xfer (zlen data) (zlen (space rb)) offset in
  writer_write rb offset data = Val (rb', n) /\ ring_wf rb' /\
  capacity rb' = capacity rb /\ contents rb' = contents rb /\
  space rb' = splice offset (Some <$> ztake n data) (space rb).
Proof.
  intros Hwf Hoff. cbn zeta. rewrite writer_write_ok by done.
  destruct (is_full rb) eqn:Hfull.
  - exists rb. assert (zlen (space rb) = 0) as E.
    { rewrite is_full_spec in Hfull by done. apply Z.eqb_eq in Hfull.
      rewrite zlen_space by done. lia. }
    rewrite E. assert (xfer (zlen data) 0 offset = 0) as -> by (unfold xfer; lia).
    rewrite ztake_0 by lia. cbn. by rewrite splice_nil by lia.
  - destruct (written_view rb offset data) as (? & ? & ?); [done|done|lia|].
    by exists (set_buffer rb (written rb offset data)).
Qed.

(** * Moving the two positions *)

(** A ring whose head moved forward by [n], or whose tail did. *)
Lemma collapse_shift c p n :
  0 < c -> 0 <= p < 2 * c -> 0 <= n <= c ->
  let q := if p + n <? 2 * c then p + n else p + n - 2 * c in
  0 <= q < 2 * c /\
  collapse c q = (if collapse c p + n <? c then collapse c p + n else collapse c p + n - c).
Proof.
  intros. unfold collapse.
  destruct (Z.ltb_spec (p + n) (2 * c)), (Z.ltb_spec p c); repeat zcase; lia.
Qed.

Lemma writer_advance_view rb offset :
  ring_wf rb -> 0 <= offset ->
  exists rb', let n := Z.min offset (zlen (space rb)) in
  writer_advance rb offset = Val (rb', n) /\ ring_wf rb' /\
  capacity rb' = capacity rb /\ contents rb' = contents rb ++ ztake n (space rb) /\
  space rb' = zdrop n (space rb).
Proof.
  intros Hwf Hoff. cbn zeta. rewrite zlen_space by done.
  pose proof (ready_len_nonneg rb Hwf) as Hn. destruct (Hwf) as [Hcap ? ? ? ?].
  set (n := Z.min offset (capacity rb - ready_len rb)) in *.
  unfold writer_advance. rewrite head_to_tail_ok by done. cbn [mbind res_bind]. fold n.
  rewrite increment_ok by (done || lia). cbn [mbind res_bind].
  set (h := if head rb + n <? 2 * capacity rb then _ else _).
  assert (ready_len (set_head rb h) = ready_len rb + n) as Hlen.
  { unfold ready_len, h in *. cbn. destruct (Z.leb_spec (tail rb) (head rb));
      destruct (Z.ltb_spec (head rb + n) (2 * capacity rb)); zcase; lia. }
  exists (set_head rb h). split; [done|]. split; [|split; [done|]].
  { constructor; cbn; try done; [|lia]. unfold h. zcase; lia. }
  unfold contents, space. rewrite Hlen. change (rotated (set_head rb h)) with (rotated rb). split.
  - rewrite <- (ztake_zdrop (ready_len rb) (rotated rb)) at 1.
    rewrite ztake_app_ge by (rewrite zlen_ztake, zlen_rotated by done; lia).
    rewrite zlen_ztake, zlen_rotated by done. do 2 f_equal. lia.
  - rewrite zdrop_zdrop by lia. done.
Qed.

Lemma reader_advance_view rb offset :
  ring_wf rb -> 0 <= offset ->
  exists rb', let n := Z.min offset (zlen (contents rb)) in
  reader_advance rb offset = Val (rb', n) /\ ring_wf rb' /\
  capacity rb' = capacity rb /\ contents rb' = zdrop n (contents rb) /\
  space rb' = space rb ++ ztake n (contents rb).
Proof.
  intros Hwf Hoff. cbn zeta. rewrite zlen_contents by done.
  pose proof (ready_len_nonneg rb Hwf) as Hn. destruct (Hwf) as [Hcap ? ? ? ?].
  set (n := Z.min offset (ready_len rb)) in *.
  unfold reader_advance. rewrite tail_to_head_ok by done. cbn [mbind res_bind]. fold n.
  rewrite increment_ok by (done || lia). cbn [mbind res_bind].
  set (t := if tail rb + n <? 2 * capacity rb then _ else _).
  assert (ready_len (set_tail rb t) = ready_len rb - n) as Hlen.
  { unfold ready_len, t in *. cbn. destruct (Z.leb_spec (tail rb) (head rb));
      destruct (Z.ltb_spec (tail rb + n) (2 * capacity rb)); zcase; lia. }
  exists (set_tail rb t). split; [done|].
  assert (ring_wf (set_tail rb t)) as Hwf'.
  { constructor; cbn; try done; [|lia]. unfold t. zcase; lia. }
  split; [done|]. split; [done|].
  destruct (collapse_shift (capacity rb) (tail rb) n) as [? Hcol]; [lia..|].
  fold t in Hcol. ring_shape_of Hwf.
  assert (rotated (set_tail rb t) = zdrop n (rotated rb) ++ ztake n (rotated rb)) as Hrot.
  { apply zlist_eq.
    - rewrite zlen_app, zlen_zdrop, zlen_ztake, !zlen_rotated by done. cbn. lia.
    - rewrite zlen_rotated by done. intros i Hi. cbn in Hi.
      rewrite zlookup_rotated, zlookup_app, zlen_zdrop, zlen_rotated by done.
      rewrite zlookup_zdrop, zlookup_ztake by lia. unfold phys at 1. cbn [capacity set_tail tail buffer].
      rewrite Hcol.
      destruct (Z.ltb_spec i (Z.max 0 (capacity rb - Z.max 0 n))).
      + rewrite zlookup_rotated by (done || lia). f_equal. unfold phys. cbn zeta. repeat zcase; lia.
      + destruct (Z.ltb_spec (i - Z.max 0 (capacity rb - Z.max 0 n)) n); [|lia].
        rewrite zlookup_rotated by (done || lia). f_equal. unfold phys. cbn zeta. repeat zcase; lia. }
  pose proof (zlen_contents rb Hwf) as Hlc. rewrite <- (contents_space rb) in Hrot.
  rewrite zdrop_app_le, ztake_app_le, <- app_assoc in Hrot by lia.
  assert (zlen (zdrop n (contents rb)) = ready_len rb - n) as Hl by zlia.
  unfold contents at 1, space at 1. rewrite Hlen, Hrot. split.
  - rewrite ztake_app_le by lia. apply ztake_ge. lia.
  - rewrite zdrop_app_ge by lia. apply zdrop_0. lia.
Qed.

(** * Reading *)

Lemma reader_slices_ok rb :
  ring_wf rb -> (collapse (capacity rb) (head rb) =? collapse (capacity rb) (tail rb)) &&
                (head rb =? tail rb) = false ->
  exists lhs rhs,
  reader_slices rb (collapse (capacity rb) (head rb)) (collapse (capacity rb) (tail rb)) =
  Val (lhs, rhs) /\ contents rb = lhs ++ rhs.
Proof.
  intros Hwf Hne. ring_shape_of Hwf. unfold reader_slices, contents, rotated.
  assert (collapse (capacity rb) (head rb) <> collapse (capacity rb) (tail rb) \/
          head rb <> tail rb) by (revert Hne; repeat zcase; cbn; lia || done).
  destruct (Z.ltb_spec (collapse (capacity rb) (tail rb)) (collapse (capacity rb) (head rb))).
  - rewrite slice_ok by lia. cbn. eexists _, _. split; [done|].
    rewrite app_nil_r, ztake_app_le by zlia. f_equal. lia.
  - rewrite !slice_ok by lia. cbn. eexists _, _. split; [done|].
    rewrite ztake_app_ge by zlia. rewrite (zdrop_0 0) by lia. f_equal.
    + symmetry. apply ztake_ge. zlia.
    + rewrite ztake_ztake. f_equal. zlia.
Qed.

(** Reading [len] bytes at [offset] of two adjacent slices. *)
Lemma split_read (lhs rhs : list cell) offset len :
  0 <= offset -> 0 <= len ->
  let n := xfer len (zlen lhs + zlen rhs) offset in
  let le := Z.min (zlen lhs) offset in
  let d1 := Z.min (zlen lhs - le) len in
  let re := Z.min (zlen rhs) (offset - le) in
  let d2 := Z.min (zlen rhs - re) (len - d1) in
  n = d1 + d2 /\
  ztake n (zdrop offset (lhs ++ rhs)) = ztake d1 (zdrop le lhs) ++ ztake d2 (zdrop re rhs).
Proof.
  intros Ho Hl n le d1 re d2. pose proof (zlen_nonneg lhs). pose proof (zlen_nonneg rhs).
  assert (n = d1 + d2) as Hn.
  { unfold n, xfer, d2, re, d1, le. clear n le d1 re d2.
    lia. }
  split; [done|]. rewrite zdrop_app, ztake_app, zlen_zdrop.
  assert (le = Z.min (zlen lhs) offset) as Hle by done.
  assert (d1 = Z.min (zlen lhs - le) len) as Hd1 by done.
  assert (re = Z.min (zlen rhs) (offset - le)) as Hre by done.
  assert (d2 = Z.min (zlen rhs - re) (len - d1)) as Hd2 by done.
  clearbody n le d1 re d2. destruct (Z.leb_spec (zlen lhs) offset).
  - rewrite (Z.min_l (zlen lhs)) in Hle by lia. subst le.
    rewrite !(zdrop_ge _ lhs) by lia. unfold ztake at 1 3. rewrite !take_nil. cbn [app].
    rewrite (zdrop_ext (offset - zlen lhs) re) by lia. apply ztake_ext. rewrite zlen_zdrop. lia.
  - rewrite (Z.min_r (zlen lhs)) in Hle by lia. subst le.
    rewrite (zdrop_0 (offset - zlen lhs)) by lia. rewrite (zdrop_0 re) by lia. f_equal.
    + apply ztake_ext. rewrite zlen_zdrop. lia.
    + apply ztake_ext. lia.
Qed.

Lemma init_bytes_app c1 c2 :
  init_bytes (c1 ++ c2) = (b1 ← init_bytes c1; b2 ← init_bytes c2; Val (b1 ++ b2)).
Proof.
  induction c1 as [|[x|] c1 IH]; cbn; [by destruct (init_bytes c2)| |done].
  rewrite IH. by destruct (init_bytes c1), (init_bytes c2).
Qed.
Lemma init_bytes_len cs bs : init_bytes cs = Val bs -> zlen bs = zlen cs.
Proof.
  revert bs. induction cs as [|[x|] cs IH]; intros bs; cbn; [by intros [= <-]| |done].
  destruct (init_bytes cs) as [xs|]; [|done]. intros [= <-]. by rewrite !zlen_cons, (IH xs).
Qed.

(** [read] copies the cells at [offset]; it fails when one was never written. *)
Lemma reader_read_eq rb offset data :
  ring_wf rb -> 0 <= offset < usize_modulus ->
  let n := xfer (zlen data) (zlen (contents rb)) offset in
  reader_read rb offset data =
  (bs ← init_bytes (ztake n (zdrop offset (contents rb))); Val (bs ++ zdrop n data, n)).
Proof.
  intros Hwf Hoff n. subst n. pose proof (zlen_nonneg data).
  unfold reader_read. destruct (Hwf) as [? Hbuf ? ? ?].
  rewrite !collapse_position_ok by done. cbn [mbind res_bind].
  destruct ((collapse (capacity rb) (head rb) =? collapse (capacity rb) (tail rb)) &&
            (head rb =? tail rb)) eqn:Hempty.
  { apply andb_true_iff in Hempty as [_ Hempty%Z.eqb_eq].
    assert (zlen (contents rb) = 0) as E.
    { rewrite zlen_contents by done. unfold ready_len. zcase; lia. }
    rewrite E. assert (xfer (zlen data) 0 offset = 0) as -> by (unfold xfer; lia).
    rewrite ztake_0 by lia. cbn. by rewrite zdrop_0 by lia. }
  destruct (reader_slices_ok rb Hwf Hempty) as (lhs & rhs & -> & Hc). cbn [mbind res_bind].
  pose proof (zlen_contents rb Hwf) as Hlc. ring_shape_of Hwf. rewrite Hc in *.
  autorewrite with zlen in *. zlen_facts.
  destruct (split_read lhs rhs offset (zlen data)) as [Hn Hsplit]; [lia..|].
  cbn zeta in Hn, Hsplit. clear Hshape Hempty. rewrite Hsplit, init_bytes_app. clear Hsplit.
  set (n := xfer (zlen data) (zlen lhs + zlen rhs) offset) in *.
  set (le := Z.min (zlen lhs) offset) in *.
  set (d1 := Z.min (zlen lhs - le) (zlen data)) in *.
  set (re := Z.min (zlen rhs) (offset - le)) in *.
  set (d2 := Z.min (zlen rhs - re) (zlen data - d1)) in *.
  assert (0 <= le <= zlen lhs /\ le <= offset /\ 0 <= d1 <= zlen data /\ d1 <= zlen lhs - le)
    as (? & ? & ? & ?) by lia.
  assert (0 <= re <= zlen rhs /\ 0 <= d2 <= zlen data - d1 /\ d2 <= zlen rhs - re)
    as (? & ? & ?) by lia.
  assert (n < usize_modulus) by lia. clearbody n.
  rewrite slice_from_ok by lia. cbn [mbind res_bind].
  rewrite usize_sub_ok by lia. cbn [mbind res_bind].
  rewrite zlen_zdrop, !Z.max_r by lia. fold d1.
  rewrite slice_ok by zlia. cbn [mbind res_bind]. rewrite Z.sub_0_r, (zdrop_0 0) by lia.
  destruct (init_bytes (ztake d1 _)) as [b1|] eqn:Hb1; [|done]. apply init_bytes_len in Hb1.
  rewrite zlen_sub in Hb1 by lia. cbn [mbind res_bind].
  rewrite slice_from_ok by lia. cbn [mbind res_bind].
  rewrite slice_from_ok by lia. cbn [mbind res_bind].
  rewrite !zlen_zdrop, !(Z.max_r 0) by lia. fold re d2.
  rewrite slice_ok by zlia. cbn [mbind res_bind]. rewrite Z.sub_0_r, (zdrop_0 0) by lia.
  destruct (init_bytes (ztake d2 _)) as [b2|] eqn:Hb2; [|done]. apply init_bytes_len in Hb2.
  rewrite zlen_sub in Hb2 by lia. cbn [mbind res_bind].
  rewrite usize_add_ok by lia. cbn [mbind res_bind]. rewrite <- Hn.
  unfold splice. rewrite ztake_0 by lia. cbn. rewrite zdrop_zdrop by lia.
  rewrite <- app_assoc. do 5 f_equal. lia.
Qed.

Lemma reader_read_view rb offset data bs :
  ring_wf rb -> 0 <= offset < usize_modulus ->
  let n := xfer (zlen data) (zlen (contents rb)) offset in
  ztake n (zdrop offset (contents rb)) = Some <$> bs ->
  reader_read rb offset data = Val (bs ++ zdrop n data, n).
Proof.
  intros Hwf Hoff n Hbs. rewrite reader_read_eq by done. fold n.
  by rewrite (init_bytes_ok _ bs).
Qed.

(** * A fresh ring *)

Lemma ring_new_view c :
  0 < c <= isize_max ->
  exists rb, RingBuffer_new c = Val rb /\ ring_wf rb /\ capacity rb = c /\
    contents rb = [] /\ zlen (space rb) = c.
Proof.
  intros Hc. unfold RingBuffer_new.
  rewrite (proj2 (Z.eqb_neq c 0)), (proj2 (Z.leb_le c _)) by lia. cbn.
  set (rb := mkRingBuffer _ _ _ _). exists rb.
  assert (ring_wf rb) as Hwf.
  { constructor; cbn; try lia. unfold zlen. rewrite length_replicate. lia. }
  split_and!; [done|done|done| |by rewrite zlen_space by done; cbn; lia].
  apply zlen_zero_nil. by rewrite zlen_contents.
Qed.

(** * Properties *)

Lemma ring_exec_view o rb :
  ring_wf rb -> ring_op_ok o ->
  match ring_exec o rb with
  | Val (rb', buf, n) => queue_exec o (view rb) = Val (view rb', buf, n) /\ ring_wf rb' /\
      capacity rb' = capacity rb
  | Fault e => queue_exec o (view rb) = Fault e
  end.
Proof.
  intros Hwf Hok. destruct o as [off data|n|off buf|n| |]; cbn in Hok; cbn [ring_exec queue_exec view].
  - destruct (writer_write_view rb off data) as (rb' & -> & Hwf' & Hcap & Hc & Hs); [done|done|].
    cbn. unfold view. by rewrite Hc, Hs.
  - destruct (writer_advance_view rb n) as (rb' & -> & Hwf' & Hcap & Hc & Hs); [done|lia|].
    cbn. unfold view. by rewrite Hc, Hs.
  - rewrite reader_read_eq by done. cbn zeta. by destruct (init_bytes _).
  - destruct (reader_advance_view rb n) as (rb' & -> & Hwf' & Hcap & Hc & Hs); [done|lia|].
    cbn. unfold view. by rewrite Hc, Hs.
  - unfold write_available. rewrite head_to_tail_ok, <- zlen_space by done. done.
  - unfold read_available. rewrite tail_to_head_ok, <- zlen_contents by done. done.
Qed.

(** C11. The ring implements a bounded byte queue: any sequence of calls on its
    two handles gives the results, and the errors, of the queue it stands for,
    whatever the positions of the head and the tail in the buffer. *)
Theorem ring_refines_queue ops rb :
  ring_wf rb -> Forall ring_op_ok ops ->
  ('(rb', outs) ← run_ops ring_exec ops rb; Val (view rb', outs)) =
  run_ops queue_exec ops (view rb).
Proof.
  revert rb. induction ops as [|o ops IH]; intros rb Hwf Hok; [done|].
  apply Forall_cons in Hok as [Ho Hok]. cbn [run_ops]. pose proof (ring_exec_view o rb Hwf Ho) as He.
  destruct (ring_exec o rb) as [[[rb' buf] n]|e]; [|by rewrite He].
  destruct He as (-> & Hwf' & _). cbn [mbind res_bind]. specialize (IH rb' Hwf' Hok).
  rewrite <- IH. by destruct (run_ops ring_exec ops rb') as [[rb'' outs]|].
Qed.

Lemma ring_refines_queue_witness :
  ('(rb', outs) ← run_ops ring_exec [RbWrite 0 [1; 2; 3; 4]; RbCommit 2; RbRead 1 [0; 0]; RbConsume 1;
       RbWrite 1 [5]; RbCommit 9; RbRead 0 [0; 0; 0]] (mkRingBuffer [None; None; None] 3 2 2);
   Val (view rb', outs)) =
  Val (mkQueue [Some 2; Some 3; Some 5] [],
       [([], 3); ([], 2); ([2; 0], 1); ([], 1); ([], 1); ([], 2); ([2; 3; 5], 3)]).
Proof.
  etransitivity; [apply ring_refines_queue|vm_compute; reflexivity].
  - constructor; vm_compute; repeat split; discriminate || reflexivity.
  - repeat constructor; cbn; lia.
Defined.

(** C13. Availability: the two counts never overflow, are between zero and the
    capacity, and add up to it, after any sequence of calls on a new ring. *)
Theorem ring_available_sum capacity ops rb rb' outs :
  0 < capacity <= isize_max -> RingBuffer_new capacity = Val rb -> Forall ring_op_ok ops ->
  run_ops ring_exec ops rb = Val (rb', outs) ->
  exists r w, read_available rb' = Val r /\ write_available rb' = Val w /\
    0 <= r <= capacity /\ 0 <= w <= capacity /\ r + w = capacity.
Proof.
  intros Hc Hnew. destruct (ring_new_view capacity Hc) as (rb0 & Hnew' & Hwf & <- & _).
  rewrite Hnew in Hnew'. injection Hnew' as <-. clear Hnew Hc. revert rb rb' outs Hwf.
  induction ops as [|o ops IH]; intros rb rb' outs Hwf Hok Hrun.
  - injection Hrun as <- <-. unfold read_available, write_available.
    rewrite tail_to_head_ok, head_to_tail_ok by done. pose proof (ready_len_nonneg rb Hwf).
    eexists _, _. split_and!; done || lia.
  - apply Forall_cons in Hok as [Ho Hok]. cbn [run_ops] in Hrun.
    pose proof (ring_exec_view o rb Hwf Ho) as He.
    destruct (ring_exec o rb) as [[[rb1 buf] n]|]; [|done]. destruct He as (_ & Hwf1 & <-).
    cbn [mbind res_bind] in Hrun. destruct (run_ops ring_exec ops rb1) as [[rb2 outs2]|] eqn:E; [|done].
    injection Hrun as <- <-. by eapply IH.
Qed.

Lemma ring_available_sum_witness :
  exists rb rb' outs, RingBuffer_new 3 = Val rb /\
    run_ops ring_exec [RbWrite 0 [1; 2]; RbCommit 2] rb = Val (rb', outs) /\
    exists r w, read_available rb' = Val r /\ write_available rb' = Val w /\ r + w = 3.
Proof.
  eexists _, _, _. split; [reflexivity|]. split; [reflexivity|].
  edestruct (ring_available_sum 3 [RbWrite 0 [1; 2]; RbCommit 2]) as (r & w & Hr & Hw & _ & _ & Hs);
    [unfold isize_max; lia|reflexivity|repeat constructor; cbn; lia|reflexivity|].
  exists r, w. split; [exact Hr|split; [exact Hw|exact Hs]].
Defined.
