(* ===== verification/Segments.v ===== *)
(** Sorted lists of disjoint ranges and the binary search the windows run on
    them. Ranges are given on unbounded positions here; a window stores their
    wrapped images. *)

From S2P Require Import Prelude StreamPos.

(** * [slice::binary_search_by] *)

(** [Result<usize, usize>] *)
Inductive search :=
| Found (i : Z)
| Missing (i : Z).

(** The loop of the standard library: [mid = left + size / 2], and the half that
    can still hold the key. The comparator may fault, and is called only on the
    elements the loop probes. *)
Fixpoint search_loop {A} (fuel : nat) (f : A -> res comparison) (l : list A)
    (lo hi : Z) : res search :=
  match fuel with
  | O => Fault OutOfFuel
  | S fuel =>
    if lo <? hi then
      let mid := lo + (hi - lo) / 2 in
      x ← index l mid;
      c ← f x;
      match c with
      | Lt => search_loop fuel f l (mid + 1) hi
      | Gt => search_loop fuel f l lo mid
      | Eq => Val (Found mid)
      end
    else Val (Missing lo)
  end.

Definition binary_search_by {A} (f : A -> res comparison) (l : list A) : res search :=
  search_loop (S (length l)) f l 0 (zlen l).

(** * Ranges *)

Abbreviation range := (Z * Z)%type (only parsing).

Definition wrap_range (r : range) : StreamPos * StreamPos := (wrap r.1, wrap r.2).

(** Non-empty ranges in increasing order inside [lo, hi], at least [gap] apart. *)
Fixpoint segs (gap lo hi : Z) (rs : list range) : Prop :=
  match rs with
  | [] => lo <= hi
  | r :: rs => lo <= r.1 /\ r.1 < r.2 /\ r.2 <= hi /\
      match rs with [] => True | _ => segs gap (r.2 + gap) hi rs end
  end.

(** The positions the ranges cover. *)
Definition covered (rs : list range) (p : Z) : Prop :=
  Exists (fun r => r.1 <= p < r.2) rs.

(** * Lemmas *)

Section search.
Context {A : Type} (f : A -> res comparison).

Lemma binary_search_one x :
  binary_search_by f [x] =
  (c ← f x; Val (match c with Eq => Found 0 | Lt => Missing 1 | Gt => Missing 0 end)).
Proof.
  change (index [x] 0 ≫= (fun y => c ← f y; match c with Eq => Val (Found 0) | Lt => Val (Missing 1)
    | Gt => Val (Missing 0) end) = (c ← f x; Val (match c with Eq => Found 0 | Lt => Missing 1 | Gt => Missing 0 end))).
  change (index [x] 0) with (Val x). cbn. by destruct (f x) as [[]|].
Qed.

Lemma search_loop_terminates l lo hi fuel :
  (forall x, f x <> Fault OutOfFuel) -> 0 <= lo <= hi -> hi <= zlen l ->
  hi - lo < Z.of_nat fuel -> search_loop fuel f l lo hi <> Fault OutOfFuel.
Proof.
  intros Hf. revert lo hi. induction fuel as [|fuel IH]; intros lo hi ???.
  { lia. }
  cbn. destruct (Z.ltb_spec lo hi); [|done].
  pose proof (Z.div_pos (hi - lo) 2). pose proof (Z.div_lt (hi - lo) 2).
  destruct (zlookup_is_Some (lo + (hi - lo) / 2) l) as [x Hx]; [lia|].
  rewrite (index_ok _ _ x) by done. cbn.
  destruct (f x) as [[]|] eqn:E; cbn; [done|apply IH; lia..|].
  intros [= ->]. by apply (Hf x).
Qed.

(** A list the comparator splits into [Lt], at most one [Eq], and [Gt]. *)
Lemma search_loop_split l1 l2 c lo hi fuel :
  let p := zlen l1 in
  Forall (fun x => f x = Val Lt) l1 ->
  match l2 with
  | [] => c = Gt
  | x :: l2' => f x = Val c /\ c <> Lt /\ Forall (fun x => f x = Val Gt) l2'
  end ->
  0 <= lo <= p -> p <= hi <= p + zlen l2 -> (c = Eq -> p < hi) ->  hi - lo < Z.of_nat fuel ->
  search_loop fuel f (l1 ++ l2) lo hi = Val (if c is Eq then Found p else Missing p).
Proof.
  intros p Hl1 Hl2. revert lo hi. induction fuel as [|fuel IH]; intros lo hi ?? Hc ?; [lia|].
  cbn. destruct (Z.ltb_spec lo hi) as [Hlt|Hge].
  2: { assert (lo = p) as -> by lia. destruct c; [|done..].
       specialize (Hc eq_refl). lia. }
  pose proof (Z.div_pos (hi - lo) 2). pose proof (Z.div_lt (hi - lo) 2).
  set (mid := lo + (hi - lo) / 2) in *. assert (lo <= mid < hi) as Hmid by lia.
  destruct (zlookup_is_Some mid (l1 ++ l2)) as [x Hx]; [rewrite zlen_app; lia|].
  rewrite (index_ok _ _ x) by done. cbn. rewrite zlookup_app in Hx. fold p in Hx.
  destruct (Z.ltb_spec mid p).
  - assert (f x = Val Lt) as ->.
    { rewrite Forall_forall in Hl1. apply Hl1. unfold zlookup in Hx.
      destruct (0 <=? mid); [|done]. by eapply list_elem_of_lookup_2. }
    cbn. apply IH; first [done | lia | intros _; lia].
  - destruct l2 as [|y l2'].
    { apply zlookup_Some_lt in Hx. unfold zlen in Hx. cbn in Hx. lia. }
    destruct Hl2 as (Hy & ? & Hrest). destruct (Z.eqb_spec mid p) as [Em|].
    + rewrite Em, Z.sub_diag in Hx. injection Hx as ->. rewrite Hy. cbn.
      destruct c; [by rewrite Em|done|]. apply IH; done || lia.
    + assert (f x = Val Gt) as ->.
      { rewrite Forall_forall in Hrest. apply Hrest. unfold zlookup in Hx.
        rewrite (proj2 (Z.leb_le _ _)) in Hx by lia.
        destruct (Z.to_nat (mid - p)) eqn:En; [lia|]. by eapply list_elem_of_lookup_2. }
      cbn. apply IH; first [done | lia | intros _; lia].
Qed.

Lemma binary_search_split l1 l2 c :
  Forall (fun x => f x = Val Lt) l1 ->
  match l2 with
  | [] => c = Gt
  | x :: l2' => f x = Val c /\ c <> Lt /\ Forall (fun x => f x = Val Gt) l2'
  end ->
  binary_search_by f (l1 ++ l2) = Val (if c is Eq then Found (zlen l1) else Missing (zlen l1)).
Proof.
  intros H1 H2. unfold binary_search_by. apply search_loop_split; try done; zlen_facts.
  - lia.
  - rewrite zlen_app. lia.
  - intros ->. destruct l2; [done|]. rewrite zlen_app, zlen_cons. zlen_facts. lia.
  - unfold zlen. lia.
Qed.
End search.

(** Search by a key: with strictly increasing keys, the answer is the boundary
    between the keys below [k] and the others. *)
Lemma split_by_key (key : range -> Z) k rs :
  exists l1 l2, rs = l1 ++ l2 /\ Forall (fun r => key r < k) l1 /\
    match l2 with [] => True | r :: _ => k <= key r end.
Proof.
  induction rs as [|r rs (l1 & l2 & -> & H1 & H2)]; [by exists [], []|].
  destruct (decide (key r < k)).
  - exists (r :: l1), l2. by repeat constructor.
  - exists [], (r :: l1 ++ l2). repeat constructor. lia.
Qed.

Section segs.
Context (gap : Z) (Hgap : 0 <= gap).
Implicit Types rs : list range.

Lemma segs_cons lo hi r rs :
  segs gap lo hi (r :: rs) <->
  lo <= r.1 /\ r.1 < r.2 /\ r.2 <= hi /\ (rs = [] \/ segs gap (r.2 + gap) hi rs).
Proof. cbn. destruct rs; firstorder congruence. Qed.

Lemma segs_le lo hi rs : segs gap lo hi rs -> lo <= hi.
Proof. destruct rs as [|r rs]; [done|]. rewrite segs_cons. lia. Qed.

Lemma segs_weaken lo lo' hi hi' rs :
  lo' <= lo -> hi <= hi' -> segs gap lo hi rs -> segs gap lo' hi' rs.
Proof.
  intros Hlo Hhi. revert lo lo' Hlo. induction rs as [|r rs IH]; intros lo lo' Hlo.
  { cbn. lia. }
  rewrite !segs_cons. intros (?&?&?&[->|?]); split_and!; try lia; [by left|].
  right. by eapply IH.
Qed.

Lemma segs_Forall lo hi rs :
  segs gap lo hi rs -> Forall (fun r => lo <= r.1 /\ r.1 < r.2 /\ r.2 <= hi) rs.
Proof.
  revert lo. induction rs as [|r rs IH]; intros lo; [constructor|].
  rewrite segs_cons. intros (?&?&?&Hrs). constructor; [lia|].
  destruct Hrs as [->|Hrs]; [constructor|].
  eapply Forall_impl; [by apply IH|]. cbn. lia.
Qed.

(** Splitting around an element. *)
Lemma segs_app lo hi l1 r l2 :
  segs gap lo hi (l1 ++ r :: l2) <->
  (match l1 with [] => lo <= r.1 | _ => segs gap lo (r.1 - gap) l1 end) /\
  r.1 < r.2 /\ r.2 <= hi /\ (l2 = [] \/ segs gap (r.2 + gap) hi l2) /\ lo <= r.1.
Proof.
  revert lo. induction l1 as [|q l1 IH]; intros lo.
  { cbn [app]. rewrite segs_cons. firstorder. }
  cbn [app]. rewrite !segs_cons. split.
  - intros (?&?&?&[Hn|Hs]); [by destruct l1|].
    apply IH in Hs as (Hl1&?&?&?&?). split_and!; try done; try lia.
    destruct l1; [by left|by right].
  - intros ((?&?&?&Hl1)&?&?&?&?). split_and!; try lia. right. apply IH.
    split_and!; try done; [|destruct Hl1 as [->|Hs]; [lia|apply segs_le in Hs; lia]].
    destruct l1; [lia|]. by destruct Hl1.
Qed.

Lemma segs_snoc lo hi rs a b :
  segs gap lo a rs -> a + gap <= b -> b < hi -> segs gap lo hi (rs ++ [(b, hi)]).
Proof.
  intros Hs ??. apply segs_app. pose proof (segs_le _ _ _ Hs).
  split_and!; cbn; [|lia|lia|by left|lia].
  destruct rs; [lia|]. eapply segs_weaken; [..|exact Hs]; lia.
Qed.

Lemma segs_suffix lo hi l1 l2 : segs gap lo hi (l1 ++ l2) -> segs gap lo hi l2.
Proof.
  revert lo. induction l1 as [|q l1 IH]; intros lo; [done|]. cbn [app]. rewrite segs_cons.
  intros (?&?&?&[Hn|Hs]).
  - apply app_nil in Hn as [_ ->]. cbn. lia.
  - apply IH in Hs. eapply segs_weaken; [..|exact Hs]; lia.
Qed.

Lemma segs_prefix lo hi l1 l2 : segs gap lo hi (l1 ++ l2) -> segs gap lo hi l1.
Proof.
  revert lo. induction l1 as [|q l1 IH]; intros lo.
  { intros ?%segs_le. done. }
  cbn [app]. rewrite !segs_cons. intros (?&?&?&[Hn|Hs]); split_and!; try lia.
  - left. by apply app_nil in Hn as [-> _].
  - right. by apply IH.
Qed.
Lemma segs_length lo hi rs : segs gap lo hi rs -> zlen rs <= hi - lo.
Proof.
  revert lo. induction rs as [|r rs IH]; intros lo; [cbn; rewrite zlen_nil; lia|].
  rewrite segs_cons, zlen_cons. intros (?&?&?&[->|Hs]); [rewrite zlen_nil; lia|].
  apply IH in Hs. lia.
Qed.

(** The outer bounds can be replaced by any others the ranges respect. *)
Lemma segs_hi lo hi hi' rs :
  segs gap lo hi rs -> Forall (fun r => r.2 <= hi') rs -> lo <= hi' -> segs gap lo hi' rs.
Proof.
  revert lo. induction rs as [|r rs IH]; intros lo Hs HF Hle; [done|].
  apply Forall_cons in HF as [? HF]. apply segs_cons in Hs as (?&?&?&Hrs). apply segs_cons.
  split_and!; try lia. destruct rs as [|q rs]; [by left|]. right.
  destruct Hrs as [|Hrs]; [done|]. apply IH; try done.
  apply Forall_cons in HF as [? _]. apply segs_cons in Hrs. lia.
Qed.
Lemma segs_lo lo lo' hi rs :
  segs gap lo hi rs -> Forall (fun r => lo' <= r.1) rs -> lo' <= hi -> segs gap lo' hi rs.
Proof.
  destruct rs as [|r rs]; [done|]. intros Hs HF Hle. apply Forall_cons in HF as [? _].
  apply segs_cons in Hs. apply segs_cons. intuition lia.
Qed.

Lemma segs_drop lo hi l1 r l2 : segs gap lo hi (l1 ++ r :: l2) -> segs gap lo hi (l1 ++ l2).
Proof.
  revert lo. induction l1 as [|q l1 IH]; intros lo; cbn [app]; rewrite !segs_cons.
  - intros (?&?&?&[->|Hs]); [cbn; lia|]. eapply segs_weaken; [..|exact Hs]; lia.
  - intros (?&?&?&[Hn|Hs]); [by destruct l1|]. split_and!; try lia. right. by apply IH.
Qed.

Lemma segs_last lo hi l1 r l2 q :
  segs gap lo hi (l1 ++ r :: l2) -> last (l1 ++ r :: l2) = Some q -> r.2 <= q.2 <= hi.
Proof.
  intros Hs Hq. apply segs_app in Hs as (_&?&?&Hl2&_).
  rewrite last_app_cons in Hq. destruct l2 as [|r' l2]; [injection Hq as <-; lia|].
  destruct Hl2 as [|Hl2]; [done|]. apply segs_Forall in Hl2. rewrite Forall_forall in Hl2.
  specialize (Hl2 q). rewrite last_cons_cons in Hq. apply last_Some_elem_of in Hq.
  specialize (Hl2 Hq). lia.
Qed.
(** Every range lies between the start of the first and the end of the last. *)
Lemma segs_extent lo hi r rs z q :
  segs gap lo hi (r :: rs) -> last (r :: rs) = Some z -> q ∈ r :: rs -> r.1 <= q.1 /\ q.2 <= z.2.
Proof.
  intros Hs Hl Hq. split.
  - apply segs_cons in Hs as (?&?&?&Hrs). apply elem_of_cons in Hq as [->|Hq]; [lia|].
    destruct Hrs as [->|Hrs]; [by apply not_elem_of_nil in Hq|].
    apply segs_Forall in Hrs. rewrite Forall_forall in Hrs. specialize (Hrs q Hq). lia.
  - apply list_elem_of_split in Hq as (l1 & l2 & Heq). rewrite Heq in *.
    by apply (segs_last lo hi l1 q l2).
Qed.
End segs.

Lemma segs_keys_below gap lo hi l1 r l2 :
  0 <= gap -> segs gap lo hi (l1 ++ r :: l2) -> Forall (fun q => q.1 < r.1 /\ q.2 + gap <= r.1) l1.
Proof.
  intros Hgap Hs. apply segs_app in Hs as (Hl1 & _); [|done]. destruct l1 as [|q l1]; [constructor|].
  apply segs_Forall in Hl1; [|done]. eapply Forall_impl; [exact Hl1|]. cbn. lia.
Qed.

(** The comparators of the two windows, evaluated on wrapped ranges. *)
Lemma binary_search_wrapped (key : range -> Z) (f : StreamPos * StreamPos -> res comparison) k l1 l2 :
  (forall r, f (wrap_range r) = unwrap (stream_cmp (wrap (key r)) (wrap k))) ->
  Forall (fun r => key r < k /\ k - key r < u32_half) l1 ->
  match l2 with
  | [] => True
  | r :: l2' => 0 <= key r - k < u32_half /\
                Forall (fun r => k < key r /\ key r - k < u32_half) l2'
  end ->
  binary_search_by f (wrap_range <$> (l1 ++ l2)) =
  Val (if match l2 with [] => false | r :: _ => key r =? k end
       then Found (zlen l1) else Missing (zlen l1)).
Proof.
  intros Hf H1 H2. rewrite fmap_app.
  assert (zlen l1 = zlen (wrap_range <$> l1)) as -> by (unfold zlen; by rewrite length_fmap).
  erewrite (binary_search_split f _ _ (match l2 with [] => Gt | r :: _ => key r ?= k end)).
  - destruct l2 as [|r l2]; [done|]. destruct (Z.eqb_spec (key r) k) as [->|].
    + by rewrite Z.compare_refl.
    + destruct H2 as [? _]. destruct (Z.compare_spec (key r) k); [lia|lia|done].
  - apply Forall_fmap. eapply Forall_impl; [exact H1|]. intros r [??]. cbn.
    rewrite Hf, stream_cmp_wrap by lia. cbn. f_equal. apply Z.compare_lt_iff. lia.
  - destruct l2 as [|r l2]; [done|]. destruct H2 as [? H2]. cbn. split_and!.
    + rewrite Hf, stream_cmp_wrap by lia. done.
    + destruct (Z.compare_spec (key r) k); [done|lia|done].
    + apply Forall_fmap. eapply Forall_impl; [exact H2|]. intros q [??]. cbn.
      rewrite Hf, stream_cmp_wrap by lia. cbn. f_equal. apply Z.compare_gt_iff. lia.
Qed.

(** The ranges are told apart by their starts. *)
Lemma segs_starts_inj gap lo hi rs r q :
  0 <= gap -> segs gap lo hi rs -> r ∈ rs -> q ∈ rs -> q.1 = r.1 -> q = r.
Proof.
  intros Hgap Hs Hr Hq Heq. apply list_elem_of_split in Hr as (l1 & l2 & ->).
  pose proof (segs_keys_below _ _ _ _ _ _ Hgap Hs) as Hb. rewrite Forall_forall in Hb.
  apply elem_of_app in Hq as [Hq|Hq]; [specialize (Hb q Hq); lia|].
  apply elem_of_cons in Hq as [->|Hq]; [done|]. apply segs_suffix in Hs; [|done].
  apply segs_cons in Hs as (_ & ? & _ & [->|Hs]); [by apply not_elem_of_nil in Hq|].
  apply segs_Forall in Hs; [|done]. rewrite Forall_forall in Hs. specialize (Hs q Hq). lia.
Qed.

Lemma segs_starts_ne gap lo hi l1 r l2 :
  0 <= gap -> segs gap lo hi (l1 ++ r :: l2) -> Forall (fun q => q.1 <> r.1) (l1 ++ l2).
Proof.
  intros Hgap Hs. pose proof (segs_keys_below _ _ _ _ _ _ Hgap Hs) as Hb.
  apply segs_suffix in Hs; [|done]. apply segs_cons in Hs as (_ & ? & _ & Hs).
  apply Forall_app. split; [eapply Forall_impl; [exact Hb|]; cbn; lia|].
  destruct Hs as [->|Hs]; [constructor|]. apply segs_Forall in Hs; [|done].
  eapply Forall_impl; [exact Hs|]. cbn. lia.
Qed.
