(* ===== verification/SendWindow.v ===== *)
(** The send window of windows.rs: [SendWindow] and its [SendWindowWriter]. The
    two handles share one ring; the model keeps the ring in the window's record,
    and the writer's operations act on that record. The invariant relates a
    window to the stream of all bytes ever written through its writer. *)

From S2P Require Import Prelude StreamPos RingBuffer Segments.

(** * Data *)

Inductive AckResult :=
| NotFound
| Ack
| PartialAck (nacked_end : StreamPos).

Record SendWindow := mkSendWindow {
  sw_ring : RingBuffer;
  send_pos : StreamPos;
  sent : Z;
  unacked_ranges : list (StreamPos * StreamPos);
}.

(** * Operations *)

Definition SendWindow_new (capacity : Z) (stream_start : StreamPos) : res SendWindow :=
  _ ← assert (capacity <=? u32_max / 2);
  rb ← RingBuffer_new capacity;
  Val (mkSendWindow rb stream_start 0 []).

(** [SendWindowWriter::write] *)
Definition SendWindowWriter_write (w : SendWindow) (data : list Z) : res (SendWindow * Z) :=
  '(rb, len) ← writer_write (sw_ring w) 0 data;
  '(rb, _) ← writer_advance rb len;
  Val (mkSendWindow rb (send_pos w) (sent w) (unacked_ranges w), as_u32 len).

(** [SendWindowWriter::write_available] and [SendWindow::write_available] *)
Definition SendWindow_write_available (w : SendWindow) : res Z :=
  n ← write_available (sw_ring w); Val (as_u32 n).

Definition send_available (w : SendWindow) : res Z :=
  n ← read_available (sw_ring w); u32_sub (as_u32 n) (sent w).

(** [SendWindow::send]: the new window, the new contents of the caller's buffer,
    and the range that was sent. *)
Definition SendWindow_send (w : SendWindow) (data : list Z)
    : res (SendWindow * list Z * option (StreamPos * StreamPos)) :=
  avail ← read_available (sw_ring w);
  unsent ← usize_sub avail (sent w);
  let send_amt := as_u32 (Z.min unsent (zlen data)) in
  if send_amt =? 0 then Val (w, data, None)
  else
    dst ← slice data 0 send_amt;
    '(dst, n) ← reader_read (sw_ring w) (sent w) dst;
    _ ← assert (n =? send_amt);
    let start := send_pos w in
    let end_ := wadd start send_amt in
    sent' ← u32_add (sent w) send_amt;
    Val (mkSendWindow (sw_ring w) end_ sent' (unacked_ranges w ++ [(start, end_)]),
         splice 0 dst data, Some (start, end_)).

Definition unacked_start (w : SendWindow) : StreamPos := wsub (send_pos w) (sent w).

Definition get_unacked (w : SendWindow) (start : StreamPos) (data : list Z) : res (list Z) :=
  let buf_start := wsub start (unacked_start w) in
  '(data', n) ← reader_read (sw_ring w) buf_start data;
  _ ← assert (n =? zlen data);
  Val data'.

(** Consume [n] bytes of the ring and of the sent count. *)
Definition release (w : SendWindow) (n : Z) (rs : list (StreamPos * StreamPos))
    : res SendWindow :=
  '(rb, _) ← reader_advance (sw_ring w) n;
  sent' ← u32_sub (sent w) n;
  Val (mkSendWindow rb (send_pos w) sent' rs).

(** The [Ok(i)] arm of [ack_range]: the ack starts where range [i] starts. *)
Definition ack_at (w : SendWindow) (start end_ : StreamPos) (i : Z)
    : res (SendWindow * AckResult) :=
  r ← index (unacked_ranges w) i;
  if stream_gt end_ r.2 then Val (w, NotFound)
  else
    let us := unacked_start w in
    if end_ =? r.2 then
      rs ← vec_remove (unacked_ranges w) i;
      w ← (if start =? us then
             _ ← assert (i =? 0);
             match rs with
             | [] =>
               '(rb, _) ← reader_advance (sw_ring w) (sent w);
               Val (mkSendWindow rb (send_pos w) 0 rs)
             | next :: _ => release w (wsub next.1 start) rs
             end
           else Val (mkSendWindow (sw_ring w) (send_pos w) (sent w) rs));
      Val (w, Ack)
    else
      w ← (if start =? us then
             _ ← assert (i =? 0);
             release w (wsub end_ start) (unacked_ranges w)
           else Val w);
      rs ← set_index (unacked_ranges w) i (end_, r.2);
      Val (mkSendWindow (sw_ring w) (send_pos w) (sent w) rs, PartialAck r.2).

Definition ack_range (w : SendWindow) (start end_ : StreamPos) : res (SendWindow * AckResult) :=
  match unacked_ranges w with
  | [] => Val (w, NotFound)
  | first :: _ =>
    if negb (stream_lt start end_) then Val (w, NotFound)
    else
      last ← unwrap (last (unacked_ranges w));
      if negb (stream_ge start first.1) || negb (stream_le end_ last.2)
      then Val (w, NotFound)
      else
        found ← binary_search_by (fun r => unwrap (stream_cmp r.1 start)) (unacked_ranges w);
        match found with
        | Found i => ack_at w start end_ i
        | Missing _ => Val (w, NotFound)
        end
  end.

(** * The invariant *)

(** The first byte still retained: the start of the first unacked range, or the
    send position when everything sent was acked. *)
Definition retained_from (S : Z) (rs : list range) : Z :=
  match rs with [] => S | r :: _ => r.1 end.

(** [sw_rep base W S rs w]: the window [w] has been given the bytes [W], the
    first of them at the unbounded position [base]; the bytes before [S] were
    sent, and exactly the ranges [rs] of them are unacked. *)
Record sw_rep (base : Z) (W : list Z) (S : Z) (rs : list range) (w : SendWindow) : Prop := {
  sw_wf : ring_wf (sw_ring w);
  sw_cap : capacity (sw_ring w) < u32_half;
  sw_segs : segs 0 base S rs;
  sw_end : S <= base + zlen W;
  sw_send_pos : send_pos w = wrap S;
  sw_sent : sent w = S - retained_from S rs;
  sw_ranges : unacked_ranges w = wrap_range <$> rs;
  sw_contents : contents (sw_ring w) = Some <$> zdrop (retained_from S rs - base) W;
}.

(** What is left of the ranges when the prefix up to [e] of [(a, b)] is acked. *)
Definition acked (l1 l2 : list range) (b e : Z) : list range :=
  l1 ++ (if e =? b then l2 else (e, b) :: l2).

(** A use of the two handles: any interleaving of writes, sends into buffers of
    any size, and acks of any range. *)
Inductive sw_op :=
| OpWrite (data : list Z)
| OpSend (len : nat)
| OpAck (start end_ : StreamPos).

(** Runs operations; collects the bytes accepted and the bytes sent. *)
Fixpoint sw_run (w : SendWindow) (ops : list sw_op) : res (SendWindow * list Z * list Z) :=
  match ops with
  | [] => Val (w, [], [])
  | OpWrite data :: ops =>
    '(w, n) ← SendWindowWriter_write w data;
    '(w, W, out) ← sw_run w ops; Val (w, ztake n data ++ W, out)
  | OpSend len :: ops =>
    '(w, data, r) ← SendWindow_send w (replicate len 0);
    '(w, W, out) ← sw_run w ops;
    Val (w, W, match r with Some (s, e) => ztake (wsub e s) data | None => [] end ++ out)
  | OpAck start end_ :: ops =>
    '(w, _) ← ack_range w start end_; sw_run w ops
  end.

Definition sw_op_ok (op : sw_op) : Prop :=
  match op with
  | OpWrite data => True
  | OpSend len => Z.of_nat len < usize_modulus
  | OpAck start end_ => is_pos start /\ is_pos end_
  end.

(** * Consequences of the invariant *)

Lemma retained_le lo S rs r : segs 0 lo S rs -> r ∈ rs -> retained_from S rs <= r.1.
Proof.
  intros Hs Hr. destruct rs as [|q rs]; [by apply not_elem_of_nil in Hr|]. cbn [retained_from].
  destruct (last (q :: rs)) as [z|] eqn:Hl; [|by apply last_None in Hl].
  by apply (segs_extent 0 ltac:(lia) _ _ _ _ _ _ Hs Hl Hr).
Qed.

Section rep.
Context (base : Z) (W : list Z) (S : Z) (rs : list range) (w : SendWindow).
Context (Hrep : sw_rep base W S rs w).

Lemma retained_bounds : base <= retained_from S rs <= S.
Proof.
  pose proof (sw_segs _ _ _ _ _ Hrep) as Hs. pose proof (segs_le 0 base S rs Hs).
  destruct rs as [|r rs']; cbn in *; lia.
Qed.

Lemma sw_contents_len :
  zlen (contents (sw_ring w)) = base + zlen W - retained_from S rs /\
  base + zlen W - retained_from S rs <= capacity (sw_ring w) < u32_half.
Proof.
  pose proof retained_bounds. destruct Hrep as [Hwf ? ? ? ? ? ? Hc].
  pose proof (zlen_contents _ Hwf). pose proof (ready_len_nonneg _ Hwf).
  apply (f_equal zlen) in Hc. rewrite zlen_fmap, zlen_zdrop in Hc. lia.
Qed.

Lemma read_available_rep :
  read_available (sw_ring w) = Val (base + zlen W - retained_from S rs).
Proof.
  destruct sw_contents_len as [Hl _]. destruct Hrep as [Hwf ? ? ? ? ? ? ?].
  unfold read_available. rewrite tail_to_head_ok by done. by rewrite <- zlen_contents, Hl.
Qed.

Lemma unacked_start_rep : unacked_start w = wrap (retained_from S rs).
Proof.
  destruct Hrep as [? ? ? ? Hp Hs ? ?]. unfold unacked_start.
  rewrite Hp, Hs, wsub_wrap_l. f_equal. lia.
Qed.

Lemma send_available_rep : send_available w = Val (base + zlen W - S).
Proof.
  destruct sw_contents_len as [Hl Hc]. pose proof retained_bounds. unfold send_available.
  rewrite read_available_rep. cbn [mbind res_bind]. pose proof (sw_sent _ _ _ _ _ Hrep) as ->.
  pose proof (sw_end _ _ _ _ _ Hrep).
  unfold as_u32. rewrite wrap_id by (unfold is_pos; lia). rewrite u32_sub_ok by lia. f_equal. lia.
Qed.

Lemma write_available_rep : exists n, SendWindow_write_available w = Val n /\ 0 <= n < u32_half.
Proof.
  destruct sw_contents_len as [Hl Hc]. destruct Hrep as [Hwf ? ? ? ? ? ? ?].
  unfold SendWindow_write_available, write_available. rewrite head_to_tail_ok by done.
  pose proof (ready_len_nonneg _ Hwf). cbn. unfold as_u32.
  rewrite wrap_id by (unfold is_pos; lia). eexists. split; [done|lia].
Qed.

(** Two ranges of the list start at different stream positions. *)
Lemma sw_starts_inj r q : r ∈ rs -> q ∈ rs -> wrap q.1 = wrap r.1 -> q = r.
Proof.
  intros Hr Hq Heq. pose proof (sw_segs _ _ _ _ _ Hrep) as Hs. pose proof sw_contents_len.
  pose proof (sw_end _ _ _ _ _ Hrep).
  pose proof (retained_le _ _ _ _ Hs Hr). pose proof (retained_le _ _ _ _ Hs Hq).
  pose proof (segs_Forall 0 ltac:(lia) _ _ _ Hs) as HF. rewrite Forall_forall in HF.
  pose proof (HF r Hr). pose proof (HF q Hq).
  assert (q.1 = r.1) as E by (apply wrap_inj; [lia|done]).
  apply (segs_starts_inj 0 base S rs); [lia|done..].
Qed.

(** Reading the retained bytes at stream position [p]. *)
Lemma read_retained p data :
  retained_from S rs <= p -> p + zlen data <= base + zlen W ->
  reader_read (sw_ring w) (p - retained_from S rs) data =
  Val (ztake (zlen data) (zdrop (p - base) W), zlen data).
Proof.
  intros Hp Hlen. pose proof retained_bounds. destruct sw_contents_len as [Hl ?]. zlen_facts.
  assert (xfer (zlen data) (zlen (contents (sw_ring w))) (p - retained_from S rs) = zlen data)
    as Hx by (unfold xfer; lia).
  pose proof (reader_read_view (sw_ring w) (p - retained_from S rs) data
    (ztake (zlen data) (zdrop (p - base) W))) as Hr. cbn zeta in Hr. rewrite Hx in Hr.
  rewrite Hr.
  - by rewrite (zdrop_ge (zlen data) data), app_nil_r by lia.
  - by destruct Hrep.
  - lia.
  - rewrite (sw_contents _ _ _ _ _ Hrep), fmap_Some_zdrop, fmap_Some_ztake, zdrop_zdrop by lia.
    do 3 f_equal. lia.
Qed.
End rep.

(** * Writing and sending *)

Lemma SendWindow_new_rep capacity base :
  0 < capacity < u32_half ->
  exists w, SendWindow_new capacity (wrap base) = Val w /\ sw_rep base [] base [] w /\
    RingBuffer.capacity (sw_ring w) = capacity.
Proof.
  intros Hc. unfold SendWindow_new.
  change (u32_max / 2) with 2147483647. rewrite (proj2 (Z.leb_le capacity 2147483647)) by lia. cbn [assert mbind res_bind].
  destruct (ring_new_view capacity) as (rb & -> & Hwf & Hcap & Hcon & _); [unfold isize_max; lia|].
  eexists. split; [done|]. split; [|done].
  constructor; cbn; try done; try lia; [rewrite zlen_nil; lia|].
  by rewrite Hcon, Z.sub_diag.
Qed.

Lemma SendWindowWriter_write_rep base W S rs w data :
  sw_rep base W S rs w ->
  let n := Z.min (zlen data) (capacity (sw_ring w) - (base + zlen W - retained_from S rs)) in
  exists w', SendWindowWriter_write w data = Val (w', n) /\
    sw_rep base (W ++ ztake n data) S rs w' /\
    capacity (sw_ring w') = capacity (sw_ring w) /\ unacked_ranges w' = unacked_ranges w.
Proof.
  intros Hrep. cbn zeta. pose proof (sw_contents_len _ _ _ _ _ Hrep) as [Hl ?].
  pose proof (retained_bounds _ _ _ _ _ Hrep). destruct (Hrep) as [Hwf ? ? ? ? ? ? Hc]. zlen_facts.
  pose proof (zlen_contents _ Hwf). pose proof (zlen_space _ Hwf) as Hsp.
  set (n := Z.min _ _). unfold SendWindowWriter_write.
  destruct (writer_write_view (sw_ring w) 0 data) as (rb1 & Hw & Hwf1 & Hcap1 & Hc1 & Hs1); [done|lia|].
  assert (xfer (zlen data) (zlen (space (sw_ring w))) 0 = n) as Hx by (unfold xfer, n; lia).
  cbn zeta in *. rewrite Hx in *. rewrite Hw. cbn [mbind res_bind].
  assert (0 <= n <= zlen data /\ n <= zlen (space (sw_ring w))) as [??] by (unfold n; lia).
  assert (zlen (Some <$> ztake n data) = n) as Hn by (rewrite zlen_fmap, zlen_ztake; lia).
  destruct (writer_advance_view rb1 n) as (rb2 & Ha & Hwf2 & Hcap2 & Hc2 & Hs2); [done|lia|].
  cbn zeta in *. rewrite Hs1, zlen_splice, Z.min_l in * by lia. rewrite Ha. cbn [mbind res_bind].
  exists (mkSendWindow rb2 (send_pos w) (sent w) (unacked_ranges w)).
  split; [|split; [|by rewrite <- Hcap1, <- Hcap2]].
  - unfold as_u32. rewrite wrap_id; [done|]. unfold is_pos. lia.
  - constructor; cbn; try done; try congruence.
    + rewrite zlen_app, zlen_ztake. lia.
    + rewrite Hc2, Hc1, Hc. unfold splice. rewrite (ztake_0 0) by lia. cbn [app].
      rewrite ztake_app_le, (ztake_ge n) by lia.
      rewrite <- fmap_app. f_equal. by rewrite zdrop_app_le by lia.
Qed.

Lemma SendWindow_send_rep base W S rs w data :
  sw_rep base W S rs w -> zlen data < usize_modulus ->
  let n := Z.min (base + zlen W - S) (zlen data) in
  exists w', SendWindow_send w data =
    Val (w', ztake n (zdrop (S - base) W) ++ zdrop n data,
         if n =? 0 then None else Some (wrap S, wrap (S + n))) /\
    sw_rep base W (S + n) (if n =? 0 then rs else rs ++ [(S, S + n)]) w' /\
    capacity (sw_ring w') = capacity (sw_ring w) /\
    unacked_ranges w' = (if n =? 0 then unacked_ranges w
                         else unacked_ranges w ++ [(wrap S, wrap (S + n))]).
Proof.
  intros Hrep Hlen. cbn zeta. pose proof (sw_contents_len _ _ _ _ _ Hrep) as [Hl ?].
  pose proof (retained_bounds _ _ _ _ _ Hrep) as Hret.
  pose proof (read_available_rep _ _ _ _ _ Hrep) as Hav.
  destruct (Hrep) as [Hwf ? Hsegs Hend Hpos Hsent Hr Hc]. zlen_facts.
  set (n := Z.min _ _). assert (0 <= n <= zlen data) by (unfold n; lia).
  unfold SendWindow_send. rewrite Hav. cbn [mbind res_bind].
  rewrite usize_sub_ok by lia. cbn [mbind res_bind].
  replace (base + zlen W - retained_from S rs - sent w) with (base + zlen W - S) by lia.
  fold n. unfold as_u32. rewrite (wrap_id n) by (unfold is_pos; lia).
  destruct (Z.eqb_spec n 0) as [->|Hn0].
  { exists w. rewrite ztake_0, zdrop_0, Z.add_0_r by lia. done. }
  rewrite slice_ok by lia. cbn [mbind res_bind]. rewrite Z.sub_0_r, zdrop_0 by lia.
  rewrite Hsent. rewrite (read_retained _ _ _ _ _ Hrep S) by (rewrite ?zlen_ztake; lia).
  cbn [mbind res_bind]. rewrite zlen_ztake, Z.max_r, Z.min_l by lia.
  rewrite Z.eqb_refl. cbn [assert mbind res_bind].
  rewrite u32_add_ok by lia. cbn [mbind res_bind]. rewrite Hpos, wadd_wrap.
  exists (mkSendWindow (sw_ring w) (wrap (S + n)) (S - retained_from S rs + n)
    (unacked_ranges w ++ [(wrap S, wrap (S + n))])).
  split; [|split; [|done]].
  - unfold splice. rewrite ztake_0 by lia. cbn [app].
    rewrite zlen_sub, Z.add_0_l by lia. done.
  - constructor; cbn; try done; try lia.
    + apply segs_snoc with (a := S); [lia|done|lia|lia].
    + destruct rs; cbn in *; lia.
    + by rewrite Hr, fmap_app.
    + rewrite Hc. destruct rs; done.
Qed.

Lemma get_unacked_rep base W S rs w p data :
  sw_rep base W S rs w -> retained_from S rs <= p -> p + zlen data <= base + zlen W ->
  get_unacked w (wrap p) data = Val (ztake (zlen data) (zdrop (p - base) W)).
Proof.
  intros Hrep Hp Hlen. pose proof (sw_contents_len _ _ _ _ _ Hrep) as [Hl ?].
  zlen_facts. unfold get_unacked.
  rewrite (unacked_start_rep _ _ _ _ _ Hrep), wsub_dist by lia.
  rewrite (read_retained _ _ _ _ _ Hrep) by done. cbn [mbind res_bind].
  by rewrite Z.eqb_refl.
Qed.

(** * Acknowledgement *)

Lemma advance_contents rb base W R n :
  ring_wf rb -> contents rb = Some <$> zdrop (R - base) W -> base <= R -> 0 <= n ->
  R + n <= base + zlen W ->
  exists rb' m, reader_advance rb n = Val (rb', m) /\ ring_wf rb' /\ capacity rb' = capacity rb /\
    contents rb' = Some <$> zdrop (R + n - base) W.
Proof.
  intros Hwf Hc ???. destruct (reader_advance_view rb n) as (rb' & Ha & ? & ? & Hc' & _); [done|done|].
  cbn zeta in *. eexists rb', _. split_and!; [done..|].
  rewrite Hc'. rewrite Z.min_l by (rewrite Hc, zlen_fmap, zlen_zdrop; lia).
  rewrite Hc, fmap_Some_zdrop, zdrop_zdrop by lia. do 2 f_equal. lia.
Qed.

(** The bounds every range of a window satisfies. *)
Lemma rep_range_bounds base W S l1 r l2 w :
  sw_rep base W S (l1 ++ r :: l2) w ->
  let R := retained_from S (l1 ++ r :: l2) in
  base <= R /\ R <= r.1 /\ r.1 < r.2 /\ r.2 <= S /\ S <= base + zlen W /\ S - R < u32_half /\
  (r.1 = R <-> l1 = []).
Proof.
  intros Hrep. cbn zeta. pose proof (sw_contents_len _ _ _ _ _ Hrep).
  pose proof (retained_bounds _ _ _ _ _ Hrep). pose proof (sw_end _ _ _ _ _ Hrep).
  pose proof (sw_segs _ _ _ _ _ Hrep) as Hs. pose proof Hs as Hs'.
  apply segs_app in Hs as (Hl1 & ? & ? & ? & _); [|lia].
  destruct l1 as [|q l1]; cbn in *; [split_and!; done || lia|].
  assert (q.1 < r.1) by (destruct l1; [lia|]; destruct Hl1 as (?&?&?&Hl1); lia).
  split_and!; try lia. split; [lia|done].
Qed.

(** What [release] leaves when the retained bytes now start [n] bytes later. *)
Lemma release_rep base W S rs w n raw :
  sw_rep base W S rs w -> 0 <= n -> retained_from S rs + n <= S ->
  exists rb', release w n raw = Val (mkSendWindow rb' (send_pos w) (sent w - n) raw) /\
    capacity rb' = capacity (sw_ring w) /\
    forall rs', segs 0 base S rs' -> retained_from S rs' = retained_from S rs + n ->
      sw_rep base W S rs' (mkSendWindow rb' (send_pos w) (sent w - n) (wrap_range <$> rs')).
Proof.
  intros Hrep Hn HS. pose proof (retained_bounds _ _ _ _ _ Hrep).
  pose proof (sw_contents_len _ _ _ _ _ Hrep). destruct Hrep as [Hwf Hcap ? ? ? Hsent ? Hc].
  destruct (advance_contents (sw_ring w) base W (retained_from S rs) n)
    as (rb' & m & Ha & Hwf' & Hcap' & Hc'); [done|done|lia..|].
  exists rb'. unfold release. rewrite Ha. cbn [mbind res_bind].
  rewrite u32_sub_ok by lia. cbn [mbind res_bind]. split; [done|]. split; [done|].
  intros rs' Hs' HR. constructor; cbn; try done; [by rewrite Hcap'|lia|by rewrite HR].
Qed.

(** Changing the ranges without moving the first retained byte. *)
Lemma rep_ranges base W S rs rs' w :
  sw_rep base W S rs w -> segs 0 base S rs' -> retained_from S rs' = retained_from S rs ->
  sw_rep base W S rs' (mkSendWindow (sw_ring w) (send_pos w) (sent w) (wrap_range <$> rs')).
Proof. intros [] ? HR. constructor; cbn; try done; congruence. Qed.

Lemma segs_acked base S l1 a b l2 e :
  segs 0 base S (l1 ++ (a, b) :: l2) -> a < e <= b -> segs 0 base S (acked l1 l2 b e).
Proof.
  intros Hs He. unfold acked. destruct (Z.eqb_spec e b) as [->|].
  - apply segs_drop in Hs; [done|lia].
  - apply segs_app in Hs as (Hl1 & ? & ? & Hl2 & ?); [|lia]. cbn [fst snd] in *.
    apply segs_app; [lia|]. cbn [fst snd]. split_and!; try done; try lia.
    destruct l1; [lia|]. eapply (segs_weaken 0); [..|exact Hl1]; lia.
Qed.

Lemma ack_at_rep base W S l1 a b l2 w e :
  sw_rep base W S (l1 ++ (a, b) :: l2) w -> a < e <= b ->
  exists w', ack_at w (wrap a) (wrap e) (zlen l1) =
    Val (w', if e =? b then Ack else PartialAck (wrap b)) /\
    sw_rep base W S (acked l1 l2 b e) w' /\ capacity (sw_ring w') = capacity (sw_ring w).
Proof.
  intros Hrep He. pose proof (rep_range_bounds _ _ _ _ _ _ _ Hrep) as (?&?&?&?&?&?&Hfirst).
  pose proof (segs_acked _ _ _ _ _ _ e (sw_segs _ _ _ _ _ Hrep) He) as Hsegs'.
  cbn [fst snd] in *. unfold ack_at.
  rewrite (unacked_start_rep _ _ _ _ _ Hrep).
  destruct (Hrep) as [Hwf Hcap Hsegs Hend Hpos Hsent Hr Hc]. rewrite Hr, fmap_app, fmap_cons.
  assert (zlen l1 = zlen (wrap_range <$> l1)) as Hlen by (symmetry; apply zlen_fmap).
  rewrite Hlen, index_mid, vec_remove_mid. cbn [mbind res_bind wrap_range fst snd]. rewrite <- Hlen.
  set (R := retained_from S (l1 ++ (a, b) :: l2)) in *.
  rewrite stream_gt_wrap, (wrap_eqb e b), (proj2 (Z.ltb_ge b e)), (wrap_eqb a R) by lia.
  unfold acked in *. destruct (Z.eqb_spec e b) as [->|Heb], (Z.eqb_spec a R) as [HaR|HaR].
  - assert (l1 = []) as -> by (apply Hfirst; done). cbn [fmap list_fmap app] in *.
    change (zlen (@nil range) =? 0) with true. cbn [assert mbind res_bind]. destruct l2 as [|next l2].
    + destruct (advance_contents (sw_ring w) base W a (sent w))
        as (rb' & m & Ha & Hwf' & Hcap' & Hc'); [done|done|cbn in *; lia..|].
      cbn [fmap list_fmap]. rewrite Ha. cbn [mbind res_bind].
      eexists. split; [done|]. split; [|done]. constructor; cbn; try done; [by rewrite Hcap'|lia|].
      rewrite Hc'. do 2 f_equal. lia.
    + cbn [fmap list_fmap wrap_range fst]. pose proof (segs_Forall 0 ltac:(lia) _ _ _ Hsegs') as HF.
      apply Forall_cons in HF as [? _]. apply segs_cons in Hsegs as (_ & _ & _ & [|Hn]); [done|].
      apply segs_cons in Hn. cbn [snd] in Hn. rewrite wsub_dist by lia.
      destruct (release_rep _ _ _ _ _ (next.1 - a) (wrap_range <$> next :: l2) Hrep)
        as (rb' & Hrel & Hcap' & Hnew); [lia|cbn; lia|].
      cbn [fmap list_fmap wrap_range] in Hrel. rewrite Hrel. cbn [mbind res_bind].
      eexists. split; [done|]. split; [|done]. apply (Hnew (next :: l2)); [done|]. cbn. lia.
  - cbn [mbind res_bind]. eexists. split; [done|]. split; [|done]. rewrite <- fmap_app.
    apply (rep_ranges _ _ _ _ _ _ Hrep Hsegs').
    destruct l1; [cbn in *; lia|done].
  - assert (l1 = []) as -> by (apply Hfirst; done). cbn [fmap list_fmap app] in *.
    change (zlen (@nil range) =? 0) with true. cbn [assert mbind res_bind]. rewrite wsub_dist by lia.
    destruct (release_rep _ _ _ _ _ (e - a) (wrap_range (a, b) :: (wrap_range <$> l2)) Hrep)
      as (rb' & Hrel & Hcap' & Hnew); [lia|cbn; lia|].
    cbn [wrap_range fst snd] in Hrel. rewrite Hrel. cbn [mbind res_bind].
    pose proof (set_index_mid [] (wrap_range (a, b)) (wrap e, wrap b) (wrap_range <$> l2)) as Hset.
    cbn [app] in Hset. cbn [unacked_ranges]. rewrite Hset. cbn [mbind res_bind].
    eexists. split; [done|]. split; [|done]. apply (Hnew ((e, b) :: l2)); [done|]. cbn. lia.
  - cbn [mbind res_bind]. rewrite Hr, fmap_app, fmap_cons, Hlen, set_index_mid. cbn [mbind res_bind].
    eexists. split; [done|]. split; [|done].
    pose proof (rep_ranges _ _ _ _ _ _ Hrep Hsegs') as Hnew.
    rewrite fmap_app, fmap_cons in Hnew. apply Hnew. destruct l1; [cbn in *; lia|done].
Qed.

(** The search sees only comparable positions, and finds the boundary between
    the ranges that start before [x] and the others. *)
Lemma ack_search base W S q l1 l2 w x :
  sw_rep base W S (l1 ++ l2) w -> (l1 ++ l2) !! 0%nat = Some q -> 0 <= x - q.1 < u32_half ->
  Forall (fun r => r.1 < x) l1 -> match l2 with [] => True | r :: _ => x <= r.1 end ->
  binary_search_by (fun r => unwrap (stream_cmp r.1 (wrap x))) (unacked_ranges w) =
  Val (if match l2 with [] => false | r :: _ => r.1 =? x end
       then Found (zlen l1) else Missing (zlen l1)).
Proof.
  intros Hrep Hq Hx Hl1 Hl2. pose proof (sw_contents_len _ _ _ _ _ Hrep) as [_ ?].
  pose proof (sw_end _ _ _ _ _ Hrep). pose proof (sw_segs _ _ _ _ _ Hrep) as Hs.
  rewrite (sw_ranges _ _ _ _ _ Hrep).
  assert (Forall (fun r => q.1 <= r.1 <= S /\ S - q.1 < u32_half) (l1 ++ l2)) as HF.
  { destruct (l1 ++ l2) as [|q' rs]; [done|]. injection Hq as ->. cbn [retained_from] in *.
    apply segs_cons in Hs as (?&?&?&Hrs). constructor; [lia|].
    destruct Hrs as [->|Hrs]; [constructor|]. apply segs_Forall in Hrs; [|lia].
    eapply Forall_impl; [exact Hrs|]. cbn. lia. }
  apply Forall_app in HF as [HF1 HF2].
  apply (binary_search_wrapped fst); [done|..].
  - eapply Forall_impl; [apply Forall_and; split; [exact Hl1|exact HF1]|]. cbn. lia.
  - destruct l2 as [|r l2]; [done|]. apply Forall_cons in HF2 as [? HF2]. split; [lia|].
    apply segs_app in Hs as (_ & ? & ? & Hn & _); [|lia]. destruct Hn as [->|Hn]; [constructor|].
    apply segs_Forall in Hn; [|lia].
    eapply Forall_impl; [apply Forall_and; split; [exact Hn|exact HF2]|]. cbn. lia.
Qed.

Lemma sw_last base W S q rs w :
  sw_rep base W S (q :: rs) w ->
  exists z, last (unacked_ranges w) = Some (wrap_range z) /\ last (q :: rs) = Some z /\
    q.1 < z.2 <= S.
Proof.
  intros Hrep. rewrite (sw_ranges _ _ _ _ _ Hrep), fmap_last.
  pose proof (sw_segs _ _ _ _ _ Hrep) as Hs. destruct (last (q :: rs)) as [z|] eqn:Hl.
  - exists z. split_and!; [done|done|..]; pose proof (segs_last 0 ltac:(lia) _ _ [] q rs z Hs Hl);
      apply segs_cons in Hs; lia.
  - by apply last_None in Hl.
Qed.

(** An ack whose range starts where an unacked range starts, and ends inside it. *)
Lemma ack_range_match base W S l1 a b l2 w e :
  sw_rep base W S (l1 ++ (a, b) :: l2) w -> a < e <= b ->
  ack_range w (wrap a) (wrap e) = ack_at w (wrap a) (wrap e) (zlen l1).
Proof.
  intros Hrep He.
  pose proof (rep_range_bounds _ _ _ _ _ _ _ Hrep) as (?&?&?&?&?&?&_). cbn [fst snd] in *.
  assert (Forall (fun r => r.1 < a) l1) as Hl1.
  { eapply Forall_impl; [exact (segs_keys_below _ _ _ _ _ _ ltac:(done) (sw_segs _ _ _ _ _ Hrep))|].
    cbn. lia. }
  assert (exists q rs, l1 ++ (a, b) :: l2 = q :: rs) as (q & rs & Hq) by (destruct l1; by eexists _, _).
  pose proof (fun z => segs_last 0 ltac:(lia) _ _ l1 (a, b) l2 z (sw_segs _ _ _ _ _ Hrep)) as Hz.
  unfold ack_range. rewrite (ack_search _ _ _ q _ _ _ _ Hrep); try done; [..|by rewrite Hq|]; cycle 1.
  { rewrite Hq in *. cbn [retained_from] in *. lia. }
  rewrite Hq in *. cbn [retained_from] in *.
  destruct (sw_last _ _ _ _ _ _ Hrep) as (z & -> & Hlast & ?). specialize (Hz z Hlast). cbn in Hz.
  rewrite (sw_ranges _ _ _ _ _ Hrep), fmap_cons. cbn [fst snd wrap_range].
  rewrite stream_lt_wrap, (proj2 (Z.ltb_lt a e)) by lia.
  cbn [negb unwrap mbind res_bind wrap_range fst snd]. rewrite stream_ge_wrap, stream_le_wrap by lia.
  rewrite (proj2 (Z.leb_le q.1 a)), (proj2 (Z.leb_le e z.2)) by lia. cbn [negb orb].
  by rewrite Z.eqb_refl.
Qed.

(** Every other ack is refused, and nothing changes. *)
Lemma ack_range_other base W S rs w start end_ :
  sw_rep base W S rs w -> is_pos start -> is_pos end_ ->
  ack_range w start end_ = Val (w, NotFound) \/
  exists l1 a b l2 e, rs = l1 ++ (a, b) :: l2 /\ a < e <= b /\ start = wrap a /\ end_ = wrap e.
Proof.
  intros Hrep Hstart Hend. destruct rs as [|q rs].
  { left. unfold ack_range. by rewrite (sw_ranges _ _ _ _ _ Hrep). }
  destruct (sw_last _ _ _ _ _ _ Hrep) as (z & Hl & Hlast & ?).
  pose proof (sw_contents_len _ _ _ _ _ Hrep) as [_ ?]. cbn [retained_from] in *.
  destruct (wrap_surj start (q.1 - u32_half) Hstart) as (x & <- & Hx).
  destruct (wrap_surj end_ x Hend) as (e & <- & He).
  destruct (split_by_key fst x (q :: rs)) as (l1 & l2 & Heq & Hl1 & Hl2).
  pose proof (ack_search base W S q l1 l2 w x) as Hsearch. rewrite <- Heq in Hsearch.
  unfold ack_range. rewrite Hl.
  assert (unacked_ranges w = wrap_range q :: (wrap_range <$> rs)) as Hr
    by apply (sw_ranges _ _ _ _ _ Hrep).
  rewrite Hr at 1. rewrite stream_lt_dist by lia.
  destruct (Z.ltb_spec 0 (e - x)), (Z.ltb_spec (e - x) u32_half); cbn [andb negb]; try by left.
  cbn [unwrap mbind res_bind fst snd wrap_range]. rewrite stream_ge_dist by lia.
  destruct (Z.leb_spec q.1 x); cbn [negb orb]; [|by left].
  destruct (stream_le (wrap e) (wrap z.2)); cbn [negb]; [|by left].
  rewrite Hsearch by (done || lia). cbn [mbind res_bind].
  destruct l2 as [|[a b] l2]; [by left|]. cbn [fst] in *.
  destruct (Z.eqb_spec a x) as [->|]; [|by left]. rewrite Heq in Hrep.
  pose proof (rep_range_bounds _ _ _ _ _ _ _ Hrep) as (?&?&?&?&?&Hspan&_).
  rewrite <- Heq in Hspan. cbn [fst snd retained_from] in *.
  destruct (Z.leb_spec e b).
  - right. exists l1, x, b, l2, e. split_and!; done || lia.
  - left. unfold ack_at. rewrite (sw_ranges _ _ _ _ _ Hrep), fmap_app, fmap_cons.
    assert (zlen l1 = zlen (wrap_range <$> l1)) as -> by (symmetry; apply zlen_fmap).
    rewrite index_mid. cbn [mbind res_bind wrap_range snd].
    by rewrite stream_gt_wrap, (proj2 (Z.ltb_lt b e)) by lia.
Qed.

(** * Properties *)

Lemma covered_acked base S l1 a b l2 e p :
  segs 0 base S (l1 ++ (a, b) :: l2) -> a < e <= b ->
  covered (acked l1 l2 b e) p <-> covered (l1 ++ (a, b) :: l2) p /\ ~ (a <= p < e).
Proof.
  intros Hs He. pose proof (segs_keys_below _ _ _ _ _ _ ltac:(done) Hs) as Hl1.
  assert (Forall (fun r => b <= r.1) l2) as Hl2.
  { apply segs_app in Hs as (_&_&_&[->|Hl2]&_); [constructor|apply segs_Forall in Hl2; [|lia]|lia].
    eapply Forall_impl; [exact Hl2|]. cbn. lia. }
  assert (covered l1 p -> p < a) as H1.
  { intros Hc. apply Exists_exists in Hc as (r & Hr & ?). rewrite Forall_forall in Hl1.
    specialize (Hl1 r Hr). cbn in Hl1. lia. }
  assert (covered l2 p -> b <= p) as H2.
  { intros Hc. apply Exists_exists in Hc as (r & Hr & ?). rewrite Forall_forall in Hl2.
    specialize (Hl2 r Hr). lia. }
  unfold acked. destruct (Z.eqb_spec e b); unfold covered in *;
    rewrite !Exists_app, !Exists_cons; cbn [fst snd] in *.
  - split; [|intuition lia]. intros [H|H]; [specialize (H1 H)|specialize (H2 H)]; intuition lia.
  - split; [|intuition lia].
    intros [H|[H|H]]; [specialize (H1 H)| |specialize (H2 H)]; intuition lia.
Qed.

(** A window that was given three bytes and sent two. *)
Definition example_window : SendWindow :=
  mkSendWindow (mkRingBuffer [Some 7; Some 8; Some 9; None] 4 3 0) 1 2 [(4294967295, 1)].

Lemma example_window_rep : sw_rep 4294967295 [7; 8; 9] 4294967297 [(4294967295, 4294967297)] example_window.
Proof. constructor; vm_compute; repeat split; discriminate || reflexivity. Qed.

(** C10. [ack_range], on any two positions a remote can send: either the pair is
    a non-empty prefix of an unacked range, and then exactly those bytes stop
    being unacked, the answer is [Ack] for a whole range and [PartialAck] with
    the end of the rest otherwise, and the space before the first byte still
    unacked is freed; or it is not, and the window is unchanged. It never
    panics. *)
Theorem ack_range_correct base W S rs w start end_ :
  sw_rep base W S rs w -> is_pos start -> is_pos end_ ->
  (exists l1 a b l2 e w', rs = l1 ++ (a, b) :: l2 /\ a < e <= b /\
     start = wrap a /\ end_ = wrap e /\
     ack_range w start end_ = Val (w', if e =? b then Ack else PartialAck (wrap b)) /\
     sw_rep base W S (acked l1 l2 b e) w' /\
     (forall p, covered (acked l1 l2 b e) p <-> covered rs p /\ ~ (a <= p < e))) \/
  (ack_range w start end_ = Val (w, NotFound) /\
   forall l1 a b l2 e, rs = l1 ++ (a, b) :: l2 -> a < e <= b ->
     start = wrap a -> end_ = wrap e -> False).
Proof.
  intros Hrep Hs He.
  assert (forall l1 a b l2 e, rs = l1 ++ (a, b) :: l2 -> a < e <= b -> exists w',
    ack_range w (wrap a) (wrap e) = Val (w', if e =? b then Ack else PartialAck (wrap b)) /\
    sw_rep base W S (acked l1 l2 b e) w') as Hmatch.
  { intros l1 a b l2 e -> Hab. destruct (ack_at_rep _ _ _ _ _ _ _ _ e Hrep Hab) as (w' & Hat & Hr & _).
    exists w'. split; [|done]. by rewrite (ack_range_match _ _ _ _ _ _ _ _ _ Hrep Hab). }
  destruct (ack_range_other _ _ _ _ _ start end_ Hrep Hs He)
    as [Hno|(l1 & a & b & l2 & e & Hrs & Hab & -> & ->)].
  - right. split; [done|]. intros l1 a b l2 e Hrs Hab -> ->.
    destruct (Hmatch _ _ _ _ _ Hrs Hab) as (w' & Heq & _). rewrite Hno in Heq.
    by destruct (e =? b).
  - left. destruct (Hmatch _ _ _ _ _ Hrs Hab) as (w' & Heq & Hr).
    exists l1, a, b, l2, e, w'. split_and!; try done; [lia..|]. intros p. subst rs.
    apply (covered_acked base S); [apply (sw_segs _ _ _ _ _ Hrep)|done].
Qed.

Lemma ack_range_correct_witness : exists w',
  ack_range example_window 4294967295 0 = Val (w', PartialAck 1) /\
  sw_rep 4294967295 [7; 8; 9] 4294967297 [(4294967296, 4294967297)] w'.
Proof.
  destruct (ack_range_correct _ _ _ _ _ 4294967295 0 example_window_rep)
    as [(l1 & a & b & l2 & e & w' & Hrs & He & _ & Hend & Heq & Hrep & _)|[H _]];
    [vm_compute; repeat split; discriminate || reflexivity
    |vm_compute; repeat split; discriminate || reflexivity| |vm_compute in H; discriminate].
  destruct l1 as [|q [|q' l1]]; cbn in Hrs; simplify_eq.
  assert (e = 4294967296) as ->.
  { change 0 with (wrap 4294967296) in Hend. apply wrap_inj in Hend; lia. }
  exists w'. split; [exact Heq|exact Hrep].
Defined.

(** [send] hands out the next unsent bytes of the stream, as many as fit the
    caller's buffer, at the current send position, and records the range as
    unacked; with nothing to send, or an empty buffer, it changes nothing. *)
Theorem send_correct base W S rs w data :
  sw_rep base W S rs w -> zlen data < usize_modulus ->
  let n := Z.min (base + zlen W - S) (zlen data) in
  exists w', SendWindow_send w data =
    Val (w', ztake n (zdrop (S - base) W) ++ zdrop n data,
         if n =? 0 then None else Some (wrap S, wrap (S + n))) /\
    sw_rep base W (S + n) (if n =? 0 then rs else rs ++ [(S, S + n)]) w' /\
    (n = 0 -> w' = w).
Proof.
  intros Hrep Hlen. cbn zeta. set (n := Z.min _ _).
  destruct (SendWindow_send_rep _ _ _ _ _ data Hrep Hlen) as (w' & Hs & Hr & _). fold n in Hs, Hr.
  exists w'. split; [done|]. split; [done|]. intros Hn. rewrite Hn in Hs.
  unfold SendWindow_send in Hs. rewrite (read_available_rep _ _ _ _ _ Hrep) in Hs.
  pose proof (sw_contents_len _ _ _ _ _ Hrep). pose proof (retained_bounds _ _ _ _ _ Hrep).
  pose proof (sw_end _ _ _ _ _ Hrep). pose proof (sw_sent _ _ _ _ _ Hrep).
  cbn [mbind res_bind] in Hs. rewrite usize_sub_ok in Hs by lia. cbn [mbind res_bind] in Hs.
  replace (Z.min (base + zlen W - retained_from S rs - sent w) (zlen data)) with n in Hs
    by (unfold n; lia).
  rewrite Hn in Hs. by injection Hs.
Qed.

Lemma send_correct_witness : exists w',
  SendWindow_send example_window [0; 0; 0] = Val (w', [9; 0; 0], Some (1, 2)).
Proof.
  destruct (send_correct _ _ _ _ _ [0; 0; 0] example_window_rep) as (w' & H & _);
    [vm_compute; reflexivity|].
  exists w'. exact H.
Defined.

(** Retransmission: the bytes [get_unacked] copies out for any range of
    retained positions are the bytes that were written at those positions. *)
Theorem get_unacked_correct base W S rs w a b data :
  sw_rep base W S rs w -> (a, b) ∈ rs -> zlen data = b - a ->
  get_unacked w (wrap a) data = Val (ztake (b - a) (zdrop (a - base) W)).
Proof.
  intros Hrep Hin Hlen. apply list_elem_of_split in Hin as (l1 & l2 & ->).
  pose proof (rep_range_bounds _ _ _ _ _ _ _ Hrep) as (?&?&?&?&?&?&_). cbn [fst snd] in *.
  rewrite <- Hlen. apply (get_unacked_rep _ _ _ _ _ _ _ Hrep); lia.
Qed.

Lemma get_unacked_correct_witness : get_unacked example_window 4294967295 [0; 0] = Val [7; 8].
Proof.
  exact (get_unacked_correct _ _ _ _ _ 4294967295 4294967297 [0; 0] example_window_rep
    ltac:(left) eq_refl).
Defined.

Lemma sw_run_rep ops : forall base W S rs w,
  sw_rep base W S rs w -> Forall sw_op_ok ops ->
  exists w' W' out S' rs', sw_run w ops = Val (w', W', out) /\ sw_rep base (W ++ W') S' rs' w' /\
    ztake (S - base) (W ++ W') ++ out = ztake (S' - base) (W ++ W').
Proof.
  induction ops as [|op ops IH]; intros base W S rs w Hrep Hok.
  { exists w, [], [], S, rs. by rewrite !app_nil_r. }
  apply Forall_cons in Hok as [Hop Hok]. pose proof (retained_bounds _ _ _ _ _ Hrep).
  pose proof (sw_end _ _ _ _ _ Hrep). destruct op as [data|len|start end_]; cbn [sw_run].
  - destruct (SendWindowWriter_write_rep _ _ _ _ _ data Hrep) as (w1 & -> & Hrep1 & _).
    set (n := Z.min _ _) in *. cbn [mbind res_bind].
    destruct (IH _ _ _ _ _ Hrep1 Hok) as (w' & W' & out & S' & rs' & -> & Hrep' & Hout).
    exists w', (ztake n data ++ W'), out, S', rs'. rewrite app_assoc. by split_and!.
  - cbn in Hop. destruct (SendWindow_send_rep _ _ _ _ _ (replicate len 0) Hrep) as (w1 & Hs & Hrep1 & _).
    { unfold zlen. rewrite length_replicate. lia. }
    set (n := Z.min _ _) in *. rewrite Hs. cbn [mbind res_bind].
    destruct (IH _ _ _ _ _ Hrep1 Hok) as (w' & W' & out & S' & rs' & -> & Hrep' & Hout).
    cbn [mbind res_bind]. pose proof (sw_end _ _ _ _ _ Hrep1). zlen_facts.
    pose proof (zlen_nonneg (replicate len 0)). assert (0 <= n <= base + zlen W - S) by (unfold n; lia).
    pose proof (sw_contents_len _ _ _ _ _ Hrep).
    eexists w', W', _, S', rs'. split; [done|]. split; [done|]. rewrite <- Hout.
    rewrite app_assoc. f_equal.
    assert (match (if n =? 0 then None else Some (wrap S, wrap (S + n))) with
      | Some (s, e) => ztake (wsub e s) (ztake n (zdrop (S - base) W) ++ zdrop n (replicate len 0))
      | None => [] end = ztake n (zdrop (S - base) W)) as ->.
    { destruct (Z.eqb_spec n 0) as [Hn0|Hn0]; [by rewrite Hn0, ztake_0 by lia|].
      rewrite wsub_dist by lia.
      replace (S + n - S) with n by lia.
      rewrite ztake_app_le, ztake_ge by (rewrite zlen_sub; lia). done. }
    rewrite (ztake_app (S + n - base)), (ztake_app (S - base)).
    rewrite (ztake_0 (S - base - _)), (ztake_0 (S + n - base - _)), !app_nil_r by lia.
    replace (S + n - base) with (S - base + n) by lia.
    rewrite <- (ztake_zdrop (S - base) W) at 3. rewrite ztake_app_ge by (rewrite zlen_ztake; lia).
    do 2 f_equal. rewrite zlen_ztake. lia.
  - destruct Hop as [Hs He].
    destruct (ack_range_other _ _ _ _ _ start end_ Hrep Hs He)
      as [->|(l1 & a & b & l2 & e & -> & Hab & -> & ->)]; [by apply (IH _ _ _ rs)|].
    rewrite (ack_range_match _ _ _ _ _ _ _ _ _ Hrep Hab).
    destruct (ack_at_rep _ _ _ _ _ _ _ _ e Hrep Hab) as (w1 & -> & Hrep1 & _).
    by apply (IH _ _ _ _ _ Hrep1 Hok).
Qed.

(** However writes, sends and acks (of any ranges) follow each other from a
    new window, nothing panics, and the bytes sent, in order, are a prefix of
    the bytes accepted by the writer. *)
Theorem send_window_stream capacity base ops :
  0 < capacity < u32_half -> Forall sw_op_ok ops ->
  exists w0 w W out, SendWindow_new capacity (wrap base) = Val w0 /\
    sw_run w0 ops = Val (w, W, out) /\ exists S rs, sw_rep base W S rs w /\
    out = ztake (S - base) W.
Proof.
  intros Hc Hok. destruct (SendWindow_new_rep capacity base Hc) as (w0 & Hw0 & Hrep & _).
  destruct (sw_run_rep ops _ _ _ _ _ Hrep Hok) as (w & W & out & S & rs & Hrun & Hr & Hout).
  exists w0, w, W, out. split; [done|]. split; [done|]. exists S, rs. split; [done|].
  cbn [app] in *. by rewrite Z.sub_diag, ztake_0 in Hout.
Qed.

Lemma send_window_stream_witness : exists w0 w,
  SendWindow_new 4 4294967295 = Val w0 /\
  sw_run w0 [OpWrite [1; 2; 3]; OpSend 2; OpAck 4294967295 0; OpSend 5; OpWrite [4; 5; 6]] =
    Val (w, [1; 2; 3; 4; 5], [1; 2; 3]).
Proof.
  destruct (send_window_stream 4 4294967295
    [OpWrite [1; 2; 3]; OpSend 2; OpAck 4294967295 0; OpSend 5; OpWrite [4; 5; 6]])
    as (w0 & w & W & out & Hnew & Hrun & _); [lia|repeat constructor; cbn; unfold is_pos; lia|].
  exists w0, w. split; [exact Hnew|]. injection Hnew as <-. rewrite Hrun.
  vm_compute in Hrun. injection Hrun as _ <- <-. reflexivity.
Defined.
