(* ===== verification/RecvWindow.v ===== *)
(** The receive window of windows.rs: [RecvWindow] and its [RecvWindowReader],
    over one shared ring. The invariant ties a window to the stream the remote
    is sending, given as the byte at every unbounded position. *)

From S2P Require Import Prelude StreamPos RingBuffer Segments.

(** * Data *)

Record RecvWindow := mkRecvWindow {
  rw_ring : RingBuffer;
  recv_pos : StreamPos;
  unready : list (StreamPos * StreamPos);
}.

(** * Operations *)

Definition RecvWindow_new (capacity : Z) (stream_start : StreamPos) : res RecvWindow :=
  _ ← assert (capacity <=? u32_max / 2);
  rb ← RingBuffer_new capacity;
  Val (mkRecvWindow rb stream_start []).

(** [RecvWindowReader::read]: the window, the caller's buffer and the count. *)
Definition RecvWindowReader_read (w : RecvWindow) (data : list Z)
    : res (RecvWindow * list Z * Z) :=
  '(data, len) ← reader_read (rw_ring w) 0 data;
  '(rb, _) ← reader_advance (rw_ring w) len;
  Val (mkRecvWindow rb (recv_pos w) (unready w), data, as_u32 len).

Definition RecvWindow_read_available (w : RecvWindow) : res Z :=
  n ← read_available (rw_ring w); Val (as_u32 n).

Definition window_end (w : RecvWindow) : res StreamPos :=
  n ← write_available (rw_ring w); Val (wadd (recv_pos w) (as_u32 n)).

(** Either answer of the search gives the same index here. *)
Definition search_index (s : search) : Z :=
  match s with Found i => i | Missing i => i end.

(** The range touches the ready block: extend the block to [end_pos], and over
    the unready range that [end_pos] reaches. Returns the unready list and the
    new receive position. *)
Definition join_ready (unready : list (StreamPos * StreamPos)) (end_pos : StreamPos)
    : res (list (StreamPos * StreamPos) * StreamPos) :=
  s ← binary_search_by (fun r => unwrap (stream_cmp r.2 end_pos)) unready;
  let pos := search_index s in
  if pos =? zlen unready then Val ([], end_pos)
  else
    r ← index unready pos;
    if stream_ge end_pos r.1 then
      rest ← drain unready 0 (pos + 1); Val (rest, r.2)
    else Val (unready, end_pos).

(** The [for] loop over [i in insert_pos..unready.len()]; [count] iterations are
    left. *)
Fixpoint merge_loop (count : nat) (us : list (StreamPos * StreamPos))
    (start_pos end_pos : StreamPos) (insert_pos i : Z) : res (list (StreamPos * StreamPos)) :=
  match count with
  | O => Val us
  | S count =>
    r ← index us i;
    if stream_lt end_pos r.1 then
      if i =? insert_pos then vec_insert us insert_pos (start_pos, end_pos)
      else
        us ← drain us (insert_pos + 1) i;
        q ← index us insert_pos;
        us ← (if stream_lt start_pos q.1 then set_index us insert_pos (start_pos, q.2) else Val us);
        q ← index us insert_pos;
        set_index us insert_pos (q.1, end_pos)
    else
      last ← usize_sub (zlen us) 1;
      if stream_lt end_pos r.2 || (i =? last) then
        q ← index us insert_pos;
        let start := q.1 in
        us ← drain us insert_pos i;
        q ← index us insert_pos;
        us ← set_index us insert_pos (if stream_lt start_pos start then start_pos else start, q.2);
        q ← index us insert_pos;
        if stream_gt end_pos q.2 then set_index us insert_pos (q.1, end_pos) else Val us
      else merge_loop count us start_pos end_pos insert_pos (i + 1)
  end.

(** The range does not touch the ready block: merge it into the unready list. *)
Definition insert_unready (unready : list (StreamPos * StreamPos))
    (start_pos end_pos : StreamPos) : res (list (StreamPos * StreamPos)) :=
  s ← binary_search_by (fun r => unwrap (stream_cmp r.2 start_pos)) unready;
  let insert_pos := search_index s in
  if insert_pos =? zlen unready then Val (unready ++ [(start_pos, end_pos)])
  else merge_loop (Z.to_nat (zlen unready - insert_pos)) unready start_pos end_pos
         insert_pos insert_pos.

Definition recv (w : RecvWindow) (start_pos : StreamPos) (data : list Z)
    : res (RecvWindow * option StreamPos) :=
  _ ← assert (zlen data <=? u32_max / 2);
  n ← write_available (rw_ring w);
  let recv_end_pos := wadd (recv_pos w) (as_u32 n) in
  let end_pos := wadd start_pos (as_u32 (zlen data)) in
  if negb (stream_lt start_pos recv_end_pos) then Val (w, None)
  else
    let copy_start_pos :=
      if stream_gt (recv_pos w) start_pos then recv_pos w else start_pos in
    let end_pos := if stream_lt end_pos recv_end_pos then end_pos else recv_end_pos in
    if stream_ge copy_start_pos end_pos then
      Val (w, if stream_lt start_pos end_pos then Some end_pos else None)
    else
      let data_start := wsub copy_start_pos start_pos in
      let buf_start := wsub copy_start_pos (recv_pos w) in
      let buf_end := wsub end_pos (recv_pos w) in
      hi ← usize_add data_start buf_end;
      data_end ← usize_sub hi buf_start;
      chunk ← slice data data_start data_end;
      '(rb, k) ← writer_write (rw_ring w) buf_start chunk;
      len ← usize_sub buf_end buf_start;
      _ ← assert (k =? len);
      if stream_ge (recv_pos w) start_pos then
        '(us, end_) ← join_ready (unready w) end_pos;
        '(rb, _) ← writer_advance rb (wsub end_ (recv_pos w));
        Val (mkRecvWindow rb end_ us, Some end_pos)
      else
        us ← insert_unready (unready w) start_pos end_pos;
        Val (mkRecvWindow rb (recv_pos w) us, Some end_pos).

(** * The invariant *)

(** The bytes of the stream [f] at the [n] positions from [a]. *)
Definition stream (f : Z -> Z) (a n : Z) : list Z := f <$> seqZ a n.

(** [rw_rep f R st us w]: the stream was received up to position [R]; the
    ready bytes are the stream's, and so are the buffered bytes of the unready
    ranges [us], which lie behind [R] and inside the window, sorted, non-empty
    and not touching. [st] are ranges of the list that no longer are ahead of
    the receive position. *)
Record rw_rep (f : Z -> Z) (R : Z) (st us : list range) (w : RecvWindow) : Prop := {
  rw_wf : ring_wf (rw_ring w);
  rw_cap : capacity (rw_ring w) < u32_half;
  rw_recv_pos : recv_pos w = wrap R;
  rw_unready : unready w = wrap_range <$> (st ++ us);
  rw_ready : let n := zlen (contents (rw_ring w)) in
    contents (rw_ring w) = Some <$> stream f (R - n) n;
  rw_segs : exists lo, segs 1 lo (R + zlen (space (rw_ring w))) (st ++ us);
  rw_live : Forall (fun r => R < r.1) us;
  rw_stale : Forall (fun r => r.2 < R) st;
  rw_data : forall p, covered us p ->
    zlookup (p - R) (space (rw_ring w)) = Some (Some (f p));
}.

(** Every range of the list is still comparable with the end of the window. *)
Definition lag_ok (R : Z) (st : list range) (w : RecvWindow) : Prop :=
  Forall (fun r => R + zlen (space (rw_ring w)) - r.1 < u32_half) st.

(** A position was received. *)
Definition got (R : Z) (us : list range) (p : Z) : Prop := p < R \/ covered us p.

(** The range that replaces the ranges [mid] that [(x, e)] touches. *)
Definition merged (x e : Z) (mid : list range) : range :=
  (match mid with [] => x | r :: _ => Z.min x r.1 end,
   match last mid with None => e | Some r => Z.max e r.2 end).

(** ** Runs

    The two ends of a window in use: ranges [Recv x n] of the stream arrive, in
    any order, and the application reads into buffers. The run gives the bytes
    read so far and the ranges acknowledged. *)
Inductive rw_op :=
| Recv (x n : Z)
| Read (buf : list Z).

Definition rw_exec (f : Z -> Z) (o : rw_op) (w : RecvWindow) (out : list Z) (acks : list range)
    : res (RecvWindow * list Z * list range) :=
  match o with
  | Recv x n =>
    '(w, e) ← recv w (wrap x) (stream f x n);
    Val (w, out, match e with
                 | Some e => acks ++ [(x, x + wsub e (wrap x))]
                 | None => acks
                 end)
  | Read buf =>
    '(w, buf, n) ← RecvWindowReader_read w buf;
    Val (w, out ++ ztake n buf, acks)
  end.

Fixpoint rw_run (f : Z -> Z) (ops : list rw_op) (w : RecvWindow) (out : list Z)
    (acks : list range) : res (RecvWindow * list Z * list range) :=
  match ops with
  | [] => Val (w, out, acks)
  | o :: ops =>
    '(w, out, acks) ← rw_exec f o w out acks;
    rw_run f ops w out acks
  end.

(** The range [[x, e)] touches the ready block and ends behind an unready range. *)
Definition swallows (w : RecvWindow) (x e : Z) : bool :=
  stream_ge (recv_pos w) (wrap x) && existsb (fun r => stream_lt r.2 (wrap e)) (unready w).

(** Ranges that were swallowed may be left in the list. The mark is a position before
    all of them: where the stream was received up to when the first one was swallowed,
    until the list is empty again. *)
Definition next_mark (base cap : Z) (o : rw_op) (w w' : RecvWindow) (out : list Z) (mark : option Z) : option Z :=
  match unready w', mark, o with
  | [], _, _ => None
  | _, Some low, _ => Some low
  | _, None, Recv x n =>
    let hi := base + zlen out + cap in
    if (x <? hi) && swallows w x (Z.min (x + n) hi) then Some (base + zlen out + zlen (contents (rw_ring w))) else None
  | _, None, Read _ => None
  end.

(** A range may arrive when it starts less than [2^31] positions from the end of the
    window and is at most [2^31 - 1] long. As long as the list may have leftovers, the
    end of the window has to be within [2^31] of the mark. *)
Definition rw_op_ok (base cap : Z) (o : rw_op) (out : list Z) (mark : option Z) : Prop :=
  match o with
  | Recv x n =>
    let hi := base + zlen out + cap in
    0 <= n < u32_half /\ hi - u32_half < x < hi + u32_half /\
    match mark with Some low => hi - low <= u32_half | None => True end
  | Read _ => True
  end.

Fixpoint rw_run_ok (f : Z -> Z) (base cap : Z) (ops : list rw_op) (w : RecvWindow)
    (out : list Z) (acks : list range) (mark : option Z) : Prop :=
  match ops with
  | [] => True
  | o :: ops => rw_op_ok base cap o out mark /\
    match rw_exec f o w out acks with
    | Val (w', out', acks') => rw_run_ok f base cap ops w' out' acks' (next_mark base cap o w w' out mark)
    | Fault _ => True
    end
  end.

(** The stream [f], with the positions [lo, hi) replaced by the bytes of [data],
    of which the first is at position [x]. *)
Definition patched (f : Z -> Z) (lo hi x : Z) (data : list Z) (p : Z) : Z :=
  if (lo <=? p) && (p <? hi) then default 0 (zlookup (p - x) data) else f p.

(** * Streams *)

Lemma zlen_stream f a n : zlen (stream f a n) = Z.max 0 n.
Proof. unfold zlen, stream. rewrite length_fmap, length_seqZ. lia. Qed.
Lemma zlookup_stream f a n i : 0 <= i < n -> zlookup i (stream f a n) = Some (f (a + i)).
Proof.
  intros. unfold stream. rewrite zlookup_fmap. unfold zlookup.
  rewrite (proj2 (Z.leb_le _ _)) by lia. rewrite lookup_seqZ_lt by lia. cbn.
  by rewrite Z2Nat.id by lia.
Qed.
Lemma stream_app f a n m :
  0 <= n -> 0 <= m -> stream f a (n + m) = stream f a n ++ stream f (a + n) m.
Proof. intros. unfold stream. by rewrite seqZ_app, fmap_app by lia. Qed.
Lemma ztake_stream f a n m : 0 <= m <= n -> ztake m (stream f a n) = stream f a m.
Proof.
  intros. replace n with (m + (n - m)) by lia. rewrite stream_app by lia.
  rewrite ztake_app_le, ztake_ge by (rewrite zlen_stream; lia). done.
Qed.
Lemma zdrop_stream f a n m : 0 <= m <= n -> zdrop m (stream f a n) = stream f (a + m) (n - m).
Proof.
  intros. replace n with (m + (n - m)) at 1 by lia. rewrite stream_app by lia.
  rewrite zdrop_app_ge by (rewrite zlen_stream; lia). apply zdrop_0.
  rewrite zlen_stream. lia.
Qed.

Lemma stream_ext f g a n :
  (forall p, a <= p < a + n -> f p = g p) -> stream f a n = stream g a n.
Proof.
  intros H. apply zlist_eq; [by rewrite !zlen_stream|]. intros i. rewrite zlen_stream. intros Hi.
  rewrite !zlookup_stream by lia. f_equal. apply H. lia.
Qed.

Lemma patched_stream f lo hi x n p :
  x <= lo -> hi <= x + n -> patched f lo hi x (stream f x n) p = f p.
Proof.
  intros. unfold patched. destruct (Z.leb_spec lo p), (Z.ltb_spec p hi); try done. cbn.
  rewrite zlookup_stream by lia. cbn. f_equal. lia.
Qed.
Lemma patched_below f lo hi x data p : p < lo -> patched f lo hi x data p = f p.
Proof. intros. unfold patched. by rewrite (proj2 (Z.leb_gt lo p)). Qed.
Lemma patched_none f lo hi x data p : hi <= lo -> patched f lo hi x data p = f p.
Proof. intros. unfold patched. destruct (Z.leb_spec lo p), (Z.ltb_spec p hi); done || lia. Qed.

Lemma rw_rep_ext f g R st us w :
  (forall p, got R us p -> f p = g p) -> rw_rep f R st us w -> rw_rep g R st us w.
Proof.
  intros Hfg []. constructor; try done.
  - cbn zeta in *. erewrite stream_ext; [done|]. intros p Hp. symmetry. apply Hfg. left. lia.
  - intros p Hp. rewrite <- Hfg by (by right). auto.
Qed.

(** * Reading *)

Section rep.
Context (f : Z -> Z) (R : Z) (st us : list range) (w : RecvWindow).
Context (Hrep : rw_rep f R st us w).

Lemma rw_lens :
  let c := zlen (contents (rw_ring w)) in let s := zlen (space (rw_ring w)) in
  0 <= c /\ 0 <= s /\ c + s = capacity (rw_ring w) /\ 0 < capacity (rw_ring w) < u32_half.
Proof.
  destruct Hrep as [Hwf ? ? ? ? ? ? ? ?]. cbn zeta.
  pose proof (zlen_contents _ Hwf). pose proof (zlen_space _ Hwf).
  pose proof (ready_len_nonneg _ Hwf). pose proof (rwf_cap _ Hwf). lia.
Qed.

Lemma rw_write_available : write_available (rw_ring w) = Val (zlen (space (rw_ring w))).
Proof.
  destruct Hrep as [Hwf ? ? ? ? ? ? ? ?]. unfold write_available.
  rewrite head_to_tail_ok by done. by rewrite <- zlen_space.
Qed.

Lemma RecvWindowReader_read_rep data :
  let c := zlen (contents (rw_ring w)) in
  let n := Z.min (zlen data) c in
  exists w', RecvWindowReader_read w data = Val (w', stream f (R - c) n ++ zdrop n data, n) /\
    rw_rep f R st us w' /\ zlen (contents (rw_ring w')) = c - n /\
    capacity (rw_ring w') = capacity (rw_ring w).
Proof.
  cbn zeta. pose proof rw_lens as Hlens. cbn zeta in Hlens. zlen_facts.
  set (c := zlen (contents (rw_ring w))) in *. set (n := Z.min (zlen data) c).
  destruct (Hrep) as [Hwf Hcap Hpos Hun Hready [lo Hsegs] Hlive Hstale Hdata]. cbn zeta in Hready.
  fold c in Hready. assert (0 <= n <= c) by (unfold n; lia).
  pose proof (reader_read_view (rw_ring w) 0 data (stream f (R - c) n)) as Hr. cbn zeta in Hr.
  fold c in Hr. assert (xfer (zlen data) c 0 = n) as Hx by (unfold xfer, n; lia).
  rewrite Hx in Hr. unfold RecvWindowReader_read. rewrite Hr; cycle 1; [done|lia|..].
  { rewrite zdrop_0, Hready, fmap_Some_ztake, ztake_stream by lia. done. }
  cbn [mbind res_bind].
  destruct (reader_advance_view (rw_ring w) n) as (rb & Ha & Hwf' & Hcap' & Hc' & Hs'); [done|lia|].
  cbn zeta in *. fold c in Ha, Hc', Hs'. rewrite Ha. cbn [mbind res_bind].
  assert (Z.min n c = n) as Hn by lia. rewrite Hn in *.
  exists (mkRecvWindow rb (recv_pos w) (unready w)).
  assert (zlen (contents rb) = c - n) as Hlc by (rewrite Hc', zlen_zdrop; fold c; lia).
  assert (zlen (space rb) = zlen (space (rw_ring w)) + n) as Hls
    by (rewrite Hs', zlen_app, zlen_ztake; fold c; lia).
  split_and!; [|..|done|done].
  { unfold as_u32. rewrite wrap_id by (unfold is_pos; lia). done. }
  constructor; cbn; try done; [lia|..].
  - rewrite Hlc, Hc', Hready, fmap_Some_zdrop, zdrop_stream by lia. f_equal. f_equal; lia.
  - exists lo. eapply segs_weaken; [..|exact Hsegs]; lia.
  - intros p Hp. rewrite Hs', zlookup_app. specialize (Hdata p Hp).
    pose proof (zlookup_Some_lt _ _ _ Hdata). by rewrite (proj2 (Z.ltb_lt _ _)) by lia.
Qed.
End rep.

Lemma RecvWindow_new_rep f capacity base :
  0 < capacity < u32_half ->
  exists w, RecvWindow_new capacity (wrap base) = Val w /\ rw_rep f base [] [] w /\
    contents (rw_ring w) = [] /\ RingBuffer.capacity (rw_ring w) = capacity.
Proof.
  intros Hc. unfold RecvWindow_new.
  change (u32_max / 2) with 2147483647. rewrite (proj2 (Z.leb_le capacity 2147483647)) by lia.
  cbn [assert mbind res_bind].
  destruct (ring_new_view capacity) as (rb & -> & Hwf & Hcap & Hcon & Hsp); [unfold isize_max; lia|].
  exists (mkRecvWindow rb (wrap base) []). split; [done|]. split; [|done].
  constructor; cbn; try done; try lia.
  - by rewrite Hcon.
  - exists base. rewrite Hsp. cbn. lia.
  - intros p Hp. by apply Exists_nil in Hp.
Qed.

(** * Storing the new bytes *)

(** The cells from [R] on hold the stream at the positions [P]. *)
Definition holds (f : Z -> Z) (R : Z) (P : Z -> Prop) (rb : RingBuffer) : Prop :=
  forall p, P p -> R <= p -> zlookup (p - R) (space rb) = Some (Some (f p)).

Lemma write_holds f R (P : Z -> Prop) rb x data lo hi :
  ring_wf rb -> holds f R P rb -> zlen (space rb) < u32_half ->
  R <= lo -> x <= lo -> lo <= hi -> hi <= x + zlen data -> hi <= R + zlen (space rb) ->
  exists rb', writer_write rb (lo - R) (ztake (hi - lo) (zdrop (lo - x) data)) = Val (rb', hi - lo) /\
    ring_wf rb' /\ capacity rb' = capacity rb /\ contents rb' = contents rb /\
    zlen (space rb') = zlen (space rb) /\
    holds (patched f lo hi x data) R (fun p => P p \/ lo <= p < hi) rb'.
Proof.
  intros Hwf Hold ??????. set (d := ztake (hi - lo) (zdrop (lo - x) data)).
  assert (zlen d = hi - lo) as Hd by (unfold d; apply zlen_sub; lia).
  destruct (writer_write_view rb (lo - R) d) as (rb' & Hw & Hwf' & Hcap & Hc & Hs);
    [done|lia|]. cbn zeta in *. rewrite Hd in *.
  assert (xfer (hi - lo) (zlen (space rb)) (lo - R) = hi - lo) as Hx by (unfold xfer; lia).
  rewrite Hx in *. rewrite ztake_ge in Hs by lia.
  assert (zlen (Some <$> d) = hi - lo) as Hn by (rewrite zlen_fmap; lia).
  exists rb'. split_and!; try done; [by rewrite Hs, zlen_splice by lia|].
  intros p Hp HRp. rewrite Hs, zlookup_splice, Hn by lia. unfold patched.
  destruct (Z.leb_spec lo p), (Z.ltb_spec p hi); cbn [andb];
    destruct (Z.leb_spec (lo - R) (p - R)), (Z.ltb_spec (p - R) (lo - R + (hi - lo))); cbn [andb];
    try lia; [|apply Hold; [destruct Hp; [done|lia]|done]..].
  rewrite zlookup_fmap. unfold d. rewrite zlookup_ztake, (proj2 (Z.ltb_lt _ _)), zlookup_zdrop by lia.
  replace (p - R - (lo - R) + Z.max 0 (lo - x)) with (p - x) by lia.
  destruct (zlookup_is_Some (p - x) data) as [v ->]; [lia|done].
Qed.

Lemma advance_holds f R (P : Z -> Prop) rb k :
  ring_wf rb -> holds f R P rb -> 0 <= k <= zlen (space rb) ->
  (forall p, R <= p < R + k -> P p) ->
  exists rb' m, writer_advance rb k = Val (rb', m) /\ ring_wf rb' /\ capacity rb' = capacity rb /\
    contents rb' = contents rb ++ (Some <$> stream f R k) /\
    zlen (space rb') = zlen (space rb) - k /\ holds f (R + k) P rb'.
Proof.
  intros Hwf Hold Hk Hall.
  destruct (writer_advance_view rb k) as (rb' & Ha & Hwf' & Hcap & Hc & Hs); [done|lia|].
  cbn zeta in *. rewrite Z.min_l in * by lia. exists rb', k.
  split_and!; [done|done|done|..|rewrite Hs, zlen_zdrop; lia|].
  - rewrite Hc. f_equal. apply zlist_eq.
    + rewrite zlen_ztake, zlen_fmap, zlen_stream. lia.
    + rewrite zlen_ztake. intros i Hi. rewrite zlookup_ztake, (proj2 (Z.ltb_lt _ _)) by lia.
      rewrite zlookup_fmap, zlookup_stream by lia. cbn.
      replace i with (R + i - R) at 1 by lia. apply Hold; [apply Hall|]; lia.
  - intros p Hp HRp. rewrite Hs, zlookup_zdrop by lia.
    replace (p - (R + k) + Z.max 0 k) with (p - R) by lia. apply Hold; [done|lia].
Qed.

(** * Updating the unready list *)

(** [p] is comparable with both ends of [r]. *)
Definition near (p : Z) (r : range) : Prop :=
  -u32_half < r.1 - p < u32_half /\ -u32_half < r.2 - p < u32_half.

Lemma zlen_wrap (l : list range) : zlen (wrap_range <$> l) = zlen l.
Proof. apply zlen_fmap. Qed.

(** Both searches: by the end of the ranges. *)
Lemma search_by_end l1 l2 k lo hi :
  segs 1 lo hi (l1 ++ l2) -> Forall (near k) (l1 ++ l2) -> Forall (fun r => r.2 < k) l1 ->
  match l2 with [] => True | r :: _ => k <= r.2 end ->
  search_index <$> binary_search_by (fun r => unwrap (stream_cmp r.2 (wrap k)))
    (wrap_range <$> (l1 ++ l2)) = Val (zlen l1).
Proof.
  intros Hs Hnear Hl1 Hl2. apply Forall_app in Hnear as [Hn1 Hn2].
  rewrite (binary_search_wrapped snd _ k); [|done|..].
  - cbn. by destruct (match l2 with [] => _ | _ => _ end).
  - eapply Forall_impl; [apply Forall_and; split; [exact Hl1|exact Hn1]|].
    unfold near. cbn. lia.
  - destruct l2 as [|r l2]; [done|]. apply Forall_cons in Hn2 as [Hr Hn2].
    unfold near in Hr. split; [lia|].
    apply segs_app in Hs as (_ & ? & ? & Hn & _); [|lia]. destruct Hn as [->|Hn]; [constructor|].
    apply segs_Forall in Hn; [|lia].
    eapply Forall_impl; [apply Forall_and; split; [exact Hn|exact Hn2]|]. unfold near. cbn. lia.
Qed.

Lemma join_ready_eval l1 l2 e lo hi :
  segs 1 lo hi (l1 ++ l2) -> Forall (near e) (l1 ++ l2) -> Forall (fun r => r.2 < e) l1 ->
  match l2 with [] => True | r :: _ => e <= r.2 end ->
  join_ready (wrap_range <$> (l1 ++ l2)) (wrap e) =
  Val (match l2 with
       | [] => ([], wrap e)
       | r :: l3 => if r.1 <=? e then (wrap_range <$> l3, wrap r.2)
                    else (wrap_range <$> (l1 ++ l2), wrap e)
       end).
Proof.
  intros Hs Hnear Hl1 Hl2. unfold join_ready.
  pose proof (search_by_end l1 l2 e lo hi Hs Hnear Hl1 Hl2) as Hsearch.
  destruct (binary_search_by _ _) as [i|]; [|done]. cbn in Hsearch. injection Hsearch as Hi.
  cbn [mbind res_bind]. rewrite Hi, zlen_wrap, zlen_app.
  destruct l2 as [|r l3].
  { rewrite zlen_nil, Z.add_0_r, Z.eqb_refl. done. }
  rewrite zlen_cons. zlen_facts. rewrite (proj2 (Z.eqb_neq _ _)) by lia.
  rewrite !fmap_app, fmap_cons. rewrite <- (zlen_wrap l1), index_mid.
  cbn [mbind res_bind wrap_range fst].
  apply Forall_app in Hnear as [_ Hnear]. apply Forall_cons in Hnear as [Hr _]. unfold near in Hr.
  rewrite stream_ge_wrap by lia. destruct (Z.leb_spec r.1 e); [|done].
  pose proof (drain_prefix ((wrap_range <$> l1) ++ [wrap_range r]) (wrap_range <$> l3)) as Hd.
  rewrite <- app_assoc, zlen_app in Hd. cbn [app] in Hd.
  change (zlen [wrap_range r]) with 1 in Hd. by rewrite Hd.
Qed.

(** Lower the start of the range at [insert_pos], if the new one is lower. *)
Lemma lower_start (A B : list (StreamPos * StreamPos)) x q :
  near x q ->
  (if stream_lt (wrap x) (wrap q.1)
   then set_index (A ++ wrap_range q :: B) (zlen A) (wrap x, wrap q.2)
   else Val (A ++ wrap_range q :: B)) = Val (A ++ wrap_range (Z.min x q.1, q.2) :: B).
Proof.
  intros [? ?]. rewrite stream_lt_wrap by lia. destruct (Z.ltb_spec x q.1).
  - rewrite set_index_mid, Z.min_l by lia. done.
  - rewrite Z.min_r by lia. by destruct q.
Qed.

(** The iteration that meets the first range behind the new one. *)
Lemma merge_before (A B : list (StreamPos * StreamPos)) m1 x e r count :
  near x r -> near e r -> Forall (near x) m1 -> Forall (near e) m1 ->
  Forall (fun q => q.2 <= e) m1 -> e < r.1 ->
  merge_loop (S count) (A ++ (wrap_range <$> m1) ++ wrap_range r :: B) (wrap x) (wrap e)
    (zlen A) (zlen A + zlen m1) =
  Val (A ++ wrap_range (merged x e m1) :: wrap_range r :: B).
Proof.
  intros Hxr Her Hxm Hem Hm1 Her'. cbn [merge_loop].
  assert (zlen A + zlen m1 = zlen (A ++ (wrap_range <$> m1))) as Hi by (rewrite zlen_app, zlen_wrap; lia).
  rewrite app_assoc. rewrite Hi at 1. rewrite index_mid. cbn [mbind res_bind wrap_range fst].
  unfold near in Her. rewrite stream_lt_wrap, (proj2 (Z.ltb_lt e r.1)) by lia.
  rewrite <- app_assoc. destruct m1 as [|q m1].
  { rewrite zlen_nil, Z.add_0_r, Z.eqb_refl. cbn [fmap list_fmap app]. apply vec_insert_mid. }
  rewrite zlen_cons. zlen_facts. rewrite (proj2 (Z.eqb_neq _ _)) by lia.
  cbn [fmap list_fmap app].
  pose proof (drain_mid (A ++ [wrap_range q]) (wrap_range <$> m1) (wrap_range r :: B)) as Hd.
  rewrite <- !app_assoc, zlen_app, zlen_wrap in Hd. cbn [app] in Hd.
  change (zlen [wrap_range q]) with 1 in Hd.
  replace (zlen A + (1 + zlen m1)) with (zlen A + 1 + zlen m1) by lia. rewrite Hd.
  cbn [mbind res_bind]. rewrite index_mid. cbn [mbind res_bind].
  apply Forall_cons in Hxm as [Hxq _].
  change (wrap_range q).1 with (wrap q.1). change (wrap_range q).2 with (wrap q.2).
  rewrite lower_start by done. cbn [mbind res_bind]. rewrite index_mid. cbn [mbind res_bind].
  rewrite set_index_mid. unfold merged, wrap_range. cbn [fst snd]. do 4 f_equal.
  destruct (last (q :: m1)) as [z|] eqn:Hl; [|done]. apply last_Some_elem_of in Hl.
  rewrite Forall_forall in Hm1. specialize (Hm1 z Hl). f_equal. lia.
Qed.

(** The iteration that meets the last range the new one touches. *)
Lemma merge_last (A B : list (StreamPos * StreamPos)) m1 x e r count :
  near x r -> near e r -> Forall (near x) m1 -> Forall (near e) m1 -> r.1 <= e ->
  e < r.2 \/ B = [] -> zlen A + zlen m1 + zlen B + 1 < usize_modulus ->
  merge_loop (S count) (A ++ (wrap_range <$> m1) ++ wrap_range r :: B) (wrap x) (wrap e)
    (zlen A) (zlen A + zlen m1) =
  Val (A ++ wrap_range (merged x e (m1 ++ [r])) :: B).
Proof.
  intros Hxr Her Hxm Hem Hr HB Hlen. cbn [merge_loop].
  assert (zlen A + zlen m1 = zlen (A ++ (wrap_range <$> m1))) as Hi by (rewrite zlen_app, zlen_wrap; lia).
  rewrite app_assoc. rewrite Hi at 1. rewrite index_mid. cbn [mbind res_bind wrap_range fst snd].
  pose proof Her as [??]. rewrite !stream_lt_wrap by lia. rewrite (proj2 (Z.ltb_ge e r.1)) by lia.
  rewrite <- app_assoc, !zlen_app, zlen_wrap, zlen_cons. zlen_facts.
  rewrite usize_sub_ok by lia. cbn [mbind res_bind].
  assert ((e <? r.2) || (zlen A + zlen m1 =? zlen A + (zlen m1 + (1 + zlen B)) - 1) = true) as ->.
  { apply orb_true_iff. destruct HB as [?| ->]; [left; by apply Z.ltb_lt|right].
    apply Z.eqb_eq. rewrite zlen_nil. lia. }
  destruct (m1 ++ [r]) as [|q m] eqn:Hm; [by destruct m1|].
  assert ((wrap_range <$> m1) ++ wrap_range r :: B = wrap_range q :: (wrap_range <$> m) ++ B) as Hl.
  { replace (wrap_range q :: (wrap_range <$> m) ++ B) with ((wrap_range <$> (m1 ++ [r])) ++ B)
      by (by rewrite Hm). by rewrite fmap_app, <- app_assoc. }
  assert (near x q) as Hxq.
  { assert (Forall (near x) (m1 ++ [r])) as HF by (apply Forall_app; split; [done|by constructor]).
    rewrite Hm in HF. by apply Forall_cons in HF as [? _]. }
  rewrite Hl at 1. rewrite index_mid. cbn [mbind res_bind].
  pose proof (drain_mid A (wrap_range <$> m1) (wrap_range r :: B)) as Hd. rewrite zlen_wrap in Hd.
  rewrite Hd. cbn [mbind res_bind]. rewrite index_mid. cbn [mbind res_bind].
  rewrite set_index_mid. cbn [mbind res_bind]. rewrite index_mid. cbn [mbind res_bind fst snd].
  change (wrap_range q).1 with (wrap q.1). change (wrap_range r).2 with (wrap r.2).
  destruct Hxq. rewrite stream_lt_wrap, stream_gt_wrap by lia.
  assert (last (q :: m) = Some r) as Hlast by (by rewrite <- Hm, last_snoc).
  unfold merged. rewrite Hlast. unfold wrap_range. cbn [fst snd].
  assert ((if x <? q.1 then wrap x else wrap q.1) = wrap (Z.min x q.1)) as ->.
  { zcase; f_equal; lia. }
  destruct (Z.ltb_spec r.2 e); [by rewrite set_index_mid, Z.max_l by lia|by rewrite Z.max_r by lia].
Qed.

(** The iteration that meets a range ending inside the new one. *)
Lemma merge_skip A m1 r l x e count :
  near e r -> r.1 < r.2 -> r.2 <= e -> l <> [] -> zlen A + zlen m1 + 1 + zlen l < usize_modulus ->
  merge_loop (S count) (A ++ (wrap_range <$> m1) ++ wrap_range r :: (wrap_range <$> l))
    (wrap x) (wrap e) (zlen A) (zlen A + zlen m1) =
  merge_loop count (A ++ (wrap_range <$> ((m1 ++ [r]) ++ l)))
    (wrap x) (wrap e) (zlen A) (zlen A + zlen (m1 ++ [r])).
Proof.
  intros [??] Hr Hre Hl Hlen. rewrite <- (app_assoc m1). rewrite (fmap_app _ m1). cbn [app]. rewrite fmap_cons.
  rewrite (zlen_app m1). change (zlen [r]) with 1. cbn [merge_loop].
  assert (zlen A + zlen m1 = zlen (A ++ (wrap_range <$> m1))) as Hi
    by (rewrite zlen_app, zlen_wrap; lia).
  rewrite (app_assoc A). rewrite Hi at 1. rewrite index_mid.
  cbn [mbind res_bind wrap_range fst snd].
  rewrite !stream_lt_wrap by lia. rewrite (proj2 (Z.ltb_ge e r.1)) by lia.
  rewrite (proj2 (Z.ltb_ge e r.2)) by lia. cbn [orb].
  rewrite !zlen_app, zlen_cons, !zlen_wrap. zlen_facts.
  assert (0 < zlen l) by (destruct l; [done|]; rewrite zlen_cons; zlen_facts; lia).
  rewrite usize_sub_ok by lia. cbn [mbind res_bind].
  rewrite (proj2 (Z.eqb_neq _ _)) by lia. f_equal. lia.
Qed.

(** The loop merges the new range with the ranges it touches. *)
Lemma merge_loop_eval A m1 m2 post x e lo hi :
  segs 1 lo hi (m1 ++ m2 ++ post) -> Forall (near x) (m1 ++ m2 ++ post) ->
  Forall (near e) (m1 ++ m2 ++ post) ->
  zlen A + zlen (m1 ++ m2 ++ post) < usize_modulus ->
  Forall (fun q => q.2 <= e) m1 -> Forall (fun q => q.1 <= e) m2 ->
  Forall (fun q => e < q.1) post -> m2 ++ post <> [] ->
  merge_loop (length (m2 ++ post)) (A ++ (wrap_range <$> (m1 ++ m2 ++ post)))
    (wrap x) (wrap e) (zlen A) (zlen A + zlen m1) =
  Val (A ++ wrap_range (merged x e (m1 ++ m2)) :: (wrap_range <$> post)).
Proof.
  revert m1. induction m2 as [|r m2 IH]; intros m1 Hs Hx He Hlen Hm1 Hm2 Hpost Hne.
  - destruct post as [|r post]; [done|]. cbn [length app]. rewrite fmap_app, app_nil_r. cbn [app] in *.
    apply Forall_app in Hx as [? Hx], He as [? He]. apply Forall_cons in Hx as [? _], He as [? _].
    apply Forall_cons in Hpost as [? _]. by apply merge_before.
  - apply Forall_cons in Hm2 as [Hr Hm2]. cbn [app length] in *. rewrite fmap_app, fmap_cons.
    rewrite !zlen_app, zlen_cons, zlen_app in Hlen.
    assert (near x r /\ near e r /\ Forall (near x) m1 /\ Forall (near e) m1) as (? & Her & ? & ?).
    { apply Forall_app in Hx as [? Hx], He as [? He].
      apply Forall_cons in Hx as [? _], He as [? _]. done. }
    destruct (decide (e < r.2 \/ m2 ++ post = [])) as [HB|HB].
    + assert (m2 = []) as ->.
      { destruct HB as [HB|HB]; [|by apply app_nil in HB as [-> _]].
        destruct m2 as [|q m2]; [done|]. exfalso. apply segs_app in Hs as (_&_&_&[|Hs]&_); [done| |lia].
        apply Forall_cons in Hm2 as [? _]. apply segs_cons in Hs. cbn in Hs. lia. }
      cbn [app] in *. apply merge_last; try done.
      * destruct HB as [?|HB]; [by left|right; by rewrite HB].
      * rewrite zlen_wrap. rewrite zlen_nil in Hlen. lia.
    + assert (r.2 <= e /\ m2 ++ post <> []) as [Hre Hne'] by (split; [lia|tauto]).
      assert (r.1 < r.2).
      { apply segs_suffix in Hs; [|lia]. by apply segs_cons in Hs as (_ & ? & _). }
      rewrite merge_skip by (done || rewrite zlen_app; lia).
      replace (m1 ++ r :: m2) with ((m1 ++ [r]) ++ m2) by (by rewrite <- app_assoc).
      replace (m1 ++ r :: m2 ++ post) with ((m1 ++ [r]) ++ m2 ++ post) in *
        by (by rewrite <- app_assoc).
      apply IH; try done.
      * rewrite !zlen_app. change (zlen [r]) with 1. lia.
      * apply Forall_app. split; [done|by constructor].
Qed.

Lemma insert_unready_eval l1 mid post x e lo hi :
  segs 1 lo hi (l1 ++ mid ++ post) -> Forall (near x) (l1 ++ mid ++ post) ->
  Forall (near e) (l1 ++ mid ++ post) -> zlen (l1 ++ mid ++ post) < usize_modulus ->
  Forall (fun r => r.2 < x) l1 -> match mid ++ post with [] => True | r :: _ => x <= r.2 end ->
  Forall (fun r => r.1 <= e) mid -> Forall (fun r => e < r.1) post ->
  insert_unready (wrap_range <$> (l1 ++ mid ++ post)) (wrap x) (wrap e) =
  Val (wrap_range <$> (l1 ++ merged x e mid :: post)).
Proof.
  intros Hs Hx He Hlen Hl1 Hhd Hmid Hpost. unfold insert_unready.
  pose proof (search_by_end l1 (mid ++ post) x lo hi Hs Hx Hl1 Hhd) as Hsearch.
  destruct (binary_search_by _ _) as [i|]; [|done]. cbn in Hsearch. injection Hsearch as Hi.
  cbn [mbind res_bind]. rewrite Hi, zlen_wrap.
  destruct (decide (mid ++ post = [])) as [Hnil|Hne].
  { rewrite Hnil, app_nil_r, Z.eqb_refl. apply app_nil in Hnil as [-> ->]. by rewrite fmap_app. }
  assert (0 < zlen (mid ++ post)).
  { destruct (mid ++ post); [done|]. rewrite zlen_cons. zlen_facts. lia. }
  rewrite zlen_app, (proj2 (Z.eqb_neq _ _)) by lia. rewrite fmap_app.
  replace (Z.to_nat (zlen l1 + zlen (mid ++ post) - zlen l1)) with (length (mid ++ post))
    by (unfold zlen; lia).
  rewrite <- (zlen_wrap l1).
  pose proof (merge_loop_eval (wrap_range <$> l1) [] mid post x e lo hi) as Hm.
  rewrite zlen_nil, Z.add_0_r in Hm. cbn [app] in Hm. rewrite Hm; try done.
  - by rewrite fmap_app, fmap_cons.
  - by apply segs_suffix in Hs; [|lia].
  - by apply Forall_app in Hx as [_ ?].
  - by apply Forall_app in He as [_ ?].
  - by rewrite zlen_wrap, <- zlen_app.
Qed.

(** ** The list after merging *)

Section merging.
Context (lo hi x e : Z) (l1 mid post : list range).
Context (Hs : segs 1 lo hi (l1 ++ mid ++ post)) (Hxe : x < e) (Hlo : lo <= x) (Hhi : e <= hi).
Context (Hl1 : Forall (fun r => r.2 < x) l1).
Context (Hhd : match mid ++ post with [] => True | r :: _ => x <= r.2 end).
Context (Hmid : Forall (fun r => r.1 <= e) mid) (Hpost : Forall (fun r => e < r.1) post).

Lemma merged_bounds :
  let m := merged x e mid in
  m.1 <= x /\ e <= m.2 /\ lo <= m.1 /\ m.2 <= hi /\
  Forall (fun r => r.2 + 1 <= m.1) l1 /\ Forall (fun r => m.2 + 1 <= r.1) post.
Proof.
  cbn zeta. unfold merged. cbn [fst snd].
  assert (Forall (fun r => lo <= r.1 /\ r.1 < r.2 /\ r.2 <= hi) (l1 ++ mid ++ post)) as HF
    by (by apply segs_Forall in Hs; [|lia]).
  rewrite !Forall_app in HF. destruct HF as (HF1 & HFm & HFp).
  destruct mid as [|r m] eqn:Em.
  { cbn [last]. split_and!; try lia.
    - eapply Forall_impl; [exact Hl1|]. cbn. lia.
    - eapply Forall_impl; [exact Hpost|]. cbn. lia. }
  destruct (last (r :: m)) as [z|] eqn:Hl; [|by apply last_None in Hl].
  assert (z ∈ r :: m) as Hz by (by apply last_Some_elem_of).
  pose proof HFm as HFm'. rewrite Forall_forall in HFm'. specialize (HFm' z Hz).
  apply Forall_cons in HFm as [? _]. cbn [app] in Hs.
  pose proof (segs_keys_below 1 _ _ _ _ _ ltac:(lia) Hs) as Hbelow.
  assert (Forall (fun q => z.2 + 1 <= q.1) post) as Habove.
  { apply last_Some in Hl as [m' Hm']. rewrite app_comm_cons, Hm', <- app_assoc in Hs. cbn [app] in Hs.
    apply segs_suffix in Hs; [|lia]. apply segs_app in Hs as (_&_&_&[->|Hp]&_); [constructor| |lia].
    apply segs_Forall in Hp; [|lia]. eapply Forall_impl; [exact Hp|]. cbn. lia. }
  split_and!; try lia.
  - eapply Forall_impl; [apply Forall_and; split; [exact Hl1|exact Hbelow]|]. cbn. lia.
  - eapply Forall_impl; [apply Forall_and; split; [exact Hpost|exact Habove]|]. cbn. lia.
Qed.

Lemma merged_segs : segs 1 lo hi (l1 ++ merged x e mid :: post).
Proof.
  destruct merged_bounds as (?&?&?&?&Hb1&Hb2). cbn zeta in *. apply segs_app; [lia|].
  split_and!; try lia.
  - destruct l1 as [|q l1'] eqn:E; [lia|]. rewrite <- E in *.
    apply segs_prefix in Hs. eapply segs_hi; [exact Hs|..].
    + eapply Forall_impl; [exact Hb1|]. cbn. lia.
    + rewrite E in Hb1, Hs. apply Forall_cons in Hb1 as [? _]. apply segs_cons in Hs. lia.
  - destruct post as [|r post'] eqn:E; [by left|right]. rewrite <- E in *.
    apply segs_suffix in Hs; [|lia]. apply segs_suffix in Hs; [|lia].
    eapply segs_lo; [exact Hs|exact Hb2|].
    rewrite E in Hb2, Hs. apply Forall_cons in Hb2 as [? _]. apply segs_cons in Hs. lia.
Qed.

Lemma covered_merged p :
  covered (l1 ++ merged x e mid :: post) p <-> covered (l1 ++ mid ++ post) p \/ x <= p < e.
Proof.
  unfold covered. rewrite !Exists_app, Exists_cons.
  assert ((merged x e mid).1 <= p < (merged x e mid).2 <-> Exists (fun r => r.1 <= p < r.2) mid \/ x <= p < e)
    as ->; [|tauto].
  destruct mid as [|r m] eqn:Em.
  { unfold merged. cbn. rewrite Exists_nil. tauto. }
  destruct (last (r :: m)) as [z|] eqn:Hl; [|by apply last_None in Hl].
  unfold merged. rewrite Hl. cbn [fst snd].
  assert (z ∈ r :: m) as Hz by (by apply last_Some_elem_of).
  assert (segs 1 lo hi (r :: m)) as Hsm.
  { apply segs_suffix in Hs; [|lia]. by apply segs_prefix in Hs. }
  pose proof (segs_Forall 1 ltac:(lia) _ _ _ Hsm) as HF.
  rewrite Forall_forall in HF. rewrite Forall_forall in Hmid. pose proof (HF z Hz). pose proof (HF r).
  assert (r ∈ r :: m) as Hr by (by left). pose proof (HF r Hr). specialize (Hmid z Hz).
  cbn [app] in Hhd. split.
  - intros Hp. destruct (decide (p < x)); [left; apply Exists_exists; exists r; split; [done|lia]|].
    destruct (decide (p < e)); [right; lia|]. left. apply Exists_exists. exists z. split; [done|lia].
  - intros [Hp|?]; [|lia]. apply Exists_exists in Hp as (q & Hq & ?).
    pose proof (segs_extent 1 ltac:(lia) _ _ _ _ _ _ Hsm Hl Hq). lia.
Qed.
End merging.

(** * Receiving *)

Lemma segs_starts_above gap lo hi r rs k :
  0 <= gap -> segs gap lo hi (r :: rs) -> k < r.1 -> Forall (fun q => k < q.1) (r :: rs).
Proof.
  intros ? Hs Hk. constructor; [done|]. apply segs_cons in Hs as (?&?&?&[->|Hs]); [constructor|].
  apply segs_Forall in Hs; [|done]. eapply Forall_impl; [exact Hs|]. cbn. lia.
Qed.

Section receiving.
Context (f : Z -> Z) (R : Z) (st us : list range) (w : RecvWindow).
Context (Hrep : rw_rep f R st us w) (Hlag : lag_ok R st w).

Local Abbreviation s := (zlen (space (rw_ring w))).

Lemma ranges_near : Forall (fun r => R + s - u32_half < r.1 /\ r.1 < r.2 /\ r.2 <= R + s) (st ++ us).
Proof.
  destruct (rw_segs _ _ _ _ _ Hrep) as [lo Hs]. pose proof (rw_lens _ _ _ _ _ Hrep).
  pose proof (rw_live _ _ _ _ _ Hrep) as Hl. apply segs_Forall in Hs; [|lia]. cbn zeta in *.
  assert (Forall (fun r => R + s - u32_half < r.1) (st ++ us)) as Hlo.
  { apply Forall_app. split; (eapply Forall_impl; [eassumption|]); cbn; lia. }
  eapply Forall_impl; [apply Forall_and; split; [exact Hs|exact Hlo]|]. cbn. lia.
Qed.

Lemma ranges_near_at k : R <= k <= R + s -> Forall (near k) (st ++ us).
Proof.
  intros. pose proof (rw_lens _ _ _ _ _ Hrep). cbn zeta in *.
  eapply Forall_impl; [exact ranges_near|]. unfold near. cbn. lia.
Qed.

Lemma ranges_length : zlen (st ++ us) < usize_modulus.
Proof.
  destruct (rw_segs _ _ _ _ _ Hrep) as [lo Hs]. pose proof (rw_lens _ _ _ _ _ Hrep). cbn zeta in *.
  assert (segs 1 (R + s - u32_half) (R + s) (st ++ us)) as Hs'.
  { eapply segs_lo; [exact Hs| |lia]. eapply Forall_impl; [exact ranges_near|]. cbn. lia. }
  apply segs_length in Hs'; lia.
Qed.

(** The ready block grows to [R'], the ring having been filled by [write]. *)
Lemma rep_join rb R' st' us' (P : Z -> Prop) :
  ring_wf rb -> capacity rb = capacity (rw_ring w) ->
  contents rb = contents (rw_ring w) -> zlen (space rb) = s ->
  holds f R P rb -> R <= R' <= R + s -> (forall p, R <= p < R' -> P p) ->
  (forall p, covered us' p -> P p) -> Forall (fun r => R' < r.1) us' ->
  Forall (fun r => r.2 < R') st' -> (exists lo, segs 1 lo (R + s) (st' ++ us')) ->
  exists rb' m, writer_advance rb (R' - R) = Val (rb', m) /\
    rw_rep f R' st' us' (mkRecvWindow rb' (wrap R') (wrap_range <$> (st' ++ us'))) /\
    zlen (contents rb') = zlen (contents (rw_ring w)) + (R' - R) /\
    capacity rb' = capacity (rw_ring w).
Proof.
  intros Hwf Hcap Hc Hsp Hold HR Hfill Hcov Hlive Hstale [lo Hs].
  destruct (advance_holds f R P rb (R' - R)) as (rb' & m & Ha & Hwf' & Hcap' & Hc' & Hsp' & Hold');
    [done|done|lia|intros; apply Hfill; lia|].
  exists rb', m. split; [done|]. pose proof (zlen_nonneg (contents (rw_ring w))).
  assert (zlen (contents rb') = zlen (contents (rw_ring w)) + (R' - R)) as Hl.
  { rewrite Hc', zlen_app, zlen_fmap, zlen_stream, Hc. lia. }
  split; [|split; [done|congruence]].
  replace (R + (R' - R)) with R' in Hold' by lia.
  constructor; cbn; try done; [by rewrite Hcap', Hcap; destruct Hrep|..].
  - rewrite Hl, Hc', Hc. rewrite (rw_ready _ _ _ _ _ Hrep) at 1. cbn zeta.
    set (n := zlen (contents (rw_ring w))) in *.
    replace (R' - (n + (R' - R))) with (R - n) by lia. rewrite stream_app, fmap_app by lia.
    by replace (R - n + n) with R by lia.
  - exists lo. rewrite Hsp', Hsp. by replace (R' + (s - (R' - R))) with (R + s) by lia.
  - intros p Hp. apply Hold'; [by apply Hcov|]. apply Exists_exists in Hp as (r & Hr & ?).
    rewrite Forall_forall in Hlive. specialize (Hlive r Hr). lia.
Qed.

(** Reasoning about coverage, once [p] is placed. *)
Local Ltac or_lia := first [assumption | lia | left; or_lia | right; or_lia].
Local Ltac got_cases p a b c :=
  destruct (Z.lt_ge_cases p a), (Z.lt_ge_cases p b), (Z.lt_ge_cases p c); try lia;
  split; intros; destruct_or?; destruct_and?;
  repeat match goal with
  | H : covered _ _ -> _, H' : covered _ _ |- _ => specialize (H H')
  end; or_lia.

(** The range [[x, e)] touches the ready block, and the ring [rb] was filled up to [e]:
    what [join_ready] and the ring's [advance] leave. *)
Section joining.
Context (x e : Z) (rb : RingBuffer) (Hx : x <= R) (He : R < e) (He' : e <= R + s).
Context (Hwf : ring_wf rb) (Hcap : capacity rb = capacity (rw_ring w)) (Hc : contents rb = contents (rw_ring w)).
Context (Hsp : zlen (space rb) = s) (Hold : holds f R (fun p => covered us p \/ R <= p < e) rb).

Definition joined (j : res (list (StreamPos * StreamPos) * StreamPos)) : Prop :=
  exists R' st' us' rb' m,
    j = Val (wrap_range <$> (st' ++ us'), wrap R') /\
    R < R' <= R + s /\ writer_advance rb (R' - R) = Val (rb', m) /\
    rw_rep f R' st' us' (mkRecvWindow rb' (wrap R') (wrap_range <$> (st' ++ us'))) /\
    zlen (contents rb') = zlen (contents (rw_ring w)) + (R' - R) /\
    capacity rb' = capacity (rw_ring w) /\
    (forall p, got R' us' p <-> got R us p \/ x <= p < e) /\
    (st = [] -> Forall (fun r => e <= r.2) us -> st' = []) /\ (forall r, r ∈ st' -> r ∈ st ++ us).

(** The block grows to [R'], and [st'] and [us'] are left in the list. *)
Lemma joined_at R' st' us' :
  e <= R' <= R + s -> (forall p, e <= p < R' -> covered us p) ->
  (forall p, covered us' p -> covered us p) -> Forall (fun r => R' < r.1) us' ->
  Forall (fun r => r.2 < R') st' -> (exists lo, segs 1 lo (R + s) (st' ++ us')) ->
  (forall p, got R' us' p <-> got R us p \/ x <= p < e) ->
  (st = [] -> Forall (fun r => e <= r.2) us -> st' = []) -> (forall r, r ∈ st' -> r ∈ st ++ us) ->
  joined (Val (wrap_range <$> (st' ++ us'), wrap R')).
Proof.
  intros HR Hfill Hcov Hlive Hstale Hs Hgot Hst Hsub.
  destruct (rep_join rb R' st' us' _ Hwf Hcap Hc Hsp Hold) as (rb' & m & Ha & Hr' & Hl & Hcap'); try done.
  - lia.
  - intros p Hp. destruct (decide (p < e)); [right; lia|left; apply Hfill; lia].
  - intros p Hp. left. by apply Hcov.
  - exists R', st', us', rb', m. split_and!; try done; lia.
Qed.

Lemma recv_join : joined (join_ready (unready w) (wrap e)).
Proof.
  destruct (rw_segs _ _ _ _ _ Hrep) as [lo Hs].
  pose proof (rw_live _ _ _ _ _ Hrep) as Hlive. pose proof (rw_stale _ _ _ _ _ Hrep) as Hstale.
  destruct (split_by_key snd e us) as (u1 & u2 & Hu & Hu1 & Hu2).
  pose proof (ranges_near_at e ltac:(lia)) as Hnear. rewrite (rw_unready _ _ _ _ _ Hrep).
  rewrite Hu, (app_assoc st) in Hs, Hnear. rewrite Hu in Hlive. apply Forall_app in Hlive as [_ Hlive].
  assert (Forall (fun r => r.2 < e) (st ++ u1)) as Hl1.
  { apply Forall_app. split; [|done]. eapply Forall_impl; [exact Hstale|]. cbn. lia. }
  replace (st ++ us) with ((st ++ u1) ++ u2) by (by rewrite Hu, app_assoc).
  rewrite (join_ready_eval (st ++ u1) u2 e lo (R + s)) by done.
  assert (forall p, covered us p <-> covered u1 p \/ covered u2 p) as Hcov
    by (intros p; unfold covered; by rewrite Hu, Exists_app).
  assert (forall p, covered u1 p -> p < e) as Hcov1.
  { intros p Hp. apply Exists_exists in Hp as (r & Hr & ?). rewrite Forall_forall in Hu1.
    specialize (Hu1 r Hr). lia. }
  assert (forall p, ~ covered [] p) as Hnil by (by intros p ?%Exists_nil).
  destruct u2 as [|r u3].
  { apply (joined_at e [] []); try done; [intros; lia|by intros p ?%Hnil|exists R; cbn; lia| |by intros q ?%not_elem_of_nil].
    intros p. unfold got. rewrite Hcov. specialize (Hcov1 p). specialize (Hnil p). got_cases p R e e. }
  apply segs_suffix in Hs as Hs2; [|lia]. apply Forall_cons in Hlive as [Hr1 _].
  apply segs_cons in Hs2 as (_ & Hr12 & Hr2 & Hs3).
  assert (forall p, covered (r :: u3) p <-> r.1 <= p < r.2 \/ covered u3 p) as Hcov2
    by (intros p; unfold covered; by rewrite Exists_cons).
  destruct (Z.leb_spec r.1 e) as [Hre|Hre].
  - apply (joined_at r.2 [] u3); try done; try lia; [| | | | |by intros q ?%not_elem_of_nil].
    + intros p Hp. apply Hcov. right. apply Hcov2. lia.
    + intros p Hp. apply Hcov. right. apply Hcov2. by right.
    + destruct Hs3 as [->|Hs3]; [constructor|]. apply segs_Forall in Hs3; [|lia].
      eapply Forall_impl; [exact Hs3|]. cbn. lia.
    + destruct Hs3 as [->|Hs3]; [exists R; cbn; lia|by exists (r.2 + 1)].
    + intros p. unfold got. rewrite Hcov, Hcov2. specialize (Hcov1 p). got_cases p R e r.2.
  - apply (joined_at e (st ++ u1) (r :: u3)); try done; [intros; lia| | |by exists lo| | |].
    + intros p Hp. apply Hcov. by right.
    + apply segs_suffix in Hs; [|lia]. by eapply segs_starts_above; [|exact Hs|].
    + intros p. unfold got. rewrite Hcov. specialize (Hcov1 p). got_cases p R e e.
    + intros -> HF. rewrite Hu in HF. apply Forall_app in HF as [HF _]. destruct u1 as [|q u1]; [done|].
      apply Forall_cons in HF as [? _], Hu1 as [? _]. lia.
    + intros q. rewrite !elem_of_app. rewrite Hu, elem_of_app. tauto.
Qed.
End joining.

(** The range [[x, e)] does not touch the ready block. *)
Lemma recv_insert x e rb :
  R < x -> x < e -> e <= R + s -> ring_wf rb -> capacity rb = capacity (rw_ring w) ->
  contents rb = contents (rw_ring w) -> zlen (space rb) = s ->
  holds f R (fun p => covered us p \/ x <= p < e) rb ->
  exists us', insert_unready (unready w) (wrap x) (wrap e) = Val (wrap_range <$> (st ++ us')) /\
    rw_rep f R st us' (mkRecvWindow rb (recv_pos w) (wrap_range <$> (st ++ us'))) /\
    (forall p, got R us' p <-> got R us p \/ x <= p < e).
Proof.
  intros Hx Hxe He Hwf Hcap Hc Hsp Hold. destruct (rw_segs _ _ _ _ _ Hrep) as [lo Hs].
  pose proof (rw_live _ _ _ _ _ Hrep) as Hlive. pose proof (rw_stale _ _ _ _ _ Hrep) as Hstale.
  destruct (split_by_key snd x us) as (u1 & rest & Hu & Hu1 & Hu2).
  destruct (split_by_key fst (e + 1) rest) as (mid & post & Hrest & Hmid & Hpost).
  rewrite Hrest in Hu, Hu2. clear Hrest rest.
  pose proof (ranges_near_at x ltac:(lia)) as Hnearx. pose proof (ranges_near_at e ltac:(lia)) as Hneare.
  pose proof ranges_length as Hlen. rewrite (rw_unready _ _ _ _ _ Hrep).
  rewrite Hu, (app_assoc st) in Hs, Hnearx, Hneare, Hlen. rewrite Hu in Hlive.
  assert (Forall (fun r => r.2 < x) (st ++ u1)) as Hl1.
  { apply Forall_app. split; [|done]. eapply Forall_impl; [exact Hstale|]. cbn. lia. }
  assert (Forall (fun r => r.1 <= e) mid) as Hmid' by (eapply Forall_impl; [exact Hmid|]; cbn; lia).
  assert (Forall (fun r => e < r.1) post) as Hpost'.
  { destruct post as [|r post]; [constructor|]. rewrite app_assoc in Hs.
    apply segs_suffix in Hs; [|lia]. eapply segs_starts_above; [|exact Hs|]; lia. }
  replace (st ++ us) with ((st ++ u1) ++ mid ++ post) by (by rewrite Hu, (app_assoc st)).
  rewrite (insert_unready_eval (st ++ u1) mid post x e lo (R + s)) by done.
  exists (u1 ++ merged x e mid :: post). rewrite app_assoc. split; [done|].
  assert (segs 1 (Z.min lo x) (R + s) ((st ++ u1) ++ mid ++ post)) as Hs'
    by (eapply segs_weaken; [..|exact Hs]; lia).
  assert (forall p, covered (u1 ++ merged x e mid :: post) p <-> covered us p \/ x <= p < e) as Hcov.
  { intros p. rewrite Hu. rewrite <- app_assoc in Hs'. apply segs_suffix in Hs'; [|lia].
    by apply (covered_merged (Z.min lo x) (R + s)). }
  split.
  - constructor; cbn; try done; [by rewrite Hcap; destruct Hrep|by destruct Hrep|by rewrite app_assoc|..].
    + rewrite Hc. by destruct Hrep.
    + exists (Z.min lo x). rewrite Hsp, app_assoc. by apply merged_segs; [done|lia|lia|done..].
    + rewrite !Forall_app in Hlive. destruct Hlive as (? & Hlm & ?). apply Forall_app. split; [done|].
      constructor; [|done]. unfold merged. cbn. destruct mid as [|r m]; [done|].
      apply Forall_cons in Hlm as [? _]. lia.
    + intros p Hp. apply Hcov in Hp as Hp'. apply Hold; [done|]. destruct Hp' as [Hp'|?]; [|lia].
      apply Exists_exists in Hp' as (r & Hr & ?). pose proof (rw_live _ _ _ _ _ Hrep) as Hl.
      rewrite Forall_forall in Hl. specialize (Hl r Hr). lia.
  - intros p. unfold got. rewrite Hcov. tauto.
Qed.

End receiving.

(** What [recv] leaves: the range [[x, e)] is received, the bytes of it that were
    not yet ready are those of [g], and nothing else changes. *)
Definition recv_post (R : Z) (st us : list range) (w : RecvWindow) (x e : Z) (g : Z -> Z)
    (w' : RecvWindow) : Prop :=
  exists R' st' us', rw_rep g R' st' us' w' /\ R <= R' <= R + zlen (space (rw_ring w)) /\
    zlen (contents (rw_ring w')) = zlen (contents (rw_ring w)) + (R' - R) /\
    capacity (rw_ring w') = capacity (rw_ring w) /\
    (forall p, got R' us' p <-> got R us p \/ x <= p < e) /\
    (st = [] -> (x <= R -> Forall (fun r => e <= r.2) us) -> st' = []) /\
    (forall r, r ∈ st' -> r ∈ st ++ us).

Section storing.
Context (f : Z -> Z) (R : Z) (st us : list range) (w : RecvWindow).
Context (Hrep : rw_rep f R st us w) (Hlag : lag_ok R st w).

Local Abbreviation s := (zlen (space (rw_ring w))).

(** The window once the bytes are in the ring, before its list is updated. *)
Lemma rep_stored g lo hi rb :
  R <= lo -> (forall p, p < lo -> g p = f p) -> ring_wf rb ->
  capacity rb = capacity (rw_ring w) -> contents rb = contents (rw_ring w) -> zlen (space rb) = s ->
  holds g R (fun p => covered us p \/ lo <= p < hi) rb ->
  rw_rep g R st us (mkRecvWindow rb (recv_pos w) (unready w)).
Proof.
  intros Hlo Hg Hwf Hcap Hc Hs Hold. destruct Hrep as [? ? ? ? Hready ? Hlive ? ?].
  constructor; cbn; try done.
  - lia.
  - rewrite Hc. etransitivity; [exact Hready|]. f_equal.
    apply stream_ext. intros p Hp. symmetry. apply Hg. lia.
  - by rewrite Hs.
  - intros p Hp. apply Hold; [by left|]. apply Exists_exists in Hp as (r & Hr & ?).
    rewrite Forall_forall in Hlive. specialize (Hlive r Hr). lia.
Qed.

(** The new bytes are copied, and the range is merged. *)
Lemma recv_store x e data :
  R + s - u32_half < x -> e <= R + s -> Z.max R x < e -> e <= x + zlen data ->
  let lo := Z.max R x in
  exists rb k, writer_write (rw_ring w) (lo - R) (ztake (e - lo) (zdrop (lo - x) data)) = Val (rb, k) /\
    k = e - lo /\
    returns (if stream_ge (wrap R) (wrap x) then
        '(us, end_) ← join_ready (unready w) (wrap e);
        '(rb, _) ← writer_advance rb (wsub end_ (wrap R));
        Val (mkRecvWindow rb end_ us, Some (wrap e))
      else
        us ← insert_unready (unready w) (wrap x) (wrap e);
        Val (mkRecvWindow rb (wrap R) us, Some (wrap e)))
      (fun '(w', o) => o = Some (wrap e) /\ recv_post R st us w x e (patched f lo e x data) w').
Proof.
  intros Hx He Hc Hd lo. pose proof (rw_lens _ _ _ _ _ Hrep) as Hlens. cbn zeta in Hlens.
  destruct (write_holds f R (covered us) (rw_ring w) x data lo e)
    as (rb & Hw & Hwf & Hcap & Hcon & Hsp & Hold); [by destruct Hrep| |unfold lo; lia..|].
  { intros p Hp _. by apply (rw_data _ _ _ _ _ Hrep). }
  exists rb, (e - lo). split; [done|split; [done|]].
  set (g := patched f lo e x data) in *.
  assert (rw_rep g R st us (mkRecvWindow rb (recv_pos w) (unready w))) as Hrep1.
  { apply (rep_stored g lo e rb); try done; [unfold lo; lia|]. intros p Hp. by apply patched_below. }
  set (w1 := mkRecvWindow rb (recv_pos w) (unready w)) in *.
  assert (lag_ok R st w1) as Hlag1 by (unfold lag_ok; cbn; by rewrite Hsp).
  rewrite stream_ge_wrap by lia. unfold lo in Hold. destruct (Z.leb_spec x R).
  - rewrite Z.max_l in Hold by lia.
    destruct (recv_join g R st us w1 Hrep1 Hlag1 x e rb)
      as (R' & st' & us' & rb' & m & Hj & HR & Ha & Hr' & Hl & Hcap' & Hgot & Hst & Hsub);
      try done; [lia|cbn; lia|]. subst w1; cbn [rw_ring unready] in Hj, HR, Hl, Hcap'. rewrite Hj.
    cbn [mbind res_bind]. rewrite wsub_dist, Ha by lia. cbn. split; [done|].
    exists R', st', us'. split_and!; try done; [lia|lia|rewrite <- Hcon; done|cbn; congruence|by auto].
  - rewrite Z.max_r in Hold by lia.
    destruct (recv_insert g R st us w1 Hrep1 Hlag1 x e rb) as (us' & Hi & Hr' & Hgot);
      try done; [lia|cbn; lia|]. subst w1; cbn [rw_ring unready recv_pos] in Hi, Hr'. rewrite Hi.
    rewrite <- (rw_recv_pos _ _ _ _ _ Hrep). cbn. split; [done|].
    exists R, st, us'. split_and!; cbn; try done; try lia; [rewrite Hcon; lia|].
    intros r. rewrite elem_of_app. tauto.
Qed.

(** [recv] on unbounded positions. *)
Lemma recv_unfold x data :
  zlen data < u32_half -> R + s - u32_half < x < R + s + u32_half ->
  let e := Z.min (x + zlen data) (R + s) in let lo := Z.max R x in
  recv w (wrap x) data =
  (if e <=? lo then Val (w, if x <? e then Some (wrap e) else None)
   else
    '(rb, k) ← writer_write (rw_ring w) (lo - R) (ztake (e - lo) (zdrop (lo - x) data));
    _ ← assert (k =? e - lo);
    if stream_ge (wrap R) (wrap x) then
      '(us, end_) ← join_ready (unready w) (wrap e);
      '(rb, _) ← writer_advance rb (wsub end_ (wrap R));
      Val (mkRecvWindow rb end_ us, Some (wrap e))
    else
      us ← insert_unready (unready w) (wrap x) (wrap e);
      Val (mkRecvWindow rb (wrap R) us, Some (wrap e))).
Proof.
  intros Hn Hx e lo. pose proof (rw_lens _ _ _ _ _ Hrep) as Hlens. cbn zeta in Hlens.
  pose proof (zlen_nonneg data). set (n := zlen data) in *.
  unfold recv. fold n. change (u32_max / 2) with 2147483647.
  rewrite (proj2 (Z.leb_le n 2147483647)) by lia. cbn [assert mbind res_bind].
  rewrite (rw_write_available _ _ _ _ _ Hrep), (rw_recv_pos _ _ _ _ _ Hrep). cbn [mbind res_bind].
  unfold as_u32. rewrite (wrap_id s), (wrap_id n), !wadd_wrap by (unfold is_pos; lia).
  destruct (Z.lt_ge_cases x (R + s)) as [Hlt|Hge]; cycle 1.
  { assert (e <= x) by (unfold e; lia). rewrite stream_lt_wrap, (proj2 (Z.ltb_ge x (R + s))) by lia.
    cbn [negb]. rewrite (proj2 (Z.leb_le e lo)) by (unfold lo; lia).
    by rewrite (proj2 (Z.ltb_ge x e)) by lia. }
  rewrite stream_lt_wrap, (proj2 (Z.ltb_lt x (R + s))) by lia. cbn [negb].
  rewrite stream_gt_wrap, stream_lt_wrap by lia.
  assert ((if x <? R then wrap R else wrap x) = wrap lo) as -> by (unfold lo; zcase; f_equal; lia).
  assert ((if x + n <? R + s then wrap (x + n) else wrap (R + s)) = wrap e) as ->
    by (unfold e; zcase; f_equal; lia).
  assert (x <= e <= R + s /\ e <= x + n) as He by (unfold e; lia).
  assert (R <= lo /\ x <= lo /\ (lo = R \/ lo = x)) as Hlo by (unfold lo; lia).
  rewrite stream_ge_wrap by lia. destruct (Z.leb_spec e lo) as [Hce|Hce].
  { by rewrite stream_lt_wrap by lia. }
  rewrite !wsub_dist by lia. clearbody e lo.
  rewrite usize_add_ok by lia. cbn [mbind res_bind]. rewrite !usize_sub_ok by lia. cbn [mbind res_bind].
  rewrite slice_ok by lia. cbn [mbind res_bind].
  replace (lo - x + (e - R) - (lo - R) - (lo - x)) with (e - lo) by lia.
  by replace (e - R - (lo - R)) with (e - lo) by lia.
Qed.

Lemma recv_rep x data :
  zlen data < u32_half -> R + s - u32_half < x < R + s + u32_half ->
  let e := Z.min (x + zlen data) (R + s) in
  returns (recv w (wrap x) data)
    (fun '(w', o) => o = (if x <? e then Some (wrap e) else None) /\
       recv_post R st us w x e (patched f (Z.max R x) e x data) w').
Proof.
  intros Hn Hx e. pose proof (rw_lens _ _ _ _ _ Hrep) as Hlens. cbn zeta in Hlens.
  pose proof (recv_unfold x data Hn Hx) as ->. cbn zeta. fold e.
  destruct (Z.leb_spec e (Z.max R x)) as [Hce|Hce].
  - split; [done|]. exists R, st, us. split_and!; try done; try lia.
    + eapply rw_rep_ext; [|exact Hrep]. intros p. by rewrite patched_none.
    + intros p. unfold got.
      destruct (Z.lt_ge_cases p R); [tauto|]. split; [tauto|]. intros [?|?]; [done|lia].
    + intros r ?. apply elem_of_app. by left.
  - destruct (recv_store x e data) as (rb & k & -> & -> & Hret); [lia|unfold e; lia|lia|unfold e; lia|].
    cbn [mbind res_bind]. rewrite Z.eqb_refl. cbn [assert mbind res_bind].
    by rewrite (proj2 (Z.ltb_lt x e)) by lia.
Qed.

(** A range that starts opposite to the end of the window is refused. *)
Lemma recv_tie data :
  zlen data < u32_half -> recv w (wrap (R + s - u32_half)) data = Val (w, None).
Proof.
  intros Hn. pose proof (rw_lens _ _ _ _ _ Hrep) as Hlens. cbn zeta in Hlens.
  unfold recv. change (u32_max / 2) with 2147483647.
  rewrite (proj2 (Z.leb_le (zlen data) 2147483647)) by lia. cbn [assert mbind res_bind].
  rewrite (rw_write_available _ _ _ _ _ Hrep), (rw_recv_pos _ _ _ _ _ Hrep). cbn [mbind res_bind].
  unfold as_u32. rewrite (wrap_id s), wadd_wrap by (unfold is_pos; lia).
  rewrite stream_lt_dist by lia. replace (R + s - (R + s - u32_half)) with u32_half by lia. done.
Qed.
End storing.

Lemma swallows_none f R us w x e :
  rw_rep f R [] us w -> R - u32_half < x -> x <= e -> e <= R + zlen (space (rw_ring w)) ->
  swallows w x e = false -> x <= R -> Forall (fun r => e <= r.2) us.
Proof.
  intros Hrep Hx Hxe He Hsw Hle. pose proof (rw_lens _ _ _ _ _ Hrep) as Hlens. cbn zeta in Hlens.
  unfold swallows in Hsw. rewrite (rw_recv_pos _ _ _ _ _ Hrep), stream_ge_wrap in Hsw by lia.
  rewrite (proj2 (Z.leb_le x R)), (rw_unready _ _ _ _ _ Hrep) in Hsw by lia. cbn [andb app] in Hsw.
  pose proof (ranges_near f R [] us w Hrep ltac:(constructor)) as Hnear. cbn [app] in Hnear.
  pose proof (rw_live _ _ _ _ _ Hrep) as Hlive.
  clear Hrep. destruct (Z.le_gt_cases e R).
  { eapply Forall_impl; [apply Forall_and; split; [exact Hlive|exact Hnear]|]. cbn. lia. }
  induction us as [|r us IH]; [constructor|].
  apply Forall_cons in Hnear as [? ?], Hlive as [? ?]. rewrite fmap_cons in Hsw. cbn in Hsw.
  apply orb_false_iff in Hsw as [Hr Hsw]. rewrite stream_lt_wrap in Hr by lia.
  constructor; [apply Z.ltb_ge in Hr; lia|by apply IH].
Qed.

(** One step of a run: the invariant, the bytes read and the ranges acknowledged. *)
Definition marked (R : Z) (st : list range) (mark : option Z) : Prop :=
  match mark with None => st = [] | Some low => low <= R /\ Forall (fun r => low < r.1) st end.

Definition run_inv (f : Z -> Z) (base cap : Z) (w : RecvWindow) (out : list Z) (acks : list range)
    (mark : option Z) : Prop :=
  exists R st us, rw_rep f R st us w /\ capacity (rw_ring w) = cap /\
    out = stream f base (zlen out) /\ R = base + zlen out + zlen (contents (rw_ring w)) /\
    (forall p, base <= p -> got R us p <-> covered acks p) /\ marked R st mark.

(** The mark is before what a range leaves behind. *)
Lemma next_marked f R R' st st' us us' w w' base cap x n out mark :
  rw_rep f R st us w -> marked R st mark -> R <= R' -> R = base + zlen out + zlen (contents (rw_ring w)) ->
  unready w' = wrap_range <$> (st' ++ us') -> (forall r, r ∈ st' -> r ∈ st ++ us) ->
  (st = [] -> (x <? base + zlen out + cap) && swallows w x (Z.min (x + n) (base + zlen out + cap)) = false -> st' = []) ->
  marked R' st' (next_mark base cap (Recv x n) w w' out mark).
Proof.
  intros Hrep Hm HR Hpos Hun Hsub Hnone. pose proof (rw_live _ _ _ _ _ Hrep) as Hlive.
  assert (forall low, low <= R -> Forall (fun r => low < r.1) st -> Forall (fun r => low < r.1) st') as Hall.
  { intros low Hl Hst. rewrite Forall_forall in *. intros r [Hr|Hr]%Hsub%elem_of_app; [by apply Hst|].
    specialize (Hlive r Hr). lia. }
  unfold next_mark. destruct (unready w') as [|u l].
  { symmetry in Hun. apply fmap_nil_inv, app_nil in Hun as [-> _]. done. }
  destruct mark as [low|]; [destruct Hm; split; [lia|by apply Hall]|]. cbn in Hm. subst st.
  destruct (_ && _) eqn:E; [split; [lia|apply Hall; [lia|constructor]]|by apply Hnone].
Qed.

Lemma rw_exec_inv f base cap o w out acks mark :
  run_inv f base cap w out acks mark -> rw_op_ok base cap o out mark ->
  returns (rw_exec f o w out acks) (fun '(w', out', acks') =>
    run_inv f base cap w' out' acks' (next_mark base cap o w w' out mark)).
Proof.
  intros (R & st & us & Hrep & Hcap & Hout & HR & Hacks & Hmark) Hok.
  pose proof (rw_lens _ _ _ _ _ Hrep) as Hlens. cbn zeta in Hlens. zlen_facts.
  destruct o as [x n|buf]; cbn [rw_exec].
  - destruct Hok as (Hn & Hx & Hlag).
    assert (base + zlen out + cap = R + zlen (space (rw_ring w))) as Hhi by lia. rewrite Hhi in *.
    assert (lag_ok R st w) as Hlagok.
    { unfold lag_ok. destruct mark as [low|]; [|by cbn in Hmark; subst st].
      destruct Hmark as [_ Hmark]. eapply Forall_impl; [exact Hmark|]. cbn. lia. }
    apply returns_bind. eapply returns_mono;
      [apply (recv_rep f R st us w Hrep Hlagok x (stream f x n)); rewrite ?zlen_stream; lia|].
    rewrite zlen_stream, Z.max_r by lia.
    intros [w' e] (-> & R' & st' & us' & Hrep' & HR' & Hl & Hcap' & Hgot & Hst & Hsub).
    eapply rw_rep_ext in Hrep'; [|intros p _; apply patched_stream; lia].
    cbn [returns]. set (e := Z.min (x + n) (R + zlen (space (rw_ring w)))) in *.
    assert (marked R' st' (next_mark base cap (Recv x n) w w' out mark)) as Hmark'.
    { apply (next_marked f R R' st st' us us'); try done; [lia|by apply (rw_unready _ _ _ _ _ Hrep')|].
      rewrite Hhi. fold e. intros -> Hsw%andb_false_iff. apply Hst; [done|]. intros Hle. destruct (Z.lt_ge_cases x (R + zlen (space (rw_ring w)))); cycle 1.
      { pose proof (ranges_near f R [] us w Hrep ltac:(constructor)) as Hnear.
        pose proof (rw_live _ _ _ _ _ Hrep) as Hlive. cbn [app] in Hnear.
        eapply Forall_impl; [apply Forall_and; split; [exact Hlive|exact Hnear]|]. unfold e. cbn. lia. }
      eapply (swallows_none f R us w x e); try done; [lia|unfold e; lia|unfold e; lia|].
      destruct Hsw as [Hsw|Hsw]; [lia|done]. }
    exists R', st', us'. split_and!; try done; [congruence|lia|]. intros p Hp. rewrite Hgot, Hacks by done.
    destruct (Z.ltb_spec x e).
    + rewrite wsub_dist by (unfold e in *; lia). replace (x + (e - x)) with e by lia.
      unfold covered. rewrite Exists_app, Exists_cons, Exists_nil. cbn. tauto.
    + split; [intros [?|?]; [done|lia]|tauto].
  - apply returns_bind.
    destruct (RecvWindowReader_read_rep f R st us w Hrep buf) as (w' & -> & Hrep' & Hl & Hcap').
    assert (marked R st (next_mark base cap (Read buf) w w' out mark)) as Hmark'.
    { unfold next_mark. destruct (unready w') as [|u l] eqn:Hun; [|by destruct mark].
      rewrite (rw_unready _ _ _ _ _ Hrep') in Hun. by apply fmap_nil_inv, app_nil in Hun as [-> _]. }
    cbn [returns]. set (c := zlen (contents (rw_ring w))) in *. set (n := Z.min (zlen buf) c) in *.
    assert (0 <= n) by (pose proof (zlen_nonneg buf); unfold n; lia).
    rewrite ztake_app_le, ztake_ge by (rewrite zlen_stream; lia).
    exists R, st, us. rewrite zlen_app, zlen_stream. split_and!; try done; [congruence| |lia].
    rewrite Z.max_r, stream_app by lia. do 2 f_equal; [done|lia].
Qed.

Lemma rw_run_inv f base cap ops : forall w out acks mark,
  run_inv f base cap w out acks mark -> rw_run_ok f base cap ops w out acks mark ->
  returns (rw_run f ops w out acks) (fun '(w', out', acks') => exists mark', run_inv f base cap w' out' acks' mark').
Proof.
  induction ops as [|o ops IH]; intros w out acks mark Hinv Hok; [by exists mark|]. destruct Hok as [Ho Hok].
  cbn [rw_run]. apply returns_bind. pose proof (rw_exec_inv _ _ _ _ _ _ _ _ Hinv Ho) as Hret.
  destruct (rw_exec f o w out acks) as [[[w' out'] acks']|]; [|done]. by eapply IH.
Qed.

(** * Properties *)

(** C9. [recv] of any bytes, at any position less than [2^31] from the end of the
    window, whatever they overlap: it never panics, acknowledges the range up to
    the end of the window, or nothing when no part of it lies before that end;
    afterwards exactly the positions received before and those of the
    acknowledged range are received, the bytes already ready are unchanged and
    the others of the range are the new ones, and the invariant is kept. *)
Theorem recv_correct f R st us w x data :
  rw_rep f R st us w -> lag_ok R st w ->
  let hi := R + zlen (space (rw_ring w)) in let e := Z.min (x + zlen data) hi in
  zlen data < u32_half -> hi - u32_half < x < hi + u32_half ->
  exists w' R' st' us',
    recv w (wrap x) data = Val (w', if x <? e then Some (wrap e) else None) /\
    rw_rep (patched f (Z.max R x) e x data) R' st' us' w' /\ R <= R' <= hi /\
    zlen (contents (rw_ring w')) = zlen (contents (rw_ring w)) + (R' - R) /\
    (forall p, got R' us' p <-> got R us p \/ x <= p < e) /\
    (st = [] -> (x <= R -> Forall (fun r => e <= r.2) us) -> st' = []).
Proof.
  cbn zeta. intros Hrep Hlag Hn Hx.
  pose proof (recv_rep f R st us w Hrep Hlag x data Hn Hx) as Hret. cbn zeta in Hret.
  apply returns_iff in Hret as ([w' o] & Heq & -> & R' & st' & us' & Hrep' & HR & Hl & _ & Hgot & Hst & _).
  by exists w', R', st', us'.
Qed.

Lemma recv_correct_witness : exists w w',
  RecvWindow_new 8 (wrap 4294967294) = Val w /\
  recv w (wrap 4294967295) [7; 8; 9] = Val (w', Some 2).
Proof.
  destruct (RecvWindow_new_rep id 8 4294967294 ltac:(lia)) as (w & Hw & Hrep & Hc & Hcap).
  pose proof (rw_lens _ _ _ _ _ Hrep) as Hl. cbn zeta in Hl. rewrite Hc, Hcap in Hl.
  change (zlen []) with 0 in Hl.
  assert (zlen (space (rw_ring w)) = 8) as Hs by lia.
  destruct (recv_correct id 4294967294 [] [] w 4294967295 [7; 8; 9] Hrep ltac:(constructor) eq_refl ltac:(lia))
    as (w' & R' & st' & us' & Heq & _).
  exists w, w'. split; [exact Hw|]. rewrite Heq, Hs. reflexivity.
Defined.

(** Reading hands out the received bytes of the stream in order, as many as
    are ready and fit the buffer, frees exactly their cells, and leaves the rest
    of the buffer and everything received untouched. *)
Theorem reader_read_correct f R st us w data :
  rw_rep f R st us w ->
  let c := zlen (contents (rw_ring w)) in let n := Z.min (zlen data) c in
  exists w', RecvWindowReader_read w data = Val (w', stream f (R - c) n ++ zdrop n data, n) /\
    RecvWindow_read_available w' = Val (c - n) /\
    window_end w' = Val (wrap (R + zlen (space (rw_ring w)) + n)) /\ rw_rep f R st us w'.
Proof.
  intros Hrep. destruct (RecvWindowReader_read_rep f R st us w Hrep data) as (w' & Heq & Hrep' & Hl & Hcap).
  cbn zeta in *. exists w'. split; [done|].
  pose proof (rw_lens _ _ _ _ _ Hrep) as H1. pose proof (rw_lens _ _ _ _ _ Hrep') as H2. cbn zeta in H1, H2.
  unfold RecvWindow_read_available, window_end. rewrite (rw_write_available _ _ _ _ _ Hrep').
  pose proof (rw_wf _ _ _ _ _ Hrep') as Hwf.
  unfold read_available. rewrite tail_to_head_ok, <- zlen_contents by done. cbn [mbind res_bind].
  unfold as_u32. rewrite (rw_recv_pos _ _ _ _ _ Hrep'), !(wrap_id (zlen _)), wadd_wrap
    by (unfold is_pos; lia). rewrite Hl. split_and!; [done| |done]. do 2 f_equal. lia.
Qed.

Lemma reader_read_correct_witness : exists w w',
  RecvWindow_new 8 0 = Val w /\ RecvWindowReader_read w [7; 7] = Val (w', [7; 7], 0).
Proof.
  destruct (RecvWindow_new_rep id 8 0 ltac:(lia)) as (w & Hw & Hrep & Hc & _).
  destruct (reader_read_correct id 0 [] [] w [7; 7] Hrep) as (w' & Heq & _).
  exists w, w'. split; [exact Hw|]. rewrite Heq, Hc. reflexivity.
Defined.

(** C8. Reassembly: whatever ranges of the stream arrive, in whatever order,
    repeated or overlapping, with reads in between, nothing panics; the bytes
    read are the stream's, in order and without a gap, and the bytes ready to
    read reach exactly to the first position that was never acknowledged. Every
    range starts less than [2^31] positions from the end of the window. A range that
    swallows an unready one may leave it in the list ([recv_leaves_stale_range]), which
    can make [recv] panic later ([recv_panics_on_stale_range]): such ranges may
    arrive too, as long as the end of the window stays within [2^31] of where the
    stream was received up to at the first of them, until the list is empty again. *)
Theorem recv_window_reassembles f capacity base ops w0 :
  0 < capacity < u32_half -> RecvWindow_new capacity (wrap base) = Val w0 ->
  rw_run_ok f base capacity ops w0 [] [] None ->
  exists w out acks c, rw_run f ops w0 [] [] = Val (w, out, acks) /\
    out = stream f base (zlen out) /\ RecvWindow_read_available w = Val c /\
    (forall p, base <= p < base + zlen out + c -> covered acks p) /\
    ~ covered acks (base + zlen out + c).
Proof.
  intros Hc Hnew Hok. destruct (RecvWindow_new_rep f capacity base Hc) as (w0' & Hw & Hrep & Hcon & Hcap).
  rewrite Hnew in Hw. injection Hw as <-.
  assert (run_inv f base capacity w0 [] [] None) as Hinv.
  { exists base, [], []. rewrite Hcon. split_and!; try done; [unfold zlen; cbn [length]; lia|]. intros p Hp. unfold got, covered.
    rewrite Exists_nil. lia. }
  pose proof (rw_run_inv _ _ _ _ _ _ _ _ Hinv Hok) as Hret.
  apply returns_iff in Hret as ([[w out] acks] & Hrun & mark & R & st & us & Hr & _ & Hout & HR & Hacks & _).
  pose proof (rw_lens _ _ _ _ _ Hr) as Hlens. cbn zeta in Hlens. zlen_facts.
  exists w, out, acks, (zlen (contents (rw_ring w))). split_and!; try done.
  - unfold RecvWindow_read_available, read_available. pose proof (rw_wf _ _ _ _ _ Hr).
    rewrite tail_to_head_ok, <- zlen_contents by done. cbn. unfold as_u32. by rewrite wrap_id by (unfold is_pos; lia).
  - intros p Hp. apply Hacks; [lia|]. left. lia.
  - rewrite <- HR. rewrite <- Hacks by lia. intros [?|Hcov]; [lia|].
    pose proof (rw_live _ _ _ _ _ Hr) as Hlive. apply Exists_exists in Hcov as (r & Hin & ?).
    rewrite Forall_forall in Hlive. specialize (Hlive r Hin). lia.
Qed.

(** A range between two others is swallowed, and the stream goes on around the end of
    the positions. *)
Definition swallowing : list rw_op :=
  [Recv 4294967294 1; Recv 4294967298 1; Recv 4294967292 5; Recv 4294967297 3; Read (replicate 8 0)].

Lemma recv_window_reassembles_witness : exists w0 w acks,
  RecvWindow_new 16 4294967292 = Val w0 /\
  rw_run id swallowing w0 [] [] = Val (w, seqZ 4294967292 8, acks).
Proof.
  assert (exists w0, RecvWindow_new 16 (wrap 4294967292) = Val w0) as [w0 Hw0] by (eexists; reflexivity).
  exists w0.
  destruct (recv_window_reassembles id 16 4294967292 swallowing w0)
    as (w & out & acks & c & Hrun & _ & _ & _); [lia|exact Hw0| |].
  - injection Hw0 as <-. vm_compute. repeat split; intros; first [discriminate|reflexivity].
  - exists w, acks. split; [exact Hw0|]. injection Hw0 as <-. rewrite Hrun.
    vm_compute in Hrun. injection Hrun as <- <- <-. reflexivity.
Defined.

(** Not every overlap keeps the documented invariant of the unready list: a
    range that touches the ready block, covers an unready range and ends before
    the next one leaves the covered range in the list, behind the receive
    position. *)
Theorem recv_leaves_stale_range :
  (w ← RecvWindow_new 16 0;
   '(w, out, acks) ← rw_run id [Recv 2 1; Recv 10 1; Recv 0 5] w [] [];
   Val (recv_pos w, unready w, out, acks)) =
  Val (5, [(2, 3); (10, 11)], [], [(2, 3); (10, 11); (0, 5)]).
Proof. vm_compute. reflexivity. Qed.

(** Such a leftover range makes [recv] panic once the stream has moved on:
    the search compares its end with a position [2^31] ahead, which have no
    order, and unwraps the answer. *)
Theorem recv_panics_on_stale_range f R a b w x n :
  rw_rep f R [(a, b)] [] w -> a < b -> R + zlen (space (rw_ring w)) - u32_half < x <= R -> 0 <= n < u32_half ->
  x + n = b + u32_half -> R < x + n <= R + zlen (space (rw_ring w)) ->
  recv w (wrap x) (stream f x n) = Fault UnwrapNone.
Proof.
  intros Hrep Hab Hx Hn He HR. pose proof (rw_lens _ _ _ _ _ Hrep) as Hlens. cbn zeta in Hlens.
  assert (zlen (stream f x n) = n) as Hz by (rewrite zlen_stream; lia).
  pose proof (recv_unfold f R [(a, b)] [] w Hrep x (stream f x n) ltac:(lia) ltac:(lia)) as ->. cbn zeta.
  rewrite Hz, (Z.min_l (x + n)), !(Z.max_l R x) by lia.
  rewrite (proj2 (Z.leb_gt (x + n) R)) by lia.
  destruct (write_holds f R (fun _ => False) (rw_ring w) x (stream f x n) R (x + n)) as (rb & -> & _);
    [by destruct Hrep|by intros p []|lia..|].
  cbn [mbind res_bind]. rewrite Z.eqb_refl, stream_ge_wrap, (proj2 (Z.leb_le x R)) by lia.
  cbn [assert mbind res_bind]. unfold join_ready. rewrite (rw_unready _ _ _ _ _ Hrep).
  assert (stream_cmp (wrap b) (wrap (x + n)) = None) as Htie
    by (rewrite <- (wrap_add b); apply stream_cmp_tie; lia).
  change (wrap_range <$> [(a, b)] ++ []) with [(wrap a, wrap b)]. rewrite binary_search_one. cbn [snd]. by rewrite Htie.
Qed.

Lemma recv_panics_on_stale_range_witness :
  exists rb, RingBuffer_new 8 = Val rb /\
    recv (mkRecvWindow rb 2147483648 [(2, 3)]) 2147483648 (stream id 2147483648 3) = Fault UnwrapNone.
Proof.
  destruct (RecvWindow_new_rep id 8 2147483648 ltac:(lia)) as (w & Hw & Hrep & Hc & Hcap).
  pose proof (rw_lens _ _ _ _ _ Hrep) as Hl. cbn zeta in Hl. rewrite Hc, Hcap in Hl.
  change (zlen []) with 0 in Hl. assert (zlen (space (rw_ring w)) = 8) as Hs by lia.
  exists (rw_ring w). split; [by injection Hw as <-|].
  apply (recv_panics_on_stale_range id 2147483648 2 3 _ 2147483648 3);
    cbn [rw_ring]; rewrite ?Hs; try lia.
  destruct Hrep. constructor; cbn; try done.
  - exists 0. rewrite Hs. cbn. lia.
  - constructor; [cbn; lia|constructor].
Defined.
