(* ===== verification/UnitTests.v ===== *)
(** The tests that ring_buffer.rs and windows.rs have of themselves, run on the model.
    The first three are sequences of calls with what each is asserted to give; the test
    with two threads holds under every interleaving of their calls. *)

From S2P Require Import Prelude StreamPos RingBuffer Segments SendWindow RecvWindow.

#[export] Instance AckResult_eq_dec : EqDecision AckResult.
Proof. solve_decision. Defined.

(** [assert_eq!(a, b)] *)
Definition assert_eq {A} {EA : EqDecision A} (a b : A) : res unit := assert (bool_decide (a = b)).

(** A test: statements that act on a state. *)
Definition run_test {A S} (exec : A -> S -> res S) : list A -> S -> res S :=
  fix run (test : list A) (s : S) : res S :=
    match test with
    | [] => Val s
    | o :: test => s ← exec o s; run test s
    end.

(** * The ring buffer *)

Module RingTests.
(** A call, its arguments, and its asserted result; [Reads] reads into the part of the
    buffer before [hi], of which the first bytes are asserted. *)
Inductive statement :=
| Writes (offset : Z) (data : list Z) (n : Z)
| Advances (offset n : Z)
| WriterAvailable (n : Z)
| Reads (offset hi n : Z) (bytes : list Z)
| ReaderAdvances (offset n : Z)
| ReaderAvailable (n : Z).

Definition exec (o : statement) (s : RingBuffer * list Z) : res (RingBuffer * list Z) :=
  let (rb, buffer) := s in
  match o with
  | Writes offset data n => '(rb, m) ← writer_write rb offset data; _ ← assert_eq m n; Val (rb, buffer)
  | Advances offset n => '(rb, m) ← writer_advance rb offset; _ ← assert_eq m n; Val (rb, buffer)
  | WriterAvailable n => m ← write_available rb; _ ← assert_eq m n; Val (rb, buffer)
  | Reads offset hi n bytes =>
    dst ← slice buffer 0 hi;
    '(dst, m) ← reader_read rb offset dst;
    let buffer := splice 0 dst buffer in
    _ ← assert_eq m n;
    got ← slice buffer 0 (zlen bytes);
    _ ← assert_eq got bytes;
    Val (rb, buffer)
  | ReaderAdvances offset n => '(rb, m) ← reader_advance rb offset; _ ← assert_eq m n; Val (rb, buffer)
  | ReaderAvailable n => m ← read_available rb; _ ← assert_eq m n; Val (rb, buffer)
  end.

Definition basic_read_write : list statement := [
  WriterAvailable 7;
  Writes 0 [0; 1; 2] 3;
  Advances 3 3;
  WriterAvailable 4;
  ReaderAvailable 3;
  Reads 0 7 3 [0; 1; 2];
  WriterAvailable 4;
  ReaderAdvances 3 3;
  WriterAvailable 7;
  ReaderAvailable 0;
  Writes 0 [0; 1; 2] 3;
  Advances 3 3;
  WriterAvailable 4;
  Reads 0 3 3 [0; 1; 2];
  Writes 0 [3; 4; 5] 3;
  Advances 3 3;
  WriterAvailable 1;
  Writes 0 [6; 7; 8; 9] 1;
  Advances 1 1;
  WriterAvailable 0;
  ReaderAvailable 7;
  Reads 4 5 3 [4; 5; 6];
  Reads 0 2 2 [0; 1];
  ReaderAdvances 2 2;
  ReaderAvailable 5;
  WriterAvailable 2;
  Reads 0 3 3 [2; 3; 4];
  ReaderAdvances 3 3;
  ReaderAvailable 2;
  WriterAvailable 5;
  Reads 0 5 2 [5; 6];
  ReaderAvailable 2;
  WriterAvailable 5;
  ReaderAdvances 5 2;
  ReaderAvailable 0;
  WriterAvailable 7;
  Writes 3 [13; 14] 2;
  Writes 0 [10; 11; 12] 3;
  Advances 5 5;
  WriterAvailable 2;
  ReaderAvailable 5;
  Reads 2 5 3 [12; 13; 14];
  Reads 0 3 3 [10; 11; 12]
].
Definition run_basic_read_write : res (RingBuffer * list Z) :=
  rb ← RingBuffer_new 7; run_test exec basic_read_write (rb, replicate 7 0).
End RingTests.

(** * The windows *)

(** [for i in lo..hi { assert_eq!(data[i], i as u8); }] *)
Definition assert_counting (data : list Z) (lo hi : Z) : res unit :=
  part ← slice data lo hi; assert_eq part (seqZ lo (hi - lo)).

Module SendTests.
(** Positions are relative to the start of the stream; [Writes] writes the bytes from
    [lo] to [hi]. *)
Inductive statement :=
| WriterAvailable (n : Z)
| SendPos (n : Z)
| Writes (lo hi n : Z)
| SendAvailable (n : Z)
| Sends (lo hi : Z) (range : option (Z * Z))
| SentCounting (lo hi : Z)
| Acks (lo hi : Z) (r : AckResult).

Definition stream_start : StreamPos := u32_max - 11.
Definition at_pos (n : Z) : StreamPos := wadd stream_start n.
Definition write_data : list Z := seqZ 0 16.

Definition exec (o : statement) (s : SendWindow * list Z) : res (SendWindow * list Z) :=
  let (w, send_data) := s in
  match o with
  | WriterAvailable n => m ← write_available (sw_ring w); _ ← assert_eq m n; Val s
  | SendPos n => _ ← assert_eq (send_pos w) (at_pos n); Val s
  | Writes lo hi n =>
    data ← slice write_data lo hi;
    '(w, m) ← SendWindowWriter_write w data; _ ← assert_eq m n; Val (w, send_data)
  | SendAvailable n => m ← send_available w; _ ← assert_eq m n; Val s
  | Sends lo hi range =>
    data ← slice send_data lo hi;
    '(w, data, r) ← SendWindow_send w data;
    _ ← assert_eq r ((fun '(a, b) => (at_pos a, at_pos b)) <$> range);
    Val (w, splice lo data send_data)
  | SentCounting lo hi => _ ← assert_counting send_data lo hi; Val s
  | Acks lo hi r =>
    '(w, r') ← ack_range w (at_pos lo) (at_pos hi); _ ← assert_eq r' r; Val (w, send_data)
  end.

Definition test_send_window : list statement := [
  WriterAvailable 7;
  SendPos 0;
  Writes 0 4 4;
  Writes 4 6 2;
  Writes 6 10 1;
  SendPos 0;
  SendAvailable 7;
  Sends 0 6 (Some (0, 6));
  SentCounting 0 6;
  SendPos 6;
  WriterAvailable 0;
  Acks 0 4 (PartialAck (at_pos 6));
  WriterAvailable 4;
  Writes 7 16 4;
  Acks 4 6 Ack;
  WriterAvailable 2;
  Writes 11 16 2;
  SendAvailable 7;
  Sends 6 9 (Some (6, 9));
  SentCounting 6 9;
  SendPos 9;
  SendAvailable 4;
  Sends 9 11 (Some (9, 11));
  SentCounting 9 11;
  SendPos 11;
  SendAvailable 2;
  Sends 11 16 (Some (11, 13));
  SentCounting 11 13;
  SendPos 13;
  Acks 10 11 NotFound;
  Acks 11 15 NotFound;
  Acks 11 12 (PartialAck (at_pos 13));
  Acks 6 9 Ack;
  WriterAvailable 3;
  SendPos 13;
  Writes 14 16 2;
  Acks 12 13 Ack;
  Acks 9 11 Ack;
  WriterAvailable 5;
  SendAvailable 2;
  Sends 14 16 (Some (13, 15));
  SentCounting 14 16;
  Acks 13 14 (PartialAck (at_pos 15));
  Acks 14 15 Ack;
  WriterAvailable 7
].
Definition run_test_send_window : res (SendWindow * list Z) :=
  w ← SendWindow_new 7 stream_start; run_test exec test_send_window (w, replicate 16 0).
End SendTests.

Module RecvTests.
(** [Receives pos lo hi r] receives the bytes from [lo] to [hi] at the position
    [pos], and asserts the result [r]. *)
Inductive statement :=
| WindowEnd (n : Z)
| Receives (pos lo hi : Z) (r : option Z)
| Reads (lo hi n : Z)
| ReadCounting (lo hi : Z)
| ReaderAvailable (n : Z).

Definition stream_start : StreamPos := u32_max - 29.
Definition at_pos (n : Z) : StreamPos := wadd stream_start n.
Definition recv_data : list Z := seqZ 0 32.

Definition exec (o : statement) (s : RecvWindow * list Z) : res (RecvWindow * list Z) :=
  let (w, read_data) := s in
  match o with
  | WindowEnd n => e ← window_end w; _ ← assert_eq e (at_pos n); Val s
  | Receives pos lo hi r =>
    data ← slice recv_data lo hi;
    '(w, r') ← recv w (at_pos pos) data; _ ← assert_eq r' (at_pos <$> r); Val (w, read_data)
  | Reads lo hi n =>
    data ← slice read_data lo hi;
    '(w, data, m) ← RecvWindowReader_read w data; _ ← assert_eq m n; Val (w, splice lo data read_data)
  | ReadCounting lo hi => _ ← assert_counting read_data lo hi; Val s
  | ReaderAvailable n => m ← read_available (rw_ring w); _ ← assert_eq m n; Val s
  end.

(** A range received out of order, after which nothing can be read yet. *)
Definition early (n : Z) : list statement := [WindowEnd 32; Receives n n (n + 1) (Some (n + 1)); Reads 25 32 0].

Definition test_recv_window : list statement := [
  WindowEnd 7;
  Receives 0 0 4 (Some 4);
  WindowEnd 7;
  Receives 2 2 6 (Some 6);
  WindowEnd 7;
  Reads 0 3 3;
  Reads 3 5 2;
  ReadCounting 0 5;
  WindowEnd 12;
  Receives 4 4 10 (Some 10);
  Receives 9 9 15 (Some 12);
  WindowEnd 12;
  ReaderAvailable 7;
  Reads 5 10 5;
  ReadCounting 5 10;
  WindowEnd 17;
  Receives 25 25 30 None;
  Receives 15 15 25 (Some 17);
  WindowEnd 17;
  Reads 10 20 2;
  ReadCounting 10 12;
  WindowEnd 19;
  Receives 10 10 25 (Some 19);
  Receives 2 2 10 (Some 10);
  Receives 14 14 21 (Some 19);
  Receives 18 18 21 (Some 19);
  Receives 19 21 25 None;
  Receives 20 22 25 None;
  Receives 19 21 21 None;
  Reads 12 25 7;
  ReadCounting 12 19;
  WindowEnd 26;
  Receives 24 24 25 (Some 25);
  WindowEnd 26;
  Receives 19 19 24 (Some 24);
  Reads 19 25 6;
  ReadCounting 19 25
] ++ early 26 ++ early 28 ++ early 30 ++ early 29 ++ early 28 ++ early 27 ++ [
  WindowEnd 32;
  Receives 25 25 26 (Some 26);
  Reads 25 31 6;
  ReadCounting 25 31;
  WindowEnd 38
].
Definition run_test_recv_window : res (RecvWindow * list Z) :=
  w ← RecvWindow_new 7 stream_start; run_test exec test_recv_window (w, replicate 32 0).
End RecvTests.

(** They pass. *)
Definition passes {A} (m : res A) : bool := match m with Val _ => true | Fault _ => false end.

(** The tests with one thread pass: every call of them gives what is asserted. *)
Theorem unit_tests_pass :
  passes RingTests.run_basic_read_write && passes SendTests.run_test_send_window && passes RecvTests.run_test_recv_window = true.
Proof. vm_compute. reflexivity. Qed.

(** * Two threads *)

Module ThreadedTest.
(** Where each thread is in its loop: before its first call on the ring, or between the
    two; the writer has written [i] bytes so far, and the reader read [i]. *)
Inductive writer := WriterWrites (i : Z) | WriterAdvances (i len : Z) | WriterDone.
Inductive reader := ReaderReads (i : Z) | ReaderAdvances (i r : Z) | ReaderDone.

Record threads := mkThreads { th_ring : RingBuffer; th_writer : writer; th_reader : reader; th_buffer : list Z }.

Definition total : Z := 10000.
(** [(i + j) % 256] for [j] in [0..n]. *)
Definition counting (i n : Z) : list Z := (fun j => j mod 256) <$> seqZ i n.

Definition writer_step (s : threads) : res threads :=
  match th_writer s with
  | WriterWrites i =>
    '(rb, len) ← writer_write (th_ring s) 0 (counting i (11 + i mod 17));
    Val (mkThreads rb (WriterAdvances i len) (th_reader s) (th_buffer s))
  | WriterAdvances i len =>
    '(rb, _) ← writer_advance (th_ring s) len;
    Val (mkThreads rb (if total <=? i + len then WriterDone else WriterWrites (i + len)) (th_reader s) (th_buffer s))
  | WriterDone => Val s
  end.

Definition reader_step (s : threads) : res threads :=
  match th_reader s with
  | ReaderReads i =>
    '(b, r) ← reader_read (th_ring s) 0 (th_buffer s);
    bytes ← slice b 0 r;
    _ ← assert_eq bytes (counting i r);
    Val (mkThreads (th_ring s) (th_writer s) (ReaderAdvances i r) b)
  | ReaderAdvances i r =>
    '(rb, n) ← reader_advance (th_ring s) r;
    _ ← assert_eq n r;
    Val (mkThreads rb (th_writer s) (if total <=? i + r then ReaderDone else ReaderReads (i + r)) (th_buffer s))
  | ReaderDone => Val s
  end.

(** The threads take turns as the schedule says. *)
Definition threaded_read_write (schedule : list bool) : res threads :=
  rb ← RingBuffer_new 64;
  run_test (fun writes : bool => if writes then writer_step else reader_step) schedule
    (mkThreads rb (WriterWrites 0) (ReaderReads 0) (replicate 32 0)).

(** The bytes between the reader's and the writer's place are those of the ring, and
    those that the writer has put ahead are the next ones. *)
Record threads_inv (w r : Z) (s : threads) : Prop := {
  ti_wf : ring_wf (th_ring s);
  ti_order : 0 <= r <= w;
  ti_contents : contents (th_ring s) = Some <$> counting r (w - r);
  ti_writer : match th_writer s with
    | WriterWrites i => i = w
    | WriterAdvances i len => i = w /\ 0 <= len <= zlen (space (th_ring s)) /\ ztake len (space (th_ring s)) = Some <$> counting w len
    | WriterDone => True
    end;
  ti_reader : match th_reader s with
    | ReaderReads i => i = r
    | ReaderAdvances i n => i = r /\ 0 <= n <= w - r
    | ReaderDone => True
    end;
  ti_buffer : zlen (th_buffer s) = 32;
}.

Lemma zlen_counting i n : 0 <= n -> zlen (counting i n) = n.
Proof. intros. unfold counting, zlen. rewrite length_fmap, length_seqZ. lia. Qed.
Lemma counting_app i n m : 0 <= n -> 0 <= m -> counting i (n + m) = counting i n ++ counting (i + n) m.
Proof. intros. unfold counting. by rewrite seqZ_app, fmap_app by lia. Qed.
Lemma counting_take i n k : 0 <= k <= n -> ztake k (counting i n) = counting i k.
Proof.
  intros. replace n with (k + (n - k)) by lia. rewrite counting_app, ztake_app_le, ztake_ge by (rewrite ?zlen_counting; lia). done.
Qed.
Lemma counting_drop i n k : 0 <= k <= n -> zdrop k (counting i n) = counting (i + k) (n - k).
Proof.
  intros. replace n with (k + (n - k)) at 1 by lia. rewrite counting_app, zdrop_app_ge by (rewrite ?zlen_counting; lia).
  by rewrite zlen_counting, zdrop_0 by lia.
Qed.

Lemma writer_step_ok w r s : threads_inv w r s -> returns (writer_step s) (fun s' => exists w', w <= w' /\ threads_inv w' r s').
Proof.
  intros [Hwf Hr Hc Hw Hrd Hb]. unfold writer_step. destruct (th_writer s) as [i|i len|] eqn:Ews.
  - subst i. set (n := 11 + w mod 17). assert (0 <= n <= 27) by (pose proof (Z.mod_pos_bound w 17); lia).
    destruct (writer_write_view (th_ring s) 0 (counting w n) Hwf) as (rb & -> & Hwf' & _ & Hc' & Hs'); [lia|]. rewrite zlen_counting in * by lia.
    set (k := xfer n (zlen (space (th_ring s))) 0) in *. assert (0 <= k <= n /\ k <= zlen (space (th_ring s))) by (unfold k, xfer; zlen_facts; lia).
    cbn. exists w. split; [lia|]. constructor; cbn; try done; [by rewrite Hc'|]. split; [done|].
    rewrite Hs', counting_take in * by lia. unfold splice. rewrite ztake_0 by lia. cbn [app].
    assert (zlen (Some <$> counting w k) = k) as Hk by (by rewrite zlen_fmap, zlen_counting by lia).
    rewrite zlen_app, Hk, zlen_zdrop. split; [lia|]. by rewrite ztake_app_le, ztake_ge by lia.
  - destruct Hw as (-> & Hlen & Hsp). destruct (writer_advance_view (th_ring s) len Hwf) as (rb & -> & Hwf' & _ & Hc' & Hs'); [lia|].
    rewrite Z.min_l in * by lia. cbn. exists (w + len). split; [lia|].
    assert (contents rb = Some <$> counting r (w + len - r)) as Hcont.
    { rewrite Hc', Hc, Hsp, <- fmap_app. f_equal. replace (w + len - r) with (w - r + len) by lia.
      rewrite (counting_app r (w - r) len) by lia. do 2 f_equal. lia. }
    constructor; cbn; try done; [lia|by destruct (total <=? w + len)|]. destruct (th_reader s); [done|intuition lia|done].
  - cbn. exists w. split; [lia|]. constructor; by rewrite ?Ews.
Qed.

Lemma reader_step_ok w r s : threads_inv w r s -> returns (reader_step s) (fun s' => exists r', r <= r' /\ threads_inv w r' s').
Proof.
  intros [Hwf Hr Hc Hw Hrd Hb]. unfold reader_step. destruct (th_reader s) as [i|i n|] eqn:Ers.
  - subst i. assert (zlen (contents (th_ring s)) = w - r) as Hl by (by rewrite Hc, zlen_fmap, zlen_counting by lia).
    set (k := xfer 32 (w - r) 0). assert (0 <= k <= w - r /\ k <= 32) by (unfold k, xfer; lia).
    pose proof (reader_read_view (th_ring s) 0 (th_buffer s) (counting r k) Hwf ltac:(lia)) as Hrv. cbn zeta in Hrv. rewrite Hl, Hb in Hrv. fold k in Hrv.
    rewrite Hrv by (rewrite Hc, zdrop_0, fmap_Some_ztake, counting_take by lia; done). cbn [mbind res_bind].
    assert (zlen (counting r k) = k) as Hk by (by apply zlen_counting; lia).
    rewrite slice_ok by (rewrite ?zlen_app, ?Hk, ?zlen_zdrop, ?Hb; lia). cbn [mbind res_bind].
    rewrite Z.sub_0_r, (zdrop_0 0), ztake_app_le, ztake_ge by lia. unfold assert_eq. rewrite bool_decide_true by done.
    cbn. exists r. split; [lia|]. constructor; cbn [th_ring th_writer th_reader th_buffer]; try done; [lia|]. rewrite zlen_app, zlen_zdrop, Hk, Hb. lia.
  - destruct Hrd as (-> & Hn). assert (zlen (contents (th_ring s)) = w - r) as Hl by (by rewrite Hc, zlen_fmap, zlen_counting by lia).
    destruct (reader_advance_view (th_ring s) n Hwf) as (rb & Hra & Hwf' & _ & Hc' & Hs'); [lia|]. rewrite Hra. rewrite Hl, Z.min_l in * by lia.
    cbn [mbind res_bind]. unfold assert_eq. rewrite bool_decide_true by done. cbn. exists (r + n). split; [lia|].
    assert (contents rb = Some <$> counting (r + n) (w - (r + n))) as Hcont.
    { rewrite Hc', Hc, fmap_Some_zdrop, counting_drop by lia. do 2 f_equal. lia. }
    constructor; cbn; try done; [lia| |by destruct (total <=? r + n)].
    destruct (th_writer s) as [j|j len|]; [done| |done]. destruct Hw as (-> & Hlen & Hsp). rewrite Hs', zlen_app, ztake_app_le by lia.
    split; [done|]. split; [zlen_facts; lia|done].
  - cbn. exists r. split; [lia|]. constructor; by rewrite ?Ers.
Qed.
End ThreadedTest.

Import ThreadedTest.

(** C12. The test with two threads passes under every interleaving of their calls: no call
    panics, the bytes read are those written, in order, and the reader is never ahead. *)
Theorem threaded_test_passes schedule : exists s w r, threaded_read_write schedule = Val s /\ 0 <= r <= w /\
  contents (th_ring s) = Some <$> counting r (w - r) /\
  (forall i, th_writer s = WriterWrites i -> i = w) /\ (forall i, th_reader s = ReaderReads i -> i = r).
Proof.
  unfold threaded_read_write. destruct (ring_new_view 64) as (rb & -> & Hwf & _ & Hc & _); [unfold isize_max; lia|]. cbn [mbind res_bind].
  assert (forall s w r, threads_inv w r s -> returns (run_test (fun writes : bool => if writes then writer_step else reader_step) schedule s)
    (fun s' => exists w' r', threads_inv w' r' s')) as Hrun.
  { induction schedule as [|writes schedule IH]; intros s w r Hs; [by exists w, r|]. cbn [run_test].
    pose proof (writer_step_ok w r s Hs) as Hw. pose proof (reader_step_ok w r s Hs) as Hr.
    destruct writes; [apply returns_iff in Hw as (s' & -> & w' & _ & H)|apply returns_iff in Hr as (s' & -> & w' & _ & H)]; by eapply IH. }
  specialize (Hrun (mkThreads rb (WriterWrites 0) (ReaderReads 0) (replicate 32 0)) 0 0). apply returns_iff in Hrun as (s & -> & w & r & [_ Ho Hcs Hw Hr _]).
  - exists s, w, r. split_and!; try done; try lia; intros i Hi; [by rewrite Hi in Hw|by rewrite Hi in Hr].
  - by constructor.
Qed.

(** With fair turns both threads end. *)
Definition fair_turns (n : nat) : list bool := concat (replicate n [true; true; false; false]).
Lemma threaded_test_ends : (fun s => (th_writer s, th_reader s)) <$> threaded_read_write (fair_turns 600) = Val (WriterDone, ReaderDone).
Proof. vm_compute. reflexivity. Qed.
