(* ===== verification/BandwidthLimiter.v ===== *)
(** Time and bandwidth: IEEE doubles on the Standard Library's [SpecFloat],
    [Duration], the [Timer] trait of runtime.rs as a class, and the
    [BandwidthLimiter] of bandwidth_limiter.rs. *)

From S2P Require Import Prelude.
From Stdlib Require Import SpecFloat.

(** * [f64] *)

Abbreviation f64 := spec_float (only parsing).

Definition prec : Z := 53.
Definition emax : Z := 1024.
Definition f64_of_int (x : Z) : f64 := binary_normalize prec emax x 0 false.
Definition f64_zero : f64 := S754_zero false.
Definition f64_add : f64 -> f64 -> f64 := SFadd prec emax.
Definition f64_sub : f64 -> f64 -> f64 := SFsub prec emax.
Definition f64_mul : f64 -> f64 -> f64 := SFmul prec emax.
Definition f64_div : f64 -> f64 -> f64 := SFdiv prec emax.

(** [a.min(b)]: the other argument when one is NaN. *)
Definition f64_min (a b : f64) : f64 :=
  match SFcompare a b with
  | Some Gt => b
  | Some _ => a
  | None => match a with S754_nan => b | _ => a end
  end.

(** * Durations and timers *)

(** [Duration], in nanoseconds: at most [u64::MAX] seconds. *)
Abbreviation Duration := Z (only parsing).
Definition nanos_per_sec : Z := 1000000000.
Definition duration_limit : Z := 18446744073709551616 * nanos_per_sec.

Definition as_secs_f64 (d : Duration) : f64 :=
  f64_add (f64_of_int (d / nanos_per_sec))
    (f64_div (f64_of_int (d mod nanos_per_sec)) (f64_of_int nanos_per_sec)).

(** [n / d] rounded to the nearest integer, ties to even. *)
Definition div_round (n d : Z) : Z :=
  let q := n / d in let r := n mod d in
  match 2 * r ?= d with
  | Lt => q
  | Gt => q + 1
  | Eq => if Z.even q then q else q + 1
  end.

(** [Duration::from_secs_f64] panics on a value that is negative, not finite or
    too large. *)
Definition from_secs_f64 (x : f64) : res Duration :=
  match x with
  | S754_zero _ => Val 0
  | S754_finite false m e =>
    let n := Zpos m * nanos_per_sec in
    let d := if 0 <=? e then n * 2 ^ e else div_round n (2 ^ (- e)) in
    _ ← assert (d <? duration_limit); Val d
  | _ => Fault AssertFailed
  end.

(** [Timer]: reading the clock moves the environment on; the duration between two
    instants may panic when they are given in the wrong order. *)
Class Timer (T Instant : Type) := {
  now : T -> T * Instant;
  duration_between : T -> Instant -> Instant -> res Duration;
}.

(** What a clock promises: [seen t i] holds of the instants read up to state [t],
    and the duration from such an instant to the one read next exists. *)
Class TimerLaws (T Instant : Type) `{Timer T Instant} := {
  seen : T -> Instant -> Prop;
  seen_now t : seen (now t).1 (now t).2;
  seen_mono t i : seen t i -> seen (now t).1 i;
  duration_ok t i : seen t i ->
    exists d, duration_between (now t).1 i (now t).2 = Val d /\ 0 <= d < duration_limit;
}.

(** * The limiter *)

Section limiter.
Context {T Instant : Type} `{Timer T Instant}.

Record BandwidthLimiter := mkBandwidthLimiter {
  bandwidth : Z;
  burst_bandwidth : Z;
  available : f64;
  last_calculation : Instant;
}.

Definition BandwidthLimiter_new (timer : T) (bandwidth burst_bandwidth : Z)
    : T * BandwidthLimiter :=
  let (timer, last_calculation) := now timer in
  (timer, mkBandwidthLimiter bandwidth burst_bandwidth (f64_of_int burst_bandwidth) last_calculation).

(** The duration to sleep for, if any. *)
Definition delay_until_available (l : BandwidthLimiter) : res (option Duration) :=
  if SFltb (available l) f64_zero then
    d ← from_secs_f64 (f64_div (SFopp (available l)) (f64_of_int (bandwidth l)));
    Val (Some d)
  else Val None.

Definition update_available (l : BandwidthLimiter) (timer : T) : res (T * BandwidthLimiter) :=
  let (timer, t) := now timer in
  d ← duration_between timer (last_calculation l) t;
  let a := f64_add (available l) (f64_mul (as_secs_f64 d) (f64_of_int (bandwidth l))) in
  let a := f64_min a (f64_of_int (burst_bandwidth l)) in
  Val (timer, mkBandwidthLimiter (bandwidth l) (burst_bandwidth l) a t).

Definition bytes_available (l : BandwidthLimiter) : bool := SFleb f64_zero (available l).

Definition take_bytes (l : BandwidthLimiter) (bytes : Z) : BandwidthLimiter :=
  mkBandwidthLimiter (bandwidth l) (burst_bandwidth l)
    (f64_sub (available l) (f64_of_int bytes)) (last_calculation l).
End limiter.

Arguments BandwidthLimiter Instant : clear implicits.

(** A use of a limiter: the clock is read and credit added, or bytes are taken. *)
Inductive limiter_op :=
| OpUpdate
| OpTake (bytes : Z).

Section runs.
Context {T Instant : Type} `{Timer T Instant}.

Fixpoint limiter_run (ops : list limiter_op) (timer : T) (l : BandwidthLimiter Instant)
    : res (T * BandwidthLimiter Instant) :=
  match ops with
  | [] => Val (timer, l)
  | OpUpdate :: ops => '(timer, l) ← update_available l timer; limiter_run ops timer l
  | OpTake bytes :: ops => limiter_run ops timer (take_bytes l bytes)
  end.

Definition limiter_op_ok (o : limiter_op) : Prop :=
  match o with OpUpdate => True | OpTake bytes => 0 <= bytes < 4294967296 end.
End runs.

(** * Lemmas *)

Definition not_nan (a : f64) : bool := match a with S754_nan => false | _ => true end.
Definition finite (a : f64) : bool :=
  match a with S754_zero _ | S754_finite _ _ _ => true | _ => false end.

Lemma SFleb_refl a : not_nan a -> SFleb a a.
Proof.
  destruct a as [s|s| |s m e]; try destruct s; cbn; try done; intros _;
    unfold SFleb; cbn; rewrite Z.compare_refl;
    by change (Pos.compare_cont Eq m m) with (Pos.compare m m); rewrite Pos.compare_refl.
Qed.

Lemma f64_min_not_nan a b : not_nan b -> not_nan (f64_min a b).
Proof. unfold f64_min. destruct a, b; cbn; try done; repeat case_match; done. Qed.

Lemma f64_min_le a b : not_nan b -> SFleb (f64_min a b) b.
Proof.
  intros Hb. unfold f64_min. destruct (SFcompare a b) as [[]|] eqn:E.
  - unfold SFleb. by rewrite E.
  - unfold SFleb. by rewrite E.
  - by apply SFleb_refl.
  - destruct a; [by destruct b..| |by destruct b]. by apply SFleb_refl.
Qed.

(** Rounding a non-negative mantissa gives a number. *)
Lemma shr_1_nonneg r : 0 <= shr_m r -> 0 <= shr_m (shr_1 r).
Proof. destruct r as [[|[p|p|]|[p|p|]] a b]; cbn; lia. Qed.
Lemma iter_shr_nonneg p : forall r, 0 <= shr_m r -> 0 <= shr_m (iter_pos shr_1 p r).
Proof. induction p as [p IH|p IH|]; intros r Hr; cbn; auto using shr_1_nonneg. Qed.
Lemma shr_fexp_nonneg m e l : 0 <= m -> 0 <= shr_m (shr_fexp prec emax m e l).1.
Proof.
  intros Hm. unfold shr_fexp, shr.
  assert (0 <= shr_m (shr_record_of_loc m l)) by (by destruct l as [|[]]).
  destruct (fexp _ _ _ - e); cbn; auto using iter_shr_nonneg.
Qed.
Lemma round_nonneg m l : 0 <= m -> 0 <= round_nearest_even m l.
Proof. destruct l as [|[]]; cbn; repeat case_match; lia. Qed.

Lemma binary_round_aux_not_nan s m e l : 0 <= m -> not_nan (binary_round_aux prec emax s m e l).
Proof.
  intros Hm. unfold binary_round_aux.
  pose proof (shr_fexp_nonneg m e l Hm) as H1. destruct (shr_fexp prec emax m e l) as [r e1]. cbn in H1.
  pose proof (shr_fexp_nonneg _ e1 loc_Exact (round_nonneg _ (loc_of_shr_record r) H1)) as H2.
  destruct (shr_fexp prec emax (round_nearest_even _ _) e1 loc_Exact) as [r2 e2]. cbn in H2.
  destruct (shr_m r2); [done| |lia]. by case_match.
Qed.

Lemma normalize_not_nan m e s : not_nan (binary_normalize prec emax m e s).
Proof.
  destruct m as [|p|p]; cbn; [done|unfold binary_round..]; destruct (shl_align _ _ _) as [mz ez];
    apply binary_round_aux_not_nan; lia.
Qed.

Lemma f64_sub_not_nan a b : not_nan a -> finite b -> not_nan (f64_sub a b).
Proof.
  intros Ha Hb. destruct a as [s|s| |s m e], b as [s'|s'| |s' m' e']; try done; cbn;
    try (by destruct s, s'). apply normalize_not_nan.
Qed.

(** An integer of fewer than 54 bits is exact, so it does not overflow. *)
Lemma digits2_iter m d : Zpos (digits2_pos (Pos.iter xO m d)) = Zpos (digits2_pos m) + Zpos d.
Proof.
  induction d as [|d IH] using Pos.peano_ind; cbn; [lia|]. rewrite Pos.iter_succ. cbn. lia.
Qed.

Lemma binary_round_exact s m e :
  fexp prec emax (Zpos (digits2_pos m) + e) = e -> e <= emax - prec ->
  binary_round_aux prec emax s (Zpos m) e loc_Exact = S754_finite s m e.
Proof.
  intros He Hle. unfold binary_round_aux, shr_fexp. cbn [Zdigits2]. rewrite He, Z.sub_diag. cbn.
  rewrite He, Z.sub_diag. cbn. by rewrite (proj2 (Z.leb_le _ _)) by done.
Qed.

Lemma binary_round_finite s p : Zpos (digits2_pos p) <= prec -> finite (binary_round prec emax s p 0).
Proof.
  intros Hp. unfold binary_round. rewrite Z.add_0_r.
  set (d := Zpos (digits2_pos p)) in *.
  assert (fexp prec emax d = d - prec) as Hf.
  { unfold fexp, emin, prec, emax in *. lia. }
  rewrite Hf. unfold shl_align. rewrite Z.sub_0_r.
  destruct (d - prec) as [|k|k] eqn:Ek; [|lia|].
  - rewrite binary_round_exact; [done| |done]. fold d. rewrite Z.add_0_r. by rewrite Hf.
  - rewrite binary_round_exact; [done| |unfold emax, prec; lia].
    rewrite digits2_iter. fold d. replace (d + Zpos k + Zneg k) with d by lia. congruence.
Qed.

Lemma digits2_bound p n : Zpos p < 2 ^ Z.of_nat n -> Zpos (digits2_pos p) <= Z.of_nat n.
Proof.
  revert p. induction n as [|n IH]; intros p Hp; [cbn in Hp; lia|].
  rewrite Nat2Z.inj_succ, Z.pow_succ_r in Hp by lia.
  destruct p as [p|p|]; cbn [digits2_pos]; [specialize (IH p ltac:(lia))..|]; lia.
Qed.

Lemma f64_of_u32_finite x : 0 <= x < 4294967296 -> finite (f64_of_int x).
Proof.
  intros Hx. destruct x as [|p|p]; [done| |lia].
  cbn. apply binary_round_finite. pose proof (digits2_bound p 32 ltac:(cbn; lia)). unfold prec. lia.
Qed.

Lemma finite_not_nan a : finite a -> not_nan a.
Proof. by destruct a. Qed.

(** * Properties *)

Section runs.
Context {T Instant : Type} `{Timer T Instant}.

Lemma limiter_run_inv ops : forall (timer : T) (l : BandwidthLimiter Instant),
  not_nan (available l) -> Forall limiter_op_ok ops ->
  match limiter_run ops timer l with
  | Val (_, l') => not_nan (available l') /\ burst_bandwidth l' = burst_bandwidth l /\
      bandwidth l' = bandwidth l
  | Fault _ => True
  end.
Proof.
  induction ops as [|[|bytes] ops IH]; intros timer l Hl Hok; [done|..];
    apply Forall_cons in Hok as [Ho Hok]; cbn [limiter_run].
  - unfold update_available. destruct (now timer) as [timer' t]. cbn [mbind res_bind].
    destruct (duration_between timer' (last_calculation l) t) as [d|]; [|done]. cbn [mbind res_bind].
    match goal with |- context [limiter_run ops timer' ?l'] => specialize (IH timer' l') end.
    cbn in IH. apply IH; [|done]. apply f64_min_not_nan, normalize_not_nan.
  - match goal with |- context [limiter_run ops timer ?l'] => specialize (IH timer l') end.
    cbn in IH. apply IH; [|done]. apply f64_sub_not_nan; [done|]. by apply f64_of_u32_finite.
Qed.

(** C39. A limiter either lets bytes through or names a delay to wait for: after any
    sequence of clock readings and takes from a new limiter, [bytes_available]
    holds exactly when [delay_until_available] gives no delay. *)
Theorem limiter_gate ops (timer timer0 timer' : T) bandwidth burst l0 l :
  BandwidthLimiter_new timer0 bandwidth burst = (timer, l0) ->
  Forall limiter_op_ok ops -> limiter_run ops timer l0 = Val (timer', l) ->
  bytes_available l = true <-> delay_until_available l = Val None.
Proof.
  unfold BandwidthLimiter_new. destruct (now timer0) as [tm t]. intros [= <- <-] Hok Hrun.
  match goal with _ : limiter_run ops tm ?l0 = _ |- _ =>
    pose proof (limiter_run_inv ops tm l0 (normalize_not_nan _ _ _) Hok) as Hinv end.
  rewrite Hrun in Hinv. destruct Hinv as [Hn _]. unfold bytes_available, delay_until_available.
  destruct (available l) as [s|s| |s m e]; try destruct s; cbn in *; try done.
  - split; [done|]. by intros (? & _ & ?)%bind_val.
  - split; [done|]. by intros (? & _ & ?)%bind_val.
Qed.

(** Credit never accumulates beyond the burst: right after the clock was read
    the available bytes are at most [burst_bandwidth], however long the limiter
    was idle and whatever the clock answered. *)
Theorem limiter_capped ops (timer timer0 timer' timer'' : T) bandwidth burst l0 l l' :
  BandwidthLimiter_new timer0 bandwidth burst = (timer, l0) ->
  Forall limiter_op_ok ops -> limiter_run ops timer l0 = Val (timer', l) ->
  update_available l timer' = Val (timer'', l') ->
  SFleb (available l') (f64_of_int burst) = true.
Proof.
  unfold BandwidthLimiter_new. destruct (now timer0) as [tm t]. intros [= <- <-] Hok Hrun Hup.
  match goal with _ : limiter_run ops tm ?l0 = _ |- _ =>
    pose proof (limiter_run_inv ops tm l0 (normalize_not_nan _ _ _) Hok) as Hinv end.
  rewrite Hrun in Hinv. destruct Hinv as (_ & Hb & _). cbn in Hb. revert Hup.
  unfold update_available. destruct (now timer') as [tm' t'].
  destruct (duration_between _ _ _) as [d|]; [|done]. intros [= <- <-]. cbn. rewrite Hb.
  apply Is_true_true. apply f64_min_le, normalize_not_nan.
Qed.
End runs.

(** A clock that advances by one second at each reading. *)
#[export] Instance ticking : Timer Z Z := {|
  now t := (t + nanos_per_sec, t + nanos_per_sec);
  duration_between _ a b := Val (b - a);
|}.

(** A limiter of 1000 bytes per second that took 2600 of its 1500 bytes and then
    was idle for two seconds. *)
Definition example_limiter : BandwidthLimiter Z :=
  mkBandwidthLimiter 1000 1500 (f64_of_int 900) (3 * nanos_per_sec).
Definition example_ops : list limiter_op := [OpTake 1400; OpTake 1200; OpUpdate; OpUpdate].

Lemma limiter_gate_witness :
  limiter_run example_ops nanos_per_sec
    (mkBandwidthLimiter 1000 1500 (f64_of_int 1500) nanos_per_sec) =
    Val (3 * nanos_per_sec, example_limiter) /\
  delay_until_available example_limiter = Val None.
Proof.
  split; [vm_compute; reflexivity|].
  apply (limiter_gate example_ops nanos_per_sec 0 (3 * nanos_per_sec) 1000 1500
    (mkBandwidthLimiter 1000 1500 (f64_of_int 1500) nanos_per_sec) example_limiter);
    [reflexivity|repeat constructor; cbn; lia|vm_compute; reflexivity|vm_compute; reflexivity].
Defined.

Lemma limiter_capped_witness : exists l,
  update_available example_limiter (3 * nanos_per_sec) = Val (4 * nanos_per_sec, l) /\
  SFleb (available l) (f64_of_int 1500) = true.
Proof.
  exists (mkBandwidthLimiter 1000 1500 (f64_of_int 1500) (4 * nanos_per_sec)).
  split; [vm_compute; reflexivity|].
  apply (limiter_capped example_ops nanos_per_sec 0 (3 * nanos_per_sec) (4 * nanos_per_sec) 1000 1500
    (mkBandwidthLimiter 1000 1500 (f64_of_int 1500) nanos_per_sec) example_limiter);
    [reflexivity|repeat constructor; cbn; lia|vm_compute; reflexivity|vm_compute; reflexivity].
Defined.
