(* ===== verification/Packet.v ===== *)
(** Packets and packet pools: the [Packet] and [PacketPool] traits of packet.rs
    as type classes with the laws their clients rely on, and [BufferPacket] and
    [BufferPacketPool] of buffer.rs, which discharge them for any buffer of a
    fixed length. Bytes are integers of [0, 256). *)

From S2P Require Import Prelude.

Definition is_byte (b : Z) : Prop := 0 <= b < 256.

(** [l.resize(len, v)] on a growable list: cut off, or fill with [v]. *)
Definition resized (l : list Z) (len v : Z) : list Z :=
  ztake len l ++ replicate (Z.to_nat (len - zlen l)) v.

Definition MAX_PACKET_LEN : Z := 32768.

(** * The traits *)

(** [Packet]: [deref] is the bytes a packet derefs to, [set_bytes] the packet
    after these bytes were overwritten through [deref_mut]. *)
Class Packet (P : Type) := {
  deref : P -> list Z;
  packet_capacity : P -> Z;
  set_bytes : P -> list Z -> P;
  resize : P -> Z -> Z -> res P;
}.

(** [Packet::extend], [Packet::truncate] and [Packet::clear], provided by the
    trait. *)
Definition extend `{Packet P} (p : P) (other : list Z) : res P :=
  let cur_len := zlen (deref p) in
  new_len ← usize_add cur_len (zlen other);
  p ← resize p new_len 0;
  dst ← slice (deref p) cur_len new_len;
  _ ← assert (zlen dst =? zlen other);
  Val (set_bytes p (splice cur_len other (deref p))).

Definition truncate `{Packet P} (p : P) (len : Z) : res P :=
  resize p (Z.min len (zlen (deref p))) 0.

Definition clear_packet `{Packet P} (p : P) : res P := resize p 0 0.

(** [packet[a..a + bs.len()].copy_from_slice(bs)] *)
Definition put_bytes `{Packet P} (p : P) (a : Z) (bs : list Z) : res P :=
  _ ← slice (deref p) a (a + zlen bs);
  Val (set_bytes p (splice a bs (deref p))).

(** What the clients of packets rely on, for the packets [packet_wf]. *)
Class PacketLaws (P : Type) `{Packet P} := {
  packet_wf : P -> Prop;
  deref_len p : packet_wf p -> zlen (deref p) <= packet_capacity p;
  resize_ok p len v : packet_wf p -> 0 <= len <= packet_capacity p ->
    exists q, resize p len v = Val q /\ packet_wf q /\ deref q = resized (deref p) len v /\
      packet_capacity q = packet_capacity p;
  resize_over p len v : packet_wf p -> packet_capacity p < len -> exists e, resize p len v = Fault e;
  set_bytes_ok p bs : packet_wf p -> zlen bs = zlen (deref p) ->
    packet_wf (set_bytes p bs) /\ deref (set_bytes p bs) = bs /\
    packet_capacity (set_bytes p bs) = packet_capacity p;
}.

(** [PacketPool]: every packet it hands out is empty and has the pool's capacity. *)
Class PacketPool (Pool P : Type) := {
  pool_capacity : Pool -> Z;
  acquire : Pool -> Pool * P;
}.

Class PacketPoolLaws (Pool P : Type) `{PacketLaws P} `{!PacketPool Pool P} : Prop := {
  pool_capacity_pos (pool : Pool) : 0 <= pool_capacity pool < usize_modulus;
  acquire_ok (pool : Pool) : packet_wf (acquire pool).2 /\
    packet_capacity (acquire pool).2 = pool_capacity pool /\
    pool_capacity (acquire pool).1 = pool_capacity pool;
  acquire_empty (pool : Pool) : deref (acquire pool).2 = [];
}.

(** * [BufferPacket] *)

Record BufferPacket := mkBufferPacket { bp_buffer : list Z; bp_len : Z }.

(** [for i in i..i + count { buffer[i] = val }] *)
Fixpoint fill (buffer : list Z) (i : Z) (count : nat) (val : Z) : res (list Z) :=
  match count with
  | O => Val buffer
  | S count => buffer ← set_index buffer i val; fill buffer (i + 1) count val
  end.

Definition BufferPacket_resize (p : BufferPacket) (len val : Z) : res BufferPacket :=
  _ ← assert (len <=? zlen (bp_buffer p));
  buffer ← fill (bp_buffer p) (bp_len p) (Z.to_nat (len - bp_len p)) val;
  Val (mkBufferPacket buffer len).

Definition BufferPacket_deref (p : BufferPacket) : list Z := ztake (bp_len p) (bp_buffer p).

Definition BufferPacket_set (p : BufferPacket) (bs : list Z) : BufferPacket :=
  mkBufferPacket (splice 0 bs (bp_buffer p)) (bp_len p).

(** A [BufferPacket] built by the pool keeps its length within its buffer. *)
Definition buffer_packet_wf (p : BufferPacket) : Prop := 0 <= bp_len p <= zlen (bp_buffer p).

(** The wrapped allocator of buffers of one length; the pool hands out packets of
    length zero over its buffers. *)
Class BufferPool (B : Type) := {
  buffer_capacity : B -> Z;
  acquire_buffer : B -> B * list Z;
}.

Class BufferPoolLaws (B : Type) `{BufferPool B} : Prop := {
  buffer_capacity_pos b : 0 <= buffer_capacity b < usize_modulus;
  acquire_buffer_ok b : zlen (acquire_buffer b).2 = buffer_capacity b /\
    buffer_capacity (acquire_buffer b).1 = buffer_capacity b;
}.

#[export] Instance BufferPacket_packet : Packet BufferPacket := {|
  deref := BufferPacket_deref;
  packet_capacity p := zlen (bp_buffer p);
  set_bytes := BufferPacket_set;
  resize := BufferPacket_resize;
|}.

Record BufferPacketPool (B : Type) := mkBufferPacketPool { buffer_pool : B }.
Arguments mkBufferPacketPool {B} _.
Arguments buffer_pool {B} _.

#[export] Instance BufferPacketPool_pool `{BufferPool B} : PacketPool (BufferPacketPool B) BufferPacket := {|
  pool_capacity pool := buffer_capacity (buffer_pool pool);
  acquire pool :=
    let (b, buffer) := acquire_buffer (buffer_pool pool) in
    (mkBufferPacketPool b, mkBufferPacket buffer 0);
|}.

(** * Lemmas *)

Lemma zlen_replicate {A} n (x : A) : zlen (replicate n x) = Z.of_nat n.
Proof. unfold zlen. by rewrite length_replicate. Qed.
Lemma zlen_resized l len v : 0 <= len -> zlen (resized l len v) = len.
Proof. intros. unfold resized. rewrite zlen_app, zlen_ztake, zlen_replicate. zlen_facts. lia. Qed.
Lemma resized_grow l len v :
  zlen l <= len -> resized l len v = l ++ replicate (Z.to_nat (len - zlen l)) v.
Proof. intros. unfold resized. by rewrite ztake_ge. Qed.
Lemma resized_shrink l len v : len <= zlen l -> resized l len v = ztake len l.
Proof.
  intros. unfold resized. replace (Z.to_nat (len - zlen l)) with 0%nat by lia. apply app_nil_r.
Qed.
Lemma fill_ok m : forall a l val,
  Z.of_nat m <= zlen l ->
  fill (a ++ l) (zlen a) m val = Val (a ++ replicate m val ++ drop m l).
Proof.
  induction m as [|m IH]; intros a l val Hl; [done|]. destruct l as [|x l]; [rewrite zlen_nil in Hl; lia|].
  rewrite zlen_cons in Hl. cbn [fill]. rewrite set_index_mid. cbn [mbind res_bind].
  specialize (IH (a ++ [val]) l val ltac:(lia)). rewrite zlen_app, <- !app_assoc in IH.
  exact IH.
Qed.

Lemma BufferPacket_resize_ok p len v :
  buffer_packet_wf p -> 0 <= len <= zlen (bp_buffer p) ->
  exists q, BufferPacket_resize p len v = Val q /\ buffer_packet_wf q /\
    BufferPacket_deref q = resized (BufferPacket_deref p) len v /\
    zlen (bp_buffer q) = zlen (bp_buffer p).
Proof.
  intros Hwf Hlen. unfold buffer_packet_wf in Hwf. destruct p as [b n]. cbn in *.
  unfold BufferPacket_resize, BufferPacket_deref, buffer_packet_wf. cbn.
  rewrite (proj2 (Z.leb_le _ _)) by lia. cbn [assert mbind res_bind].
  set (m := Z.to_nat (len - n)).
  pose proof (fill_ok m (ztake n b) (zdrop n b) v) as Hf.
  rewrite ztake_zdrop, zlen_ztake, zlen_zdrop, !(Z.max_r 0), Z.min_l in Hf by lia.
  rewrite Hf by lia. cbn [mbind res_bind]. eexists. split; [done|]. cbn.
  assert (zlen (ztake n b ++ replicate m v ++ drop m (zdrop n b)) = zlen b) as Hz.
  { rewrite !zlen_app, zlen_replicate, zlen_ztake.
    replace (drop m (zdrop n b)) with (zdrop (Z.of_nat m) (zdrop n b))
      by (unfold zdrop at 1; by rewrite Nat2Z.id).
    rewrite !zlen_zdrop. lia. }
  split; [lia|]. split; [|done]. unfold resized. rewrite zlen_ztake.
  rewrite (Z.max_r 0 n), (Z.min_l n) by lia. fold m. rewrite ztake_ztake.
  destruct (Z.le_gt_cases len n).
  - replace m with 0%nat by lia. rewrite ztake_app_le by (rewrite zlen_ztake; lia).
    rewrite ztake_ztake, app_nil_r. done.
  - rewrite ztake_app_ge by (rewrite zlen_ztake; lia). f_equal; [apply ztake_ext; lia|].
    rewrite zlen_ztake. rewrite ztake_app_le, ztake_ge by (rewrite zlen_replicate; lia). done.
Qed.

#[export] Instance BufferPacket_laws : PacketLaws BufferPacket.
Proof.
  refine {| packet_wf := buffer_packet_wf |}; cbn.
  - intros p Hwf. unfold BufferPacket_deref. rewrite zlen_ztake. unfold buffer_packet_wf in Hwf. lia.
  - intros p len v Hwf Hlen. by apply BufferPacket_resize_ok.
  - intros p len v _ Hlen. unfold BufferPacket_resize. rewrite (proj2 (Z.leb_gt _ _)) by lia. by eexists.
  - intros [b n] bs Hwf Hbs. unfold buffer_packet_wf, BufferPacket_deref, BufferPacket_set in *. cbn in *.
    rewrite zlen_ztake in Hbs. rewrite zlen_splice by lia. split_and!; [lia|lia| |done].
    unfold splice. rewrite (ztake_0 0) by lia. cbn [app]. rewrite ztake_app_le, ztake_ge by lia. done.
Defined.

#[export] Instance BufferPacketPool_laws `{BufferPoolLaws B} : PacketPoolLaws (BufferPacketPool B) BufferPacket.
Proof.
  constructor; intros [b]; cbn; destruct (acquire_buffer_ok b) as [Hl Hc];
    pose proof (buffer_capacity_pos b).
  - lia.
  - destruct (acquire_buffer b) as [b' buffer]. cbn in *. split_and!; [|done|done].
    unfold buffer_packet_wf. cbn. zlen_facts. lia.
  - destruct (acquire_buffer b). by apply ztake_0.
Qed.

Section provided.
Context `{PacketLaws P}.

Lemma extend_ok (p : P) other :
  packet_wf p -> zlen (deref p) + zlen other <= packet_capacity p < usize_modulus ->
  exists q, extend p other = Val q /\ packet_wf q /\ deref q = deref p ++ other /\
    packet_capacity q = packet_capacity p.
Proof.
  intros Hwf Hlen. zlen_facts. unfold extend. rewrite usize_add_ok by lia. cbn [mbind res_bind].
  destruct (resize_ok p (zlen (deref p) + zlen other) 0 Hwf) as (q & -> & Hq & Hd & Hc); [lia|].
  cbn [mbind res_bind]. rewrite resized_grow in Hd by lia.
  set (m := Z.to_nat (zlen (deref p) + zlen other - zlen (deref p))) in *.
  assert (Z.of_nat m = zlen other) as Hm by lia.
  assert (zlen (deref q) = zlen (deref p) + zlen other) as Hl
    by (rewrite Hd, zlen_app, zlen_replicate; lia).
  rewrite slice_ok by lia. cbn [mbind res_bind]. rewrite zlen_sub by lia.
  replace (zlen (deref p) + zlen other - zlen (deref p)) with (zlen other) by lia.
  rewrite Z.eqb_refl. cbn [assert mbind res_bind].
  destruct (set_bytes_ok q (splice (zlen (deref p)) other (deref q))) as (Hw & Hb & Hcap); [done| |].
  { rewrite zlen_splice by lia. done. }
  eexists. split; [done|]. split; [done|]. split; [|congruence]. rewrite Hb, Hd. unfold splice.
  rewrite ztake_app_le, ztake_ge by lia. rewrite zdrop_ge by (rewrite zlen_app, zlen_replicate; lia).
  by rewrite app_nil_r.
Qed.
Lemma truncate_ok (p : P) len :
  packet_wf p -> 0 <= len ->
  exists q, truncate p len = Val q /\ packet_wf q /\ deref q = ztake len (deref p) /\
    packet_capacity q = packet_capacity p.
Proof.
  intros Hwf Hlen. pose proof (deref_len p Hwf). zlen_facts. unfold truncate.
  destruct (resize_ok p (Z.min len (zlen (deref p))) 0 Hwf) as (q & -> & Hq & Hd & Hc); [lia|].
  exists q. rewrite Hd, resized_shrink by lia. split_and!; try done. apply ztake_ext. lia.
Qed.

(** Part of a packet overwritten. *)
Lemma put_bytes_ok (p : P) a bs :
  packet_wf p -> 0 <= a -> a + zlen bs <= zlen (deref p) ->
  exists q, put_bytes p a bs = Val q /\ packet_wf q /\ deref q = splice a bs (deref p) /\
    packet_capacity q = packet_capacity p.
Proof.
  intros Hwf Ha Hlen. unfold put_bytes. zlen_facts. rewrite slice_ok by lia. cbn [mbind res_bind].
  destruct (set_bytes_ok p (splice a bs (deref p)) Hwf) as (? & ? & ?); [by apply zlen_splice|].
  by eexists.
Qed.
End provided.

(** * Properties *)

(** [Packet::extend] appends the bytes, [truncate] keeps at most so many and
    [clear] none, for every packet type that keeps the laws of the trait;
    [extend] beyond the capacity panics. *)
Theorem packet_provided_methods `{PacketLaws P} (p : P) other len :
  packet_wf p -> packet_capacity p < usize_modulus -> 0 <= len ->
  zlen (deref p) + zlen other < usize_modulus ->
  match extend p other with
  | Val q => deref q = deref p ++ other
  | Fault _ => packet_capacity p < zlen (deref p) + zlen other
  end /\
  (exists q, truncate p len = Val q /\ deref q = ztake len (deref p)) /\
  (exists q, clear_packet p = Val q /\ deref q = []).
Proof.
  intros Hwf Hcap Hlen Hsum. pose proof (deref_len p Hwf). zlen_facts. split_and!.
  - destruct (Z.le_gt_cases (zlen (deref p) + zlen other) (packet_capacity p)) as [Hle|Hgt].
    + by destruct (extend_ok p other Hwf) as (q & -> & _ & Hd & _); [lia|].
    + unfold extend. rewrite usize_add_ok by lia. cbn [mbind res_bind].
      by destruct (resize_over p (zlen (deref p) + zlen other) 0 Hwf) as [e ->]; [lia|].
  - destruct (truncate_ok p len Hwf Hlen) as (q & -> & _ & Hd & _). by exists q.
  - unfold clear_packet. destruct (resize_ok p 0 0 Hwf) as (q & -> & _ & Hd & _); [lia|].
    eexists. split; [done|]. by rewrite Hd, resized_shrink, ztake_0 by lia.
Qed.

Lemma packet_provided_methods_witness : exists q,
  extend (mkBufferPacket [1; 2; 3; 4] 2) [7; 8] = Val q /\ deref q = [1; 2; 7; 8].
Proof.
  destruct (packet_provided_methods (mkBufferPacket [1; 2; 3; 4] 2) [7; 8] 0) as [He _];
    [vm_compute; repeat split; discriminate || reflexivity..|].
  destruct (extend (mkBufferPacket [1; 2; 3; 4] 2) [7; 8]) as [q|e] eqn:E.
  - exists q. split; [reflexivity|exact He].
  - vm_compute in E. discriminate.
Defined.

(** [BufferPacket::resize] keeps the bytes up to the new length and fills the
    rest with the given value, and panics exactly when the new length exceeds
    the buffer; the packets of a [BufferPacketPool] start empty, with the whole
    capacity of the pool. *)
Theorem buffer_packet_resize `{BufferPoolLaws B} (pool : BufferPacketPool B) p len val :
  buffer_packet_wf p -> 0 <= len ->
  match BufferPacket_resize p len val with
  | Val q => len <= zlen (bp_buffer p) /\ BufferPacket_deref q = resized (BufferPacket_deref p) len val /\
      buffer_packet_wf q /\ zlen (bp_buffer q) = zlen (bp_buffer p)
  | Fault e => e = AssertFailed /\ zlen (bp_buffer p) < len
  end /\
  (let q := (acquire pool).2 in buffer_packet_wf q /\ BufferPacket_deref q = [] /\
   zlen (bp_buffer q) = pool_capacity pool).
Proof.
  intros Hwf Hlen. split.
  - destruct (Z.le_gt_cases len (zlen (bp_buffer p))).
    + destruct (BufferPacket_resize_ok p len val Hwf) as (q & -> & ? & ? & ?); [lia|done].
    + unfold BufferPacket_resize. by rewrite (proj2 (Z.leb_gt _ _)) by lia.
  - destruct (acquire_ok pool) as (Hq & Hc & _). cbn zeta. split; [exact Hq|]. split; [|exact Hc].
    destruct pool as [b]. cbn. destruct (acquire_buffer b). by apply ztake_0.
Qed.

(** A pool of four-byte buffers. *)
#[export] Instance four_bytes : BufferPool unit := {|
  buffer_capacity _ := 4;
  acquire_buffer b := (b, [0; 0; 0; 0]);
|}.
#[export] Instance four_bytes_laws : BufferPoolLaws unit.
Proof. constructor; intros []; cbn; [lia|done]. Qed.

Lemma buffer_packet_resize_witness :
  BufferPacket_resize (mkBufferPacket [1; 2; 3; 4] 2) 5 0 = Fault AssertFailed.
Proof.
  destruct (buffer_packet_resize (mkBufferPacketPool tt)
    (mkBufferPacket [1; 2; 3; 4] 2) 5 0) as [H _]; [vm_compute; repeat split; discriminate|lia|].
  destruct (BufferPacket_resize (mkBufferPacket [1; 2; 3; 4] 2) 5 0) as [q|e] eqn:E.
  - vm_compute in E. discriminate.
  - by destruct H as [-> _].
Defined.
