(* ===== verification/Wire.v ===== *)
(** Fixed-width integers in byte strings: the [ByteOrder] operations of the
    byteorder crate that the channels use, as a class with the behaviour the
    crate documents, the integer casts around them, and the little-endian
    instance. Also the state-and-error monad in which the tasks' handlers are
    written. *)

From S2P Require Import Prelude.

(** * Casts *)

Definition i16_max : Z := 32767.
Definition i16_min : Z := -32768.
Definition u16_max : Z := 65535.

Definition is_i16 (x : Z) : Prop := i16_min <= x <= i16_max.
Definition is_u16 (x : Z) : Prop := 0 <= x <= u16_max.
Definition is_u32 (x : Z) : Prop := 0 <= x < 4294967296.

(** [x as i16], of an integer of at least 16 bits *)
Definition as_i16 (x : Z) : Z := (x + 32768) mod 65536 - 32768.
(** [x as u16] *)
Definition as_u16 (x : Z) : Z := x mod 65536.
(** [x as u8] *)
Definition as_u8 (x : Z) : Z := x mod 256.

(** [-x] on [i16], which overflows on the least value *)
Definition neg_i16 (x : Z) : res Z :=
  if x =? i16_min then Fault Overflow else Val (- x).

(** * Byte order *)

Class ByteOrder := {
  read_i16 : list Z -> Z;
  write_i16 : Z -> list Z;
  read_u16 : list Z -> Z;
  write_u16 : Z -> list Z;
  read_u32 : list Z -> Z;
  write_u32 : Z -> list Z;
}.

Class ByteOrderLaws `{ByteOrder} : Prop := {
  write_i16_len x : is_i16 x -> zlen (write_i16 x) = 2;
  write_u16_len x : is_u16 x -> zlen (write_u16 x) = 2;
  write_u32_len x : is_u32 x -> zlen (write_u32 x) = 4;
  read_write_i16 x : is_i16 x -> read_i16 (write_i16 x) = x;
  read_write_u16 x : is_u16 x -> read_u16 (write_u16 x) = x;
  read_write_u32 x : is_u32 x -> read_u32 (write_u32 x) = x;
  read_i16_range l : zlen l = 2 -> is_i16 (read_i16 l);
  read_u16_range l : zlen l = 2 -> is_u16 (read_u16 l);
  read_u32_range l : zlen l = 4 -> is_u32 (read_u32 l);
}.

(** [LittleEndian]: bytes from the least significant one. *)
Fixpoint le_split (n : nat) (x : Z) : list Z :=
  match n with O => [] | S n => x mod 256 :: le_split n (x / 256) end.
Fixpoint le_combine (l : list Z) : Z :=
  match l with [] => 0 | b :: l => b mod 256 + 256 * le_combine l end.

Definition to_i16 (x : Z) : Z := if x <? 32768 then x else x - 65536.

#[export] Instance LittleEndian : ByteOrder := {|
  read_i16 l := to_i16 (le_combine (ztake 2 l));
  write_i16 x := le_split 2 (x mod 65536);
  read_u16 l := le_combine (ztake 2 l);
  write_u16 x := le_split 2 x;
  read_u32 l := le_combine (ztake 4 l);
  write_u32 x := le_split 4 x;
|}.

(** The length of a message in two bytes, and the message. *)
Definition frame `{ByteOrder} (msg : list Z) : list Z := write_u16 (zlen msg) ++ msg.

(** * Handlers *)

(** A handler of a task with state [S]: it may panic, and returns the new state
    with a value or with one of the task's errors. *)
Definition handler (S E A : Type) : Type := S -> res (S * (A + E)).

#[export] Instance handler_ret {S E} : MRet (handler S E) := fun A a s => Val (s, inl a).
#[export] Instance handler_bind {S E} : MBind (handler S E) := fun A B f m s =>
  match m s with
  | Val (s, inl a) => f a s
  | Val (s, inr e) => Val (s, inr e)
  | Fault e => Fault e
  end.

Definition get {S E} : handler S E S := fun s => Val (s, inl s).
Definition modify {S E} (f : S -> S) : handler S E unit := fun s => Val (f s, inl tt).
Definition throw {S E A} (e : E) : handler S E A := fun s => Val (s, inr e).
Definition lift {S E A} (m : res A) : handler S E A := fun s =>
  match m with Val a => Val (s, inl a) | Fault e => Fault e end.

(** [completes h s Q]: run on [s], the handler does not panic, and the state and
    the outcome it ends with satisfy [Q]. *)
Definition completes {S E A} (h : handler S E A) (s : S) (Q : S -> A + E -> Prop) : Prop :=
  returns (h s) (fun '(s', o) => Q s' o).

(** * Lemmas *)

Section handlers.
Context {S E : Type}.

Lemma completes_ret {A} (a : A) (s : S) (Q : S -> A + E -> Prop) :
  Q s (inl a) -> completes (mret a) s Q.
Proof. done. Qed.
Lemma completes_throw {A} (e : E) (s : S) (Q : S -> A + E -> Prop) :
  Q s (inr e) -> completes (throw e) s Q.
Proof. done. Qed.
Lemma completes_get (s : S) (Q : S -> S + E -> Prop) : Q s (inl s) -> completes get s Q.
Proof. done. Qed.
Lemma completes_modify f (s : S) (Q : S -> unit + E -> Prop) :
  Q (f s) (inl tt) -> completes (modify f) s Q.
Proof. done. Qed.
Lemma completes_lift {A} (m : res A) (s : S) (Q : S -> A + E -> Prop) :
  returns m (fun a => Q s (inl a)) -> completes (lift m) s Q.
Proof. by destruct m. Qed.
Lemma completes_bind {A B} (m : handler S E A) (k : A -> handler S E B) (s : S) Q :
  completes m s (fun s' o => match o with inl a => completes (k a) s' Q | inr e => Q s' (inr e) end) ->
  completes (m ≫= k) s Q.
Proof.
  unfold completes, mbind, handler_bind. destruct (m s) as [[s' [a|e]]|]; done.
Qed.
Lemma completes_inv {A} (m : handler S E A) (s : S) Q :
  completes m s Q -> exists s' o, m s = Val (s', o) /\ Q s' o.
Proof. unfold completes. rewrite returns_iff. intros ([s' o] & Hm & HQ). by exists s', o. Qed.
Lemma completes_mono {A} (m : handler S E A) (s : S) (Q Q' : S -> A + E -> Prop) :
  completes m s Q -> (forall s' o, Q s' o -> Q' s' o) -> completes m s Q'.
Proof.
  unfold completes. intros H HQ. eapply returns_mono; [exact H|]. intros [s' o]. apply HQ.
Qed.
End handlers.

Lemma zlen_le_split n x : zlen (le_split n x) = Z.of_nat n.
Proof.
  revert x. induction n as [|n IH]; intros x; [done|]. cbn [le_split]. rewrite zlen_cons, IH. lia.
Qed.
Lemma le_combine_split n x : 0 <= x < 256 ^ Z.of_nat n -> le_combine (le_split n x) = x.
Proof.
  revert x. induction n as [|n IH]; intros x Hx; [change (256 ^ Z.of_nat 0) with 1 in Hx; cbn; lia|].
  rewrite Nat2Z.inj_succ, Z.pow_succ_r in Hx by lia. cbn [le_split le_combine].
  rewrite IH by (split; [apply Z.div_pos; lia|apply Z.div_lt_upper_bound; lia]).
  rewrite Z.mod_mod by lia. pose proof (Z.div_mod x 256). lia.
Qed.
Lemma le_combine_range l : 0 <= le_combine l < 256 ^ zlen l.
Proof.
  induction l as [|b l IH]; [by vm_compute|]. rewrite zlen_cons, Z.pow_add_r by (zlen_facts; lia).
  cbn [le_combine]. pose proof (Z.mod_pos_bound b 256). lia.
Qed.

#[export] Instance LittleEndian_laws : ByteOrderLaws.
Proof.
  constructor; cbn [read_i16 write_i16 read_u16 write_u16 read_u32 write_u32 LittleEndian];
    unfold is_i16, is_u16, is_u32, i16_min, i16_max, u16_max; intros;
    rewrite ?zlen_le_split; try done.
  - pose proof (Z.mod_pos_bound x 65536 ltac:(lia)).
    rewrite ztake_ge, le_combine_split by (rewrite ?zlen_le_split; done || lia). unfold to_i16.
    destruct (Z.leb_spec 0 x); [rewrite Z.mod_small by lia|rewrite <- (Z_mod_plus_full x 1), Z.mod_small by lia];
      zcase; lia.
  - rewrite ztake_ge by (rewrite zlen_le_split; lia). apply le_combine_split.
    change (256 ^ Z.of_nat 2) with 65536. lia.
  - rewrite ztake_ge by (rewrite zlen_le_split; lia). by apply le_combine_split.
  - rewrite ztake_ge by lia. pose proof (le_combine_range l) as Hr. rewrite H in Hr. unfold to_i16.
    change (256 ^ 2) with 65536 in Hr. zcase; lia.
  - rewrite ztake_ge by lia. pose proof (le_combine_range l) as Hr. rewrite H in Hr.
    change (256 ^ 2) with 65536 in Hr. lia.
  - rewrite ztake_ge by lia. pose proof (le_combine_range l) as Hr. rewrite H in Hr.
    change (256 ^ 4) with 4294967296 in Hr. lia.
Qed.

Lemma as_i16_id x : is_i16 x -> as_i16 x = x.
Proof. unfold is_i16, i16_min, i16_max, as_i16. intros. rewrite Z.mod_small by lia. lia. Qed.

(** * Self-delimiting codes *)

(** A code no word of which starts another: a sequence of words that starts another
    is a prefix of it. *)
Lemma prefix_code_concat {A B} (code : A -> list B) (ok : A -> Prop) :
  (forall x, ok x -> code x <> []) ->
  (forall x y r s, ok x -> ok y -> code x ++ r = code y ++ s -> x = y) ->
  forall xs ys rest, Forall ok xs -> Forall ok ys -> concat (code <$> ys) = concat (code <$> xs) ++ rest ->
  exists zs, ys = xs ++ zs.
Proof.
  intros Hne Hfree xs. induction xs as [|x xs IH]; intros ys rest Hxs Hys H; [by exists ys|].
  apply Forall_cons in Hxs as [Hx Hxs]. destruct ys as [|y ys].
  - cbn in H. symmetry in H. apply app_nil in H as [H _]. apply app_nil in H as [H _]. by apply Hne in H.
  - apply Forall_cons in Hys as [Hy Hys]. cbn [fmap list_fmap concat] in H. rewrite <- app_assoc in H.
    pose proof (Hfree _ _ _ _ Hy Hx H) as ->. apply app_inv_head in H.
    destruct (IH ys rest Hxs Hys H) as [zs ->]. by exists zs.
Qed.

Section frames.
Context {BO : ByteOrder} {BOL : ByteOrderLaws}.

Lemma zlen_frame msg : zlen msg <= u16_max -> zlen (frame msg) = 2 + zlen msg.
Proof. intros. unfold frame. rewrite zlen_app, write_u16_len by (unfold is_u16; zlen_facts; lia). lia. Qed.

(** A frame as it is read: a header of [h] bytes, and as many bytes as its last two
    say. *)
Definition is_frame (h : Z) (bytes : list Z) : Prop :=
  h <= zlen bytes /\ zlen bytes = h + read_u16 (ztake 2 (zdrop (h - 2) bytes)).

Lemma frame_is_frame msg : zlen msg <= u16_max -> is_frame 2 (frame msg) /\ zdrop 2 (frame msg) = msg.
Proof.
  intros Hm. pose proof (zlen_frame msg Hm). zlen_facts. unfold is_frame.
  assert (is_u16 (zlen msg)) as Hu by (unfold is_u16; lia). pose proof (write_u16_len _ Hu).
  unfold frame in *. rewrite zdrop_0, ztake_app_le, ztake_ge, read_write_u16 by (done || lia).
  split; [lia|]. by rewrite zdrop_app_ge, zdrop_0 by lia.
Qed.

Lemma is_frame_free h x y r s : 2 <= h -> is_frame h x -> is_frame h y -> x ++ r = y ++ s -> x = y.
Proof.
  intros Hh [Hx Lx] [Hy Ly] H.
  assert (forall l t : list Z, h <= zlen l -> ztake 2 (zdrop (h - 2) (l ++ t)) = ztake 2 (zdrop (h - 2) l)) as Happ.
  { intros l t Hl. rewrite zdrop_app_le, ztake_app_le by (rewrite ?zlen_zdrop; lia). done. }
  rewrite <- (Happ x r), H, Happ in Lx by done. apply app_inj_1 in H as [-> _]; [done|unfold zlen in *; lia].
Qed.

Lemma frames_prefix h xs ys rest : 2 <= h ->
  Forall (is_frame h) xs -> Forall (is_frame h) ys -> concat ys = concat xs ++ rest -> exists zs, ys = xs ++ zs.
Proof.
  intros Hh Hxs Hys H. apply (prefix_code_concat id (is_frame h)) with (rest := rest); try done.
  - intros x [Hx _] Hn. unfold id in Hn. subst x. rewrite zlen_nil in Hx. lia.
  - intros x y r s. by apply is_frame_free.
  - by rewrite !list_fmap_id.
Qed.
End frames.
