(* ===== verification/ReliableChannel.v ===== *)
(** The reliable channel of reliable_channel.rs: the transmission [Task] with its
    handlers [send], [resend] and [recv_packet], an iteration of [main_loop], and
    the user's handle [ReliableChannel]. The packets, their pool, the outgoing
    queue, the clock and the byte order are those of the interfaces. *)

From S2P Require Import Prelude StreamPos RingBuffer Segments SendWindow RecvWindow.
From S2P Require Import BandwidthLimiter Packet Wire.
From Stdlib Require Import SpecFloat.

(** * Data *)

Inductive Error := Disconnected | ProtocolError | Shutdown.

#[export] Instance Error_eq_dec : EqDecision Error.
Proof. solve_decision. Defined.

Record Settings := mkSettings {
  s_bandwidth : Z;
  s_burst_bandwidth : Z;
  s_recv_window_size : Z;
  s_send_window_size : Z;
  s_init_send : Z;
  s_resend_time : Duration;
  s_initial_rtt : Duration;
  s_max_rtt : Duration;
  s_rtt_update_factor : f64;
  s_rtt_resend_factor : f64;
}.

Record UnackedRange (Instant : Type) := mkUnackedRange {
  start : StreamPos;
  end_ : StreamPos;
  last_sent : option Instant;
  retransmit : bool;
}.
Arguments mkUnackedRange {Instant} _ _ _ _.
Arguments start {Instant} _.
Arguments end_ {Instant} _.
Arguments last_sent {Instant} _.
Arguments retransmit {Instant} _.

(** The sink a task sends its packets to: [sink_send] is [send(packet).await],
    which ends with the packet taken or with the sink disconnected. *)
Class PacketSink (Snd P : Type) := { sink_send : Snd -> P -> Snd * bool }.

(** What a task does that others see: packets taken by the sink, wakers woken,
    the resend timer set. *)
Inductive effect (P : Type) :=
| Sent (packet : P)
| WakeWrite
| WakeRead
| WakeSend
| SetResendTimer (after : Duration).
Arguments Sent {P} _.
Arguments WakeWrite {P}.
Arguments WakeRead {P}.
Arguments WakeSend {P}.
Arguments SetResendTimer {P} _.

Inductive WakeReason (P : Type) :=
| ResendTimer
| IncomingPacket (packet : option P)
| SendAvailable.
Arguments ResendTimer {P}.
Arguments IncomingPacket {P} _.
Arguments SendAvailable {P}.

Section task.
Context {T Instant P Pool Snd : Type}.
Context `{!Timer T Instant, !Packet P, !PacketPool Pool P, !PacketSink Snd P, !ByteOrder}.

Record Task := mkTask {
  t_settings : Settings;
  t_timer : T;
  t_pool : Pool;
  t_sender : Snd;
  t_effects : list (effect P);
  t_send_window : SendWindow;
  t_recv_window : RecvWindow;
  t_remote_recv_available : Z;
  t_unacked_ranges : gmap Z (UnackedRange Instant);
  t_rtt_estimate : f64;
  t_limiter : BandwidthLimiter Instant;
}.

Definition set_timer v (t : Task) : Task := mkTask (t_settings t) v (t_pool t) (t_sender t)
  (t_effects t) (t_send_window t) (t_recv_window t) (t_remote_recv_available t)
  (t_unacked_ranges t) (t_rtt_estimate t) (t_limiter t).
Definition set_pool v (t : Task) : Task := mkTask (t_settings t) (t_timer t) v (t_sender t)
  (t_effects t) (t_send_window t) (t_recv_window t) (t_remote_recv_available t)
  (t_unacked_ranges t) (t_rtt_estimate t) (t_limiter t).
Definition set_sender v (t : Task) : Task := mkTask (t_settings t) (t_timer t) (t_pool t) v
  (t_effects t) (t_send_window t) (t_recv_window t) (t_remote_recv_available t)
  (t_unacked_ranges t) (t_rtt_estimate t) (t_limiter t).
Definition emit e (t : Task) : Task := mkTask (t_settings t) (t_timer t) (t_pool t) (t_sender t)
  (t_effects t ++ [e]) (t_send_window t) (t_recv_window t) (t_remote_recv_available t)
  (t_unacked_ranges t) (t_rtt_estimate t) (t_limiter t).
Definition set_send_window v (t : Task) : Task := mkTask (t_settings t) (t_timer t) (t_pool t)
  (t_sender t) (t_effects t) v (t_recv_window t) (t_remote_recv_available t)
  (t_unacked_ranges t) (t_rtt_estimate t) (t_limiter t).
Definition set_recv_window v (t : Task) : Task := mkTask (t_settings t) (t_timer t) (t_pool t)
  (t_sender t) (t_effects t) (t_send_window t) v (t_remote_recv_available t)
  (t_unacked_ranges t) (t_rtt_estimate t) (t_limiter t).
Definition set_remote v (t : Task) : Task := mkTask (t_settings t) (t_timer t) (t_pool t)
  (t_sender t) (t_effects t) (t_send_window t) (t_recv_window t) v
  (t_unacked_ranges t) (t_rtt_estimate t) (t_limiter t).
Definition set_unacked v (t : Task) : Task := mkTask (t_settings t) (t_timer t) (t_pool t)
  (t_sender t) (t_effects t) (t_send_window t) (t_recv_window t) (t_remote_recv_available t)
  v (t_rtt_estimate t) (t_limiter t).
Definition set_rtt v (t : Task) : Task := mkTask (t_settings t) (t_timer t) (t_pool t)
  (t_sender t) (t_effects t) (t_send_window t) (t_recv_window t) (t_remote_recv_available t)
  (t_unacked_ranges t) v (t_limiter t).
Definition set_limiter v (t : Task) : Task := mkTask (t_settings t) (t_timer t) (t_pool t)
  (t_sender t) (t_effects t) (t_send_window t) (t_recv_window t) (t_remote_recv_available t)
  (t_unacked_ranges t) (t_rtt_estimate t) v.

Abbreviation task_m := (handler Task Error).

(** * Steps the handlers share *)

(** [self.timer.now()] *)
Definition task_now : task_m Instant :=
  t ← get;
  let (timer, i) := now (t_timer t) in
  _ ← modify (set_timer timer); mret i.

(** [self.packet_pool.acquire()] *)
Definition task_acquire : task_m P :=
  t ← get;
  let (pool, p) := acquire (t_pool t) in
  _ ← modify (set_pool pool); mret p.

(** [self.sender.send(packet).await.map_err(|_| Error::Disconnected)?] *)
Definition send_packet (p : P) : task_m unit :=
  t ← get;
  let (sender, ok) := sink_send (t_sender t) p in
  _ ← modify (set_sender sender);
  if ok : bool then modify (emit (Sent p)) else throw Disconnected.

(** [self.bandwidth_limiter.take_bytes(packet.len() as u32)] *)
Definition task_take_bytes (p : P) : task_m unit :=
  modify (fun t => set_limiter (take_bytes (t_limiter t) (as_u32 (zlen (deref p)))) t).

(** * [Task::send] *)

Definition send : task_m unit :=
  t ← get;
  if negb (bytes_available (t_limiter t)) then mret tt
  else
    avail ← lift (send_available (t_send_window t));
    let send_amt := Z.min (Z.min avail (t_remote_recv_available t)) i16_max in
    if send_amt =? 0 then mret tt
    else
      room ← lift (usize_sub (pool_capacity (t_pool t)) 6);
      let send_amt := Z.min send_amt (as_u32 room) in
      packet ← task_acquire;
      packet ← lift (resize packet (6 + send_amt) 0);
      body ← lift (slice_from (deref packet) 6);
      '(w, body, range) ← lift (SendWindow_send (t_send_window t) body);
      _ ← modify (set_send_window w);
      packet ← lift (put_bytes packet 6 body);
      '(start, end_) ← lift (unwrap range);
      _ ← lift (assert (wsub end_ start =? send_amt));
      packet ← lift (put_bytes packet 0 (write_i16 (as_i16 send_amt)));
      packet ← lift (put_bytes packet 2 (write_u32 start));
      i ← task_now;
      _ ← modify (fun t => set_unacked
            (<[start := mkUnackedRange start end_ (Some i) false]> (t_unacked_ranges t)) t);
      _ ← task_take_bytes packet;
      _ ← send_packet packet;
      t ← get;
      left ← lift (u32_sub (t_remote_recv_available t) send_amt);
      modify (set_remote left).

(** * [Task::resend] *)

(** Whether the range at [key] is to be sent again now. *)
Definition resend_due (u : UnackedRange Instant) : task_m bool :=
  match last_sent u with
  | Some last =>
    i ← task_now;
    t ← get;
    elapsed ← lift (duration_between (t_timer t) last i);
    mret (SFltb (f64_mul (t_rtt_estimate t) (s_rtt_resend_factor (t_settings t)))
            (as_secs_f64 elapsed))
  | None => mret true
  end.

Definition resend_one (key : StreamPos) (u : UnackedRange Instant) : task_m unit :=
  due ← resend_due u;
  if due : bool then
    i ← task_now;
    let u := mkUnackedRange (start u) (end_ u) (Some i) true in
    _ ← modify (fun t => set_unacked (<[key := u]> (t_unacked_ranges t)) t);
    let len := wsub (end_ u) (start u) in
    packet ← task_acquire;
    packet ← lift (resize packet (6 + len) 0);
    packet ← lift (put_bytes packet 0 (write_i16 (as_i16 len)));
    packet ← lift (put_bytes packet 2 (write_u32 (start u)));
    body ← lift (slice_from (deref packet) 6);
    t ← get;
    body ← lift (get_unacked (t_send_window t) (start u) body);
    packet ← lift (put_bytes packet 6 body);
    _ ← task_take_bytes packet;
    send_packet packet
  else mret tt.

(** The loop over [unacked_ranges.values_mut()]; [keys] is the order in which the
    map yields its values. *)
Fixpoint resend (keys : list StreamPos) : task_m unit :=
  match keys with
  | [] => mret tt
  | key :: keys =>
    t ← get;
    if negb (bytes_available (t_limiter t)) then mret tt
    else
      match t_unacked_ranges t !! key with
      | Some u => _ ← resend_one key u; resend keys
      | None => resend keys
      end
  end.
(** * [Task::recv_packet] *)

(** The part of the branch for acknowledgments behind [ack_range]: the range that
    was acknowledged leaves the map, and the rest of it comes back. *)
Definition take_acked (start_pos end_pos : StreamPos) (r : AckResult)
    : task_m (option (UnackedRange Instant)) :=
  t ← get;
  match r with
  | NotFound => mret None
  | Ack =>
    acked ← lift (unwrap (t_unacked_ranges t !! start_pos));
    _ ← modify (set_unacked (delete start_pos (t_unacked_ranges t)));
    _ ← lift (assert (end_ acked =? end_pos));
    mret (Some acked)
  | PartialAck nacked_end =>
    acked ← lift (unwrap (t_unacked_ranges t !! start_pos));
    _ ← lift (assert (end_ acked =? nacked_end));
    let rest := mkUnackedRange end_pos nacked_end None true in
    _ ← modify (set_unacked (<[end_pos := rest]> (delete start_pos (t_unacked_ranges t))));
    mret (Some (mkUnackedRange (start acked) end_pos (last_sent acked) (retransmit acked)))
  end.

(** The round-trip estimate after the range [acked] was acknowledged. *)
Definition update_rtt (acked : UnackedRange Instant) : task_m unit :=
  if retransmit acked then mret tt
  else
    match last_sent acked with
    | None => mret tt
    | Some last =>
      i ← task_now;
      t ← get;
      d ← lift (duration_between (t_timer t) last i);
      let rtt := as_secs_f64 (Z.min d (s_max_rtt (t_settings t))) in
      modify (set_rtt (f64_add (t_rtt_estimate t)
        (f64_mul (f64_sub rtt (t_rtt_estimate t)) (s_rtt_update_factor (t_settings t)))))
    end.

(** The new window end of the remote; data is sent at once when it opens. *)
Definition remote_window (recv_window_end : StreamPos) : task_m unit :=
  t ← get;
  let pos := send_pos (t_send_window t) in
  if stream_gt recv_window_end pos then
    let old := t_remote_recv_available t in
    let avail := Z.max old (wsub recv_window_end pos) in
    _ ← modify (set_remote avail);
    if negb (avail =? 0) && (old =? 0) then send else mret tt
  else mret tt.

Definition recv_ack (data_len : Z) (bytes : list Z) : task_m unit :=
  if negb (zlen bytes =? 10) then throw ProtocolError
  else
    start_bytes ← lift (slice bytes 2 6);
    let start_pos := read_u32 start_bytes in
    len ← lift (neg_i16 data_len);
    let end_pos := wadd start_pos (as_u32 len) in
    end_bytes ← lift (slice bytes 6 10);
    _ ← remote_window (read_u32 end_bytes);
    t ← get;
    '(w, r) ← lift (ack_range (t_send_window t) start_pos end_pos);
    _ ← modify (set_send_window w);
    acked ← take_acked start_pos end_pos r;
    match acked with
    | None => mret tt
    | Some acked =>
      _ ← update_rtt acked;
      t ← get;
      n ← lift (SendWindow_write_available (t_send_window t));
      if 0 <? n then modify (emit WakeWrite) else mret tt
    end.

Definition recv_data (data_len : Z) (bytes : list Z) : task_m unit :=
  if zlen bytes <? 6 then throw ProtocolError
  else
    start_bytes ← lift (slice bytes 2 6);
    let start_pos := read_u32 start_bytes in
    if negb (data_len =? zlen bytes - 6) then throw ProtocolError
    else
      data ← lift (slice_from bytes 6);
      t ← get;
      '(w, e) ← lift (recv (t_recv_window t) start_pos data);
      _ ← modify (set_recv_window w);
      match e with
      | None => mret tt
      | Some end_pos =>
        packet ← task_acquire;
        packet ← lift (resize packet 10 0);
        len ← lift (neg_i16 (as_i16 (wsub end_pos start_pos)));
        packet ← lift (put_bytes packet 0 (write_i16 len));
        packet ← lift (put_bytes packet 2 (write_u32 start_pos));
        window_end ← lift (window_end w);
        packet ← lift (put_bytes packet 6 (write_u32 window_end));
        _ ← send_packet packet;
        n ← lift (RecvWindow_read_available w);
        if 0 <? n then modify (emit WakeRead) else mret tt
      end.

Definition recv_packet (bytes : list Z) : task_m unit :=
  if zlen bytes <? 2 then throw ProtocolError
  else
    len_bytes ← lift (slice bytes 0 2);
    let data_len := read_i16 len_bytes in
    if data_len <? 0 then recv_ack data_len bytes else recv_data data_len bytes.

(** * [Task::main_loop] *)

Definition task_update_available : task_m unit :=
  t ← get;
  '(timer, l) ← lift (update_available (t_limiter t) (t_timer t));
  _ ← modify (set_timer timer); modify (set_limiter l).

(** Don't let the connection stall. *)
Definition unstall (t : Task) : Task :=
  if bool_decide (t_unacked_ranges t = ∅) && (t_remote_recv_available t =? 0)
  then set_remote (s_init_send (t_settings t)) t else t.

(** Which wake reasons can end the wait. *)
Definition wake_enabled (t : Task) (reason : WakeReason P) : Prop :=
  match reason with
  | ResendTimer => True
  | IncomingPacket _ => True
  | SendAvailable => t_remote_recv_available t <> 0 /\
      returns (send_available (t_send_window t)) (fun n => 0 < n)
  end.

Definition reset_resend_timer : task_m unit :=
  modify (fun t => emit (SetResendTimer (s_resend_time (t_settings t))) t).

(** One iteration of the loop, woken by [reason]; [keys] is the order of the map
    of unacked ranges, if they are sent again. *)
Definition iteration (reason : WakeReason P) (keys : list StreamPos) : task_m unit :=
  _ ← task_update_available;
  (* the task waits here for [reason] *)
  _ ← (match reason with IncomingPacket None => throw Disconnected | _ => mret tt end : task_m unit);
  _ ← task_update_available;
  _ ← match reason with
      | ResendTimer => _ ← resend keys; reset_resend_timer
      | IncomingPacket None => mret tt
      | IncomingPacket (Some packet) => recv_packet (deref packet)
      | SendAvailable => _ ← resend keys; _ ← reset_resend_timer; send
      end;
  modify unstall.

(** * [ReliableChannel] *)

(** What the handle can see of its task: running, ended with an error that was
    not yet reported, or reported. *)
Inductive task_status := Running | Ended (error : Error) | Terminated.

Record ReliableChannel := mkReliableChannel {
  rc_task : Task;
  rc_status : task_status;
}.

Definition f64_positive (x : f64) : bool := SFltb f64_zero x.

Definition ReliableChannel_new (timer : T) (packet_pool : Pool) (settings : Settings) (sender : Snd)
    : res ReliableChannel :=
  _ ← assert (negb (s_bandwidth settings =? 0));
  _ ← assert (negb (s_recv_window_size settings =? 0));
  _ ← assert (negb (s_recv_window_size settings =? 0));
  _ ← assert (negb (s_burst_bandwidth settings =? 0));
  _ ← assert (negb (s_init_send settings =? 0));
  _ ← assert (f64_positive (s_rtt_update_factor settings));
  _ ← assert (f64_positive (s_rtt_resend_factor settings));
  send_window ← SendWindow_new (s_send_window_size settings) 0;
  recv_window ← RecvWindow_new (s_recv_window_size settings) 0;
  let (timer, limiter) :=
    BandwidthLimiter_new timer (s_bandwidth settings) (s_burst_bandwidth settings) in
  Val (mkReliableChannel (mkTask settings timer packet_pool sender
         [SetResendTimer (s_resend_time settings)] send_window recv_window (s_init_send settings) ∅
         (as_secs_f64 (s_initial_rtt settings)) limiter) Running).

Definition rc_set_task (c : ReliableChannel) (t : Task) : ReliableChannel :=
  mkReliableChannel t (rc_status c).

(** Write to the send window, as the handle's writer does. *)
Definition rc_write (c : ReliableChannel) (data : list Z) : res (ReliableChannel * Z) :=
  '(w, len) ← SendWindowWriter_write (t_send_window (rc_task c)) data;
  Val (rc_set_task c (set_send_window w (rc_task c)), len).

Definition rc_read (c : ReliableChannel) (data : list Z) : res (ReliableChannel * list Z * Z) :=
  '(w, data, len) ← RecvWindowReader_read (t_recv_window (rc_task c)) data;
  Val (rc_set_task c (set_recv_window w (rc_task c)), data, len).

Definition poll_write (c : ReliableChannel) (data : list Z) : res (ReliableChannel * Poll (Z + Error)) :=
  match rc_status c with
  | Terminated => Val (c, Ready (inr Shutdown))
  | Ended e => Val (mkReliableChannel (rc_task c) Terminated, Ready (inr e))
  | Running =>
    match data with
    | [] => Val (c, Ready (inl 0))
    | _ =>
      '(c, len) ← rc_write c data;
      if 0 <? len then Val (c, Ready (inl len))
      else
        '(c, len) ← rc_write c data;
        if 0 <? len then Val (c, Ready (inl len))
        else Val (rc_set_task c (emit WakeSend (rc_task c)), Pending)
    end
  end.

Definition poll_read (c : ReliableChannel) (data : list Z) : res (ReliableChannel * list Z * Poll (Z + Error)) :=
  match rc_status c with
  | Terminated => Val (c, data, Ready (inr Shutdown))
  | Ended e => Val (mkReliableChannel (rc_task c) Terminated, data, Ready (inr e))
  | Running =>
    match data with
    | [] => Val (c, data, Ready (inl 0))
    | _ =>
      '(c, data, len) ← rc_read c data;
      if 0 <? len then Val (c, data, Ready (inl len))
      else
        '(c, data, len) ← rc_read c data;
        if 0 <? len then Val (c, data, Ready (inl len)) else Val (c, data, Pending)
    end
  end.

Definition flush (c : ReliableChannel) : ReliableChannel * (unit + Error) :=
  match rc_status c with
  | Terminated => (c, inr Shutdown)
  | Ended e => (mkReliableChannel (rc_task c) Terminated, inr e)
  | Running => (rc_set_task c (emit WakeSend (rc_task c)), inl tt)
  end.

Definition rc_write_available (c : ReliableChannel) : res Z :=
  SendWindow_write_available (t_send_window (rc_task c)).

Definition try_write (c : ReliableChannel) (data : list Z) : res (ReliableChannel * (Z + Error)) :=
  match rc_status c with
  | Terminated => Val (c, inr Shutdown)
  | _ => '(c, len) ← rc_write c data; Val (c, inl len)
  end.

Definition try_read (c : ReliableChannel) (data : list Z)
    : res (ReliableChannel * list Z * (Z + Error)) :=
  match rc_status c with
  | Terminated => Val (c, data, inr Shutdown)
  | _ => '(c, data, len) ← rc_read c data; Val (c, data, inl len)
  end.

(** The task runs one iteration; an error ends it. *)
Definition run_task (c : ReliableChannel) (reason : WakeReason P) (keys : list StreamPos)
    : res ReliableChannel :=
  match rc_status c with
  | Running =>
    '(t, o) ← iteration reason keys (rc_task c);
    Val (mkReliableChannel t (match o with inl _ => Running | inr e => Ended e end))
  | _ => Val c
  end.
End task.

Arguments Task T Instant P Pool Snd : clear implicits.
Arguments ReliableChannel T Instant P Pool Snd : clear implicits.
