(* ===== verification/ReliableTask.v ===== *)
(** Correctness of the reliable channel's task: the invariant that ties its map of
    unacked ranges and its packets to the windows, and what each handler keeps
    and does. *)

From S2P Require Import Prelude StreamPos RingBuffer Segments SendWindow RecvWindow.
From S2P Require Import BandwidthLimiter Packet Wire ReliableChannel.
From Stdlib Require Import SpecFloat.

(** * Packets on the wire *)

Section wire.
Context `{!ByteOrder}.

(** A packet of [n] bytes of the stream from position [a]. *)
Definition data_bytes (a : Z) (body : list Z) : list Z :=
  write_i16 (zlen body) ++ write_u32 (wrap a) ++ body.

(** The acknowledgment of [n] bytes from position [x], with the window's end. *)
Definition ack_bytes (x n hi : Z) : list Z :=
  write_i16 (- n) ++ write_u32 (wrap x) ++ write_u32 (wrap hi).

(** The bytes [W] of a stream whose first position is [base], from [a] to [b]. *)
Definition substream (base : Z) (W : list Z) (a b : Z) : list Z :=
  ztake (b - a) (zdrop (a - base) W).

(** A data packet of the stream [W]. *)
Definition is_data (base : Z) (W : list Z) (bytes : list Z) : Prop :=
  exists a b, base <= a /\ a < b /\ b <= base + zlen W /\ b - a <= i16_max /\
    bytes = data_bytes a (substream base W a b).

(** An acknowledgment of positions that were received. *)
Definition is_ack (recvd : Z -> Prop) (bytes : list Z) : Prop :=
  exists x n hi, 0 < n <= i16_max /\ (forall p, x <= p < x + n -> recvd p) /\
    bytes = ack_bytes x n hi.
End wire.

(** The sink is disconnected, in some of its states: it refuses a packet. *)
Definition sink_refuses (Snd P : Type) {SI : PacketSink Snd P} : Prop :=
  exists (s : Snd) (p : P), (sink_send s p).2 = false.

(** * The invariant *)

Section invariant.
Context {T Instant P Pool Snd : Type}.
Context {TI : Timer T Instant} {TL : TimerLaws T Instant}.
Context {PI : Packet P} {PL : PacketLaws P} {PPI : PacketPool Pool P} {PPL : PacketPoolLaws Pool P}.
Context {SI : PacketSink Snd P} {BO : ByteOrder} {BOL : ByteOrderLaws}.

Abbreviation task := (Task T Instant P Pool Snd).

(** A packet the task handed to the sink is well-formed, and has the bytes it should. *)
Definition sent_ok (Q : list Z -> Prop) (e : effect P) : Prop :=
  match e with Sent p => packet_wf p /\ Q (deref p) | _ => True end.

(** A packet that carries the byte at [p] of the stream was among the effects. *)
Definition carries (base : Z) (W : list Z) (p : Z) (e : effect P) : Prop :=
  exists q a b, e = Sent q /\ base <= a /\ a <= p < b /\ b <= base + zlen W /\ b - a <= i16_max /\
    deref q = data_bytes a (substream base W a b).
Definition carried (base : Z) (W : list Z) (S S' : Z) (es : list (effect P)) : Prop :=
  forall p, S <= p < S' -> Exists (carries base W p) es.

Lemma carried_none base W S es : carried base W S S es.
Proof. intros p ?. lia. Qed.
Lemma carried_more base W S S' es es' : carried base W S S' es -> carried base W S S' (es ++ es').
Proof. intros Hc p Hp. apply Exists_app. left. by apply Hc. Qed.
Lemma carried_join base W S1 S2 S3 es es' :
  carried base W S1 S2 es -> carried base W S2 S3 es' -> carried base W S1 S3 (es ++ es').
Proof.
  intros H1 H2 p Hp. apply Exists_app. destruct (Z.lt_ge_cases p S2); [left; apply H1|right; apply H2]; lia.
Qed.

(** The entry of the map for the range [r]. *)
Definition entry_ok (r : range) (u : UnackedRange Instant) : Prop :=
  start u = wrap r.1 /\ end_ u = wrap r.2.

(** The sending half: the window holds the stream [W], sent up to [S], and the map
    holds one entry per unacked range, each of which fits a packet. *)
Record send_inv (base : Z) (W : list Z) (S : Z) (rs : list range) (t : task) : Prop := {
  si_window : sw_rep base W S rs (t_send_window t);
  si_dom : forall k u, t_unacked_ranges t !! k = Some u -> exists r, r ∈ rs /\ k = wrap r.1;
  si_entry : forall r, r ∈ rs -> exists u, t_unacked_ranges t !! wrap r.1 = Some u /\ entry_ok r u;
  si_len : Forall (fun r => r.2 - r.1 <= i16_max /\ 6 + (r.2 - r.1) <= pool_capacity (t_pool t)) rs;
  si_remote : is_u32 (t_remote_recv_available t);
}.

(** The receiving half: the window holds the bytes [f] of the remote's stream,
    received up to [R] and in the ranges [us]. *)
Definition recv_inv (f : Z -> Z) (R : Z) (st us : list range) (t : task) : Prop :=
  rw_rep f R st us (t_recv_window t) /\ lag_ok R st (t_recv_window t).

(** What the task relies on: packets hold a header and a byte, instants it keeps
    were read from its clock. *)
Record env_inv (t : task) : Prop := {
  ei_pool : 10 <= pool_capacity (t_pool t) <= MAX_PACKET_LEN;
  ei_init : is_u32 (s_init_send (t_settings t));
  ei_limiter : seen (t_timer t) (last_calculation (t_limiter t));
  ei_sent : forall k u i, t_unacked_ranges t !! k = Some u -> last_sent u = Some i -> seen (t_timer t) i;
}.

(** ** Simple steps *)

Lemma task_now_ok t (Q : task -> Instant + Error -> Prop) :
  Q (set_timer (now (t_timer t)).1 t) (inl (now (t_timer t)).2) -> completes task_now t Q.
Proof.
  intros HQ. unfold task_now. apply completes_bind, completes_get. destruct (now (t_timer t)) as [tm i].
  apply completes_bind, completes_modify. exact HQ.
Qed.

Lemma task_acquire_ok t (Q : task -> P + Error -> Prop) :
  Q (set_pool (acquire (t_pool t)).1 t) (inl (acquire (t_pool t)).2) -> completes task_acquire t Q.
Proof.
  intros HQ. unfold task_acquire. apply completes_bind, completes_get. destruct (acquire (t_pool t)) as [pool p].
  apply completes_bind, completes_modify. exact HQ.
Qed.

Lemma send_packet_ok p t (Q : task -> unit + Error -> Prop) :
  Q (emit (Sent p) (set_sender (sink_send (t_sender t) p).1 t)) (inl tt) ->
  (sink_refuses Snd P -> Q (set_sender (sink_send (t_sender t) p).1 t) (inr Disconnected)) ->
  completes (send_packet p) t Q.
Proof.
  intros Hok Herr. unfold send_packet. apply completes_bind, completes_get.
  assert ((sink_send (t_sender t) p).2 = false -> sink_refuses Snd P) as Href by (intros Hno; by exists (t_sender t), p).
  destruct (sink_send (t_sender t) p) as [snd ok].
  apply completes_bind, completes_modify. destruct ok; [done|]. apply completes_throw. by apply Herr, Href.
Qed.

(** A packet of six bytes of header and a body, once all three were written. *)
Lemma header_body (l h2 h4 body : list Z) :
  zlen h2 = 2 -> zlen h4 = 4 -> zlen l = 6 + zlen body ->
  splice 2 h4 (splice 0 h2 (splice 6 body l)) = h2 ++ h4 ++ body /\
  splice 6 body (splice 2 h4 (splice 0 h2 l)) = h2 ++ h4 ++ body.
Proof.
  intros H2 H4 Hl.
  assert (exists a b c, l = a ++ b ++ c /\ zlen a = 2 /\ zlen b = 4 /\ zlen c = zlen body)
    as (a & b & c & -> & Ha & Hb & Hc).
  { exists (ztake 2 l), (ztake 4 (zdrop 2 l)), (zdrop 4 (zdrop 2 l)). rewrite !ztake_zdrop.
    rewrite !zlen_ztake, !zlen_zdrop. zlen_facts. split_and!; done || lia. }
  clear Hl.
  assert (forall x y z w : list Z, zlen x = 2 -> zlen y = 4 -> zlen z = zlen w ->
    splice 6 w (x ++ y ++ z) = x ++ y ++ w) as S6.
  { intros x y z w Hx Hy Hz. replace 6 with (zlen (x ++ y)) by (rewrite zlen_app; lia).
    rewrite !(app_assoc x y). rewrite <- (app_nil_r z), (splice_mid (x ++ y) w z []) by done.
    by rewrite app_nil_r. }
  assert (forall x y z w : list Z, zlen x = 2 -> zlen y = 4 -> zlen w = 4 ->
    splice 2 w (x ++ y ++ z) = x ++ w ++ z) as S2.
  { intros x y z w Hx Hy Hz. replace 2 with (zlen x) by done. apply splice_mid. lia. }
  assert (forall x y w : list Z, zlen x = 2 -> zlen w = 2 -> splice 0 w (x ++ y) = w ++ y) as S0.
  { intros x y w Hx Hw. exact (splice_mid [] w x y ltac:(lia)). }
  split.
  - rewrite S6, S0, S2 by lia. done.
  - rewrite S0, S2, S6 by lia. done.
Qed.
(** The body is written first by [send], last by [resend]. *)
Lemma build_send (p : P) h2 h4 body :
  packet_wf p -> zlen h2 = 2 -> zlen h4 = 4 -> zlen (deref p) = 6 + zlen body ->
  exists p1 p2 p3, put_bytes p 6 body = Val p1 /\ put_bytes p1 0 h2 = Val p2 /\
    put_bytes p2 2 h4 = Val p3 /\ packet_wf p3 /\ deref p3 = h2 ++ h4 ++ body.
Proof.
  intros Hwf E2 E4 El. zlen_facts. destruct (header_body (deref p) h2 h4 body E2 E4 El) as [Hb _].
  destruct (put_bytes_ok p 6 body Hwf) as (p1 & He1 & Hw1 & Hd1 & _); [lia..|].
  assert (zlen (deref p1) = zlen (deref p)) as Hl1 by (rewrite Hd1; apply zlen_splice; lia).
  destruct (put_bytes_ok p1 0 h2 Hw1) as (p2 & He2 & Hw2 & Hd2 & _); [lia..|].
  assert (zlen (deref p2) = zlen (deref p)) as Hl2 by (rewrite Hd2, zlen_splice; lia).
  destruct (put_bytes_ok p2 2 h4 Hw2) as (p3 & He3 & Hw3 & Hd3 & _); [lia..|].
  exists p1, p2, p3. split_and!; try done. by rewrite Hd3, Hd2, Hd1.
Qed.

Lemma build_resend (p : P) h2 h4 body :
  packet_wf p -> zlen h2 = 2 -> zlen h4 = 4 -> zlen (deref p) = 6 + zlen body ->
  exists p1 p2 p3, put_bytes p 0 h2 = Val p1 /\ put_bytes p1 2 h4 = Val p2 /\
    zlen (deref p2) = zlen (deref p) /\
    put_bytes p2 6 body = Val p3 /\ packet_wf p3 /\ deref p3 = h2 ++ h4 ++ body.
Proof.
  intros Hwf E2 E4 El. zlen_facts. destruct (header_body (deref p) h2 h4 body E2 E4 El) as [_ Hb].
  destruct (put_bytes_ok p 0 h2 Hwf) as (p1 & He1 & Hw1 & Hd1 & _); [lia..|].
  assert (zlen (deref p1) = zlen (deref p)) as Hl1 by (rewrite Hd1; apply zlen_splice; lia).
  destruct (put_bytes_ok p1 2 h4 Hw1) as (p2 & He2 & Hw2 & Hd2 & _); [lia..|].
  assert (zlen (deref p2) = zlen (deref p)) as Hl2 by (rewrite Hd2, zlen_splice; lia).
  destruct (put_bytes_ok p2 6 body Hw2) as (p3 & He3 & Hw3 & Hd3 & _); [lia..|].
  exists p1, p2, p3. split_and!; try done. by rewrite Hd3, Hd2, Hd1.
Qed.

(** A packet taken from the pool and given a size. *)
Lemma acquire_resize (pool : Pool) len :
  0 <= len <= pool_capacity pool ->
  exists p, resize (acquire pool).2 len 0 = Val p /\ packet_wf p /\ zlen (deref p) = len /\
    pool_capacity (acquire pool).1 = pool_capacity pool.
Proof.
  intros Hlen. destruct (acquire_ok pool) as (Hwf & Hcap & Hpool).
  destruct (resize_ok (acquire pool).2 len 0 Hwf) as (p & Hr & Hp & Hd & _); [lia|].
  exists p. rewrite Hd, zlen_resized by lia. done.
Qed.

(** What no handler touches, besides the halves of the state. *)
Record frame (t t' : task) : Prop := {
  fr_settings : t_settings t' = t_settings t;
  fr_pool : pool_capacity (t_pool t') = pool_capacity (t_pool t);
}.

Lemma frame_refl t : frame t t.
Proof. done. Qed.
Lemma frame_trans t1 t2 t3 : frame t1 t2 -> frame t2 t3 -> frame t1 t3.
Proof. intros [] []. constructor; congruence. Qed.

(** Reading the clock keeps what was seen. *)
Lemma env_inv_now t : env_inv t -> env_inv (set_timer (now (t_timer t)).1 t).
Proof. intros []. constructor; cbn; try done; intros; eauto using seen_mono. Qed.

(** The range [[S, S + n)] was taken from the send window and is recorded. *)
Lemma send_inv_insert base W S rs t w i u n :
  send_inv base W S rs t -> 0 < n <= i16_max -> 6 + n <= pool_capacity (t_pool t) ->
  sw_rep base W (S + n) (rs ++ [(S, S + n)]) w -> entry_ok (S, S + n) u ->
  t_unacked_ranges i = <[wrap S := u]> (t_unacked_ranges t) -> t_send_window i = w ->
  pool_capacity (t_pool i) = pool_capacity (t_pool t) -> is_u32 (t_remote_recv_available i) ->
  send_inv base W (S + n) (rs ++ [(S, S + n)]) i.
Proof.
  intros [Hw Hdom Hent Hlen _] Hn Hcap Hrep Hu Hmap Hsw Hpool Hrem.
  assert (forall r, r ∈ rs -> wrap r.1 <> wrap S) as Hfresh.
  { intros r Hr Heq. pose proof (sw_segs _ _ _ _ _ Hw) as Hs0.
    pose proof (segs_Forall 0 ltac:(lia) _ _ _ Hs0) as Hs. rewrite Forall_forall in Hs. specialize (Hs r Hr).
    pose proof (sw_contents_len _ _ _ _ _ Hw) as [_ Hl]. pose proof (sw_end _ _ _ _ _ Hw).
    pose proof (retained_le _ _ _ _ Hs0 Hr). apply wrap_inj in Heq; lia. }
  constructor; [rewrite Hsw; exact Hrep|..|exact Hrem]; rewrite ?Hmap.
  - intros k v Hk. destruct (decide (k = wrap S)) as [->|Hne].
    + exists (S, S + n). split; [apply elem_of_app; right; by left|done].
    + rewrite lookup_insert_ne in Hk by done. destruct (Hdom k v Hk) as (r & ? & ?).
      exists r. split; [apply elem_of_app; by left|done].
  - intros r Hr. apply elem_of_app in Hr as [Hr|Hr%list_elem_of_singleton].
    + destruct (Hent r Hr) as (v & ? & ?). exists v. rewrite lookup_insert_ne; [done|].
      intros Heq. by apply (Hfresh r Hr).
    + subst r. exists u. by rewrite lookup_insert_eq.
  - rewrite Hpool. apply Forall_app. split; [done|]. constructor; [cbn; lia|constructor].
Qed.
(** ** [Task::send] *)

Local Ltac wp_step :=
  lazymatch goal with
  | |- completes (_ ≫= _) _ _ => apply completes_bind
  | |- completes get _ _ => apply completes_get
  | |- completes (mret _) _ _ => apply completes_ret
  | |- completes (throw _) _ _ => apply completes_throw
  | |- completes (modify _) _ _ => apply completes_modify
  | |- completes task_now _ _ => apply task_now_ok
  | |- completes task_acquire _ _ => apply task_acquire_ok
  | |- completes (lift (Val _)) _ _ => apply completes_lift; cbn [returns]
  | |- completes (lift (unwrap (Some _))) _ _ => apply completes_lift; cbn [returns unwrap]
  end; cbn beta iota.
Local Ltac proj := cbn [t_settings t_timer t_pool t_sender t_effects t_send_window t_recv_window
  t_remote_recv_available t_unacked_ranges t_rtt_estimate t_limiter set_timer set_pool set_sender emit
  set_send_window set_recv_window set_remote set_unacked set_rtt set_limiter
  start end_ last_sent retransmit].
Local Ltac wp := repeat (wp_step; proj).
(** Discharge a call by the equation that gives its value. *)
Local Ltac wp_lift H := apply completes_lift; rewrite H; cbn [returns].

(** How many bytes [send] sends. *)
Definition send_amount (avail : Z) (t : task) : Z :=
  if bytes_available (t_limiter t)
  then Z.min (Z.min (Z.min avail (t_remote_recv_available t)) i16_max) (pool_capacity (t_pool t) - 6)
  else 0.

(** [n] bytes were sent from position [S], in one packet. *)
Record send_post (base : Z) (W : list Z) (S : Z) (rs : list range) (t : task) (n : Z) (t' : task) : Prop := {
  sp_inv : send_inv base W (S + n) (if n =? 0 then rs else rs ++ [(S, S + n)]) t';
  sp_env : env_inv t';
  sp_frame : frame t t';
  sp_recv : t_recv_window t' = t_recv_window t;
  sp_remote : t_remote_recv_available t' = t_remote_recv_available t - n;
  sp_rtt : t_rtt_estimate t' = t_rtt_estimate t;
  sp_effects : if n =? 0 then t_effects t' = t_effects t
    else exists p, t_effects t' = t_effects t ++ [Sent p] /\ packet_wf p /\
           deref p = data_bytes S (substream base W S (S + n));
}.

(** The task once [n] bytes are in the packet [p] and recorded. *)
Lemma send_post_packet base W S rs t w n p t' :
  send_inv base W S rs t -> env_inv t -> 0 < n <= i16_max -> n <= t_remote_recv_available t ->
  6 + n <= pool_capacity (t_pool t) -> sw_rep base W (S + n) (rs ++ [(S, S + n)]) w ->
  packet_wf p -> deref p = data_bytes S (substream base W S (S + n)) ->
  frame t t' -> t_timer t' = (now (t_timer t)).1 -> t_effects t' = t_effects t ++ [Sent p] ->
  t_send_window t' = w -> t_recv_window t' = t_recv_window t ->
  t_remote_recv_available t' = t_remote_recv_available t - n -> t_rtt_estimate t' = t_rtt_estimate t ->
  t_unacked_ranges t' =
    <[wrap S := mkUnackedRange (wrap S) (wrap (S + n)) (Some (now (t_timer t)).2) false]> (t_unacked_ranges t) ->
  last_calculation (t_limiter t') = last_calculation (t_limiter t) -> send_post base W S rs t n t'.
Proof.
  intros Hinv [Hpool Hinit Hlim Hseen] Hn Hnr Hnp Hrep Hwf Hd [Hset Hpool'] Htm He Hw Hr Hrem Hrtt Hmap Hl.
  pose proof (si_remote _ _ _ _ _ Hinv). unfold is_u32 in *.
  constructor; rewrite ?(proj2 (Z.eqb_neq n 0)) by lia; try done.
  - eapply send_inv_insert; [exact Hinv|done|done|exact Hrep| |exact Hmap|done|done|unfold is_u32; lia]. done.
  - constructor; rewrite ?Hpool', ?Hset, ?Htm, ?Hl, ?Hmap; try done; [by apply seen_mono|]. intros k u i.
    destruct (decide (k = wrap S)) as [->|Hne].
    + rewrite lookup_insert_eq. intros [= <-] [= <-]. apply seen_now.
    + rewrite lookup_insert_ne by done. intros. eapply seen_mono, Hseen; done.
  - exists p. by split_and!.
Qed.

Lemma send_ok base W S rs t :
  send_inv base W S rs t -> env_inv t ->
  completes send t (fun t' o =>
    match o with
    | inl _ => send_post base W S rs t (send_amount (base + zlen W - S) t) t'
    | inr e => e = Disconnected /\ sink_refuses Snd P
    end).
Proof.
  intros Hinv Henv. destruct (Hinv) as [Hw Hdom Hent Hlen Hrem]. destruct (Henv) as [Hpool Hinit Hlim Hseen].
  set (avail := base + zlen W - S). set (n := send_amount avail t).
  pose proof (sw_contents_len _ _ _ _ _ Hw) as [Hcl Hcap]. pose proof (sw_end _ _ _ _ _ Hw).
  pose proof (retained_bounds _ _ _ _ _ Hw). unfold is_u32 in Hrem.
  assert (n = 0 -> send_post base W S rs t n t) as Hzero.
  { intros ->. constructor; try done; [by rewrite Z.add_0_r|lia]. }
  unfold send. wp. unfold send_amount in n. destruct (bytes_available (t_limiter t)); cbn [negb];
    [|by wp; apply Hzero].
  wp. wp_lift (send_available_rep _ _ _ _ _ Hw). fold avail. assert (0 <= avail < u32_half) by (unfold avail; lia).
  destruct (Z.eqb_spec (Z.min (Z.min avail (t_remote_recv_available t)) i16_max) 0) as [Hz|Hz].
  { wp. apply Hzero. unfold n. lia. }
  unfold MAX_PACKET_LEN, i16_max in *.
  wp. apply completes_lift. rewrite usize_sub_ok by lia. cbn [returns].
  unfold as_u32. rewrite wrap_id by (unfold is_pos; lia). fold n.
  assert (0 < n <= avail /\ n <= t_remote_recv_available t /\ n <= 32767 /\ 6 + n <= pool_capacity (t_pool t))
    as (Hn & Hnr & Hn16 & Hnp) by (unfold n; lia). clearbody n.
  wp. destruct (acquire_resize (t_pool t) (6 + n)) as (p & Hp & Hpwf & Hplen & Hpool'); [lia|].
  wp_lift Hp. wp. apply completes_lift. rewrite slice_from_ok by lia. cbn [returns].
  destruct (SendWindow_send_rep _ _ _ _ _ (zdrop 6 (deref p)) Hw) as (w & Hs & Hrep & _ & _);
    [rewrite zlen_zdrop; lia|].
  assert (zlen (zdrop 6 (deref p)) = n) as Hbody by (rewrite zlen_zdrop; lia).
  rewrite Hbody in Hs, Hrep. fold avail in Hs, Hrep. rewrite (Z.min_r avail n) in Hs, Hrep by lia.
  rewrite (proj2 (Z.eqb_neq n 0)) in Hs, Hrep by lia.
  rewrite (zdrop_ge n (zdrop 6 (deref p))), app_nil_r in Hs by lia.
  set (body := ztake n (zdrop (S - base) W)) in *.
  assert (zlen body = n) as Hbl by (apply zlen_sub; lia).
  wp. wp_lift Hs. wp.
  destruct (build_send p (write_i16 n) (write_u32 (wrap S)) body Hpwf) as (p1 & p2 & p3 & Hp1 & Hp2 & Hp3 & Hwf3 & Hd3);
    [apply write_i16_len; unfold is_i16, i16_min, i16_max; lia
    |apply write_u32_len; apply wrap_pos|lia|].
  wp_lift Hp1. wp.
  apply completes_lift. rewrite wsub_dist by lia. replace (S + n - S =? n) with true by (symmetry; apply Z.eqb_eq; lia).
  cbn [assert returns]. wp. rewrite as_i16_id by (unfold is_i16, i16_min, i16_max; lia).
  wp_lift Hp2. wp. wp_lift Hp3. wp. unfold task_take_bytes. wp. apply send_packet_ok; [|done].
  wp. apply completes_lift. cbn. rewrite u32_sub_ok by lia. cbn [returns]. wp.
  eapply (send_post_packet _ _ _ _ _ w n p3); try done; [unfold i16_max; lia|].
  rewrite Hd3. unfold data_bytes, substream. replace (S + n - S) with n by lia. fold body. by rewrite Hbl.
Qed.

(** What [send] handed to the sink. *)
Lemma send_post_effects base W S rs t n t' : base <= S -> 0 <= n ->
  send_post base W S rs t n t' ->
  exists es, t_effects t' = t_effects t ++ es /\ Forall (sent_ok (is_data base W)) es /\
    carried base W S (S + n) es.
Proof.
  intros HS Hn [Hs _ _ _ _ _ Heff]. destruct (Z.eqb_spec n 0) as [->|Hne].
  - exists []. rewrite app_nil_r, Z.add_0_r. split_and!; [done|constructor|apply carried_none].
  - destruct Heff as (p & He & Hwf & Hd). exists [Sent p].
    pose proof (sw_end _ _ _ _ _ (si_window _ _ _ _ _ Hs)). pose proof (si_len _ _ _ _ _ Hs) as Hlen.
    rewrite Forall_app, Forall_singleton in Hlen. destruct Hlen as [_ [Hlen _]]. cbn in Hlen.
    split; [done|]. split.
    + constructor; [|constructor]. split; [done|]. exists S, (S + n). split_and!; done || lia.
    + intros q Hq. constructor. exists p, S, (S + n). split_and!; done || lia.
Qed.

(** ** [Task::resend] *)

(** A retransmission of the unacked range at [key]: all of it, at its position. *)
Definition resends (base : Z) (W : list Z) (rs : list range) (key : StreamPos) (e : effect P) : Prop :=
  exists p r, e = Sent p /\ packet_wf p /\ r ∈ rs /\ key = wrap r.1 /\
    deref p = data_bytes r.1 (substream base W r.1 r.2).
Definition resent (base : Z) (W : list Z) (rs : list range) (e : effect P) : Prop :=
  exists key, resends base W rs key e.

(** The clock once a range was looked at, and whether it is due: it has no send time,
    or more than [limit] seconds have passed since. *)
Definition is_due (limit : f64) (tm : T) (u : UnackedRange Instant) : T * bool :=
  match last_sent u with
  | None => (tm, true)
  | Some last => let (tm', i) := now tm in
      (tm', match duration_between tm' last i with
            | Val d => SFltb limit (as_secs_f64 d)
            | Fault _ => false
            end)
  end.

(** What a retransmission of [u] does to the clock, the bandwidth and the map. *)
Definition resend_times : Type := T * BandwidthLimiter Instant * gmap Z (UnackedRange Instant).
Definition after_resend (key : StreamPos) (u : UnackedRange Instant) (x : resend_times) : resend_times :=
  let '(tm, l, m) := x in let (tm', i) := now tm in
  (tm', take_bytes l (6 + wsub (end_ u) (start u)),
   <[key := mkUnackedRange (start u) (end_ u) (Some i) true]> m).

(** Which ranges are sent again: while bandwidth is left, those that are due. *)
Fixpoint resend_plan (limit : f64) (keys : list StreamPos) (x : resend_times) : list StreamPos * resend_times :=
  match keys with
  | [] => ([], x)
  | key :: keys =>
    let '(tm, l, m) := x in
    if bytes_available l then
      match m !! key with
      | None => resend_plan limit keys x
      | Some u =>
        let (tm', due) := is_due limit tm u in
        if due : bool then
          let (sent, y) := resend_plan limit keys (after_resend key u (tm', l, m)) in (key :: sent, y)
        else resend_plan limit keys (tm', l, m)
      end
    else ([], x)
  end.

Definition resend_limit (t : task) : f64 := f64_mul (t_rtt_estimate t) (s_rtt_resend_factor (t_settings t)).
Definition times (t : task) : resend_times := (t_timer t, t_limiter t, t_unacked_ranges t).

(** The keys [sent] were sent again, in this order, and [x] is left of the times. *)
Definition resend_did (base : Z) (W : list Z) (rs : list range) (t : task)
    (plan : list StreamPos * resend_times) (t' : task) : Prop :=
  times t' = plan.2 /\
  exists es, t_effects t' = t_effects t ++ es /\ Forall2 (resends base W rs) plan.1 es.

(** While bandwidth is left, no range without a send time is passed over. *)
Lemma resend_plan_untimed limit keys : forall x key u,
  key ∈ keys -> x.2 !! key = Some u -> last_sent u = None -> 
  bytes_available (resend_plan limit keys x).2.1.2 = true -> key ∈ (resend_plan limit keys x).1.
Proof.
  induction keys as [|k keys IH]; intros [[tm l] m] key u Hk Hu Hnone Hb; [by apply not_elem_of_nil in Hk|].
  cbn [resend_plan] in *. cbn [fst snd] in Hu. destruct (bytes_available l) eqn:E; [|cbn in Hb; congruence].
  destruct (decide (k = key)) as [->|Hne].
  - rewrite Hu in *. unfold is_due in *. rewrite Hnone in *. destruct (resend_plan _ _ _). by left.
  - apply elem_of_cons in Hk as [->|Hk]; [done|]. destruct (m !! k) as [v|]; [|by eapply IH].
    destruct (is_due limit tm v) as [tm' []]; [|by eapply IH].
    pose proof (IH (after_resend k v (tm', l, m)) key u Hk) as IH'. destruct (resend_plan _ _ _). right.
    apply IH'; [|done..]. unfold after_resend. destruct (now tm'). cbn. by rewrite lookup_insert_ne.
Qed.

(** Packets of unacked ranges went out, and nothing else changed but their times. *)
Record resend_post (base : Z) (W : list Z) (S : Z) (rs : list range) (t t' : task) : Prop := {
  rp_inv : send_inv base W S rs t';
  rp_env : env_inv t';
  rp_frame : frame t t';
  rp_send : t_send_window t' = t_send_window t;
  rp_recv : t_recv_window t' = t_recv_window t;
  rp_remote : t_remote_recv_available t' = t_remote_recv_available t;
  rp_rtt : t_rtt_estimate t' = t_rtt_estimate t;
  rp_effects : exists es, t_effects t' = t_effects t ++ es /\ Forall (resent base W rs) es;
}.

Lemma resend_post_refl base W S rs t : send_inv base W S rs t -> env_inv t -> resend_post base W S rs t t.
Proof. intros. constructor; try done. exists []. by rewrite app_nil_r. Qed.
Lemma resend_post_trans base W S rs t1 t2 t3 :
  resend_post base W S rs t1 t2 -> resend_post base W S rs t2 t3 -> resend_post base W S rs t1 t3.
Proof.
  intros [_ _ ? ? ? ? ? (es & He & Hes)] [? ? ? ? ? ? ? (es' & He' & Hes')].
  constructor; try done; try congruence; [by eapply frame_trans|].
  exists (es ++ es'). rewrite He', He, app_assoc. split; [done|by apply Forall_app].
Qed.

Lemma resend_post_now base W S rs t :
  send_inv base W S rs t -> env_inv t -> resend_post base W S rs t (set_timer (now (t_timer t)).1 t).
Proof.
  intros [] Henv. constructor; cbn; try done; [by apply env_inv_now|]. exists []. by rewrite app_nil_r.
Qed.

Lemma resend_due_ok base W S rs t k u :
  send_inv base W S rs t -> env_inv t -> t_unacked_ranges t !! k = Some u ->
  completes (resend_due u) t (fun t' o =>
    resend_post base W S rs t t' /\ t_effects t' = t_effects t /\ let (tm, due) := is_due (resend_limit t) (t_timer t) u in
    o = inl due /\ times t' = (tm, t_limiter t, t_unacked_ranges t)).
Proof.
  intros Hinv Henv Hk. unfold resend_due, is_due. destruct (last_sent u) as [last|] eqn:Hlast.
  - wp. destruct (duration_ok (t_timer t) last) as (d & Hd & _); [by eapply (ei_sent _ Henv)|].
    pose proof (resend_post_now base W S rs t Hinv Henv) as Hnow.
    destruct (now (t_timer t)) as [tm i]. cbn [fst snd] in *. wp_lift Hd. wp. done.
  - wp. split_and!; [by apply resend_post_refl|done..].
Qed.

(** The map entry of a range may change, as long as it is an entry of the range. *)
Lemma send_inv_update base W S rs t t' r u :
  send_inv base W S rs t -> r ∈ rs -> entry_ok r u ->
  t_unacked_ranges t' = <[wrap r.1 := u]> (t_unacked_ranges t) ->
  t_send_window t' = t_send_window t -> pool_capacity (t_pool t') = pool_capacity (t_pool t) ->
  t_remote_recv_available t' = t_remote_recv_available t -> send_inv base W S rs t'.
Proof.
  intros [Hw Hdom Hent Hlen Hrem] Hr Hu Hmap Hsw Hpool Hr'. constructor; rewrite ?Hsw, ?Hpool, ?Hr', ?Hmap; try done.
  - intros k v Hk. destruct (decide (k = wrap r.1)) as [->|Hne]; [by exists r|].
    rewrite lookup_insert_ne in Hk by done. by apply (Hdom k v).
  - intros q Hq. destruct (decide (wrap q.1 = wrap r.1)) as [Heq|Hne].
    + rewrite Heq, lookup_insert_eq. exists u. split; [done|].
      assert (q = r) as ->; [|done]. by apply (sw_starts_inj _ _ _ _ _ Hw).
    + rewrite lookup_insert_ne by done. by apply Hent.
Qed.

Lemma resend_one_ok base W S rs t r u :
  send_inv base W S rs t -> env_inv t -> r ∈ rs -> t_unacked_ranges t !! wrap r.1 = Some u ->
  completes (resend_one (wrap r.1) u) t (fun t' o =>
    match o with
    | inl _ => resend_post base W S rs t t' /\
        let (tm, due) := is_due (resend_limit t) (t_timer t) u in
        let x := (tm, t_limiter t, t_unacked_ranges t) in
        resend_did base W rs t (if due then ([wrap r.1], after_resend (wrap r.1) u x) else ([], x)) t'
    | inr e => e = Disconnected /\ sink_refuses Snd P
    end).
Proof.
  intros Hinv Henv Hr Hu. unfold resend_one. wp.
  eapply completes_mono; [by apply (resend_due_ok base W S rs t (wrap r.1) u)|].
  intros t1 o (Hpost & Heff & Hdue). destruct (is_due _ _ _) as [tm due]. destruct Hdue as [-> Htimes].
  destruct due; cycle 1.
  { wp. split; [done|]. split; [done|]. exists []. rewrite app_nil_r. split; [done|constructor]. }
  assert (t_unacked_ranges t1 = t_unacked_ranges t) as Hmap by (by injection Htimes).
  pose proof (rp_inv _ _ _ _ _ _ Hpost) as Hinv1. pose proof (rp_env _ _ _ _ _ _ Hpost) as Henv1.
  destruct (Hinv1) as [Hw _ Hent Hlen _]. rewrite Forall_forall in Hlen. destruct (Hlen r Hr) as [Hr16 Hrcap].
  destruct (Hent r Hr) as (u1 & Hu1 & Hstart & Hend). rewrite Hmap, Hu in Hu1. injection Hu1 as <-.
  pose proof (ei_pool _ Henv1). unfold i16_max, MAX_PACKET_LEN in *.
  pose proof (sw_segs _ _ _ _ _ Hw) as Hs. pose proof (segs_Forall 0 ltac:(lia) _ _ _ Hs) as HF.
  rewrite Forall_forall in HF. specialize (HF r Hr). pose proof (sw_end _ _ _ _ _ Hw).
  wp. rewrite Hstart, Hend, wsub_dist by lia. cbn [start end_]. set (n := r.2 - r.1) in *.
  destruct (acquire_resize (t_pool t1) (6 + n)) as (p & Hp & Hpwf & Hplen & Hpool'); [lia|].
  wp_lift Hp. wp. rewrite as_i16_id by (unfold is_i16, i16_min, i16_max; lia).
  pose proof (retained_le _ _ _ _ Hs Hr). pose proof (retained_bounds _ _ _ _ _ Hw).
  set (body := substream base W r.1 r.2).
  assert (zlen body = n) as Hbl by (apply zlen_sub; lia).
  destruct (build_resend p (write_i16 n) (write_u32 (wrap r.1)) body Hpwf)
    as (p1 & p2 & p3 & Hp1 & Hp2 & Hl2 & Hp3 & Hwf3 & Hd3);
    [apply write_i16_len; unfold is_i16, i16_min, i16_max; lia
    |apply write_u32_len; apply wrap_pos|lia|].
  wp_lift Hp1. wp. wp_lift Hp2. wp. apply completes_lift. rewrite slice_from_ok by lia. cbn [returns]. wp.
  assert (zlen (zdrop 6 (deref p2)) = n) as Hz by (rewrite zlen_zdrop; lia).
  apply completes_lift. rewrite (get_unacked_rep _ _ _ _ _ r.1 _ Hw) by lia. cbn [returns].
  rewrite Hz. change (ztake n (zdrop (r.1 - base) W)) with body.
  wp. wp_lift Hp3. wp. unfold task_take_bytes. wp. apply send_packet_ok; [|done].
  assert (resends base W rs (wrap r.1) (Sent p3)) as Hsent.
  { exists p3, r. split_and!; [done..|]. unfold data_bytes. fold body. by rewrite Hbl. }
  assert (wrap (zlen (deref p3)) = 6 + n) as Hlen3.
  { rewrite Hd3, !zlen_app, write_i16_len, write_u32_len, Hbl
      by (apply wrap_pos || (unfold is_i16, i16_min, i16_max; lia)).
    rewrite wrap_id by (unfold is_pos; lia). lia. }
  split; cycle 1.
  { split; cycle 1; [exists [Sent p3]; proj; rewrite Heff; split; [done|by repeat constructor]|].
    cbn [snd]. injection Htimes as Ht1 Ht2 _. unfold times, after_resend. proj. rewrite <- Ht1, <- Ht2, Hmap.
    unfold as_u32. rewrite Hlen3, Hstart, Hend, wsub_dist by lia. by destruct (now (t_timer t1)). }
  eapply resend_post_trans; [exact Hpost|]. constructor; proj; try done.
  - eapply (send_inv_update base W S rs t1 _ r); [done|done| |reflexivity|done..]. done.
  - destruct Henv1 as [? ? ? Hseen]. constructor; proj; rewrite ?Hpool'; try done; [by apply seen_mono|].
    intros k v i. destruct (decide (k = wrap r.1)) as [->|Hne].
    + rewrite lookup_insert_eq. intros [= <-] [= <-]. apply seen_now.
    + rewrite lookup_insert_ne by done. intros. eapply seen_mono, Hseen; done.
  - exists [Sent p3]. split; [done|]. constructor; [|constructor]. by exists (wrap r.1).
Qed.

Lemma resend_did_trans base W rs t1 t2 t3 sent x sent' y :
  resend_did base W rs t1 (sent, x) t2 -> resend_did base W rs t2 (sent', y) t3 ->
  resend_did base W rs t1 (sent ++ sent', y) t3.
Proof.
  intros (_ & es & He & Hes) (Hy & es' & He' & Hes'). split; [exact Hy|]. exists (es ++ es').
  rewrite He', He, app_assoc. split; [done|by apply Forall2_app].
Qed.

Lemma resend_ok base W S rs keys : forall t,
  send_inv base W S rs t -> env_inv t ->
  completes (resend keys) t (fun t' o =>
    match o with
    | inl _ => resend_post base W S rs t t' /\
        resend_did base W rs t (resend_plan (resend_limit t) keys (times t)) t'
    | inr e => e = Disconnected /\ sink_refuses Snd P
    end).
Proof.
  assert (forall t : task, resend_did base W rs t ([], times t) t) as Hnil.
  { intros t. split; [done|]. exists []. rewrite app_nil_r. split; [done|constructor]. }
  induction keys as [|k keys IH]; intros t Hinv Henv; cbn [resend].
  { wp. split; [by apply resend_post_refl|apply Hnil]. }
  wp. cbn [resend_plan]. unfold times at 1. destruct (bytes_available (t_limiter t)); cbn [negb];
    [|wp; split; [by apply resend_post_refl|apply Hnil]].
  destruct (t_unacked_ranges t !! k) as [u|] eqn:Hu; [|by apply IH].
  destruct (si_dom _ _ _ _ _ Hinv k u Hu) as (r & Hr & ->).
  wp. eapply completes_mono; [by apply (resend_one_ok base W S rs t r u)|].
  intros t1 [[]|e]; [|done]. intros [Hpost Hdid].
  eapply completes_mono; [apply (IH t1); [by eapply rp_inv|by eapply rp_env]|].
  intros t2 [[]|e]; [|done]. intros [Hpost2 Hdid2]. split; [by eapply resend_post_trans|].
  replace (resend_limit t1) with (resend_limit t) in Hdid2
    by (unfold resend_limit; by rewrite (rp_rtt _ _ _ _ _ _ Hpost), (fr_settings _ _ (rp_frame _ _ _ _ _ _ Hpost))).
  destruct (is_due _ _ _) as [tm due]. pose proof Hdid as [Hx _]. rewrite Hx in Hdid2.
  destruct due; cbn [snd] in Hdid2; destruct (resend_plan _ _ _) as [sent y];
    by apply (resend_did_trans _ _ _ _ _ _ _ _ _ _ Hdid Hdid2).
Qed.

(** ** Acknowledgments *)

(** A position that was sent and is no longer held. *)
Definition released (base S : Z) (rs : list range) (p : Z) : Prop := base <= p < S /\ ~ covered rs p.

(** The prefix up to [e] of [(a, b)] leaves the map. *)
Lemma send_inv_acked base W S l1 a b l2 e t t' w :
  send_inv base W S (l1 ++ (a, b) :: l2) t -> a < e <= b ->
  sw_rep base W S (acked l1 l2 b e) w -> t_send_window t' = w ->
  (if e =? b then t_unacked_ranges t' = delete (wrap a) (t_unacked_ranges t)
   else exists u, entry_ok (e, b) u /\
     t_unacked_ranges t' = <[wrap e := u]> (delete (wrap a) (t_unacked_ranges t))) ->
  pool_capacity (t_pool t') = pool_capacity (t_pool t) -> is_u32 (t_remote_recv_available t') ->
  send_inv base W S (acked l1 l2 b e) t'.
Proof.
  intros [Hw Hdom Hent Hlen _] He Hrep Hsw Hmap Hpool Hrem.
  pose proof (segs_starts_ne 0 _ _ _ _ _ ltac:(lia) (sw_segs _ _ _ _ _ Hw)) as Hne.
  rewrite Forall_forall in Hne. cbn [fst] in Hne.
  assert ((a, b) ∈ l1 ++ (a, b) :: l2) as Hin by (apply elem_of_app; right; by left).
  assert (forall r, r ∈ l1 ++ l2 -> r ∈ l1 ++ (a, b) :: l2) as Hsub.
  { intros r. rewrite !elem_of_app, elem_of_cons. tauto. }
  assert (forall r, r ∈ l1 ++ l2 -> wrap r.1 <> wrap a) as Hkey.
  { intros r Hr Heq. apply (Hne r Hr). by rewrite (sw_starts_inj _ _ _ _ _ Hw (a, b) r Hin (Hsub r Hr) Heq). }
  assert (forall k u, delete (wrap a) (t_unacked_ranges t) !! k = Some u ->
    exists r, r ∈ l1 ++ l2 /\ k = wrap r.1) as Hdom'.
  { intros k u Hk. apply lookup_delete_Some in Hk as [Hka Hk]. destruct (Hdom k u Hk) as (r & Hr & ->).
    exists r. split; [|done]. rewrite elem_of_app, elem_of_cons in Hr. rewrite elem_of_app.
    destruct Hr as [?|[->|?]]; [by left|done|by right]. }
  assert (forall r, r ∈ l1 ++ l2 -> exists u, delete (wrap a) (t_unacked_ranges t) !! wrap r.1 = Some u /\
    entry_ok r u) as Hent'.
  { intros r Hr. destruct (Hent r (Hsub r Hr)) as (u & Hu & ?). exists u. split; [|done].
    rewrite lookup_delete_ne; [done|]. intros Heq. by apply (Hkey r Hr). }
  apply Forall_app in Hlen as [Hlen1 Hlen2]. apply Forall_cons in Hlen2 as [Hab Hlen2]. cbn in Hab.
  unfold acked in *. destruct (Z.eqb_spec e b) as [->|Hneb].
  - constructor; rewrite ?Hsw, ?Hpool, ?Hmap; try done. by apply Forall_app.
  - destruct Hmap as (u & Hu & Hmap).
    pose proof (segs_starts_ne 0 _ _ _ _ _ ltac:(lia) (sw_segs _ _ _ _ _ Hrep)) as Hne'.
    rewrite Forall_forall in Hne'. cbn [fst] in Hne'.
    assert ((e, b) ∈ l1 ++ (e, b) :: l2) as Hin' by (apply elem_of_app; right; by left).
    assert (forall r, r ∈ l1 ++ l2 -> wrap r.1 <> wrap e) as Hkey'.
    { intros r Hr Heq. apply (Hne' r Hr).
      rewrite (sw_starts_inj _ _ _ _ _ Hrep (e, b) r Hin'); [done| |done].
      rewrite !elem_of_app, elem_of_cons in *. tauto. }
    constructor; rewrite ?Hsw, ?Hpool, ?Hmap; try done.
    + intros k v Hk. destruct (decide (k = wrap e)) as [->|Hke]; [by exists (e, b)|].
      rewrite lookup_insert_ne in Hk by done. destruct (Hdom' k v Hk) as (r & Hr & ->).
      exists r. split; [|done]. rewrite !elem_of_app, elem_of_cons in *. tauto.
    + intros r Hr. rewrite elem_of_app, elem_of_cons in Hr.
      destruct (decide (r = (e, b))) as [->|Hr']; [exists u; by rewrite lookup_insert_eq|].
      assert (r ∈ l1 ++ l2) as Hr2 by (rewrite elem_of_app; tauto).
      rewrite lookup_insert_ne; [by apply Hent'|]. intros Heq. by apply (Hkey' r Hr2).
    + apply Forall_app. split; [done|]. constructor; [cbn; lia|done].
Qed.

(** The room at the remote once its window ends at [hi], and how many bytes [send]
    then sends at once, which it does when there was none. *)
Definition remote_room (hi : StreamPos) (t : task) : Z :=
  let pos := send_pos (t_send_window t) in
  if stream_gt hi pos then Z.max (t_remote_recv_available t) (wsub hi pos) else t_remote_recv_available t.
Definition sent_at_once (base : Z) (W : list Z) (S : Z) (hi : StreamPos) (t : task) : Z :=
  if (t_remote_recv_available t =? 0) && negb (remote_room hi t =? 0)
  then send_amount (base + zlen W - S) (set_remote (remote_room hi t) t) else 0.

(** The unacked ranges once [n] bytes from [S] were sent. *)
Definition and_sent (S n : Z) (rs : list range) : list range := if n =? 0 then rs else rs ++ [(S, S + n)].

(** [n] bytes went out from [S]; the receiving half is as it was. *)
Record sends_post (base : Z) (W : list Z) (S n : Z) (rs' : list range) (t t' : task) : Prop := {
  sn_nonneg : 0 <= n;
  sn_inv : send_inv base W (S + n) rs' t';
  sn_env : env_inv t';
  sn_frame : frame t t';
  sn_recv : t_recv_window t' = t_recv_window t;
  sn_effects : exists es, t_effects t' = t_effects t ++ es /\ Forall (sent_ok (is_data base W)) es /\
    carried base W S (S + n) es;
}.

(** Nothing was sent: only the room at the remote was set. *)
Lemma sends_none base W S rs t v :
  send_inv base W S rs t -> env_inv t -> is_u32 v -> sends_post base W S 0 rs t (set_remote v t).
Proof.
  intros [] [] Hv. constructor; rewrite ?Z.add_0_r; [lia|by constructor..|done|]. exists []. rewrite app_nil_r.
  split_and!; [done|constructor|apply carried_none].
Qed.

Lemma set_remote_same (t : task) : set_remote (t_remote_recv_available t) t = t.
Proof. by destruct t. Qed.

(** The new window end of the remote may let [send] send at once. *)
Lemma remote_window_ok base W S rs t hi :
  send_inv base W S rs t -> env_inv t ->
  completes (remote_window hi) t (fun t' o =>
    match o with
    | inl _ => let n := sent_at_once base W S hi t in
        sends_post base W S n (and_sent S n rs) t t' /\ t_remote_recv_available t' = remote_room hi t - n
    | inr e => e = Disconnected /\ sink_refuses Snd P
    end).
Proof.
  intros Hinv Henv. unfold remote_window. wp. cbn zeta. unfold sent_at_once.
  assert (is_u32 (remote_room hi t)) as Hroom.
  { pose proof (si_remote _ _ _ _ _ Hinv). unfold remote_room, wsub, is_u32 in *.
    pose proof (wrap_pos (hi - send_pos (t_send_window t))) as Hp. unfold is_pos in *. case_match; lia. }
  pose proof (sends_none base W S rs t _ Hinv Henv Hroom) as Hnone.
  set (room := remote_room hi t) in *.
  destruct (stream_gt hi (send_pos (t_send_window t))) eqn:E; cycle 1.
  { assert (room = t_remote_recv_available t) as Hr by (unfold room, remote_room; by rewrite E).
    rewrite Hr. replace (_ && _) with false by (by destruct (Z.eqb_spec (t_remote_recv_available t) 0)).
    wp. rewrite Hr, set_remote_same in Hnone. split; [exact Hnone|lia]. }
  assert (Z.max (t_remote_recv_available t) (wsub hi (send_pos (t_send_window t))) = room) as ->
    by (unfold room, remote_room; by rewrite E).
  wp. rewrite (andb_comm (negb _)). destruct (_ && _); [|wp; split; [exact Hnone|proj; lia]].
  set (t1 := set_remote room t) in *.
  assert (send_inv base W S rs t1) as Hinv1 by (by destruct Hnone as [_ Hi _ _ _ _]; rewrite Z.add_0_r in Hi).
  assert (env_inv t1) as Henv1 by apply Hnone.
  eapply completes_mono; [by apply (send_ok base W S rs t1)|]. intros t2 [[]|e]; [|done].
  set (n := send_amount _ _). intros Hpost.
  assert (0 <= n) as Hn.
  { pose proof (ei_pool _ Henv1). pose proof (sw_end _ _ _ _ _ (si_window _ _ _ _ _ Hinv1)).
    pose proof (si_remote _ _ _ _ _ Hinv1). unfold n, send_amount, is_u32, i16_max in *. destruct (bytes_available _); lia. }
  pose proof (retained_bounds _ _ _ _ _ (si_window _ _ _ _ _ Hinv)).
  pose proof (send_post_effects base W S rs t1 n t2 ltac:(lia) Hn Hpost) as Heff.
  destruct Hpost as [Hi He [] Hr Hrem _ _]. split; [constructor; try done; by constructor|exact Hrem].
Qed.

(** Only the clock was read and the estimate changed. *)
Record quiet (t t' : task) : Prop := {
  q_settings : t_settings t' = t_settings t;
  q_pool : t_pool t' = t_pool t;
  q_effects : t_effects t' = t_effects t;
  q_send : t_send_window t' = t_send_window t;
  q_recv : t_recv_window t' = t_recv_window t;
  q_remote : t_remote_recv_available t' = t_remote_recv_available t;
  q_unacked : t_unacked_ranges t' = t_unacked_ranges t;
  q_env : env_inv t';
}.

Lemma quiet_send_inv base W S rs t t' : quiet t t' -> send_inv base W S rs t -> send_inv base W S rs t'.
Proof. intros [_ Hp _ Hs _ Hr Hu _] []. constructor; rewrite ?Hp, ?Hs, ?Hr, ?Hu; done. Qed.
Lemma quiet_refl t : env_inv t -> quiet t t.
Proof. by constructor. Qed.

Lemma update_rtt_ok t u :
  env_inv t -> (forall i, last_sent u = Some i -> seen (t_timer t) i) ->
  completes (update_rtt u) t (fun t' o => o = inl tt /\ quiet t t').
Proof.
  intros Henv Hseen. unfold update_rtt. destruct (retransmit u); [wp; by eauto using quiet_refl|].
  destruct (last_sent u) as [last|]; [|wp; by eauto using quiet_refl]. wp.
  destruct (duration_ok (t_timer t) last) as (d & Hd & _); [by apply Hseen|]. wp_lift Hd. wp.
  split; [done|]. constructor; proj; try done. destruct (env_inv_now t Henv). by constructor.
Qed.

(** The window dropped the prefix up to [e] of [(a, b)]; the map follows. *)
Lemma take_acked_ok base W S l1 a b l2 e t w :
  send_inv base W S (l1 ++ (a, b) :: l2) t -> env_inv t -> a < e <= b ->
  sw_rep base W S (acked l1 l2 b e) w ->
  completes (take_acked (wrap a) (wrap e) (if e =? b then Ack else PartialAck (wrap b)))
    (set_send_window w t) (fun t' o =>
      send_inv base W S (acked l1 l2 b e) t' /\ env_inv t' /\ frame t t' /\
      t_recv_window t' = t_recv_window t /\ t_effects t' = t_effects t /\
      t_remote_recv_available t' = t_remote_recv_available t /\
      exists u, o = inl (Some u) /\ forall i, last_sent u = Some i -> seen (t_timer t') i).
Proof.
  intros Hinv Henv He Hrep. unfold take_acked. wp.
  destruct (si_entry _ _ _ _ _ Hinv (a, b)) as (u & Hu & Hstart & Hend); [apply elem_of_app; right; by left|].
  cbn [fst snd] in *. pose proof (si_remote _ _ _ _ _ Hinv) as Hrem.
  destruct (Henv) as [Hpool Hinit Hlim Hseen]. destruct (Z.eqb_spec e b) as [->|Hne].
  - wp. rewrite Hu. wp. apply completes_lift. rewrite Hend, Z.eqb_refl. cbn [assert returns]. wp.
    split_and!; [| |done|done|done|done|].
    + eapply send_inv_acked; [exact Hinv|exact He|..]; try done. by rewrite Z.eqb_refl.
    + constructor; proj; try done. intros k v i Hk%lookup_delete_Some. destruct Hk. by eapply Hseen.
    + exists u. split; [done|]. intros i Hi. by eapply Hseen.
  - wp. rewrite Hu. wp. apply completes_lift. rewrite Hend, Z.eqb_refl. cbn [assert returns]. wp.
    split_and!; [| |done|done|done|done|].
    + eapply send_inv_acked; [exact Hinv|exact He|..]; try done.
      rewrite (proj2 (Z.eqb_neq e b)) by done. eexists. by split; [|reflexivity].
    + constructor; proj; try done. intros k v i. destruct (decide (k = wrap e)) as [->|Hke].
      * rewrite lookup_insert_eq. by intros [= <-].
      * rewrite lookup_insert_ne by done. intros Hk%lookup_delete_Some. destruct Hk. by eapply Hseen.
    + eexists. split; [done|]. proj. intros i Hi. by eapply Hseen.
Qed.

(** An acknowledgment for [n] bytes from [start_pos] takes them off the unacked range
    that starts there, if there is one and it is as long, and else nothing. *)
Definition ack_takes (start_pos : StreamPos) (n : Z) (rs rs' : list range) : Prop :=
  (exists l1 a b l2, rs = l1 ++ (a, b) :: l2 /\ wrap a = start_pos /\ a + n <= b /\ rs' = acked l1 l2 b (a + n)) \/
  (Forall (fun r => ~ (wrap r.1 = start_pos /\ r.1 + n <= r.2)) rs /\ rs' = rs).

(** What it leaves, when the remote's window ends at [hi]. *)
Definition ack_post (base : Z) (W : list Z) (S : Z) (rs : list range) (t : task)
    (start_pos : StreamPos) (n : Z) (hi : StreamPos) (t' : task) : Prop :=
  let m := sent_at_once base W S hi t in
  t_remote_recv_available t' = remote_room hi t - m /\
  exists rs', sends_post base W S m rs' t t' /\ ack_takes start_pos n (and_sent S m rs) rs'.

(** What was sent meanwhile is not released. *)
Lemma released_sent base S rs n p : 0 <= n ->
  released base (S + n) (and_sent S n rs) p -> released base S rs p.
Proof.
  unfold released, covered, and_sent. intros Hn [Hp Hc]. destruct (Z.eqb_spec n 0); [subst n; split; [lia|done]|].
  rewrite Exists_app, Exists_cons in Hc. cbn in Hc. split; [lia|tauto].
Qed.

(** What an acknowledged prefix releases. *)
Lemma covered_takes l1 a b l2 n p :
  covered (l1 ++ (a, b) :: l2) p -> a <= p < a + n \/ covered (acked l1 l2 b (a + n)) p.
Proof.
  unfold covered, acked. rewrite !Exists_app, Exists_cons. cbn [fst snd].
  intros [?|[?|?]]; [right; by left| |right; right; case_match; [done|by right]].
  destruct (Z.lt_ge_cases p (a + n)); [left; lia|right; right].
  rewrite (proj2 (Z.eqb_neq _ _)) by lia. left. cbn. lia.
Qed.

(** Every range is of the part of the stream that was sent. *)
Lemma and_sent_bounds base W S rs t m r :
  send_inv base W S rs t -> 0 <= m -> r ∈ and_sent S m rs -> base <= r.1 /\ r.2 <= S + m.
Proof.
  intros Hinv Hm. pose proof (si_window _ _ _ _ _ Hinv) as Hw. pose proof (retained_bounds _ _ _ _ _ Hw).
  pose proof (segs_Forall 0 ltac:(lia) _ _ _ (sw_segs _ _ _ _ _ Hw)) as HF. rewrite Forall_forall in HF.
  assert (r ∈ rs -> base <= r.1 /\ r.2 <= S + m) as Hold by (intros Hr; specialize (HF r Hr); lia).
  unfold and_sent. destruct (m =? 0); [done|]. rewrite elem_of_app, list_elem_of_singleton.
  intros [?| ->]; [by apply Hold|cbn; lia].
Qed.

(** Only what was acknowledged is released. *)
Lemma ack_post_released base W S rs t start_pos n hi t' :
  send_inv base W S rs t -> ack_post base W S rs t start_pos n hi t' ->
  exists m rs', sends_post base W S m rs' t t' /\
    forall p, released base (S + m) rs' p -> released base S rs p \/
      exists a, wrap a = start_pos /\ base <= a /\ a + n <= S + m /\ a <= p < a + n.
Proof.
  intros Hinv (_ & rs' & Hpost & Htakes). eexists _, _. split; [exact Hpost|].
  pose proof (fun p => released_sent base S rs _ p (sn_nonneg _ _ _ _ _ _ _ Hpost)) as Hrel. intros p Hp.
  destruct Htakes as [(l1 & a & b & l2 & Hrs & Ha & Hb & ->)|[_ ->]]; [|left; by apply Hrel].
  set (m := sent_at_once base W S hi t) in *. pose proof (sn_nonneg _ _ _ _ _ _ _ Hpost).
  destruct (decide (a <= p < a + n)) as [Hin|Hout].
  - right. exists a. destruct (and_sent_bounds base W S rs t m (a, b) Hinv) as [? ?];
      [done|rewrite Hrs; apply elem_of_app; right; by left|]. cbn in *. split_and!; done || lia.
  - left. apply Hrel. destruct Hp as [? Hc]. split; [done|]. rewrite Hrs. by intros [?|?]%(covered_takes _ _ _ _ n).
Qed.

(** The waker of the writer may be woken. *)
Lemma ack_post_wake base W S rs t start_pos n hi t' k :
  ack_post base W S rs t start_pos n hi t' ->
  completes (if 0 <? k then modify (emit WakeWrite) else mret tt) t' (fun t' (o : unit + Error) =>
    match o with inl _ => ack_post base W S rs t start_pos n hi t' | inr e => e = Disconnected /\ sink_refuses Snd P end).
Proof.
  intros Hpost. destruct (0 <? k); wp; [|exact Hpost].
  destruct Hpost as (Hrem & rs' & [? [] [] [] ? (es & He & Hes & Hcar)] & Ht). split; [exact Hrem|]. exists rs'. split; [|exact Ht].
  constructor; [done|by constructor..|done|]. exists (es ++ [WakeWrite]). proj. rewrite He, <- app_assoc. split; [done|].
  split; [apply Forall_app; by repeat constructor|by apply carried_more].
Qed.

(** [ack_range] finds nothing exactly when no range matches. *)
Lemma ack_none base W S rs w start_pos n :
  sw_rep base W S rs w -> 0 < n -> ack_range w start_pos (wadd start_pos n) = Val (w, NotFound) ->
  ack_takes start_pos n rs rs.
Proof.
  intros Hw Hn Hno. right. split; [|done]. apply Forall_forall. intros [a b] Hr [<- He]. cbn [fst snd] in *.
  apply list_elem_of_split in Hr as (l1 & l2 & ->). assert (a < a + n <= b) as Hab by lia.
  destruct (ack_at_rep _ _ _ _ _ _ _ _ (a + n) Hw Hab) as (w' & Hat & _).
  rewrite <- (ack_range_match _ _ _ _ _ _ _ _ _ Hw Hab), <- wadd_wrap, Hno in Hat.
  by destruct (a + n =? b).
Qed.

Lemma recv_ack_ok base W S rs t n bytes start_bytes end_bytes h2 :
  send_inv base W S rs t -> env_inv t -> 0 < n <= i16_max ->
  zlen h2 = 2 -> zlen start_bytes = 4 -> zlen end_bytes = 4 -> bytes = h2 ++ start_bytes ++ end_bytes ->
  completes (recv_ack (- n) bytes) t (fun t' o =>
    match o with
    | inl _ => ack_post base W S rs t (read_u32 start_bytes) n (read_u32 end_bytes) t'
    | inr e => e = Disconnected /\ sink_refuses Snd P
    end).
Proof.
  intros Hinv Henv Hn H2 H4 H4' ->. unfold recv_ack.
  rewrite !zlen_app, H2, H4, H4'. change (negb (2 + (4 + 4) =? 10)) with false. cbn iota.
  pose proof (slice_mid h2 start_bytes end_bytes) as Hs1. rewrite H2, H4 in Hs1.
  pose proof (slice_mid (h2 ++ start_bytes) end_bytes []) as Hs2.
  rewrite app_nil_r, <- app_assoc, zlen_app, H2, H4, H4' in Hs2.
  change (2 + 4) with 6 in *. change (6 + 4) with 10 in *. wp. wp_lift Hs1. wp. set (start_pos := read_u32 start_bytes).
  assert (is_pos start_pos) as Hsp by (by apply read_u32_range).
  apply completes_lift. unfold neg_i16, i16_min, i16_max in *.
  rewrite (proj2 (Z.eqb_neq _ _)), Z.opp_involutive by lia. cbn [returns]. wp.
  wp_lift Hs2. wp. unfold as_u32. rewrite (wrap_id n) by (unfold is_pos; lia).
  eapply completes_mono; [by apply (remote_window_ok base W S rs t)|].
  intros t1 [[]|er]; [|done]. set (hi := read_u32 end_bytes). set (m := sent_at_once base W S hi t).
  intros [Hpost Hrem]. wp. set (rs1 := and_sent S m rs) in *.
  pose proof (sn_inv _ _ _ _ _ _ _ Hpost) as Hinv1. pose proof (si_window _ _ _ _ _ Hinv1) as Hw1.
  destruct (ack_range_other base W (S + m) rs1 _ start_pos (wadd start_pos n) Hw1 Hsp (wrap_pos _))
    as [Hno|(l1 & a & b & l2 & e & Hrs & He & Hstart & Hend)].
  { wp_lift Hno. wp. unfold take_acked. wp. split; [exact Hrem|]. exists rs1.
    split; [destruct Hpost as [? [] [] [] ? ?]; constructor; try done; by constructor|]. eapply ack_none; [exact Hw1|lia|exact Hno]. }
  destruct Hpost as [Hm _ Henv1 Hf1 Hr1 (es & Hes & Hesok & Hcar)]. rewrite Hrs in Hinv1, Hw1.
  destruct (ack_at_rep _ _ _ _ _ _ _ _ e Hw1 He) as (w & Hat & Hrep & _).
  pose proof (ack_range_match _ _ _ _ _ _ _ _ _ Hw1 He) as Hm1. rewrite Hat, <- Hstart, <- Hend in Hm1.
  assert (e = a + n) as ->.
  { pose proof (si_len _ _ _ _ _ Hinv1) as Hl. rewrite Forall_app, Forall_cons in Hl. cbn in Hl.
    unfold i16_max in Hl. rewrite Hstart, wadd_wrap in Hend. apply wrap_inj in Hend; lia. }
  wp_lift Hm1. wp. rewrite Hend, Hstart.
  eapply completes_mono; [by apply (take_acked_ok base W (S + m) l1 a b l2 (a + n) t1 w)|].
  intros t2 o (Hinv2 & Henv2 & Hf2 & Hr2 & He2 & Hrem2 & u & -> & Hu). wp.
  eapply completes_mono; [by apply (update_rtt_ok t2 u)|]. intros t3 o (-> & Hq). wp.
  pose proof (quiet_send_inv _ _ _ _ _ _ Hq Hinv2) as Hinv3.
  destruct (write_available_rep _ _ _ _ _ (si_window _ _ _ _ _ Hinv3)) as (k & Hk & _). wp_lift Hk.
  pose proof (q_env _ _ Hq). apply (ack_post_wake base W S rs t (wrap a) n hi).
  unfold ack_post. cbn zeta. fold m rs1. destruct Hf1, Hf2, Hq. split; [congruence|].
  exists (acked l1 l2 b (a + n)). split; [constructor; try done|].
  - constructor; congruence.
  - congruence.
  - exists es. split; [congruence|by split].
  - left. exists l1, a, b, l2. split_and!; done || lia.
Qed.

(** ** Data *)

(** The sending half of the state is untouched. *)
Record same_send (t t' : task) : Prop := {
  ss_send : t_send_window t' = t_send_window t;
  ss_remote : t_remote_recv_available t' = t_remote_recv_available t;
  ss_unacked : t_unacked_ranges t' = t_unacked_ranges t;
}.

Lemma same_send_inv base W S rs t t' :
  same_send t t' -> frame t t' -> send_inv base W S rs t -> send_inv base W S rs t'.
Proof. intros [Hs Hr Hu] [_ Hp] []. constructor; rewrite ?Hp, ?Hs, ?Hr, ?Hu; done. Qed.

(** What a packet of [data] at [start_pos] leaves: nothing when it is refused, and
    else the bytes before the window's end received and acknowledged. *)
Definition data_post (f : Z -> Z) (R : Z) (st us : list range) (t : task) (start_pos : StreamPos)
    (data : list Z) (t' : task) : Prop :=
  let w := t_recv_window t in let w' := t_recv_window t' in
  let hi := R + zlen (space (rw_ring w)) in
  (start_pos = wrap (hi - u32_half) /\ w' = w /\ t_effects t' = t_effects t) \/
  exists x, start_pos = wrap x /\ hi - u32_half < x < hi + u32_half /\
    let e := Z.min (x + zlen data) hi in
    recv_post R st us w x e (patched f (Z.max R x) e x data) w' /\
    if x <? e then
      exists p hi' es, t_effects t' = t_effects t ++ Sent p :: es /\ Forall (fun e => e = WakeRead) es /\
        window_end w' = Val (wrap hi') /\ packet_wf p /\ deref p = ack_bytes x (e - x) hi'
    else t_effects t' = t_effects t.

Lemma window_end_rep f R st us w :
  rw_rep f R st us w -> window_end w = Val (wrap (R + zlen (space (rw_ring w)))).
Proof.
  intros Hrep. pose proof (rw_lens _ _ _ _ _ Hrep) as Hl. cbn zeta in Hl. unfold window_end.
  rewrite (rw_write_available _ _ _ _ _ Hrep). cbn [mbind res_bind]. unfold as_u32.
  by rewrite wrap_id, (rw_recv_pos _ _ _ _ _ Hrep), wadd_wrap by (unfold is_pos; lia).
Qed.

Lemma read_available_recv f R st us w :
  rw_rep f R st us w -> RecvWindow_read_available w = Val (zlen (contents (rw_ring w))).
Proof.
  intros Hrep. pose proof (rw_lens _ _ _ _ _ Hrep) as Hl. cbn zeta in Hl.
  unfold RecvWindow_read_available, read_available. pose proof (rw_wf _ _ _ _ _ Hrep).
  rewrite tail_to_head_ok, <- zlen_contents by done. cbn. unfold as_u32. by rewrite wrap_id by (unfold is_pos; lia).
Qed.

(** The reply to a packet of which the part up to [e] was stored. *)
Lemma build_ack (p : P) x n hi :
  packet_wf p -> zlen (deref p) = 10 -> 0 <= n <= i16_max ->
  exists p1 p2 p3, put_bytes p 0 (write_i16 (- n)) = Val p1 /\
    put_bytes p1 2 (write_u32 (wrap x)) = Val p2 /\ put_bytes p2 6 (write_u32 (wrap hi)) = Val p3 /\
    packet_wf p3 /\ deref p3 = ack_bytes x n hi.
Proof.
  intros Hwf Hl Hn. unfold i16_max in *.
  assert (zlen (write_u32 (wrap hi)) = 4) as H4 by (apply write_u32_len, wrap_pos).
  destruct (build_resend p (write_i16 (- n)) (write_u32 (wrap x)) (write_u32 (wrap hi)) Hwf)
    as (p1 & p2 & p3 & Hp1 & Hp2 & _ & Hp3 & Hwf3 & Hd);
    [apply write_i16_len; unfold is_i16, i16_min, i16_max; lia|apply write_u32_len, wrap_pos|lia|].
  by exists p1, p2, p3.
Qed.

(** The window is [w'] and the reply [p] went out; the reader may have been woken. *)
Record replied (t : task) (w' : RecvWindow) (p : P) (t' : task) : Prop := {
  re_send : same_send t t';
  re_env : env_inv t';
  re_frame : frame t t';
  re_window : t_recv_window t' = w';
  re_effects : exists es, t_effects t' = t_effects t ++ Sent p :: es /\ Forall (fun e => e = WakeRead) es;
}.

Lemma replied_sent t w' pool snd p :
  env_inv t -> pool_capacity pool = pool_capacity (t_pool t) ->
  replied t w' p (emit (Sent p) (set_sender snd (set_pool pool (set_recv_window w' t)))).
Proof.
  intros [] Hpool. constructor; try done; [by constructor; proj; rewrite ?Hpool|]. by exists [].
Qed.

Lemma replied_wake t w' p t' k :
  replied t w' p t' ->
  completes (if 0 <? k then modify (emit WakeRead) else mret tt) t' (fun t' (o : unit + Error) =>
    match o with inl _ => replied t w' p t' | inr e => e = Disconnected /\ sink_refuses Snd P end).
Proof.
  intros Hre. destruct (0 <? k); wp; [|exact Hre]. destruct Hre as [[] [] [] ? (es & He & Hes)].
  constructor; [by constructor..|done|]. exists (es ++ [WakeRead]). proj. rewrite He, <- app_assoc. split; [done|].
  apply Forall_app. by repeat constructor.
Qed.

Lemma recv_data_ok f R st us t bytes h2 start_bytes data :
  recv_inv f R st us t -> env_inv t -> zlen data <= i16_max ->
  zlen h2 = 2 -> zlen start_bytes = 4 -> bytes = h2 ++ start_bytes ++ data ->
  completes (recv_data (zlen data) bytes) t (fun t' o =>
    match o with
    | inl _ => same_send t t' /\ env_inv t' /\ frame t t' /\
        data_post f R st us t (read_u32 start_bytes) data t'
    | inr e => e = Disconnected /\ sink_refuses Snd P
    end).
Proof.
  intros [Hrep Hlag] Henv Hn H2 H4 ->. unfold recv_data. zlen_facts. unfold i16_max in *.
  rewrite !zlen_app, H2, H4. rewrite (proj2 (Z.ltb_ge _ _)) by lia.
  pose proof (slice_mid h2 start_bytes data) as Hs1. rewrite H2, H4 in Hs1. change (2 + 4) with 6 in Hs1.
  wp. wp_lift Hs1. replace (zlen data =? _) with true by (symmetry; apply Z.eqb_eq; lia). cbn [negb]. wp.
  apply completes_lift. rewrite slice_from_ok by (rewrite !zlen_app; lia). cbn [returns].
  rewrite app_assoc, zdrop_app, zdrop_ge, zlen_app, H2, H4, (zdrop_0 _ data) by (rewrite ?zlen_app; lia).
  cbn [app]. wp. unfold data_post. cbn zeta.
  set (w := t_recv_window t) in *. set (hi := R + zlen (space (rw_ring w))).
  destruct (wrap_surj (read_u32 start_bytes) (hi - u32_half)) as (x & <- & Hx).
  { by apply read_u32_range. }
  destruct (decide (x = hi - u32_half)) as [->|Hnt].
  { pose proof (recv_tie f R st us w Hrep data ltac:(lia)) as Htie.
    fold hi in Htie. wp_lift Htie. wp. split_and!; [done|by destruct Henv|done|]. left. done. }
  pose proof (recv_rep f R st us w Hrep Hlag x data ltac:(lia) ltac:(lia)) as Hret. cbn zeta in Hret.
  fold hi in Hret. set (e := Z.min (x + zlen data) hi) in *.
  apply returns_iff in Hret as ([w' o] & Heq & -> & Hpost). wp_lift Heq. wp.
  destruct (Z.ltb_spec x e) as [Hxe|Hxe]; cycle 1.
  { wp. split_and!; [done|by destruct Henv|done|]. right. exists x. split; [done|]. split; [lia|].
    fold e. split; [done|]. by rewrite (proj2 (Z.ltb_ge x e)) by lia. }
  assert (e - x <= 32767) as Hlen by (unfold e; lia).
  destruct (Hpost) as (R' & st' & us' & Hrep' & _). pose proof (ei_pool _ Henv). unfold MAX_PACKET_LEN in *.
  destruct (acquire_resize (t_pool t) 10) as (p & Hp & Hpwf & Hplen & Hpool'); [lia|].
  set (hi' := R' + zlen (space (rw_ring w'))).
  destruct (build_ack p x (e - x) hi' Hpwf Hplen) as (p1 & p2 & p3 & Hp1 & Hp2 & Hp3 & Hwf3 & Hd);
    [unfold i16_max; lia|].
  wp. wp_lift Hp. wp. apply completes_lift. rewrite wsub_dist by lia.
  rewrite as_i16_id by (unfold is_i16, i16_min, i16_max; lia). unfold neg_i16, i16_min.
  rewrite (proj2 (Z.eqb_neq _ _)) by lia. cbn [returns]. wp. wp_lift Hp1. wp. wp_lift Hp2. wp.
  wp_lift (window_end_rep _ _ _ _ _ Hrep'). fold hi'. wp. wp_lift Hp3. wp. apply send_packet_ok; [|done].
  wp. wp_lift (read_available_recv _ _ _ _ _ Hrep').
  eapply completes_mono; [by apply (replied_wake t w' p3), replied_sent|].
  intros t' [[]|er]; [|done]. intros [Hss Henv' Hf Hw' (es & He & Hes)]. split_and!; try done. right. exists x.
  split; [done|]. fold w hi e. split; [lia|]. rewrite Hw'. split; [done|].
  rewrite (proj2 (Z.ltb_lt x e)) by lia. exists p3, hi', es. split_and!; try done.
  apply (window_end_rep _ _ _ _ _ Hrep').
Qed.

(** What arrived leaves a window that is still within reach of its end. *)
Lemma data_post_inv f R st us t start_pos data t' :
  recv_inv f R st us t -> data_post f R st us t start_pos data t' ->
  exists f' R' st' us', R <= R' /\ (forall p, p < R -> f' p = f p) /\ recv_inv f' R' st' us' t'.
Proof.
  intros [Hrep Hlag] [(_ & Hw & _)|(x & _ & _ & Hpost & _)].
  { exists f, R, st, us. split; [lia|]. split; [done|]. unfold recv_inv. by rewrite Hw. }
  set (hi := R + zlen (space (rw_ring (t_recv_window t)))) in *. set (e := Z.min _ hi) in *.
  destruct Hpost as (R' & st' & us' & Hrep' & HR & Hc & Hcap & _ & _ & Hsub). eexists _, R', st', us'.
  split; [lia|]. split; [|split; [exact Hrep'|]].
  { intros p Hp. unfold patched. by rewrite (proj2 (Z.leb_gt _ _)) by lia. }
  pose proof (rw_lens _ _ _ _ _ Hrep) as Hl. pose proof (rw_lens _ _ _ _ _ Hrep') as Hl'. cbn zeta in *.
  unfold lag_ok in *. rewrite Forall_forall in Hlag |- *. intros r Hr. apply Hsub, elem_of_app in Hr as [Hr|Hr].
  - specialize (Hlag r Hr). lia.
  - pose proof (rw_live _ _ _ _ _ Hrep) as Hlive. rewrite Forall_forall in Hlive. specialize (Hlive r Hr). lia.
Qed.

(** ** Packets *)

(** A packet the protocol allows: an acknowledgment of ten bytes, or as much data
    as its length says. *)
Definition well_formed (bytes : list Z) : Prop :=
  2 <= zlen bytes /\ let n := read_i16 (ztake 2 bytes) in
  if n <? 0 then zlen bytes = 10 else n = zlen bytes - 6.

(** What a well-formed packet leaves. *)
Definition packet_post (base : Z) (W : list Z) (S : Z) (rs : list range)
    (f : Z -> Z) (R : Z) (st us : list range) (t : task) (bytes : list Z) (t' : task) : Prop :=
  let n := read_i16 (ztake 2 bytes) in
  let start_pos := read_u32 (ztake 4 (zdrop 2 bytes)) in
  if n <? 0 then ack_post base W S rs t start_pos (- n) (read_u32 (zdrop 6 bytes)) t'
  else same_send t t' /\ env_inv t' /\ frame t t' /\
       data_post f R st us t start_pos (zdrop 6 bytes) t'.

Lemma split_packet (bytes : list Z) : 6 <= zlen bytes ->
  exists h2 h4, bytes = h2 ++ h4 ++ zdrop 6 bytes /\ h2 = ztake 2 bytes /\ h4 = ztake 4 (zdrop 2 bytes) /\
    zlen h2 = 2 /\ zlen h4 = 4.
Proof.
  intros Hl. exists (ztake 2 bytes), (ztake 4 (zdrop 2 bytes)). rewrite !zlen_ztake, zlen_zdrop.
  split_and!; try done; [|lia|lia].
  rewrite <- (ztake_zdrop 2 bytes) at 1. f_equal. rewrite <- (ztake_zdrop 4 (zdrop 2 bytes)) at 1.
  f_equal. by rewrite zdrop_zdrop by lia.
Qed.

Lemma recv_packet_ok base W S rs f R st us t bytes :
  send_inv base W S rs t -> recv_inv f R st us t -> env_inv t ->
  (zlen bytes = 10 -> read_i16 (ztake 2 bytes) <> i16_min) ->
  completes (recv_packet bytes) t (fun t' o =>
    match o with
    | inl _ => well_formed bytes /\ packet_post base W S rs f R st us t bytes t'
    | inr e => (e = Disconnected /\ sink_refuses Snd P) \/ (e = ProtocolError /\ ~ well_formed bytes)
    end).
Proof.
  intros Hsend Hrecv Henv Hmin. unfold recv_packet. pose proof (zlen_nonneg bytes).
  destruct (Z.ltb_spec (zlen bytes) 2) as [Hs|Hs].
  { wp. right. split; [done|]. intros [? _]. lia. }
  wp. apply completes_lift. rewrite slice_ok by lia. cbn [returns].
  rewrite Z.sub_0_r, zdrop_0 by lia.
  assert (is_i16 (read_i16 (ztake 2 bytes))) as Hr by (apply read_i16_range; rewrite zlen_ztake; lia).
  unfold well_formed, packet_post. cbn zeta.
  set (n := read_i16 (ztake 2 bytes)) in *. unfold is_i16, i16_min, i16_max in *.
  destruct (Z.ltb_spec n 0) as [Hn|Hn].
  - destruct (Z.eqb_spec (zlen bytes) 10) as [H10|H10]; cycle 1.
    { unfold recv_ack. rewrite (proj2 (Z.eqb_neq _ _)) by done. wp. right. split; [done|]. by intros [_ ?]. }
    specialize (Hmin H10). destruct (split_packet bytes) as (h2 & h4 & Hb & Hh2 & Hh4 & Hl2 & Hl4); [lia|].
    replace n with (- - n) at 1 by lia. eapply completes_mono;
      [apply (recv_ack_ok base W S rs t (- n) bytes h4 (zdrop 6 bytes) h2); try done|].
    + unfold i16_max. lia.
    + rewrite zlen_zdrop. lia.
    + intros t' [[]|e] Hq; [|by left]. rewrite Hh4 in Hq. done.
  - destruct (Z.eqb_spec n (zlen bytes - 6)) as [H6|H6]; cycle 1.
    { unfold recv_data. destruct (Z.ltb_spec (zlen bytes) 6).
      - wp. right. split; [done|]. by intros [_ ?].
      - wp. apply completes_lift. rewrite slice_ok by lia. cbn [returns].
        rewrite (proj2 (Z.eqb_neq n _)) by done. cbn [negb]. wp. right. split; [done|]. by intros [_ ?]. }
    destruct (split_packet bytes) as (h2 & h4 & Hb & Hh2 & Hh4 & Hl2 & Hl4); [lia|].
    assert (n = zlen (zdrop 6 bytes)) as -> by (rewrite zlen_zdrop; lia).
    eapply completes_mono; [apply (recv_data_ok f R st us t bytes h2 h4 (zdrop 6 bytes)); try done|].
    + rewrite zlen_zdrop in *. unfold i16_max. lia.
    + intros t' [[]|e] Hq; [|by left]. rewrite Hh4 in Hq. split; [|done]. split; [done|]. lia.
Qed.

(** ** The main loop *)

Lemma task_update_available_ok t :
  env_inv t -> completes task_update_available t (fun t' o => o = inl tt /\ quiet t t').
Proof.
  intros Henv. unfold task_update_available. wp. unfold update_available.
  destruct (duration_ok (t_timer t) (last_calculation (t_limiter t))) as (d & Hd & _);
    [by apply ei_limiter|].
  pose proof (seen_now (t_timer t)) as Hnow. pose proof (fun i => seen_mono (t_timer t) i) as Hmono.
  destruct (now (t_timer t)) as [tm i]. cbn [fst snd] in *. apply completes_lift. rewrite Hd. cbn [returns mbind res_bind].
  wp. split; [done|]. constructor; proj; try done. destruct Henv as [? ? ? Hseen]. constructor; proj; try done.
  intros k u j Hk Hj. eapply Hmono, Hseen; done.
Qed.

(** The task does not stop sending with nothing left to be acknowledged. *)
Definition not_stalled (t : task) : Prop :=
  t_unacked_ranges t <> ∅ \/ t_remote_recv_available t <> 0.

Lemma unstall_ok base W S rs t :
  send_inv base W S rs t -> env_inv t -> s_init_send (t_settings t) <> 0 ->
  send_inv base W S rs (unstall t) /\ env_inv (unstall t) /\ frame t (unstall t) /\
  t_recv_window (unstall t) = t_recv_window t /\ t_effects (unstall t) = t_effects t /\
  not_stalled (unstall t).
Proof.
  intros [] [] Hinit. unfold unstall, not_stalled.
  destruct (bool_decide (t_unacked_ranges t = ∅)) eqn:E; cbn [andb].
  - destruct (Z.eqb_spec (t_remote_recv_available t) 0); (split_and!; [by constructor..|]); proj; auto.
  - apply bool_decide_eq_false in E. split_and!; [by constructor..|]. by left.
Qed.

(** Both halves' invariants again; what was sent or received stays so. *)
Definition keeps (base : Z) (W : list Z) (S : Z) (f : Z -> Z) (R : Z) (t' : task) : Prop :=
  exists S' rs' f' R' st' us', S <= S' /\ R <= R' /\ (forall p, p < R -> f' p = f p) /\
    send_inv base W S' rs' t' /\ recv_inv f' R' st' us' t' /\ env_inv t'.

(** What one iteration does: the clock is read, the reason is handled, and the
    stall rule is applied. *)
Definition iteration_does (base : Z) (W : list Z) (S : Z) (rs : list range)
    (f : Z -> Z) (R : Z) (st us : list range) (reason : WakeReason P) (keys : list StreamPos) (t t' : task) : Prop :=
  exists t0 t1, quiet t t0 /\ t' = unstall t1 /\ not_stalled t' /\
  let again t2 := resend_post base W S rs t0 t2 /\
    resend_did base W rs t0 (resend_plan (resend_limit t0) keys (times t0)) t2 in
  match reason with
  | ResendTimer => exists t2, again t2 /\ t1 = emit (SetResendTimer (s_resend_time (t_settings t2))) t2
  | SendAvailable => exists t2, again t2 /\
      let t3 := emit (SetResendTimer (s_resend_time (t_settings t2))) t2 in
      send_post base W S rs t3 (send_amount (base + zlen W - S) t3) t1
  | IncomingPacket (Some p) => packet_post base W S rs f R st us t0 (deref p) t1
  | IncomingPacket None => False
  end.
Definition iteration_post (base : Z) (W : list Z) (S : Z) (rs : list range)
    (f : Z -> Z) (R : Z) (st us : list range) (reason : WakeReason P) (keys : list StreamPos) (t t' : task) : Prop :=
  iteration_does base W S rs f R st us reason keys t t' /\ keeps base W S f R t'.

Lemma send_amount_bounds base W S rs t :
  send_inv base W S rs t -> env_inv t ->
  0 <= send_amount (base + zlen W - S) t <= base + zlen W - S /\
  send_amount (base + zlen W - S) t <= i16_max.
Proof.
  intros Hinv Henv. pose proof (ei_pool _ Henv). pose proof (sw_end _ _ _ _ _ (si_window _ _ _ _ _ Hinv)).
  pose proof (si_remote _ _ _ _ _ Hinv). unfold send_amount, is_u32, i16_max in *.
  destruct (bytes_available _); lia.
Qed.

(** The stall rule keeps the invariants too. *)
Lemma keeps_unstall base W S f R t t1 S' rs' f' R' st' us' :
  s_init_send (t_settings t) <> 0 -> frame t t1 -> S <= S' -> R <= R' -> (forall p, p < R -> f' p = f p) ->
  send_inv base W S' rs' t1 -> recv_inv f' R' st' us' t1 -> env_inv t1 ->
  not_stalled (unstall t1) /\ keeps base W S f R (unstall t1).
Proof.
  intros Hinit Hf HS HR Hpre Hs Hr He. destruct (unstall_ok base W S' rs' t1 Hs He) as (? & ? & _ & Hrw & _ & ?).
  { by rewrite (fr_settings _ _ Hf). }
  split; [done|]. exists S', rs', f', R', st', us'. split_and!; try done. unfold recv_inv in *. by rewrite Hrw.
Qed.

(** So does a handled packet, *)
Lemma packet_post_keeps base W S rs f R st us t bytes t1 :
  s_init_send (t_settings t) <> 0 -> send_inv base W S rs t -> recv_inv f R st us t ->
  packet_post base W S rs f R st us t bytes t1 -> not_stalled (unstall t1) /\ keeps base W S f R (unstall t1).
Proof.
  intros Hinit Hsend Hrecv. unfold packet_post. cbn zeta. destruct (_ <? 0).
  - intros (_ & rs' & [] & _).
    apply (keeps_unstall _ _ _ _ _ t t1 (S + sent_at_once base W S (read_u32 (zdrop 6 bytes)) t) rs' f R st us); try done; [lia|].
    unfold recv_inv in *. by rewrite sn_recv0.
  - intros (Hss & He & Hf & Hpost). destruct (data_post_inv _ _ _ _ _ _ _ _ Hrecv Hpost) as (f' & R' & st' & us' & ? & ? & ?).
    eapply (keeps_unstall _ _ _ _ _ t t1 S rs f' R'); try done. by eapply same_send_inv.
Qed.

(** and packets that went out. *)
Lemma resend_post_keeps base W S rs f R st us t t2 :
  s_init_send (t_settings t) <> 0 -> recv_inv f R st us t -> resend_post base W S rs t t2 ->
  let t3 := emit (SetResendTimer (s_resend_time (t_settings t2))) t2 in
  not_stalled (unstall t3) /\ keeps base W S f R (unstall t3) /\
  send_inv base W S rs t3 /\ env_inv t3 /\ frame t t3 /\ recv_inv f R st us t3.
Proof.
  intros Hinit Hrecv [] t3.
  assert (send_inv base W S rs t3) by (destruct rp_inv0; by constructor).
  assert (env_inv t3) by (destruct rp_env0; by constructor).
  assert (frame t t3) by (destruct rp_frame0; by constructor).
  assert (recv_inv f R st us t3) by (unfold recv_inv in *; cbn; by rewrite rp_recv0).
  destruct (keeps_unstall base W S f R t t3 S rs f R st us) as [? ?]; done || lia.
Qed.

Lemma iteration_ok base W S rs f R st us reason keys t :
  send_inv base W S rs t -> recv_inv f R st us t -> env_inv t -> s_init_send (t_settings t) <> 0 ->
  (forall p, reason = IncomingPacket (Some p) -> zlen (deref p) = 10 ->
     read_i16 (ztake 2 (deref p)) <> i16_min) ->
  completes (iteration reason keys) t (fun t' o =>
    match o with
    | inl _ => iteration_post base W S rs f R st us reason keys t t'
    | inr e => (e = Disconnected /\ (reason = IncomingPacket None \/ sink_refuses Snd P)) \/ exists p, reason = IncomingPacket (Some p) /\ e = ProtocolError /\
        ~ well_formed (deref p)
    end).
Proof.
  intros Hsend Hrecv Henv Hinit Hmin. unfold iteration. wp.
  eapply completes_mono; [by apply task_update_available_ok|]. intros ta o (-> & Hqa). wp.
  assert (completes (match reason with IncomingPacket None => throw Disconnected | _ => mret tt end : handler task Error unit) ta
    (fun t' o => t' = ta /\ match o with inl _ => reason <> IncomingPacket None | inr e => e = Disconnected /\ reason = IncomingPacket None end)) as Hwait.
  { destruct reason as [|[p|]|]; by wp. }
  eapply completes_mono; [exact Hwait|]. intros t' [[]|e]; [|intros [_ [-> ?]]; left; auto]. intros [-> Hnone]. wp.
  pose proof (q_env _ _ Hqa) as Henva.
  eapply completes_mono; [by apply task_update_available_ok|]. intros t0 o (-> & Hqb). wp.
  assert (quiet t t0) as Hq by (destruct Hqa, Hqb; constructor; congruence || done).
  pose proof (quiet_send_inv _ _ _ _ _ _ Hq Hsend) as Hsend0. pose proof (q_env _ _ Hq) as Henv0.
  assert (recv_inv f R st us t0) as Hrecv0.
  { unfold recv_inv in *. by rewrite (q_recv _ _ Hq). }
  assert (s_init_send (t_settings t0) <> 0) as Hinit0 by (by rewrite (q_settings _ _ Hq)).
  destruct reason as [|[p|]|]; [| |done|].
  - wp. eapply completes_mono; [by apply (resend_ok base W S rs keys t0)|]. intros t2 [[]|e]; [|intros [-> ?]; left; auto].
    intros [Hpost Hdid]. wp. unfold reset_resend_timer. wp.
    destruct (resend_post_keeps _ _ _ _ _ _ _ _ _ _ Hinit0 Hrecv0 Hpost) as (Hns & Hk & _). split; [|exact Hk].
    eexists t0, _. split; [done|]. split; [done|]. split; [done|]. by exists t2.
  - eapply completes_mono; [apply (recv_packet_ok base W S rs f R st us t0 (deref p)); try done; eauto|].
    intros t1 [[]|e]; [|intros [[-> ?]|[-> ?]]; [by left; auto|right; by exists p]]. intros [_ Hpost]. wp.
    destruct (packet_post_keeps _ _ _ _ _ _ _ _ _ _ _ Hinit0 Hsend0 Hrecv0 Hpost). split; [|done]. by exists t0, t1.
  - wp. eapply completes_mono; [by apply (resend_ok base W S rs keys t0)|]. intros t2 [[]|e]; [|intros [-> ?]; left; auto].
    intros [Hpost Hdid]. wp. unfold reset_resend_timer. wp.
    destruct (resend_post_keeps _ _ _ _ _ _ _ _ _ _ Hinit0 Hrecv0 Hpost) as (_ & _ & H1 & H2 & Hf & Hr).
    eapply completes_mono; [by apply (send_ok base W S rs)|]. intros t3 [[]|e]; [|intros [-> ?]; left; auto].
    set (n := send_amount _ _). intros Hsp. wp.
    pose proof (proj1 (send_amount_bounds _ _ _ _ _ H1 H2)) as Hn. fold n in Hn.
    assert (not_stalled (unstall t3) /\ keeps base W S f R (unstall t3)) as [Hns Hk].
    { eapply (keeps_unstall _ _ _ _ _ t0 t3 (S + n)); [done| |lia| |done|apply Hsp| |apply Hsp].
      - eapply frame_trans; [exact Hf|apply Hsp].
      - done.
      - unfold recv_inv in *. by rewrite (sp_recv _ _ _ _ _ _ _ Hsp). }
    split; [|exact Hk]. exists t0, t3. split; [done|]. split; [done|]. split; [done|]. exists t2. done.
Qed.
End invariant.
