(* ===== verification/ReliableSafety.v ===== *)
(** What the reliable channel's task and handle guarantee: a new channel starts in
    the invariant, every handler keeps it and does what it should, no packet but
    one panics, and an error is reported once. A concrete clock, pool, sink and
    byte order instantiate the interfaces. *)

From S2P Require Import Prelude StreamPos RingBuffer Segments SendWindow RecvWindow.
From S2P Require Import BandwidthLimiter Packet Wire ReliableChannel ReliableTask.
From Stdlib Require Import SpecFloat.

(** * Definitions *)

(** Calls on the handle, and iterations of its task in between. *)
Inductive rc_op (P : Type) :=
| PollWrite (data : list Z)
| PollRead (buf : list Z)
| TryWrite (data : list Z)
| TryRead (buf : list Z)
| Flush
| RunTask (reason : WakeReason P) (keys : list StreamPos).
Arguments PollWrite {P} _.
Arguments PollRead {P} _.
Arguments TryWrite {P} _.
Arguments TryRead {P} _.
Arguments Flush {P}.
Arguments RunTask {P} _ _.

Section handle.
Context {T Instant P Pool Snd : Type}.
Context {TI : Timer T Instant} {PI : Packet P} {PPI : PacketPool Pool P}.
Context {SI : PacketSink Snd P} {BO : ByteOrder}.

(** One call and the error it returns, if any. *)
Definition rc_exec (o : rc_op P) (c : ReliableChannel T Instant P Pool Snd)
    : res (ReliableChannel T Instant P Pool Snd * option Error) :=
  match o with
  | PollWrite data =>
    '(c, r) ← poll_write c data;
    Val (c, match r with Ready (inr e) => Some e | _ => None end)
  | PollRead buf =>
    '(c, _, r) ← poll_read c buf;
    Val (c, match r with Ready (inr e) => Some e | _ => None end)
  | TryWrite data =>
    '(c, r) ← try_write c data; Val (c, match r with inr e => Some e | _ => None end)
  | TryRead buf =>
    '(c, _, r) ← try_read c buf; Val (c, match r with inr e => Some e | _ => None end)
  | Flush => let (c, r) := flush c in Val (c, match r with inr e => Some e | _ => None end)
  | RunTask reason keys => c ← run_task c reason keys; Val (c, None)
  end.

(** The errors that a sequence of calls on the handle returns, [RunTask] aside. *)
Fixpoint rc_run (ops : list (rc_op P)) (c : ReliableChannel T Instant P Pool Snd)
    : res (ReliableChannel T Instant P Pool Snd * list (option Error)) :=
  match ops with
  | [] => Val (c, [])
  | o :: ops =>
    '(c, e) ← rc_exec o c;
    '(c, es) ← rc_run ops c;
    Val (c, match o with RunTask _ _ => es | _ => e :: es end)
  end.
End handle.

Module Example.
(** The clock counts readings; instants are its values. *)
#[export] Instance timer : Timer nat nat := {|
  now t := (S t, t);
  duration_between _ a b :=
    if (a <=? b)%nat then Val (Z.of_nat (b - a) mod duration_limit) else Fault Overflow;
|}.
#[export] Instance timer_laws : TimerLaws nat nat.
Proof.
  refine {| seen t i := (i < t)%nat |}; cbn.
  - intros t. lia.
  - intros t i Hi. lia.
  - intros t i Hi. rewrite (proj2 (Nat.leb_le i t)) by lia. eexists. split; [done|].
    apply Z.mod_pos_bound. done.
Defined.

#[export] Instance buffers : BufferPool bool := {|
  buffer_capacity _ := 64;
  acquire_buffer b := (b, replicate 64 0);
|}.
#[export] Instance buffers_laws : BufferPoolLaws bool.
Proof. constructor; intros []; cbn; done. Qed.

(** A sink that takes every packet until it is disconnected. *)
#[export] Instance sink : PacketSink bool BufferPacket := {| sink_send connected _ := (connected, connected) |}.

Definition settings : Settings := {|
  s_bandwidth := 1000; s_burst_bandwidth := 500; s_recv_window_size := 16; s_send_window_size := 16;
  s_init_send := 8; s_resend_time := 50000000; s_initial_rtt := 200000000; s_max_rtt := 2000000000;
  s_rtt_update_factor := f64_div (f64_of_int 1) (f64_of_int 10);
  s_rtt_resend_factor := f64_div (f64_of_int 3) (f64_of_int 2);
|}.

Definition new_channel : res (ReliableChannel nat nat BufferPacket (BufferPacketPool bool) bool) :=
  ReliableChannel_new 0%nat (mkBufferPacketPool true) settings true.
End Example.

(** * A new channel *)

Section safety.
Context {T Instant P Pool Snd : Type}.
Context {TI : Timer T Instant} {TL : TimerLaws T Instant}.
Context {PI : Packet P} {PL : PacketLaws P} {PPI : PacketPool Pool P} {PPL : PacketPoolLaws Pool P}.
Context {SI : PacketSink Snd P} {BO : ByteOrder} {BOL : ByteOrderLaws}.

Abbreviation task := (Task T Instant P Pool Snd).

Record settings_ok (s : Settings) : Prop := {
  so_bandwidth : s_bandwidth s <> 0;
  so_burst : s_burst_bandwidth s <> 0;
  so_recv : 0 < s_recv_window_size s < u32_half;
  so_send : 0 < s_send_window_size s < u32_half;
  so_init : 0 < s_init_send s < u32_modulus;
  so_update : f64_positive (s_rtt_update_factor s) = true;
  so_resend : f64_positive (s_rtt_resend_factor s) = true;
}.

Lemma ReliableChannel_new_ok f timer (pool : Pool) settings (sender : Snd) :
  settings_ok settings -> 10 <= pool_capacity pool <= MAX_PACKET_LEN ->
  exists t : task, ReliableChannel_new timer pool settings sender = Val (mkReliableChannel t Running) /\
    send_inv 0 [] 0 [] t /\ recv_inv f 0 [] [] t /\ env_inv t /\ t_settings t = settings /\
    capacity (sw_ring (t_send_window t)) = s_send_window_size settings /\
    capacity (rw_ring (t_recv_window t)) = s_recv_window_size settings /\
    contents (rw_ring (t_recv_window t)) = [] /\
    t_effects t = [SetResendTimer (s_resend_time settings)].
Proof.
  intros [] Hpool. unfold ReliableChannel_new.
  rewrite !(proj2 (Z.eqb_neq _ _)), so_update0, so_resend0 by lia. cbn [negb assert mbind res_bind].
  destruct (SendWindow_new_rep (s_send_window_size settings) 0 so_send0) as (sw & Hsw & Hsrep & Hscap).
  destruct (RecvWindow_new_rep f (s_recv_window_size settings) 0 so_recv0) as (rw & Hrw & Hrrep & Hrcon & Hrcap).
  change (wrap 0) with 0 in Hsw, Hrw. rewrite Hsw, Hrw. cbn [mbind res_bind].
  unfold BandwidthLimiter_new. pose proof (seen_now timer) as Hnow. destruct (now timer) as [tm i].
  eexists. split; [done|]. split_and!; cbn; try done.
  - constructor; cbn; try done; [intros r Hr; by apply not_elem_of_nil in Hr|unfold is_u32; lia].
  - by split; [|constructor].
  - constructor; cbn; try done. unfold is_u32; lia.
Qed.

(** * Properties *)

(** C14. A packet from the remote makes the task panic only when it has the ten bytes
    of an acknowledgment and its length field is the least [i16]. A packet that is too
    short or whose length field is wrong ends the task with [ProtocolError]; the only
    other way to fail is a disconnected sink. An acknowledgment takes its bytes off the
    unacked range that starts at its position, when there is one that long, in the
    window and in the map, and no others; the room at the remote becomes what the
    window's end in the packet says, less the bytes that [send] then sends at once. Data
    is stored and acknowledged up to the end of the receive window. *)
Theorem recv_packet_correct base W S rs f R st us (t : task) bytes :
  send_inv base W S rs t -> recv_inv f R st us t -> env_inv t ->
  (zlen bytes = 10 -> read_i16 (ztake 2 bytes) <> i16_min) ->
  completes (recv_packet bytes) t (fun t' o =>
    match o with
    | inl _ => well_formed bytes /\ packet_post base W S rs f R st us t bytes t'
    | inr e => (e = Disconnected /\ sink_refuses Snd P) \/ (e = ProtocolError /\ ~ well_formed bytes)
    end).
Proof. apply recv_packet_ok. Qed.

(** An acknowledgment whose length field is the least [i16] overflows the
    negation of the length, whatever the state of the task. *)
Theorem recv_packet_overflow (t : task) rest :
  zlen rest = 8 -> recv_packet (write_i16 i16_min ++ rest) t = Fault Overflow.
Proof.
  intros Hrest. assert (is_i16 i16_min) as Hmin by (unfold is_i16, i16_min, i16_max; lia).
  pose proof (write_i16_len i16_min Hmin) as Hl. set (h := write_i16 i16_min) in *.
  assert (zlen (h ++ rest) = 10) as Hlen by (rewrite zlen_app; lia).
  unfold recv_packet. rewrite Hlen. cbn [Z.ltb Z.compare Pos.compare Pos.compare_cont].
  pose proof (slice_mid [] h rest) as Hs. rewrite Hl in Hs. cbn [app] in Hs. change (zlen [] + 2) with 2 in Hs.
  change (zlen []) with 0 in Hs. unfold mbind, handler_bind, lift. rewrite Hs.
  unfold h at 1. rewrite read_write_i16 by done. cbn [i16_min Z.ltb Z.compare].
  unfold recv_ack. rewrite Hlen. cbn [Z.eqb Pos.eqb negb]. unfold mbind, handler_bind, lift.
  rewrite slice_ok by lia. unfold h. rewrite read_write_i16 by done. done.
Qed.

(** C16. [send] takes the next bytes of the stream, as many as are unsent, as the
    remote has room for, as the length field can say and as a packet holds, if
    there is bandwidth: it records them as an unacked range, puts them into one
    packet and takes them off the remote's room, and else changes nothing. *)
Theorem task_send_correct base W S rs (t : task) :
  send_inv base W S rs t -> env_inv t ->
  completes send t (fun t' o =>
    match o with
    | inl _ => send_post base W S rs t (send_amount (base + zlen W - S) t) t'
    | inr e => e = Disconnected /\ sink_refuses Snd P
    end).
Proof. apply send_ok. Qed.

(** C17. Progress: whenever the loop can wake up to send and there is bandwidth,
    [send] sends a non-empty packet of the next bytes of the stream. *)
Theorem woken_send_progress base W S rs (t : task) :
  send_inv base W S rs t -> env_inv t -> wake_enabled t SendAvailable ->
  bytes_available (t_limiter t) = true ->
  completes send t (fun t' o =>
    match o with
    | inl _ => exists n p, 0 < n /\ t_effects t' = t_effects t ++ [Sent p] /\
        deref p = data_bytes S (substream base W S (S + n))
    | inr e => e = Disconnected /\ sink_refuses Snd P
    end).
Proof.
  intros Hinv Henv [Hrem Hav] Hb. rewrite (send_available_rep _ _ _ _ _ (si_window _ _ _ _ _ Hinv)) in Hav.
  cbn in Hav. eapply completes_mono; [by apply (send_ok base W S rs)|]. intros t' [[]|e]; [|done].
  intros Hpost. set (n := send_amount (base + zlen W - S) t) in *.
  assert (0 < n) as Hn.
  { pose proof (ei_pool _ Henv). pose proof (si_remote _ _ _ _ _ Hinv). unfold n, send_amount, is_u32, i16_max in *.
    rewrite Hb. lia. }
  pose proof (sp_effects _ _ _ _ _ _ _ Hpost) as He. rewrite (proj2 (Z.eqb_neq n 0)) in He by lia.
  destruct He as (p & Hp & _ & Hd). by exists n, p.
Qed.

(** C18. [resend], in whatever order the map yields its ranges, sends one packet for
    each range that the plan names, in order: while bandwidth is left, those without a
    send time or whose last packet is older than the estimate times its factor. A
    packet holds exactly the bytes of its unacked range at its position; the clock, the
    bandwidth and the ranges' times end as the plan says, and nothing else changes. If
    bandwidth is left at the end, no range without a send time was passed over. *)
Theorem task_resend_correct base W S rs keys (t : task) :
  send_inv base W S rs t -> env_inv t ->
  completes (resend keys) t (fun t' o =>
    match o with
    | inl _ =>
        let plan := resend_plan (resend_limit t) keys (times t) in
        resend_post base W S rs t t' /\ resend_did base W rs t plan t' /\
        forall key u, bytes_available (t_limiter t') = true -> key ∈ keys ->
          t_unacked_ranges t !! key = Some u -> last_sent u = None -> key ∈ plan.1
    | inr e => e = Disconnected /\ sink_refuses Snd P
    end).
Proof.
  intros Hinv Henv. eapply completes_mono; [by apply (resend_ok base W S rs keys t)|].
  intros t' [[]|e]; [|done]. intros [Hpost Hdid]. split; [done|]. split; [exact Hdid|]. intros key u Hb Hk Hu Hnone.
  eapply resend_plan_untimed; [exact Hk|exact Hu|exact Hnone|]. by rewrite <- (proj1 Hdid).
Qed.

(** C15. An iteration of the main loop, for any reason to wake up, does not panic,
    unless that is a packet of ten bytes whose length field is the least [i16]. It
    fails only with a disconnected sink or stream, or on a malformed packet. Else it
    does for each reason what it should, ends in the invariant of both halves, with no
    byte that was received in order changed, and never leaves the task with nothing to
    be acknowledged and no room at the remote, so the connection cannot stall. *)
Theorem main_loop_iteration base W S rs f R st us reason keys (t : task) :
  send_inv base W S rs t -> recv_inv f R st us t -> env_inv t -> s_init_send (t_settings t) <> 0 ->
  (forall p, reason = IncomingPacket (Some p) -> zlen (deref p) = 10 ->
     read_i16 (ztake 2 (deref p)) <> i16_min) ->
  completes (iteration reason keys) t (fun t' o =>
    match o with
    | inl _ => iteration_post base W S rs f R st us reason keys t t'
    | inr e => (e = Disconnected /\ (reason = IncomingPacket None \/ sink_refuses Snd P)) \/ exists p, reason = IncomingPacket (Some p) /\ e = ProtocolError /\
        ~ well_formed (deref p)
    end).
Proof. apply iteration_ok. Qed.

(** ** Errors *)

Lemma rc_exec_terminated o (c : ReliableChannel T Instant P Pool Snd) :
  rc_status c = Terminated ->
  match o with
  | RunTask _ _ => rc_exec o c = Val (c, None)
  | _ => rc_exec o c = Val (c, Some Shutdown)
  end.
Proof.
  intros Hc. destruct o; cbn;
    unfold poll_write, poll_read, try_write, try_read, flush, run_task; by rewrite Hc.
Qed.

Lemma rc_run_terminated ops : forall (c c' : ReliableChannel T Instant P Pool Snd) es,
  rc_status c = Terminated -> rc_run ops c = Val (c', es) -> Forall (fun e => e = Some Shutdown) es.
Proof.
  induction ops as [|o ops IH]; intros c c' es Hc Hrun; [by injection Hrun as <- <-|].
  cbn [rc_run] in Hrun. pose proof (rc_exec_terminated o c Hc) as He.
  assert (exists x, rc_exec o c = Val (c, x)) as [x Hx] by (destruct o; eauto).
  rewrite Hx in Hrun. cbn [mbind res_bind] in Hrun.
  destruct (rc_run ops c) as [[c2 es2]|] eqn:E; [|done]. cbn [mbind res_bind] in Hrun. injection Hrun as <- <-.
  specialize (IH c c2 es2 Hc E). destruct o; try done; (constructor; [congruence|done]).
Qed.

Lemma rc_exec_error o (c c' : ReliableChannel T Instant P Pool Snd) e :
  rc_exec o c = Val (c', Some e) -> rc_status c' = Terminated.
Proof.
  unfold rc_exec, poll_write, poll_read, try_write, try_read, flush.
  destruct o, (rc_status c) eqn:Hc; cbn; intros He;
    repeat first
      [ progress simplify_eq/=
      | match goal with H : _ ≫= _ = Val _ |- _ => apply bind_val in H as (? & ? & ?) end
      | case_match ]; done.
Qed.

Lemma rc_run_error ops : forall (c c' : ReliableChannel T Instant P Pool Snd) es i e,
  rc_run ops c = Val (c', es) -> es !! i = Some (Some e) ->
  Forall (fun x => x = Some Shutdown) (drop (S i) es).
Proof.
  induction ops as [|o ops IH]; intros c c' es i e Hrun Hi; [by injection Hrun as <- <-|].
  cbn [rc_run] in Hrun. destruct (rc_exec o c) as [[c1 x]|] eqn:Ho; [|done]. cbn [mbind res_bind] in Hrun.
  destruct (rc_run ops c1) as [[c2 es2]|] eqn:E; [|done]. cbn [mbind res_bind] in Hrun. injection Hrun as <- <-.
  assert (forall y, match o with RunTask _ _ => es2 | _ => y :: es2 end = es2 \/
    match o with RunTask _ _ => es2 | _ => y :: es2 end = y :: es2) as Hcase by (intros y; destruct o; auto).
  destruct (Hcase x) as [Heq|Heq]; rewrite Heq in *; [by eapply IH|].
  destruct i as [|i]; cbn in Hi |- *; [|by eapply IH]. injection Hi as ->.
  eapply rc_run_terminated; [by eapply rc_exec_error|done].
Qed.

(** C19. All errors are fatal: once any method of the handle has returned an error,
    every later call of any method returns [Shutdown], whatever the task does. *)
Theorem error_then_shutdown ops (c c' : ReliableChannel T Instant P Pool Snd) es i e :
  rc_run ops c = Val (c', es) -> es !! i = Some (Some e) ->
  Forall (fun x => x = Some Shutdown) (drop (S i) es).
Proof. apply rc_run_error. Qed.
End safety.


Import Example.

(** The task of the example's channel, and what it starts from. *)
Lemma example_task : exists t,
  Example.new_channel = Val (mkReliableChannel t Running) /\
  send_inv 0 [] 0 [] t /\ recv_inv id 0 [] [] t /\ env_inv t /\ s_init_send (t_settings t) = 8.
Proof.
  destruct (ReliableChannel_new_ok (T := nat) (P := BufferPacket) (Pool := BufferPacketPool bool)
    id 0%nat (mkBufferPacketPool true) Example.settings true) as (t & Hnew & H1 & H2 & H3 & H4 & _).
  - constructor; vm_compute; repeat split; discriminate || reflexivity.
  - vm_compute. split; discriminate.
  - exists t. split; [exact Hnew|]. rewrite H4. done.
Qed.

Lemma recv_packet_overflow_witness :
  match Example.new_channel with
  | Val c => recv_packet [0; 128; 0; 0; 0; 0; 0; 0; 0; 0] (rc_task c) = Fault Overflow
  | Fault _ => False
  end.
Proof.
  destruct example_task as (t & -> & _). exact (recv_packet_overflow t [0; 0; 0; 0; 0; 0; 0; 0] eq_refl).
Defined.

Definition example_calls : list (rc_op BufferPacket) :=
  [PollWrite [1; 2]; RunTask (IncomingPacket None) []; Flush; PollRead [0]; TryWrite [3]].
Definition example_errors : list (option Error) :=
  match Example.new_channel with
  | Val c => match rc_run example_calls c with Val (_, es) => es | Fault _ => [] end
  | Fault _ => []
  end.

Lemma error_then_shutdown_witness :
  example_errors = [None; Some Disconnected; Some Shutdown; Some Shutdown] /\
  Forall (fun x => x = Some Shutdown) (drop 2 example_errors).
Proof.
  assert (example_errors = [None; Some Disconnected; Some Shutdown; Some Shutdown]) as He
    by (vm_compute; reflexivity).
  split; [exact He|]. unfold example_errors in *. destruct Example.new_channel as [c|]; [|discriminate].
  destruct (rc_run example_calls c) as [[c' es]|] eqn:E; [|discriminate].
  apply (error_then_shutdown example_calls c c' es 1 Disconnected E). by rewrite He.
Defined.

(** The example's task once its user wrote three bytes. *)
Lemma example_written : exists t,
  rc_task <$> ('(c, _) ← (c ← Example.new_channel; rc_write c [7; 8; 9]); Val c) = Val t /\
  send_inv 0 [7; 8; 9] 0 [] t /\ env_inv t /\ t_remote_recv_available t = 8 /\
  bytes_available (t_limiter t) = true /\ recv_inv id 0 [] [] t.
Proof.
  destruct (ReliableChannel_new_ok (T := nat) (P := BufferPacket) (Pool := BufferPacketPool bool)
    id 0%nat (mkBufferPacketPool true) Example.settings true) as (t & Hnew & Hs & Hr & He & _ & Hcap & _).
  { constructor; vm_compute; repeat split; discriminate || reflexivity. }
  { vm_compute. split; discriminate. }
  destruct (SendWindowWriter_write_rep 0 [] 0 [] _ [7; 8; 9] (si_window _ _ _ _ _ Hs)) as (w & Hw & Hrep & _).
  rewrite Hcap in Hw, Hrep. exists (set_send_window w t). unfold Example.new_channel. rewrite Hnew.
  cbn [mbind res_bind fmap res_fmap]. unfold rc_write. cbn [rc_task]. rewrite Hw. split; [reflexivity|].
  split; [destruct Hs; by constructor|]. split; [destruct He; by constructor|].
  split_and!; [..|exact Hr]; vm_compute in Hnew; injection Hnew as <-; vm_compute; reflexivity.
Qed.

(** It sends them; then the remote acknowledges the first. *)
Definition example_stream : list Z := [7; 8; 9].
Definition example_data : BufferPacket := mkBufferPacket [3; 0; 0; 0; 0; 0; 1; 2; 3] 9.
Definition example_ack : list Z := [255; 255; 0; 0; 0; 0; 16; 0; 0; 0].
Definition example_task_written : res (Task nat nat BufferPacket (BufferPacketPool bool) bool) :=
  rc_task <$> ('(c, _) ← (c ← Example.new_channel; rc_write c example_stream); Val c).
Local Abbreviation example_task_sent := (t ← example_task_written; send t).
Local Abbreviation example_task_acked := ('(t, _) ← example_task_sent; recv_packet example_ack t).

Definition succeeds {A} (x : res (A * (unit + Error))) : bool :=
  match x with Val (_, inl _) => true | _ => false end.
Lemma succeeds_val {A} (x : res (A * (unit + Error))) : succeeds x = true -> exists t, x = Val (t, inl tt).
Proof. destruct x as [[t [[]|]]|]; try done. by exists t. Qed.
Lemma example_runs : succeeds example_task_sent = true /\ succeeds example_task_acked = true /\
  match example_task_acked with
  | Val (t, _) => succeeds (resend [1] t) = true /\ (resend_plan (resend_limit t) [1] (times t)).1 = [1]
  | _ => False
  end /\
  match example_task_sent with
  | Val (t, _) => succeeds (iteration (IncomingPacket (Some example_data)) [] t) = true
  | _ => False
  end.
Proof. vm_compute. repeat split. Qed.
Lemma succeeds_both {A} (x : res A) (f g : A -> res (A * (unit + Error))) :
  succeeds (t ← x; f t) = true -> succeeds ('(t, _) ← (t ← x; f t); g t) = true ->
  exists t0 t1 t2, x = Val t0 /\ f t0 = Val (t1, inl tt) /\ g t1 = Val (t2, inl tt) /\
    (t ← x; f t) = Val (t1, inl tt) /\ ('(t, _) ← (t ← x; f t); g t) = Val (t2, inl tt).
Proof.
  destruct x as [t0|]; [|done]. cbn. destruct (f t0) as [[t1 [[]|]]|] eqn:Hf; try done. cbn.
  destruct (g t1) as [[t2 [[]|]]|] eqn:Hg; try done. by exists t0, t1, t2.
Qed.
Lemma example_acked_runs : exists t0 t1 t2, example_task_written = Val t0 /\ send t0 = Val (t1, inl tt) /\
  recv_packet example_ack t1 = Val (t2, inl tt) /\
  example_task_sent = Val (t1, inl tt) /\ example_task_acked = Val (t2, inl tt).
Proof.
  destruct example_runs as (H1 & H2 & _). revert H1 H2. generalize example_task_written. intros x.
  exact (succeeds_both x send (recv_packet example_ack)).
Qed.

Lemma example_sent_inv t o : example_task_sent = Val (t, o) ->
  o = inl tt /\ send_inv 0 example_stream 3 [(0, 3)] t /\ env_inv t /\ recv_inv id 0 [] [] t /\
  s_init_send (t_settings t) <> 0.
Proof.
  intros Ht. destruct example_written as (t0 & Ht0 & Hs & He & Hrem & Hb & Hr).
  unfold example_task_written, example_stream in *. rewrite Ht0 in Ht. cbn [mbind res_bind] in Ht.
  pose proof (send_ok 0 [7; 8; 9] 0 [] t0 Hs He) as H. apply returns_iff in H as ([t' o'] & Heq & H).
  rewrite Heq in Ht. injection Ht as -> ->. destruct o as [[]|e].
  - assert (send_amount (0 + zlen [7; 8; 9] - 0) t0 = 3) as Hn.
    { unfold send_amount. rewrite Hb, Hrem. pose proof (ei_pool _ He). 
      assert (pool_capacity (t_pool t0) = 64) as ->; [|reflexivity].
      vm_compute in Ht0. injection Ht0 as <-. reflexivity. }
    rewrite Hn in H. split; [done|]. split; [exact (sp_inv _ _ _ _ _ _ _ H)|]. split; [apply H|].
    rewrite (fr_settings _ _ (sp_frame _ _ _ _ _ _ _ H)). unfold recv_inv in *.
    rewrite (sp_recv _ _ _ _ _ _ _ H). split; [exact Hr|]. vm_compute in Ht0. injection Ht0 as <-. discriminate.
  - vm_compute in Ht0. injection Ht0 as <-. vm_compute in Heq. discriminate.
Qed.
Lemma woken_send_progress_witness : exists t t' n p,
  rc_task <$> ('(c, _) ← (c ← Example.new_channel; rc_write c [7; 8; 9]); Val c) = Val t /\
  send t = Val (t', inl tt) /\ 0 < n /\ t_effects t' = t_effects t ++ [Sent p].
Proof.
  destruct example_written as (t & Ht & Hs & He & Hr & Hb & _).
  assert (wake_enabled t SendAvailable) as Hw.
  { split; [by rewrite Hr|]. by rewrite (send_available_rep _ _ _ _ _ (si_window _ _ _ _ _ Hs)). }
  pose proof (woken_send_progress 0 [7; 8; 9] 0 [] t Hs He Hw Hb) as H.
  apply returns_iff in H as ([t' [[]|e]] & Heq & H).
  - destruct H as (n & p & Hn & Hp & _). by exists t, t', n, p.
  - vm_compute in Ht. injection Ht as <-. vm_compute in Heq. discriminate.
Defined.

Lemma task_send_correct_witness : exists t t' p,
  example_task_written = Val t /\ send t = Val (t', inl tt) /\
  t_effects t' = t_effects t ++ [Sent p] /\ deref p = data_bytes 0 example_stream.
Proof.
  destruct example_written as (t & Ht & Hs & He & _).
  destruct example_acked_runs as (t0 & t' & _ & Ht0 & Hsend & _).
  assert (t0 = t) as -> by (unfold example_task_written, example_stream in Ht0; congruence).
  pose proof (task_send_correct 0 [7; 8; 9] 0 [] t Hs He) as H. apply returns_iff in H as (x & Heq & H).
  rewrite Hsend in Heq. injection Heq as <-. pose proof (sp_effects _ _ _ _ _ _ _ H) as Heff.
  assert (send_amount (0 + zlen [7; 8; 9] - 0) t = 3) as Hn.
  { vm_compute in Ht. injection Ht as <-. reflexivity. }
  rewrite Hn in Heff. destruct Heff as (p & Hp & _ & Hd). exists t, t', p. split; [exact Ht0|]. by split.
Defined.

(** The remaining two bytes stay unacked. *)
Lemma example_ack_takes t t' f R st us :
  example_task_sent = Val (t, inl tt) -> packet_post 0 example_stream 3 [(0, 3)] f R st us t example_ack t' ->
  send_inv 0 example_stream 3 [(1, 3)] t' /\ env_inv t'.
Proof.
  intros Ht H. unfold packet_post in H. cbn zeta in H.
  change (read_i16 (ztake 2 example_ack) <? 0) with true in H. cbn iota in H.
  change (- read_i16 (ztake 2 example_ack)) with 1 in H.
  assert (sent_at_once 0 example_stream 3 (read_u32 (zdrop 6 example_ack)) t = 0) as Hm.
  { vm_compute in Ht. injection Ht as <-. reflexivity. }
  destruct H as (_ & rs' & [_ Hs' He' _ _ _] & Htakes). rewrite Hm in *. split; [|exact He'].
  destruct Htakes as [(l1 & a & b & l2 & Hrs & _ & _ & ->)|[Hno _]]; cycle 1.
  { apply Forall_inv in Hno. exfalso. apply Hno. vm_compute. split; [reflexivity|discriminate]. }
  change (and_sent 3 0 [(0, 3)]) with [(0, 3)] in Hrs.
  destruct l1 as [|? []]; [|discriminate..]. injection Hrs as <- <- <-. exact Hs'.
Qed.

Lemma example_acked_inv : exists t, example_task_acked = Val (t, inl tt) /\
  send_inv 0 example_stream 3 [(1, 3)] t /\ env_inv t.
Proof.
  destruct example_acked_runs as (_ & t & t' & _ & _ & Hack & Ht & Ht').
  destruct (example_sent_inv t (inl tt) Ht) as (_ & Hs & He & Hr & _). exists t'. split; [exact Ht'|].
  pose proof (recv_packet_ok 0 example_stream 3 [(0, 3)] id 0 [] [] t example_ack Hs Hr He) as H.
  specialize (H ltac:(intros _; vm_compute; discriminate)). apply returns_iff in H as (x & Heq & H).
  rewrite Hack in Heq. injection Heq as <-. destruct H as [_ H]. by eapply example_ack_takes.
Qed.

Lemma recv_packet_correct_witness : exists t t',
  example_task_sent = Val (t, inl tt) /\ recv_packet example_ack t = Val (t', inl tt) /\
  send_inv 0 example_stream 3 [(0, 3)] t /\ send_inv 0 example_stream 3 [(1, 3)] t' /\ env_inv t'.
Proof.
  destruct example_acked_runs as (_ & t & t' & _ & _ & Hack & Ht & _).
  destruct (example_sent_inv t (inl tt) Ht) as (_ & Hs & He & Hr & _). exists t, t'.
  split; [exact Ht|]. split; [exact Hack|]. split; [exact Hs|].
  pose proof (recv_packet_correct 0 example_stream 3 [(0, 3)] id 0 [] [] t example_ack Hs Hr He) as H.
  specialize (H ltac:(intros _; vm_compute; discriminate)). apply returns_iff in H as (x & Heq & H).
  rewrite Hack in Heq. injection Heq as <-. destruct H as [_ H]. exact (example_ack_takes _ _ _ _ _ _ Ht H).
Defined.

(** The range left over has no send time: it goes out again. *)
Lemma task_resend_correct_witness : exists t t' p,
  example_task_acked = Val (t, inl tt) /\ resend [1] t = Val (t', inl tt) /\
  t_effects t' = t_effects t ++ [Sent p] /\ deref p = data_bytes 1 [8; 9].
Proof.
  destruct example_acked_inv as (t & Ht & Hs & He). destruct example_runs as (_ & _ & Hrun & _).
  pose proof (task_resend_correct 0 example_stream 3 [(1, 3)] [1] t Hs He) as H. apply returns_iff in H as ([t' o] & Heq & H).
  rewrite Ht in Hrun. destruct Hrun as [Hrun Hplan]. rewrite Heq in Hrun. destruct o as [[]|e]; [|discriminate Hrun].
  destruct H as (_ & (_ & es & Hes & Hall) & _). rewrite Hplan in Hall.
  apply Forall2_cons_inv_l in Hall as (y & l & Hy & Hl & ->). apply Forall2_nil_inv_l in Hl as ->.
  destruct Hy as (p & r & -> & _ & ->%list_elem_of_singleton & _ & Hd). exists t, t', p.
  split; [exact Ht|]. split; [exact Heq|]. split; [exact Hes|exact Hd].
Defined.

(** A packet of the peer arrives: the invariant holds again. *)
Lemma main_loop_iteration_witness : exists t t',
  example_task_sent = Val (t, inl tt) /\
  iteration (IncomingPacket (Some example_data)) [] t = Val (t', inl tt) /\
  not_stalled t' /\ keeps 0 example_stream 3 id 0 t'.
Proof.
  destruct example_acked_runs as (_ & t & _ & _ & _ & _ & Ht & _).
  destruct (example_sent_inv t (inl tt) Ht) as (_ & Hs & He & Hr & Hinit). destruct example_runs as (_ & _ & _ & Hrun).
  rewrite Ht in Hrun.
  pose proof (main_loop_iteration 0 example_stream 3 [(0, 3)] id 0 [] [] (IncomingPacket (Some example_data)) [] t Hs Hr He) as H.
  specialize (H Hinit).
  specialize (H ltac:(intros p [= <-] Hlen; vm_compute in Hlen; discriminate Hlen)).
  apply returns_iff in H as ([t' o] & Heq & H). rewrite Heq in Hrun. destruct o as [[]|e]; [|discriminate Hrun].
  exists t, t'. split; [exact Ht|]. split; [exact Heq|]. destruct H as [(t0 & t1 & _ & _ & Hns & _) Hk]. by split.
Defined.
