(* ===== verification/System.v ===== *)
(** The connection: two reliable channels and a network between them that loses,
    repeats and reorders packets. Users write to and read from either side while
    the tasks run, for whatever reasons they wake up. What a side reads is a
    prefix of what the other has written, and no byte is lost. *)

From stdpp Require Import relations.
From S2P Require Import Prelude StreamPos RingBuffer Segments SendWindow RecvWindow.
From S2P Require Import BandwidthLimiter Packet Wire ReliableChannel ReliableTask ReliableSafety.

(** * Definitions *)

(** What can happen on a side: a call of its user, which may poll, or an iteration
    of its task. *)
Inductive side_op (P : Type) :=
| SideWrite (polled : bool) (data : list Z)
| SideRead (polled : bool) (buf : list Z)
| SideFlush
| Iterate (reason : WakeReason P) (keys : list StreamPos).
Arguments SideWrite {P} _ _.
Arguments SideRead {P} _ _.
Arguments SideFlush {P}.
Arguments Iterate {P} _ _.

(** How many bytes a call moved. *)
Definition moved (r : Z + Error) : Z := match r with inl n => n | inr _ => 0 end.
Definition polled_moved (r : Poll (Z + Error)) : Z := match r with Ready r => moved r | Pending => 0 end.

Section system.
Context {T Instant P Pool Snd : Type}.
Context {TI : Timer T Instant} {PI : Packet P} {PPI : PacketPool Pool P}.
Context {SI : PacketSink Snd P} {BO : ByteOrder}.

(** A side, with the bytes its user has written and read so far. *)
Record side := mkSide {
  s_chan : ReliableChannel T Instant P Pool Snd;
  s_written : list Z;
  s_read : list Z;
}.

Definition s_task (a : side) : Task T Instant P Pool Snd := rc_task (s_chan a).

Definition side_exec (o : side_op P) (a : side) : res side :=
  match o with
  | SideWrite false data =>
    '(c, r) ← try_write (s_chan a) data;
    Val (mkSide c (s_written a ++ ztake (moved r) data) (s_read a))
  | SideWrite true data =>
    '(c, r) ← poll_write (s_chan a) data;
    Val (mkSide c (s_written a ++ ztake (polled_moved r) data) (s_read a))
  | SideRead false buf =>
    '(c, buf, r) ← try_read (s_chan a) buf;
    Val (mkSide c (s_written a) (s_read a ++ ztake (moved r) buf))
  | SideRead true buf =>
    '(c, buf, r) ← poll_read (s_chan a) buf;
    Val (mkSide c (s_written a) (s_read a ++ ztake (polled_moved r) buf))
  | SideFlush => Val (mkSide (flush (s_chan a)).1 (s_written a) (s_read a))
  | Iterate reason keys =>
    c ← run_task (s_chan a) reason keys; Val (mkSide c (s_written a) (s_read a))
  end.

(** The packets that reach a side are packets its peer has sent at some time. *)
Definition delivered (o : side_op P) (peer : side) : Prop :=
  match o with
  | Iterate (IncomingPacket (Some p)) _ =>
    exists q, Sent q ∈ t_effects (s_task peer) /\ deref q = deref p
  | _ => True
  end.

(** A step of either side, after which its task is still running. *)
Inductive net_step : side * side -> side * side -> Prop :=
| step_left a b o a' :
    delivered o b -> side_exec o a = Val a' -> rc_status (s_chan a') = Running ->
    net_step (a, b) (a', b)
| step_right a b o b' :
    delivered o a -> side_exec o b = Val b' -> rc_status (s_chan b') = Running ->
    net_step (a, b) (a, b').

(** Runs of the connection: [true] for a step of the left side. *)
Definition deliveredb (o : side_op P) (peer : side) : bool :=
  match o with
  | Iterate (IncomingPacket (Some p)) _ =>
    existsb (fun e => match e with Sent q => bool_decide (deref q = deref p) | _ => false end)
      (t_effects (s_task peer))
  | _ => true
  end.

Definition running (a : side) : bool :=
  match rc_status (s_chan a) with Running => true | _ => false end.

Fixpoint net_run (ops : list (bool * side_op P)) (a b : side) : option (side * side) :=
  match ops with
  | [] => Some (a, b)
  | (is_left, o) :: ops =>
    let (x, peer) := if is_left : bool then (a, b) else (b, a) in
    if deliveredb o peer then
      match side_exec o x with
      | Val x => if running x then if is_left then net_run ops x b else net_run ops a x else None
      | Fault _ => None
      end
    else None
  end.

(** A new side. *)
Definition side_new (timer : T) (pool : Pool) (settings : Settings) (sender : Snd) : res side :=
  c ← ReliableChannel_new timer pool settings sender; Val (mkSide c [] []).

(** Less than [2^31] bytes go from [a] to a receive window of the given size:
    within this horizon the positions of the stream do not come around. *)
Definition horizon (a : side) (window_size : Z) : Prop := zlen (s_written a) + window_size < u32_half.
End system.
Arguments side T Instant P Pool Snd : clear implicits.

(** * Streams of bytes *)

(** The byte at a position of the stream that starts with [W]. *)
Definition byte_at (W : list Z) (p : Z) : Z := default 0 (zlookup p W).

Lemma stream_byte_at W a n :
  0 <= a -> 0 <= n -> a + n <= zlen W -> stream (byte_at W) a n = ztake n (zdrop a W).
Proof.
  intros. apply zlist_eq; [rewrite zlen_stream, zlen_sub by lia; lia|].
  intros i. rewrite zlen_stream. intros Hi. rewrite zlookup_stream, zlookup_ztake, zlookup_zdrop by lia.
  rewrite (proj2 (Z.ltb_lt _ _)) by lia. unfold byte_at.
  destruct (zlookup_is_Some (a + i) W) as [b Hb]; [lia|]. replace (i + Z.max 0 a) with (a + i) by lia.
  by rewrite ?Z.max_r, Hb by lia.
Qed.

Lemma byte_at_app W W' p : p < zlen W -> byte_at (W ++ W') p = byte_at W p.
Proof. intros. unfold byte_at. by rewrite zlookup_app, (proj2 (Z.ltb_lt _ _)) by done. Qed.

Lemma substream_app base W W' a b :
  base <= a -> b <= base + zlen W -> substream base (W ++ W') a b = substream base W a b.
Proof.
  intros. unfold substream. destruct (Z.le_gt_cases b a); [by rewrite !ztake_0 by lia|].
  rewrite zdrop_app_le, ztake_app_le by (rewrite ?zlen_zdrop; lia). done.
Qed.

(** * The packets of a side *)

Section wire.
Context `{BOL : ByteOrderLaws}.

Lemma read_header n a rest : is_i16 n ->
  let bytes := write_i16 n ++ write_u32 (wrap a) ++ rest in
  zlen bytes = 6 + zlen rest /\ read_i16 (ztake 2 bytes) = n /\
  read_u32 (ztake 4 (zdrop 2 bytes)) = wrap a /\ zdrop 6 bytes = rest.
Proof.
  intros Hn. cbn zeta. pose proof (write_i16_len n Hn) as H2.
  pose proof (write_u32_len (wrap a) (wrap_pos a)) as H4.
  rewrite !zlen_app, ztake_app_le, (ztake_ge 2) by lia. rewrite zdrop_app_ge, (zdrop_0 (2 - _)) by lia.
  rewrite ztake_app_le, (ztake_ge 4) by lia.
  rewrite read_write_i16, read_write_u32 by (done || apply wrap_pos).
  rewrite zdrop_app_ge, zdrop_app_ge, zdrop_0 by lia. split_and!; done || lia.
Qed.

(** What a side sends: bytes of its stream, or acknowledgments of positions that
    it has received. *)
Definition outgoing (W : list Z) (recvd : Z -> Prop) (bytes : list Z) : Prop :=
  is_data 0 W bytes \/ is_ack (fun p => 0 <= p /\ recvd p) bytes.

Lemma outgoing_mono W W' (recvd recvd' : Z -> Prop) bytes :
  (forall p, recvd p -> recvd' p) -> outgoing W recvd bytes -> outgoing (W ++ W') recvd' bytes.
Proof.
  intros Hr [(a & b & ? & ? & ? & ? & Hb)|(x & n & hi & Hn & Hp & Hb)]; [left|right].
  - exists a, b. rewrite zlen_app, substream_app by lia. zlen_facts. split_and!; done || lia.
  - exists x, n, hi. split_and!; try done; try lia; intros p Hx; by destruct (Hp p Hx); auto.
Qed.

(** A packet that a side sends is well-formed. *)
Lemma outgoing_header W recvd bytes :
  outgoing W recvd bytes -> well_formed bytes /\ read_i16 (ztake 2 bytes) <> i16_min.
Proof.
  unfold well_formed, outgoing, is_data, is_ack, data_bytes, ack_bytes, i16_max, i16_min.
  intros [(a & b & ? & ? & ? & ? & ->)|(x & n & hi & Hn & _ & ->)].
  - assert (zlen (substream 0 W a b) = b - a) as Hl by (apply zlen_sub; lia).
    destruct (read_header (zlen (substream 0 W a b)) a (substream 0 W a b)) as (-> & -> & _);
      [unfold is_i16, i16_min, i16_max; lia|]. rewrite Hl, (proj2 (Z.ltb_ge _ _)) by lia. lia.
  - destruct (read_header (- n) x (write_u32 (wrap hi))) as (-> & -> & _);
      [unfold is_i16, i16_min, i16_max; lia|].
    rewrite (write_u32_len (wrap hi) (wrap_pos hi)), (proj2 (Z.ltb_lt _ _)) by lia. lia.
Qed.
End wire.

(** * A step of a side *)

Section step.
Context {T Instant P Pool Snd : Type}.
Context {TI : Timer T Instant} {TL : TimerLaws T Instant}.
Context {PI : Packet P} {PL : PacketLaws P} {PPI : PacketPool Pool P} {PPL : PacketPoolLaws Pool P}.
Context {SI : PacketSink Snd P} {BO : ByteOrder} {BOL : ByteOrderLaws}.

Abbreviation task := (Task T Instant P Pool Snd).

(** The task of a side that was given the bytes [W], and whose peer was given
    [Wp]: its halves, and the receive position is behind no byte of [Wp]. *)
Record side_inv (W Wp : list Z) (S : Z) (rs : list range) (R : Z) (st us : list range)
    (t : task) : Prop := {
  sd_send : send_inv 0 W S rs t;
  sd_recv : rw_rep (byte_at Wp) R st us (t_recv_window t);
  sd_stale : Forall (fun r => 0 <= r.1) st;
  sd_got : forall p, got R us p -> p < zlen Wp;
  sd_ready : zlen (contents (rw_ring (t_recv_window t))) <= R;
  sd_env : env_inv t;
}.

(** From [t] to [t']: packets of the stream and of acknowledgments went out, every
    byte newly sent in one of them; a byte that is no longer retained was
    acknowledged, what was received stays so. *)
Record progress (acked : Z -> Prop) (W : list Z) (S : Z) (rs : list range) (R : Z) (us : list range)
    (t : task) (S' : Z) (rs' : list range) (R' : Z) (us' : list range) (t' : task) : Prop := {
  pg_frame : frame t t';
  pg_effects : exists es, t_effects t' = t_effects t ++ es /\
    Forall (sent_ok (outgoing W (got R' us'))) es /\ carried 0 W S S' es;
  pg_released : forall p, released 0 S' rs' p -> released 0 S rs p \/ acked p;
  pg_got : forall p, got R us p -> got R' us' p;
  pg_ready : zlen (contents (rw_ring (t_recv_window t'))) - R' =
    zlen (contents (rw_ring (t_recv_window t))) - R;
  pg_cap : capacity (rw_ring (t_recv_window t')) = capacity (rw_ring (t_recv_window t));
}.

Definition side_step (acked : Z -> Prop) (W Wp : list Z) (S : Z) (rs : list range) (R : Z)
    (us : list range) (t t' : task) : Prop :=
  exists S' rs' R' st' us', side_inv W Wp S' rs' R' st' us' t' /\
    progress acked W S rs R us t S' rs' R' us' t'.

Section steps.
Context (acked : Z -> Prop) (W Wp : list Z) (S : Z) (rs : list range) (R : Z) (st us : list range) (t : task).
Context (Hinv : side_inv W Wp S rs R st us t).
Context (Hacked : forall p, acked p -> p < zlen W) (Hhorizon : zlen W < u32_half).
Context (Hwindow : zlen Wp + capacity (rw_ring (t_recv_window t)) < u32_half).

Lemma side_lens :
  let s := zlen (space (rw_ring (t_recv_window t))) in
  0 <= R <= zlen Wp /\ R <= R + s <= zlen Wp + capacity (rw_ring (t_recv_window t)) /\
  0 < capacity (rw_ring (t_recv_window t)).
Proof.
  cbn zeta. destruct Hinv as [_ Hrep _ Hgot Hready _]. pose proof (rw_lens _ _ _ _ _ Hrep). cbn zeta in *.
  assert (R <= zlen Wp); [|lia]. destruct (Z.le_gt_cases R 0); [zlen_facts; lia|].
  pose proof (Hgot (R - 1) ltac:(left; lia)). lia.
Qed.

Lemma side_recv_inv : recv_inv (byte_at Wp) R st us t.
Proof.
  pose proof side_lens. cbn zeta in *. split; [by destruct Hinv|]. unfold lag_ok.
  eapply Forall_impl; [apply (sd_stale _ _ _ _ _ _ _ _ Hinv)|]. cbn. lia.
Qed.

(** The receiving half is not touched. *)
Lemma step_sends S' rs' t' :
  send_inv 0 W S' rs' t' -> env_inv t' -> frame t t' -> t_recv_window t' = t_recv_window t ->
  (exists es, t_effects t' = t_effects t ++ es /\ Forall (sent_ok (is_data 0 W)) es /\
    carried 0 W S S' es) ->
  (forall p, released 0 S' rs' p -> released 0 S rs p \/ acked p) ->
  side_step acked W Wp S rs R us t t'.
Proof.
  intros Hsend Henv Hframe Hrecv (es & He & Hes & Hcar) Hrel. destruct Hinv as [_ ? ? ? ? _].
  exists S', rs', R, st, us. split; constructor; rewrite ?Hrecv; try done.
  exists es. split; [done|]. split; [|exact Hcar]. eapply Forall_impl; [exact Hes|].
  intros []; cbn; try done. intros [? ?]. split; [done|by left].
Qed.

(** A packet of the peer was handled. *)
Lemma step_packet bytes t' :
  outgoing Wp acked bytes ->
  packet_post 0 W S rs (byte_at Wp) R st us t bytes t' -> side_step acked W Wp S rs R us t t'.
Proof.
  pose proof side_lens as Hlens. cbn zeta in Hlens. unfold packet_post, i16_max in *.
  set (hi := R + zlen (space (rw_ring (t_recv_window t)))) in *.
  intros [(a & b & Ha & Hab & Hb & Hn & ->)|(x & n & h & Hn & Hrecvd & ->)].
  - assert (zlen (substream 0 Wp a b) = b - a) as Hl by (apply zlen_sub; lia). unfold data_bytes.
    destruct (read_header (zlen (substream 0 Wp a b)) a (substream 0 Wp a b)) as (_ & -> & -> & ->);
      [unfold is_i16, i16_min, i16_max in *; lia|]. rewrite Hl, (proj2 (Z.ltb_ge _ _)) by lia.
    intros (Hsame & Henv & Hframe & Hpost).
    pose proof (same_send_inv _ _ _ _ _ _ Hsame Hframe (sd_send _ _ _ _ _ _ _ _ Hinv)) as Hsend.
    destruct Hpost as [(Heq & Hw & He)|(x & Heq & Hx & Hpost & Heff)]; fold hi in Heq.
    { exfalso. apply wrap_inj in Heq; lia. }
    assert (x = a) as ->; [fold hi in Hx; apply wrap_inj in Heq; lia|]. clear Heq. rewrite Hl in *.
    fold hi in Hx, Hpost, Heff. set (e := Z.min (a + (b - a)) hi) in *.
    destruct Hpost as (R' & st' & us' & Hrep & HR & Hc & Hcap & Hgot & _ & Hsub).
    assert (forall p, got R' us' p -> p < zlen Wp) as Hnew.
    { intros p Hp. apply Hgot in Hp as [Hp|?]; [by apply (sd_got _ _ _ _ _ _ _ _ Hinv)|lia]. }
    exists S, rs, R', st', us'. split; constructor; try done.
    + eapply rw_rep_ext; [|exact Hrep]. intros p _. unfold substream.
      rewrite Z.sub_0_r, <- (stream_byte_at Wp a (b - a)) by lia. apply patched_stream; lia.
    + apply Forall_forall. intros r Hr. apply Hsub, elem_of_app in Hr as [Hr|Hr].
      * pose proof (sd_stale _ _ _ _ _ _ _ _ Hinv) as Hst. rewrite Forall_forall in Hst. by apply Hst.
      * pose proof (rw_live _ _ _ _ _ (sd_recv _ _ _ _ _ _ _ _ Hinv)) as Hlive.
        rewrite Forall_forall in Hlive. specialize (Hlive r Hr). lia.
    + pose proof (sd_ready _ _ _ _ _ _ _ _ Hinv). lia.
    + destruct (Z.ltb_spec a e).
      * destruct Heff as (p & hi' & es & He & Hes & _ & Hwf & Hd). exists (Sent p :: es). split; [done|].
        split; [|apply carried_none]. constructor; [|by eapply Forall_impl; [exact Hes|]; intros ? ->].
        split; [done|]. right. exists a, (e - a), hi'. unfold i16_max in *. split_and!; try done; try lia.
        intros q Hq. split; [lia|]. apply Hgot. right. lia.
      * exists []. rewrite app_nil_r. split_and!; [done|constructor|apply carried_none].
    + tauto.
    + intros p Hp. apply Hgot. by left.
    + lia.
  - unfold ack_bytes. destruct (read_header (- n) x (write_u32 (wrap h))) as (_ & -> & -> & _);
      [unfold is_i16, i16_min, i16_max in *; lia|]. rewrite (proj2 (Z.ltb_lt _ _)), Z.opp_involutive by lia.
    intros Hack. destruct (ack_post_released _ _ _ _ _ _ _ _ _ (sd_send _ _ _ _ _ _ _ _ Hinv) Hack)
      as (m & rs' & [Hm Hsend Henv Hframe Hrecv Hes] & Hrel).
    apply (step_sends (S + m) rs'); try done. intros p Hp. destruct (Hrel p Hp) as [?|(a & Heq & Ha & Han & Hpa)]; [by left|].
    right. pose proof (sw_end _ _ _ _ _ (si_window _ _ _ _ _ Hsend)).
    destruct (Hrecvd (x + n - 1) ltac:(lia)) as [_ Hlast%Hacked]. destruct (Hrecvd x ltac:(lia)) as [Hx0 _].
    assert (a = x) as -> by (apply wrap_inj in Heq; lia). by apply Hrecvd.
Qed.
End steps.

Lemma resent_data W S rs (t : task) e : send_inv 0 W S rs t -> resent 0 W rs e -> sent_ok (is_data 0 W) e.
Proof.
  intros [Hw _ _ Hlen _] (key & p & r & -> & Hwf & Hr & _ & Hd). pose proof (sw_end _ _ _ _ _ Hw).
  pose proof (segs_Forall 0 ltac:(lia) _ _ _ (sw_segs _ _ _ _ _ Hw)) as Hs.
  rewrite Forall_forall in Hlen, Hs. destruct (Hlen r Hr), (Hs r Hr).
  split; [done|]. exists r.1, r.2. split_and!; done || lia.
Qed.

Lemma side_inv_quiet W Wp S rs R st us (t t0 : task) :
  quiet t t0 -> side_inv W Wp S rs R st us t -> side_inv W Wp S rs R st us t0.
Proof.
  intros Hq []. pose proof (quiet_send_inv _ _ _ _ _ _ Hq sd_send0).
  destruct Hq as [_ _ _ _ Hr _ _ ?]. by constructor; rewrite ?Hr.
Qed.

(** Steps that only change the clock, or only the room of the remote, around. *)
Lemma side_step_quiet acked W Wp S rs R us (t t0 t' : task) :
  quiet t t0 -> side_step acked W Wp S rs R us t0 t' -> side_step acked W Wp S rs R us t t'.
Proof.
  intros [Hset Hpool Heff _ Hrecv _ _ _] (S' & rs' & R' & st' & us' & Hinv & [[] He ? ? ? ?]).
  exists S', rs', R', st', us'. split; [done|]. rewrite Heff, Hrecv in *. constructor; try done.
  constructor; congruence.
Qed.
Lemma side_step_unstall acked W Wp S rs R us (t t' : task) :
  s_init_send (t_settings t) <> 0 ->
  side_step acked W Wp S rs R us t t' -> side_step acked W Wp S rs R us t (unstall t').
Proof.
  intros Hinit (S' & rs' & R' & st' & us' & [Hs ? ? ? ? He] & [Hf Heff ? ? ? ?]).
  destruct (unstall_ok 0 W S' rs' t' Hs He) as (Hs' & He' & Hf' & Hr' & Heff' & _).
  { by destruct Hf as [-> _]. }
  exists S', rs', R', st', us'. split; constructor; rewrite ?Hr', ?Heff'; try done. by eapply frame_trans.
Qed.

Lemma step_iteration acked W Wp S rs R st us (t : task) reason keys :
  side_inv W Wp S rs R st us t -> (forall p, acked p -> p < zlen W) -> zlen W < u32_half ->
  zlen Wp + capacity (rw_ring (t_recv_window t)) < u32_half -> s_init_send (t_settings t) <> 0 ->
  (forall p, reason = IncomingPacket (Some p) -> outgoing Wp acked (deref p)) ->
  completes (iteration reason keys) t (fun t' o =>
    match o with inl _ => side_step acked W Wp S rs R us t t' | inr e => e = Disconnected end).
Proof.
  intros Hinv Hacked HW HWp Hinit Hpeer.
  eapply completes_mono; [apply (iteration_ok 0 W S rs (byte_at Wp) R st us reason keys t)|];
    [by destruct Hinv|by eapply side_recv_inv|by destruct Hinv|done|..].
  { intros p Hr _. by eapply outgoing_header, Hpeer. }
  intros t' [[]|e]; cycle 1.
  { intros [[? _]|(p & Hr & _ & Hwf)]; [done|]. destruct Hwf. by eapply outgoing_header, Hpeer. }
  intros [(t0 & t1 & Hq & -> & _ & Hpost) _]. apply side_step_unstall; [done|]. eapply side_step_quiet; [done|].
  pose proof (side_inv_quiet _ _ _ _ _ _ _ _ _ Hq Hinv) as Hinv0. pose proof (q_recv _ _ Hq) as Hr0.
  destruct reason as [|[p|]|]; [..|done|].
  - destruct Hpost as (t2 & [[Hs He [? ?] _ Hr _ _ (es & Heff & Hes)] _] & ->). eapply step_sends; try done.
    + destruct Hs. by constructor.
    + destruct He. by constructor.
    + exists (es ++ [SetResendTimer (s_resend_time (t_settings t2))]). cbn. rewrite Heff, app_assoc.
      split; [done|]. split; [|apply carried_none]. apply Forall_app. split; [|by constructor].
      eapply Forall_impl; [exact Hes|]. intros e. eapply resent_data. by destruct Hinv0.
    + tauto.
  - eapply step_packet; try done; [by rewrite Hr0|by apply Hpeer].
  - destruct Hpost as (t2 & [[Hs2 He2 [? ?] _ Hr _ _ (es & Heff & Hes)] _] & Hpost). cbn zeta in Hpost.
    set (t3 := emit _ t2) in Hpost. set (n := send_amount _ t3) in Hpost.
    assert (0 <= n) as Hn.
    { apply (send_amount_bounds 0 W S rs t3); [destruct Hs2|destruct He2]; by constructor. }
    pose proof (retained_bounds _ _ _ _ _ (si_window _ _ _ _ _ Hs2)).
    destruct (send_post_effects 0 W S rs _ n t1 ltac:(lia) Hn Hpost) as (es' & Heff' & Hes' & Hcar).
    destruct Hpost as [Hs He [? ?] Hrecv _ _ _].
    cbn in *. eapply step_sends; try done; [constructor; congruence|congruence| |].
    + exists (es ++ [SetResendTimer (s_resend_time (t_settings t2))] ++ es').
      rewrite Heff', Heff, <- !app_assoc. split; [done|].
      split; [|eapply carried_join, carried_join; [apply carried_none..|exact Hcar]].
      apply Forall_app. split; [|by constructor].
      eapply Forall_impl; [exact Hes|]. intros e. eapply resent_data. by destruct Hinv0.
    + intros p Hp. left. by eapply released_sent.
Qed.
End step.

(** * The invariant of the connection *)

Section connection.
Context {T Instant P Pool Snd : Type}.
Context {TI : Timer T Instant} {TL : TimerLaws T Instant}.
Context {PI : Packet P} {PL : PacketLaws P} {PPI : PacketPool Pool P} {PPL : PacketPoolLaws Pool P}.
Context {SI : PacketSink Snd P} {BO : ByteOrder} {BOL : ByteOrderLaws}.

Abbreviation side := (side T Instant P Pool Snd).

(** One side of the connection, whose peer was given the bytes [Wp] and has
    received the positions [acked] of this side's stream. *)
Record half (s : Settings) (a : side) (Wp : list Z) (S : Z) (rs : list range) (R : Z)
    (st us : list range) (acked : Z -> Prop) : Prop := {
  hf_running : rc_status (s_chan a) = Running;
  hf_inv : side_inv (s_written a) Wp S rs R st us (s_task a);
  hf_settings : t_settings (s_task a) = s;
  hf_cap : capacity (rw_ring (t_recv_window (s_task a))) = s_recv_window_size s;
  hf_out : R = zlen (s_read a) + zlen (contents (rw_ring (t_recv_window (s_task a))));
  hf_read : s_read a = ztake (zlen (s_read a)) Wp;
  hf_acked : forall p, released 0 S rs p -> acked p;
  hf_sent : Forall (sent_ok (outgoing (s_written a) (got R us))) (t_effects (s_task a));
  hf_carried : carried 0 (s_written a) 0 S (t_effects (s_task a));
}.

(** Both sides, each the peer of the other. *)
Definition sys_inv (sa sb : Settings) (a b : side) : Prop :=
  exists S rs R st us S2 rs2 R2 st2 us2,
    half sa a (s_written b) S rs R st us (got R2 us2) /\
    half sb b (s_written a) S2 rs2 R2 st2 us2 (got R us).

Lemma sys_inv_sym sa sb a b : sys_inv sa sb a b -> sys_inv sb sa b a.
Proof. intros (S & rs & R & st & us & S2 & rs2 & R2 & st2 & us2 & ? & ?). by exists S2, rs2, R2, st2, us2, S, rs, R, st, us. Qed.

Lemma sent_mono W W' (recvd recvd' : Z -> Prop) (es : list (effect P)) :
  (forall p, recvd p -> recvd' p) ->
  Forall (sent_ok (outgoing W recvd)) es -> Forall (sent_ok (outgoing (W ++ W') recvd')) es.
Proof. intros Hr Hes. eapply Forall_impl; [exact Hes|]. intros []; cbn; try done. intros [? ?]. split; [done|by eapply outgoing_mono]. Qed.

(** More was written. *)
Lemma carried_written W W' S S' (es : list (effect P)) :
  carried 0 W S S' es -> carried 0 (W ++ W') S S' es.
Proof.
  intros Hc p Hp. eapply Exists_impl; [by apply Hc|].
  intros e (q & a & b & -> & ? & ? & ? & ? & Hd). exists q, a, b. rewrite zlen_app, substream_app by lia.
  zlen_facts. split_and!; done || lia.
Qed.

(** The peer goes on. *)
Lemma half_peer s a Wp X S rs R st us (acked acked' : Z -> Prop) :
  (forall p, acked p -> acked' p) -> half s a Wp S rs R st us acked ->
  half s a (Wp ++ X) S rs R st us acked'.
Proof.
  intros Hacked [? [? Hrep ? Hgot ? ?] ? ? ? Hread ? ? ?]. constructor; try done; auto.
  - constructor; try done.
    + eapply rw_rep_ext; [|exact Hrep]. intros p Hp%Hgot. by rewrite byte_at_app.
    + intros p Hp%Hgot. rewrite zlen_app. zlen_facts. lia.
  - assert (zlen (s_read a) <= zlen Wp) by (rewrite Hread, zlen_ztake; zlen_facts; lia).
    by rewrite ztake_app_le.
Qed.

(** A waker is woken. *)
Lemma half_emit s a Wp S rs R st us acked (e : effect P) :
  sent_ok (fun _ => False) e -> half s a Wp S rs R st us acked ->
  half s (mkSide (rc_set_task (s_chan a) (emit e (rc_task (s_chan a)))) (s_written a) (s_read a))
    Wp S rs R st us acked.
Proof.
  intros He [? [[] ? ? ? ? []] ? ? ? ? ? Hsent Hcar].
  constructor; try done; cbn; [|by apply carried_more].
  apply Forall_app. split; [done|]. constructor; [|constructor]. destruct e; [by destruct He|done..].
Qed.

Lemma half_write s a Wp S rs R st us acked data :
  half s a Wp S rs R st us acked ->
  exists c n, rc_write (s_chan a) data = Val (c, n) /\
    half s (mkSide c (s_written a ++ ztake n data) (s_read a)) Wp S rs R st us acked /\ 0 <= n <= zlen data.
Proof.
  intros [Hrun [[Hw Hd He Hl Hr] ? ? ? ? []] ? ? ? ? ? Hsent Hcar]. unfold rc_write.
  pose proof (sw_contents_len _ _ _ _ _ Hw) as [_ Hcap].
  destruct (SendWindowWriter_write_rep _ _ _ _ _ data Hw) as (w & Hwr & Hw' & _).
  unfold s_task in *. rewrite Hwr. cbn [mbind res_bind]. eexists _, _. split; [done|]. split; [|zlen_facts; lia].
  constructor; try done; cbn; [by eapply sent_mono; [|done]|by apply carried_written].
Qed.

Lemma half_read s a Wp S rs R st us acked buf :
  half s a Wp S rs R st us acked ->
  exists c buf' n, rc_read (s_chan a) buf = Val (c, buf', n) /\
    half s (mkSide c (s_written a) (s_read a ++ ztake n buf')) Wp S rs R st us acked /\
    zlen (contents (rw_ring (t_recv_window (rc_task c)))) =
      Z.max 0 (zlen (contents (rw_ring (t_recv_window (s_task a)))) - zlen buf) /\
    zlen buf' = zlen buf /\ 0 <= n <= zlen buf.
Proof.
  intros [Hrun Hinv ? Hcap Hout Hread ? Hsent Hcar]. unfold rc_read.
  pose proof (sd_recv _ _ _ _ _ _ _ _ Hinv) as Hrep. pose proof (rw_lens _ _ _ _ _ Hrep) as Hl. cbn zeta in Hl.
  destruct (RecvWindowReader_read_rep _ _ _ _ _ Hrep buf) as (w & Hrd & Hrep' & Hc & Hcap').
  unfold s_task in *. rewrite Hrd. cbn [mbind res_bind]. eexists _, _, _. split; [done|]. clear Hrd.
  set (c := zlen (contents (rw_ring (t_recv_window (rc_task (s_chan a)))))) in *.
  set (n := Z.min (zlen buf) c) in *. zlen_facts. pose proof (zlen_nonneg buf). pose proof (zlen_nonneg Wp). assert (0 <= n <= c) by (unfold n; lia).
  replace (R - c) with (zlen (s_read a)) by lia.
  rewrite ztake_app_le, ztake_ge by (rewrite zlen_stream; lia).
  assert (R <= zlen Wp) as HR.
  { destruct (Z.le_gt_cases R 0); [lia|]. pose proof (sd_got _ _ _ _ _ _ _ _ Hinv (R - 1) ltac:(left; lia)). lia. }
  rewrite stream_byte_at by lia.
  split; [|cbn; rewrite zlen_app, zlen_sub, zlen_zdrop by lia; lia]. destruct Hinv as [[] ? ? ? ? []]. constructor; try done; unfold s_task; cbn.
  - repeat (constructor; try done). cbn. lia.
  - congruence.
  - rewrite zlen_app, zlen_sub by lia. lia.
  - rewrite zlen_app, zlen_sub by lia. set (k := zlen (s_read a)) in *.
    rewrite <- (ztake_zdrop k (ztake (k + n) Wp)), ztake_ztake, zdrop_ztake, Z.min_l by lia.
    rewrite Hread at 1. do 2 f_equal. lia.
Qed.

(** What a call or an iteration leaves of a side: more was written, more was
    received; or its task ended, the sink or the peer being gone. *)
Definition half_step (s : Settings) (a : side) (Wp : list Z) (R : Z) (us : list range)
    (acked : Z -> Prop) (a' : side) : Prop :=
  rc_status (s_chan a') = Ended Disconnected \/
  exists X S' rs' R' st' us', s_written a' = s_written a ++ X /\
    half s a' Wp S' rs' R' st' us' acked /\ (forall p, got R us p -> got R' us' p).

Section exec.
Context (s : Settings) (a : side) (Wp : list Z) (S : Z) (rs : list range) (R : Z) (st us : list range).
Context (acked : Z -> Prop) (Hhalf : half s a Wp S rs R st us acked).

Lemma half_here a' X :
  s_written a' = s_written a ++ X -> half s a' Wp S rs R st us acked -> half_step s a Wp R us acked a'.
Proof. intros. right. by exists X, S, rs, R, st, us. Qed.

Lemma exec_write polled data :
  returns (side_exec (SideWrite polled data) a) (half_step s a Wp R us acked).
Proof.
  pose proof (hf_running _ _ _ _ _ _ _ _ _ Hhalf) as Hrun.
  destruct (half_write _ _ _ _ _ _ _ _ _ data Hhalf) as (c & n & Hw & Hc & _).
  destruct polled; unfold side_exec, poll_write, try_write; rewrite Hrun.
  - destruct data as [|b data]; [cbn; rewrite ztake_0, app_nil_r by lia|set (bs := b :: data) in *].
    { apply (half_here _ []); [by rewrite app_nil_r|]. by destruct a. }
    rewrite Hw. cbn [mbind res_bind]. destruct (Z.ltb_spec 0 n); [by eapply half_here|].
    rewrite ztake_0, app_nil_r in Hc by lia.
    destruct (half_write _ _ _ _ _ _ _ _ _ bs Hc) as (c2 & n2 & Hw2 & Hc2 & _). cbn [s_chan s_written s_read] in *.
    rewrite Hw2. cbn [mbind res_bind]. destruct (Z.ltb_spec 0 n2); [by eapply half_here|].
    rewrite ztake_0, app_nil_r in Hc2 by lia. cbn. rewrite ztake_0, app_nil_r by lia.
    apply (half_here _ []); [by rewrite app_nil_r|]. by apply (half_emit _ _ _ _ _ _ _ _ _ WakeSend) in Hc2.
  - rewrite Hw. cbn [mbind res_bind]. by eapply half_here.
Qed.

Lemma exec_read polled buf :
  returns (side_exec (SideRead polled buf) a) (half_step s a Wp R us acked).
Proof.
  pose proof (hf_running _ _ _ _ _ _ _ _ _ Hhalf) as Hrun.
  destruct (half_read _ _ _ _ _ _ _ _ _ buf Hhalf) as (c & buf' & n & Hw & Hc & _).
  destruct polled; unfold side_exec, poll_read, try_read; rewrite Hrun.
  - destruct buf as [|b bs]; [cbn; rewrite ztake_0, app_nil_r by lia|set (buf := b :: bs) in *].
    { apply (half_here _ []); [by rewrite app_nil_r|]. by destruct a. }
    rewrite Hw. cbn [mbind res_bind].
    destruct (Z.ltb_spec 0 n); [apply (half_here _ []); [by rewrite app_nil_r|done]|].
    rewrite ztake_0, app_nil_r in Hc by lia.
    destruct (half_read _ _ _ _ _ _ _ _ _ buf' Hc) as (c2 & buf2 & n2 & Hw2 & Hc2 & _). cbn [s_chan s_written s_read] in *.
    rewrite Hw2. cbn [mbind res_bind].
    destruct (Z.ltb_spec 0 n2); [apply (half_here _ []); [by rewrite app_nil_r|done]|].
    rewrite ztake_0, app_nil_r in Hc2 by lia. cbn. rewrite ztake_0, app_nil_r by lia.
    apply (half_here _ []); [by rewrite app_nil_r|done].
  - rewrite Hw. cbn [mbind res_bind]. apply (half_here _ []); [by rewrite app_nil_r|done].
Qed.

Lemma exec_iterate reason keys :
  (forall p, acked p -> p < zlen (s_written a)) -> zlen (s_written a) < u32_half ->
  zlen Wp + s_recv_window_size s < u32_half -> s_init_send s <> 0 ->
  (forall p, reason = IncomingPacket (Some p) -> outgoing Wp acked (deref p)) ->
  returns (side_exec (Iterate reason keys) a) (half_step s a Wp R us acked).
Proof.
  intros Hacked HW HWp Hinit Hpeer. destruct Hhalf as [Hrun Hinv Hset Hcap Hout Hread Hack Hsent Hcar].
  unfold side_exec, run_task. rewrite Hrun.
  pose proof (step_iteration acked (s_written a) Wp S rs R st us (s_task a) reason keys Hinv) as H.
  rewrite Hset, Hcap in H. specialize (H Hacked HW HWp Hinit Hpeer).
  unfold completes, s_task in H. destruct (iteration reason keys (rc_task (s_chan a))) as [[t' [[]|e]]|]; [| |done].
  - cbn. destruct H as (S' & rs' & R' & st' & us' & Hinv' & [[Hs _] (es & He & Hes & Hcar') Hrel Hgot Hready Hcap']).
    right. exists [], S', rs', R', st', us'. rewrite app_nil_r. split; [done|]. split; [|done].
    unfold s_task in *. constructor; try done; unfold s_task; cbn.
    + congruence.
    + congruence.
    + lia.
    + intros p Hp. destruct (Hrel p Hp); auto.
    + rewrite He. apply Forall_app. split; [|done]. rewrite <- (app_nil_r (s_written a)).
      by eapply sent_mono; [|exact Hsent].
    + rewrite He. by eapply carried_join.
  - cbn in H |- *. subst e. by left.
Qed.
End exec.

(** Any step of a side, and what it needs of its peer. *)
Lemma exec_half s a Wp S rs R st us acked o :
  half s a Wp S rs R st us acked ->
  (forall p, acked p -> p < zlen (s_written a)) -> zlen (s_written a) < u32_half ->
  zlen Wp + s_recv_window_size s < u32_half -> s_init_send s <> 0 ->
  (forall p keys, o = Iterate (IncomingPacket (Some p)) keys -> outgoing Wp acked (deref p)) ->
  returns (side_exec o a) (half_step s a Wp R us acked).
Proof.
  intros Hhalf ? ? ? ? Hpeer. destruct o as [polled data|polled buf| |reason keys].
  - by eapply exec_write.
  - by eapply exec_read.
  - cbn. eapply (half_here _ _ _ _ _ _ _ _ _ _ []); [by rewrite app_nil_r|].
    pose proof (hf_running _ _ _ _ _ _ _ _ _ Hhalf) as Hrun. unfold flush. rewrite Hrun.
    by apply (half_emit _ _ _ _ _ _ _ _ _ WakeSend) in Hhalf.
  - eapply exec_iterate; try done. intros p ->. by eapply Hpeer.
Qed.

Lemma side_exec_written (a a' : side) o : side_exec o a = Val a' -> exists X, s_written a' = s_written a ++ X.
Proof.
  destruct o as [[] data|[] buf| |reason keys]; cbn [side_exec]; intros H;
    repeat match goal with H : _ ≫= _ = Val _ |- _ => apply bind_val in H as (? & ? & ?) end;
    repeat case_match; simplify_eq/=; try (by eexists); exists []; by rewrite app_nil_r.
Qed.

Lemma net_step_written (a b a' b' : side) :
  net_step (a, b) (a', b') ->
  zlen (s_written a) <= zlen (s_written a') /\ zlen (s_written b) <= zlen (s_written b').
Proof.
  intros Hstep. inversion Hstep as [? ? o ? _ Hx _|? ? o ? _ Hx _]; simplify_eq;
    destruct (side_exec_written _ _ _ Hx) as [X ->]; rewrite zlen_app; zlen_facts; lia.
Qed.

Lemma delivered_outgoing s (b : side) Wp S rs R st us acked o p keys :
  half s b Wp S rs R st us acked -> delivered o b -> o = Iterate (IncomingPacket (Some p)) keys ->
  outgoing (s_written b) (got R us) (deref p).
Proof.
  intros Hhalf Hd ->. destruct Hd as (q & Hq & <-). pose proof (hf_sent _ _ _ _ _ _ _ _ _ Hhalf) as Hs.
  rewrite Forall_forall in Hs. apply (Hs _ Hq).
Qed.

Section runs.
Context (sa sb : Settings) (Hsa : s_init_send sa <> 0) (Hsb : s_init_send sb <> 0).

(** Neither stream comes around. *)
Definition horizons (sa sb : Settings) (a b : side) : Prop :=
  horizon a (s_recv_window_size sb) /\ horizon b (s_recv_window_size sa).

Lemma side_exec_inv (a b : side) o :
  sys_inv sa sb a b -> horizons sa sb a b -> delivered o b ->
  returns (side_exec o a) (fun a' => rc_status (s_chan a') = Ended Disconnected \/
    (rc_status (s_chan a') = Running /\ sys_inv sa sb a' b)).
Proof.
  intros (S & rs & R & st & us & S2 & rs2 & R2 & st2 & us2 & Ha & Hb) [HA HB] Hd. unfold horizon in *.
  pose proof (side_lens _ _ _ _ _ _ _ _ (hf_inv _ _ _ _ _ _ _ _ _ Hb)) as Hl. cbn zeta in Hl.
  rewrite (hf_cap _ _ _ _ _ _ _ _ _ Hb) in Hl.
  eapply returns_mono; [eapply (exec_half sa a (s_written b) S rs R st us (got R2 us2) o Ha)|].
  - apply (sd_got _ _ _ _ _ _ _ _ (hf_inv _ _ _ _ _ _ _ _ _ Hb)).
  - lia.
  - lia.
  - done.
  - intros p keys. by eapply delivered_outgoing.
  - intros a' [Hend|(X & S' & rs' & R' & st' & us' & HX & Ha' & Hgot)]; [by left|right].
    split; [by eapply hf_running|]. exists S', rs', R', st', us', S2, rs2, R2, st2, us2. split; [done|].
    rewrite HX. by eapply half_peer.
Qed.

Lemma horizons_sym (a b : side) : horizons sa sb a b -> horizons sb sa b a.
Proof. intros []. by split. Qed.
End runs.

Lemma net_step_inv sa sb (a b a' b' : side) :
  s_init_send sa <> 0 -> s_init_send sb <> 0 ->
  sys_inv sa sb a b -> horizons sa sb a b -> net_step (a, b) (a', b') -> sys_inv sa sb a' b'.
Proof.
  intros Hsa Hsb Hinv Hh Hstep. inversion Hstep as [? ? o ? Hd Hx Hr|? ? o ? Hd Hx Hr]; simplify_eq.
  - pose proof (side_exec_inv sa sb Hsa a b' o Hinv Hh Hd) as H. rewrite Hx in H.
    destruct H as [H|[_ H]]; [congruence|done].
  - pose proof (side_exec_inv sb sa Hsb b a' o (sys_inv_sym _ _ _ _ Hinv) (horizons_sym _ _ _ _ Hh) Hd) as H.
    rewrite Hx in H. destruct H as [H|[_ H]]; [congruence|by apply sys_inv_sym].
Qed.

Lemma net_inv sa sb (ab cd : side * side) :
  s_init_send sa <> 0 -> s_init_send sb <> 0 -> rtc net_step ab cd ->
  sys_inv sa sb ab.1 ab.2 -> horizons sa sb cd.1 cd.2 -> sys_inv sa sb cd.1 cd.2.
Proof.
  intros Hsa Hsb Hsteps Hinv.
  apply (rtc_ind_r (R := net_step) (fun cd : side * side => horizons sa sb cd.1 cd.2 -> sys_inv sa sb cd.1 cd.2) ab); [done| |done].
  intros [a b] [c d] _ Hstep IH [Ha Hb]. cbn [fst snd] in *. destruct (net_step_written _ _ _ _ Hstep).
  assert (horizons sa sb a b) as Hh by (unfold horizons, horizon in *; lia).
  eapply net_step_inv; [..|exact Hstep]; try done. by apply IH.
Qed.
End connection.

(** * Properties *)

Section properties.
Context {T Instant P Pool Snd : Type}.
Context {TI : Timer T Instant} {TL : TimerLaws T Instant}.
Context {PI : Packet P} {PL : PacketLaws P} {PPI : PacketPool Pool P} {PPL : PacketPoolLaws Pool P}.
Context {SI : PacketSink Snd P} {BO : ByteOrder} {BOL : ByteOrderLaws}.

Abbreviation side := (side T Instant P Pool Snd).

Lemma side_new_half timer (pool : Pool) settings (sender : Snd) :
  settings_ok settings -> 10 <= pool_capacity pool <= MAX_PACKET_LEN ->
  exists a, side_new timer pool settings sender = Val a /\ s_written a = [] /\ s_read a = [] /\
    half settings a [] 0 [] 0 [] [] (got 0 []).
Proof.
  intros Hset Hpool.
  destruct (ReliableChannel_new_ok (byte_at []) timer pool settings sender Hset Hpool)
    as (t & Hnew & Hsend & [Hrecv _] & Henv & Hs & _ & Hcap & Hcon & Heff).
  unfold side_new. rewrite Hnew. eexists. split; [done|]. split; [done|]. split; [done|].
  constructor; unfold s_task; cbn; try done; rewrite ?Hcon, ?Heff; try done.
  - constructor; try done; [|by rewrite Hcon]. intros p [?|Hp]; [unfold zlen; cbn; lia|].
    by apply Exists_nil in Hp.
  - intros p [? _]. lia.
  - constructor; [done|constructor].
  - apply carried_none.
Qed.

(** A connection between two new channels after any number of steps, neither
    stream of which has come around. *)
Definition connected (sa sb : Settings) (a b : side) : Prop :=
  settings_ok sa /\ settings_ok sb /\ exists ta tb pa pb sa' sb' a0 b0,
    10 <= pool_capacity pa <= MAX_PACKET_LEN /\ 10 <= pool_capacity pb <= MAX_PACKET_LEN /\
    side_new ta pa sa sa' = Val a0 /\ side_new tb pb sb sb' = Val b0 /\
    rtc net_step (a0, b0) (a, b) /\ horizons sa sb a b.

Lemma connected_inv sa sb (a b : side) : connected sa sb a b -> sys_inv sa sb a b.
Proof.
  intros (Hsa & Hsb & ta & tb & pa & pb & xa & xb & a0 & b0 & Hpa & Hpb & Ha & Hb & Hsteps & Hh).
  destruct (side_new_half ta pa sa xa Hsa Hpa) as (a1 & Ha1 & Hwa & _ & Hhalfa).
  destruct (side_new_half tb pb sb xb Hsb Hpb) as (b1 & Hb1 & Hwb & _ & Hhalfb).
  rewrite Ha in Ha1. rewrite Hb in Hb1. simplify_eq.
  pose proof (so_init _ Hsa). pose proof (so_init _ Hsb).
  apply (net_inv sa sb _ _ ltac:(lia) ltac:(lia) Hsteps); [|done]. cbn.
  exists 0, [], 0, [], [], 0, [], 0, [], []. by rewrite Hwa, Hwb.
Qed.

Lemma half_prefix s (a : side) Wp S rs R st us acked :
  half s a Wp S rs R st us acked -> exists tail, Wp = s_read a ++ tail.
Proof.
  intros Hhalf. exists (zdrop (zlen (s_read a)) Wp). rewrite (hf_read _ _ _ _ _ _ _ _ _ Hhalf) at 1.
  by rewrite ztake_zdrop.
Qed.

(** C3. A reliable connection: however the network loses, repeats and reorders the
    packets of the two channels, and however their users and tasks take turns,
    what either side has read is a prefix of what the other has written, as long as
    both streams stay within the horizon of fewer than [2^31] bytes. *)
Theorem connection_in_order sa sb (a b : side) :
  connected sa sb a b ->
  (exists tail, s_written a = s_read b ++ tail) /\ (exists tail, s_written b = s_read a ++ tail).
Proof.
  intros (? & ? & ? & ? & ? & ? & ? & ? & ? & ? & Ha & Hb)%connected_inv.
  split; by eapply half_prefix.
Qed.

(** C4. No byte is lost: what is written on a side and not yet readable on the
    other is still in the send window, to be sent again. When nothing is left
    there, one read with enough room completes the stream. It holds within the same
    horizon. *)
Theorem connection_lossless sa sb (a b : side) n m buf :
  connected sa sb a b -> read_available (sw_ring (t_send_window (s_task a))) = Val n ->
  RecvWindow_read_available (t_recv_window (s_task b)) = Val m -> m <= zlen buf ->
  exists b' tail, side_exec (SideRead false buf) b = Val b' /\
    s_written a = s_read b' ++ tail /\ zlen tail <= n.
Proof.
  intros (S & rs & R & st & us & S2 & rs2 & R2 & st2 & us2 & Ha & Hb)%connected_inv Hn Hm Hbuf.
  pose proof (si_window _ _ _ _ _ (sd_send _ _ _ _ _ _ _ _ (hf_inv _ _ _ _ _ _ _ _ _ Ha))) as Hw.
  pose proof (sd_recv _ _ _ _ _ _ _ _ (hf_inv _ _ _ _ _ _ _ _ _ Hb)) as Hr.
  rewrite (read_available_rep _ _ _ _ _ Hw) in Hn. rewrite (read_available_recv _ _ _ _ _ Hr) in Hm.
  injection Hn as <-. injection Hm as <-.
  destruct (half_read _ _ _ _ _ _ _ _ _ buf Hb) as (c & buf' & k & Hread & Hb' & Hc & _).
  eexists. unfold side_exec, try_read. rewrite (hf_running _ _ _ _ _ _ _ _ _ Hb), Hread. cbn [mbind res_bind moved].
  destruct (half_prefix _ _ _ _ _ _ _ _ _ Hb') as [tail Htail]. exists tail. split; [done|]. split; [done|].
  pose proof (hf_out _ _ _ _ _ _ _ _ _ Hb') as Hout. unfold s_task in Hout. cbn [s_chan s_read] in *.
  apply (f_equal zlen) in Htail. rewrite zlen_app in Htail. unfold s_task in *.
  assert (retained_from S rs <= R2) as Hret; [|lia]. pose proof (retained_bounds _ _ _ _ _ Hw).
  destruct (Z.le_gt_cases (retained_from S rs) R2) as [?|Hlt]; [done|exfalso].
  assert (released 0 S rs R2) as Hrel.
  { split; [zlen_facts; lia|]. intros Hcov. apply Exists_exists in Hcov as (r & Hin & ?).
    pose proof (retained_le _ _ _ _ (sw_segs _ _ _ _ _ Hw) Hin). lia. }
  apply (hf_acked _ _ _ _ _ _ _ _ _ Ha) in Hrel as [?|Hcov]; [lia|].
  apply Exists_exists in Hcov as (r & Hin & ?). pose proof (rw_live _ _ _ _ _ Hr) as Hlive.
  rewrite Forall_forall in Hlive. specialize (Hlive r Hin). lia.
Qed.

(** C7. Two sides that talk to each other never end in a protocol error and never
    panic: any call, and any iteration of the task on a packet the peer has
    sent, completes, and the task goes on unless its sink or its peer is gone. *)
Theorem connection_safe sa sb (a b : side) o :
  connected sa sb a b -> delivered o b ->
  exists a', side_exec o a = Val a' /\
    (rc_status (s_chan a') = Running \/ rc_status (s_chan a') = Ended Disconnected).
Proof.
  intros Hc Hd. pose proof (connected_inv _ _ _ _ Hc) as Hinv.
  destruct Hc as (Hsa & _ & ? & ? & ? & ? & ? & ? & ? & ? & _ & _ & _ & _ & _ & Hh).
  pose proof (so_init _ Hsa) as Hinit.
  pose proof (side_exec_inv sa sb ltac:(lia) a b o Hinv Hh Hd) as H.
  apply returns_iff in H as (a' & -> & [?|[? _]]); eauto.
Qed.

Lemma deliveredb_ok o (peer : side) : deliveredb o peer = true -> delivered o peer.
Proof.
  destruct o as [| | |[|[p|]|]]; cbn; try done. intros Hd.
  apply existsb_exists in Hd as ([q| | | |] & Hin & Hq); try done.
  exists q. split; [by apply list_elem_of_In|]. by apply bool_decide_eq_true in Hq.
Qed.

Lemma net_run_steps ops : forall a b a' b' : side,
  net_run ops a b = Some (a', b') -> rtc net_step (a, b) (a', b').
Proof.
  induction ops as [|[is_left o] ops IH]; intros a b a' b' Hrun; cbn [net_run] in Hrun; [by simplify_eq|].
  assert (forall x : side, running x = true -> rc_status (s_chan x) = Running) as Hrunning.
  { intros x. unfold running. by destruct (rc_status _). }
  destruct is_left, (deliveredb o _) eqn:Hd; try done; destruct (side_exec o _) as [x|] eqn:Hx; try done;
    destruct (running x) eqn:Hr; try done; (eapply rtc_l; [|by apply IH]);
    econstructor; eauto using deliveredb_ok.
Qed.
End properties.

(** ** An example

    The left side sends five bytes; the packet arrives twice, and the right side
    reads two of them before its acknowledgment is lost and sent again. *)
Import Example.

Definition example_side : res (side nat nat BufferPacket (BufferPacketPool bool) bool) :=
  side_new 0%nat (mkBufferPacketPool true) Example.settings true.

Definition example_packet (bytes : list Z) : BufferPacket := mkBufferPacket bytes (zlen bytes).

Definition example_steps : list (bool * side_op BufferPacket) :=
  let data := Iterate (IncomingPacket (Some (example_packet [5; 0; 0; 0; 0; 0; 1; 2; 3; 4; 5]))) [] in
  let ack := Iterate (IncomingPacket (Some (example_packet [251; 255; 0; 0; 0; 0; 16; 0; 0; 0]))) [] in
  [(true, SideWrite true [1; 2; 3; 4; 5]); (true, SideFlush); (true, Iterate SendAvailable []);
   (false, data); (false, SideRead false [0; 0]); (false, data); (true, ack); (true, ack)].

Definition example_net : option (side nat nat BufferPacket (BufferPacketPool bool) bool *
    side nat nat BufferPacket (BufferPacketPool bool) bool) :=
  match example_side with
  | Val a => net_run example_steps a a
  | Fault _ => None
  end.

Lemma example_settings : settings_ok Example.settings.
Proof. constructor; vm_compute; repeat split; discriminate || reflexivity. Qed.

Lemma example_observed :
  option_map (fun ab => (s_written ab.1, s_read ab.2, s_written ab.2,
    read_available (sw_ring (t_send_window (s_task ab.1))),
    RecvWindow_read_available (t_recv_window (s_task ab.2)))) example_net =
  Some ([1; 2; 3; 4; 5], [1; 2], [], Val 0, Val 3).
Proof. vm_compute. reflexivity. Qed.

Lemma example_run a b : example_net = Some (a, b) ->
  exists a0, example_side = Val a0 /\ net_run example_steps a0 a0 = Some (a, b).
Proof. unfold example_net. destruct example_side as [a0|]; [by exists a0|discriminate]. Qed.

Lemma connected_run a0 a b ops : example_side = Val a0 -> net_run ops a0 a0 = Some (a, b) ->
  horizons Example.settings Example.settings a b -> connected Example.settings Example.settings a b.
Proof.
  intros Ha E Hh. split; [apply example_settings|]. split; [apply example_settings|].
  exists 0%nat, 0%nat, (mkBufferPacketPool true), (mkBufferPacketPool true), true, true, a0, a0.
  split; [vm_compute; split; discriminate|]. split; [vm_compute; split; discriminate|].
  split; [exact Ha|]. split; [exact Ha|]. split; [exact (net_run_steps _ _ _ _ _ E)|exact Hh].
Qed.

Lemma example_connected : exists a b, connected Example.settings Example.settings a b /\
  example_net = Some (a, b) /\ s_written a = [1; 2; 3; 4; 5] /\ s_read b = [1; 2] /\
  read_available (sw_ring (t_send_window (s_task a))) = Val 0 /\
  RecvWindow_read_available (t_recv_window (s_task b)) = Val 3.
Proof.
  pose proof example_observed as Hobs. destruct example_net as [[a b]|] eqn:E; [|discriminate Hobs].
  injection Hobs as Hw Hr Hw' Hn Hm. exists a, b.
  split; [|exact (conj eq_refl (conj Hw (conj Hr (conj Hn Hm))))].
  destruct (example_run a b E) as (a0 & Ha & Hrun). apply (connected_run a0 a b _ Ha Hrun).
  unfold horizons, horizon. rewrite Hw, Hw'. split; reflexivity.
Qed.

Lemma connection_in_order_witness : exists a b, example_net = Some (a, b) /\ s_read b = [1; 2] /\
  (exists tail, s_written a = s_read b ++ tail) /\ (exists tail, s_written b = s_read a ++ tail).
Proof.
  destruct example_connected as (a & b & Hc & E & _ & Hr & _). exists a, b. split; [exact E|]. split; [exact Hr|].
  exact (connection_in_order _ _ a b Hc).
Defined.

Lemma connection_lossless_witness : exists a b b', example_net = Some (a, b) /\
  side_exec (SideRead false [0; 0; 0; 0]) b = Val b' /\ s_read b' = [1; 2; 3; 4; 5].
Proof.
  destruct example_connected as (a & b & Hc & E & Hw & _ & Hn & Hm).
  destruct (connection_lossless _ _ a b 0 3 [0; 0; 0; 0] Hc Hn Hm) as (b' & tail & Hx & Ht & Hl);
    [vm_compute; discriminate|].
  exists a, b, b'. split; [exact E|]. split; [exact Hx|].
  destruct tail as [|x tail]; [by rewrite Hw, app_nil_r in Ht|]. rewrite zlen_cons in Hl. zlen_facts. lia.
Defined.

Lemma connection_safe_witness : exists a b a', example_net = Some (a, b) /\
  side_exec (Iterate (IncomingPacket None) []) a = Val a' /\
  (rc_status (s_chan a') = Running \/ rc_status (s_chan a') = Ended Disconnected).
Proof.
  destruct example_connected as (a & b & Hc & E & _).
  destruct (connection_safe _ _ a b (Iterate (IncomingPacket None) []) Hc I) as (a' & Hx & Hs).
  exists a, b, a'. split; [exact E|]. split; [exact Hx|exact Hs].
Defined.
