(* ===== verification/Delivery.v ===== *)
(** What was sent can always still be received: from every state a connection can
    reach, packets that are already in the network are enough to complete the
    stream, however much was lost, repeated or read in part before. *)

From stdpp Require Import relations.
From S2P Require Import Prelude StreamPos RingBuffer Segments SendWindow RecvWindow.
From S2P Require Import BandwidthLimiter Packet Wire ReliableChannel ReliableTask ReliableSafety System.

(** * Handlers that do not end in an error *)

(** From a state with [I] the handler does not end in [e], and leaves [I]. *)
Definition never {S E A} (I : S -> Prop) (e : E) (m : handler S E A) : Prop :=
  forall s s' o, I s -> m s = Val (s', o) -> I s' /\ o <> inr e.

Section never.
Context {S E : Type} {I : S -> Prop} {e : E}.

Lemma never_ret {A} (a : A) : never I e (mret a : handler S E A).
Proof. by intros s s' o HI [= <- <-]. Qed.
Lemma never_get : never I e (get : handler S E S).
Proof. by intros s s' o HI [= <- <-]. Qed.
Lemma never_modify f : (forall s, I s -> I (f s)) -> never I e (modify f : handler S E unit).
Proof. intros Hf s s' o HI [= <- <-]. auto. Qed.
Lemma never_throw {A} (e' : E) : e' <> e -> never I e (throw e' : handler S E A).
Proof. intros He s s' o HI [= <- <-]. split; [done|congruence]. Qed.
Lemma never_lift {A} (m : res A) : never I e (lift m : handler S E A).
Proof. intros s s' o HI H. unfold lift in H. destruct m; by simplify_eq. Qed.
Lemma never_bind {A B} (m : handler S E A) (k : A -> handler S E B) :
  never I e m -> (forall a, never I e (k a)) -> never I e (m ≫= k).
Proof.
  intros Hm Hk s s' o HI H. unfold mbind, handler_bind in H. destruct (m s) as [[s1 [a|e1]]|] eqn:E1; [| |done].
  - destruct (Hm _ _ _ HI E1). by eapply Hk.
  - simplify_eq. destruct (Hm _ _ _ HI E1). split; [done|congruence].
Qed.
End never.

(** Goes through a handler; what is left are the calls and some modifications. *)
Local Ltac never_step :=
  lazymatch goal with
  | |- never _ _ (_ ≫= _) => apply never_bind; [|intros ?]
  | |- never _ _ get => apply never_get
  | |- never _ _ (mret _) => apply never_ret
  | |- never _ _ (modify _) => apply never_modify; intros ? ?; first [done|idtac]
  | |- never _ _ (throw _) => apply never_throw; discriminate
  | |- never _ _ (lift _) => apply never_lift
  | |- never _ _ (match _ with _ => _ end) => case_match
  end.
Local Ltac never_tac := repeat never_step.

Section delivery.
Context {T Instant P Pool Snd : Type}.
Context {TI : Timer T Instant} {TL : TimerLaws T Instant}.
Context {PI : Packet P} {PL : PacketLaws P} {PPI : PacketPool Pool P} {PPL : PacketPoolLaws Pool P}.
Context {SI : PacketSink Snd P} {BO : ByteOrder} {BOL : ByteOrderLaws}.

Abbreviation task := (Task T Instant P Pool Snd).
Abbreviation side := (side T Instant P Pool Snd).

(** A sink that takes every packet, whatever is sent. *)
Fixpoint sink_takes (ps : list P) (snd : Snd) : Prop :=
  match ps with [] => True | p :: ps => (sink_send snd p).2 = true /\ sink_takes ps (sink_send snd p).1 end.
Definition sink_open (snd : Snd) : Prop := forall ps, sink_takes ps snd.
Definition task_open (t : task) : Prop := sink_open (t_sender t).

Lemma sink_open_send snd p : sink_open snd -> (sink_send snd p).2 = true /\ sink_open (sink_send snd p).1.
Proof. intros Hopen. split; [apply (Hopen [p])|intros ps; apply (Hopen (p :: ps))]. Qed.

Lemma send_packet_connected (p : P) : never task_open Disconnected (send_packet p : handler task Error unit).
Proof.
  intros t t' o Hopen Heq. destruct (sink_open_send _ p Hopen) as [Hok Hopen'].
  unfold send_packet, mbind, handler_bind, get, modify in Heq.
  destruct (sink_send (t_sender t) p) as [snd ok]. cbn in *. subst ok. by simplify_eq.
Qed.
Lemma send_connected : never task_open Disconnected (send : handler task Error unit).
Proof. unfold send, task_acquire, task_now, task_take_bytes. never_tac; apply send_packet_connected. Qed.
Lemma recv_packet_connected bytes : never task_open Disconnected (recv_packet bytes : handler task Error unit).
Proof.
  unfold recv_packet, recv_ack, recv_data, remote_window, take_acked, update_rtt, task_acquire, task_now.
  never_tac; first [apply send_connected|apply send_packet_connected].
Qed.

(** A packet does not end the task of an open sink. *)
Lemma incoming_connected (p : P) keys :
  never task_open Disconnected (iteration (IncomingPacket (Some p)) keys : handler task Error unit).
Proof.
  unfold iteration, task_update_available. never_tac; [apply recv_packet_connected|].
  unfold task_open, unstall. by case_match.
Qed.

(** The window keeps more than before once the next byte arrives and there is
    room for it. *)
Lemma recv_post_grows R st us w x e g w' :
  recv_post R st us w x e g w' -> x <= R < e ->
  zlen (contents (rw_ring w)) < zlen (contents (rw_ring w')).
Proof.
  intros (R' & st' & us' & Hrep & HR & Hc & _ & Hgot & _) Hx.
  assert (got R' us' R) as [?|Hcov]; [apply Hgot; by right|lia|].
  apply Exists_exists in Hcov as (r & Hr & ?). pose proof (rw_live _ _ _ _ _ Hrep) as Hlive.
  rewrite Forall_forall in Hlive. specialize (Hlive r Hr). lia.
Qed.

(** A packet of the peer's stream [Wp], from [a] to [e], that holds the next byte. *)
Definition next_packet (Wp : list Z) (R : Z) (p : P) : Prop :=
  exists a e, 0 <= a <= R /\ R < e /\ e <= zlen Wp /\ e - a <= i16_max /\
    deref p = data_bytes a (substream 0 Wp a e).

Lemma iteration_grows W Wp S rs R st us (t t' : task) p keys :
  side_inv W Wp S rs R st us t -> zlen Wp + capacity (rw_ring (t_recv_window t)) < u32_half ->
  0 < zlen (space (rw_ring (t_recv_window t))) -> next_packet Wp R p ->
  iteration_does 0 W S rs (byte_at Wp) R st us (IncomingPacket (Some p)) keys t t' ->
  zlen (contents (rw_ring (t_recv_window t))) < zlen (contents (rw_ring (t_recv_window t'))).
Proof.
  intros Hinv Hwindow Hroom (a & e & Ha & He & Hl & Hn & Hd) (t0 & t1 & Hq & -> & _ & Hpost).
  pose proof (side_lens _ _ _ _ _ _ _ _ Hinv) as Hlens. cbn zeta in Hlens. unfold i16_max in *.
  assert (t_recv_window (unstall t1) = t_recv_window t1) as -> by (unfold unstall; by case_match).
  pose proof (q_recv _ _ Hq) as Hr. unfold packet_post in Hpost. rewrite Hd in Hpost. unfold data_bytes in Hpost.
  assert (zlen (substream 0 Wp a e) = e - a) as Hs by (apply zlen_sub; lia).
  destruct (read_header (zlen (substream 0 Wp a e)) a (substream 0 Wp a e)) as (_ & Hh & Hp & Hb);
    [unfold is_i16, i16_min, i16_max in *; lia|].
  rewrite Hh, Hp, Hb, Hs, (proj2 (Z.ltb_ge _ _)) in Hpost by lia.
  destruct Hpost as (_ & _ & _ & Hpost). rewrite <- Hr in *.
  destruct Hpost as [(Heq & _)|(x & Heq & Hx & Hpost & _)]; [apply wrap_inj in Heq; lia|].
  apply wrap_inj in Heq; [subst x|lia]. eapply recv_post_grows; [exact Hpost|]. rewrite Hs. lia.
Qed.

(** The packet with the next byte arrives: more of the stream was received. *)
Lemma half_deliver s (b : side) Wp S rs R st us acked p keys :
  task_open (s_task b) -> half s b Wp S rs R st us acked -> (forall p, acked p -> p < zlen (s_written b)) ->
  zlen (s_written b) < u32_half -> zlen Wp + s_recv_window_size s < u32_half -> s_init_send s <> 0 ->
  0 < zlen (space (rw_ring (t_recv_window (s_task b)))) -> next_packet Wp R p ->
  exists b' S' rs' R' st' us', side_exec (Iterate (IncomingPacket (Some p)) keys) b = Val b' /\
    s_written b' = s_written b /\ task_open (s_task b') /\ half s b' Wp S' rs' R' st' us' acked /\
    (forall p, got R us p -> got R' us' p) /\ R < R'.
Proof.
  intros Hopen Hhalf Hacked HW HWp Hinit Hroom Hnext. pose proof (hf_running _ _ _ _ _ _ _ _ _ Hhalf) as Hrun.
  pose proof (hf_cap _ _ _ _ _ _ _ _ _ Hhalf) as Hcap. pose proof (hf_out _ _ _ _ _ _ _ _ _ Hhalf) as Hout.
  pose proof (hf_inv _ _ _ _ _ _ _ _ _ Hhalf) as Hinv.
  assert (forall q, IncomingPacket (Some p) = IncomingPacket (Some q) -> outgoing Wp acked (deref q)) as Hpeer.
  { intros q [= <-]. destruct Hnext as (x & e & ? & ? & ? & ? & ?). left. exists x, e. split_and!; done || lia. }
  pose proof (exec_iterate _ _ _ _ _ _ _ _ _ Hhalf (IncomingPacket (Some p)) keys Hacked HW HWp Hinit Hpeer) as Hstep.
  pose proof (iteration_ok 0 (s_written b) S rs (byte_at Wp) R st us (IncomingPacket (Some p)) keys (s_task b)) as Hit.
  assert (completes (iteration (IncomingPacket (Some p)) keys) (s_task b) (fun t' o =>
    match o with
    | inl _ => task_open t' /\
        zlen (contents (rw_ring (t_recv_window (s_task b)))) < zlen (contents (rw_ring (t_recv_window t')))
    | inr e => e <> Disconnected
    end)) as Hgrow.
  { apply completes_inv in Hit as (t' & o & Ho & Hit).
    - unfold completes. destruct (incoming_connected p keys _ _ _ Hopen Ho) as [Hopen' Hn].
      rewrite Ho. cbn. destruct o as [[]|e]; [split; [done|]|congruence].
      eapply iteration_grows; [exact Hinv|by rewrite Hcap|done|done|exact (proj1 Hit)].
    - apply Hinv.
    - eapply side_recv_inv; [exact Hinv|by rewrite Hcap].
    - apply Hinv.
    - by rewrite (hf_settings _ _ _ _ _ _ _ _ _ Hhalf).
    - intros q Hq _. by eapply outgoing_header, Hpeer. }
  unfold side_exec, run_task, completes, s_task in *. rewrite Hrun in *.
  destruct (iteration (IncomingPacket (Some p)) keys (rc_task (s_chan b))) as [[t' o]|]; [|done].
  cbn in *. destruct Hstep as [Hend|(X & S' & rs' & R' & st' & us' & HX & Hhalf' & Hgot)].
  { destruct o as [|e]; cbn in Hend; [done|]. congruence. }
  eexists. exists S', rs', R', st', us'. split; [done|]. split; [done|].
  pose proof (hf_running _ _ _ _ _ _ _ _ _ Hhalf') as Hrun'. cbn in Hrun'. destruct o as [[]|]; [|done].
  destruct Hgrow as [Hopen' Hgrow]. do 3 (split; [done|]).
  pose proof (hf_out _ _ _ _ _ _ _ _ _ Hhalf') as Hout'. unfold s_task in Hout'. cbn in *. lia.
Qed.

Lemma rc_read_sender (c c' : ReliableChannel T Instant P Pool Snd) buf buf' n :
  rc_read c buf = Val (c', buf', n) -> t_sender (rc_task c') = t_sender (rc_task c).
Proof. unfold rc_read. intros Hr. apply bind_val in Hr as ([[w b] k] & _ & Hr). by simplify_eq. Qed.

(** The user reads all that is ready: the window is as open as it can be. *)
Lemma half_read_all s (b : side) Wp S rs R st us acked :
  task_open (s_task b) -> half s b Wp S rs R st us acked ->
  exists buf b', side_exec (SideRead false buf) b = Val b' /\ s_written b' = s_written b /\
    task_open (s_task b') /\ half s b' Wp S rs R st us acked /\ zlen (s_read b') = R /\
    0 < zlen (space (rw_ring (t_recv_window (s_task b')))).
Proof.
  intros Hopen Hhalf. set (n := length (contents (rw_ring (t_recv_window (s_task b))))).
  destruct (half_read _ _ _ _ _ _ _ _ _ (replicate n 0) Hhalf) as (c & buf' & k & Hread & Hb' & Hc & _).
  assert (task_open (rc_task c)) as Hopen' by (unfold task_open; by rewrite (rc_read_sender _ _ _ _ _ Hread)).
  exists (replicate n 0). eexists. unfold side_exec, try_read.
  rewrite (hf_running _ _ _ _ _ _ _ _ _ Hhalf), Hread. cbn [mbind res_bind moved]. split; [done|].
  split; [done|]. split; [exact Hopen'|]. split; [exact Hb'|]. pose proof (hf_out _ _ _ _ _ _ _ _ _ Hb') as Hout. unfold s_task in *.
  pose proof (rw_lens _ _ _ _ _ (sd_recv _ _ _ _ _ _ _ _ (hf_inv _ _ _ _ _ _ _ _ _ Hb'))) as Hl.
  unfold s_task in Hl. cbn [s_chan s_read] in *. cbn zeta in Hl.
  assert (zlen (replicate n 0) = zlen (contents (rw_ring (t_recv_window (rc_task (s_chan b)))))) as Hn.
  { unfold zlen. by rewrite length_replicate. }
  lia.
Qed.

(** What is in the network brings the stream on: a packet with the next byte was sent. *)
Lemma deliver_next sa sb (a b : side) S rs R st us S2 rs2 R2 st2 us2 :
  half sa a (s_written b) S rs R st us (got R2 us2) -> half sb b (s_written a) S2 rs2 R2 st2 us2 (got R us) ->
  horizons sa sb a b -> s_init_send sb <> 0 -> task_open (s_task b) ->
  0 < zlen (space (rw_ring (t_recv_window (s_task b)))) -> R2 < S ->
  exists q b' S2' rs2' R2' st2' us2', let o := Iterate (IncomingPacket (Some q)) [] in
    delivered o a /\ side_exec o b = Val b' /\ s_written b' = s_written b /\ task_open (s_task b') /\
    half sa a (s_written b') S rs R st us (got R2' us2') /\ half sb b' (s_written a) S2' rs2' R2' st2' us2' (got R us) /\
    R2 < R2'.
Proof.
  intros Ha Hb [HA HB] Hinit Hopen Hroom HS. unfold horizon in *.
  pose proof (side_lens _ _ _ _ _ _ _ _ (hf_inv _ _ _ _ _ _ _ _ _ Ha)) as Hla.
  pose proof (side_lens _ _ _ _ _ _ _ _ (hf_inv _ _ _ _ _ _ _ _ _ Hb)) as Hlb. cbn zeta in Hla, Hlb.
  rewrite (hf_cap _ _ _ _ _ _ _ _ _ Ha) in Hla. rewrite (hf_cap _ _ _ _ _ _ _ _ _ Hb) in Hlb.
  pose proof (hf_carried _ _ _ _ _ _ _ _ _ Ha R2 ltac:(lia)) as Hcar. apply Exists_exists in Hcar
    as (ef & Hin & q & x & e & -> & ? & ? & ? & ? & Hd).
  destruct (half_deliver sb b (s_written a) S2 rs2 R2 st2 us2 (got R us) q [] Hopen Hb)
    as (b' & S2' & rs2' & R2' & st2' & us2' & Hx & Hw & Hopen' & Hb' & Hgot & HR); try done; try lia.
  { intros p. apply (sd_got _ _ _ _ _ _ _ _ (hf_inv _ _ _ _ _ _ _ _ _ Ha)). }
  { exists x, e. split_and!; done || lia. }
  exists q, b', S2', rs2', R2', st2', us2'. split; [by exists q|]. do 3 (split; [done|]).
  rewrite Hw, <- (app_nil_r (s_written b)). split; [by eapply half_peer|]. done.
Qed.

Section catch_up.
Context (sa sb : Settings) (a : side) (S : Z) (Hinit : s_init_send sb <> 0).
Context (Hall : S = zlen (s_written a)).

(** The packets in the network bring the other side to the end of the stream. *)
Lemma catch_up (k : nat) : forall (b : side) rs R st us S2 rs2 R2 st2 us2,
  task_open (s_task b) -> half sa a (s_written b) S rs R st us (got R2 us2) ->
  half sb b (s_written a) S2 rs2 R2 st2 us2 (got R us) -> horizons sa sb a b ->
  S - R2 <= Z.of_nat k ->
  exists b', rtc net_step (a, b) (a, b') /\ s_read b' = s_written a.
Proof.
  induction k as [|k IH]; intros b rs R st us S2 rs2 R2 st2 us2 Hopen Ha Hb Hh Hk.
  all: destruct (half_read_all _ _ _ _ _ _ _ _ _ Hopen Hb) as (buf & b1 & Hx1 & Hw1 & Hopen1 & Hb1 & Hr1 & Hroom).
  all: assert (net_step (a, b) (a, b1)) as Hstep1 by
    (apply (step_right a b (SideRead false buf) b1); [done|exact Hx1|by eapply hf_running]).
  all: assert (S <= R2 -> s_read b1 = s_written a) as Hdone by
    (intros ?; rewrite (hf_read _ _ _ _ _ _ _ _ _ Hb1); apply ztake_ge; lia).
  { exists b1. split; [by apply rtc_once|apply Hdone; lia]. }
  destruct (Z.le_gt_cases S R2) as [HS|HS]; [exists b1; split; [by apply rtc_once|by apply Hdone]|].
  rewrite <- Hw1 in Ha. assert (horizons sa sb a b1) as Hh1 by (unfold horizons, horizon in *; by rewrite Hw1).
  destruct (deliver_next sa sb a b1 S rs R st us S2 rs2 R2 st2 us2)
    as (q & b2 & S2' & rs2' & R2' & st2' & us2' & Hdel & Hx2 & Hw2 & Hopen2 & Ha2 & Hb2 & HR); try done.
  destruct (IH b2 rs R st us S2' rs2' R2' st2' us2') as (b' & Hsteps & Hread); [done..| |lia|].
  - unfold horizons, horizon in *. by rewrite Hw2.
  - exists b'. split; [|done]. eapply rtc_l; [exact Hstep1|]. eapply rtc_l; [|exact Hsteps].
    apply (step_right a b1 (Iterate (IncomingPacket (Some q)) []) b2); [done|exact Hx2|by eapply hf_running].
Qed.
End catch_up.

(** C5. What was sent can always still be received: in every state that a
    connection can reach, however much of it the network lost, repeated or
    reordered and the users read in part, once all that was written on a side
    was sent there are packets in the network and calls of the reader after
    which the other side has read the whole stream. The network's losses never
    leave the receiver in a state from which the stream cannot be completed. The
    receiver's sink is still open, and both streams are within the horizon. *)
Theorem connection_completes sa sb (a b : side) :
  sink_open (t_sender (s_task b)) -> connected sa sb a b -> send_available (t_send_window (s_task a)) = Val 0 ->
  exists b', rtc net_step (a, b) (a, b') /\ s_read b' = s_written a.
Proof.
  intros Hopen Hc Hsent.
  pose proof (connected_inv _ _ _ _ Hc) as (S & rs & R & st & us & S2 & rs2 & R2 & st2 & us2 & Ha & Hb).
  destruct Hc as (_ & Hsb & ? & ? & ? & ? & ? & ? & ? & ? & _ & _ & _ & _ & _ & Hh). pose proof (so_init _ Hsb).
  pose proof (si_window _ _ _ _ _ (sd_send _ _ _ _ _ _ _ _ (hf_inv _ _ _ _ _ _ _ _ _ Ha))) as Hw.
  rewrite (send_available_rep _ _ _ _ _ Hw) in Hsent. injection Hsent as Hsent.
  eapply (catch_up sa sb a S ltac:(lia) ltac:(lia) (Z.to_nat (S - R2))); [exact Hopen|exact Ha|exact Hb|done|lia].
Qed.
End delivery.

(** ** An example

    Two packets of three bytes were sent, and only the second has arrived. *)
Import Example.

Definition lossy_steps : list (bool * side_op BufferPacket) :=
  let data := Iterate (IncomingPacket (Some (example_packet [3; 0; 3; 0; 0; 0; 4; 5; 6]))) [] in
  [(true, SideWrite true [1; 2; 3]); (true, Iterate SendAvailable []);
   (true, SideWrite true [4; 5; 6]); (true, Iterate SendAvailable []); (false, data); (false, SideRead false [0])].

Definition lossy_net : option (side nat nat BufferPacket (BufferPacketPool bool) bool *
    side nat nat BufferPacket (BufferPacketPool bool) bool) :=
  match example_side with
  | Val a => net_run lossy_steps a a
  | Fault _ => None
  end.

Lemma lossy_observed :
  option_map (fun ab => (s_written ab.1, s_read ab.2, s_written ab.2, send_available (t_send_window (s_task ab.1)),
    t_sender (s_task ab.2))) lossy_net = Some ([1; 2; 3; 4; 5; 6], [], [], Val 0, true).
Proof. vm_compute. reflexivity. Qed.

Lemma lossy_run a b : lossy_net = Some (a, b) ->
  exists a0, example_side = Val a0 /\ net_run lossy_steps a0 a0 = Some (a, b).
Proof. unfold lossy_net. destruct example_side as [a0|]; [by exists a0|discriminate]. Qed.

Lemma lossy_connected : exists a b, connected Example.settings Example.settings a b /\
  lossy_net = Some (a, b) /\ s_written a = [1; 2; 3; 4; 5; 6] /\ s_read b = [] /\
  send_available (t_send_window (s_task a)) = Val 0 /\ t_sender (s_task b) = true.
Proof.
  pose proof lossy_observed as Hobs. destruct lossy_net as [[a b]|] eqn:E; [|discriminate Hobs].
  injection Hobs as Hw Hr Hw' Hn Hs. exists a, b.
  split; [|exact (conj eq_refl (conj Hw (conj Hr (conj Hn Hs))))].
  destruct (lossy_run a b E) as (a0 & Ha & Hrun). apply (connected_run a0 a b _ Ha Hrun).
  unfold horizons, horizon. rewrite Hw, Hw'. split; reflexivity.
Qed.

Lemma example_open : sink_open (P := BufferPacket) true.
Proof. intros ps. by induction ps as [|p ps IH]. Qed.

Lemma connection_completes_witness : exists a b b', lossy_net = Some (a, b) /\ s_read b = [] /\
  rtc net_step (a, b) (a, b') /\ s_read b' = [1; 2; 3; 4; 5; 6].
Proof.
  destruct lossy_connected as (a & b & Hc & E & Hw & Hr & Hn & Hs).
  assert (sink_open (P := BufferPacket) (t_sender (s_task b))) as Hopen.
  { rewrite Hs. exact example_open. }
  destruct (connection_completes _ _ a b Hopen Hc Hn) as (b' & Hsteps & Hread).
  exists a, b, b'. split; [exact E|]. split; [exact Hr|]. split; [exact Hsteps|].
  rewrite Hread. exact Hw.
Defined.
