(* ===== verification/Async.v ===== *)
(** What the asynchronous parts share: the waker cell [AtomicWaker] of the futures
    crate, as a type class with the behaviour its documentation promises; and
    handlers that are polled, which may return early because they are not ready. *)

From S2P Require Import Prelude Wire.

(** [AtomicWaker] holds the waker that was registered last, until it is woken:
    [wake] wakes it, if there is one, and empties the cell. Wakers are values of
    [K]; [aw_registered] is the one in the cell. *)
Class AtomicWaker (W K : Type) := {
  aw_new : W;
  aw_register : W -> K -> W;
  aw_wake : W -> W * option K;
}.

Class AtomicWakerLaws (W K : Type) `{AtomicWaker W K} := {
  aw_registered : W -> option K;
  aw_new_registered : aw_registered aw_new = None;
  aw_register_registered a w : aw_registered (aw_register a w) = Some w;
  aw_wake_woken a : (aw_wake a).2 = aw_registered a;
  aw_wake_registered a : aw_registered (aw_wake a).1 = None;
}.

(** A cell for the examples. *)
#[export] Instance option_waker {K} : AtomicWaker (option K) K := {|
  aw_new := None;
  aw_register _ w := Some w;
  aw_wake a := (None, a);
|}.
#[export] Instance option_waker_laws {K} : AtomicWakerLaws (option K) K.
Proof. by refine {| aw_registered a := a |}. Defined.

(** * Polled handlers *)

(** A function on [&mut self] that returns [Poll<Result<A, E>>]: it may leave with
    [Pending], as [ready!] does, or with an error, as [?] does; either way what it
    has done to the state stays done. *)
Definition polling (S E A : Type) : Type := handler S (option E) A.

Definition not_ready {S E A} : polling S E A := throw None.
Definition fail {S E A} (e : E) : polling S E A := throw (Some e).

(** [ready!(poll)?] *)
Definition ready {S E A} (p : Poll (A + E)) : polling S E A :=
  match p with
  | Pending => not_ready
  | Ready (inl a) => mret a
  | Ready (inr e) => fail e
  end.

(** The result of the call, as the caller sees it. *)
Definition polled {E A} (o : A + option E) : Poll (A + E) :=
  match o with
  | inl a => Ready (inl a)
  | inr None => Pending
  | inr (Some e) => Ready (inr e)
  end.

(** [map_err], as the conversion that [?] makes. *)
Definition map_err {S E E' A} (f : E -> E') (m : polling S E A) : polling S E' A := fun s =>
  match m s with
  | Val (s, inl a) => Val (s, inl a)
  | Val (s, inr e) => Val (s, inr (f <$> e))
  | Fault x => Fault x
  end.

(** A call on a field of the state. *)
Definition zoom {S S' E A} (get_field : S -> S') (set_field : S' -> S -> S) (m : handler S' E A)
    : handler S E A := fun s =>
  match m (get_field s) with
  | Val (s', o) => Val (set_field s' s, o)
  | Fault x => Fault x
  end.

(** A method that does not wait polls with a waker that does nothing: [None], or
    [false], when it would have to wait. *)
Definition try_poll {S E A} (m : polling S E A) : handler S E (option A) := fun s =>
  match m s with
  | Val (s, inl a) => Val (s, inl (Some a))
  | Val (s, inr None) => Val (s, inl None)
  | Val (s, inr (Some e)) => Val (s, inr e)
  | Fault x => Fault x
  end.
Definition try_ready {S E} (m : polling S E unit) : handler S E bool :=
  o ← try_poll m; mret (match o with Some _ => true | None => false end).

(** A [try_send] for a method that has to be ready before the message is taken. *)
Definition try_then {S E E1 E2} (f1 : E1 -> E) (f2 : E2 -> E) (is_ready : handler S E1 bool) (start : polling S E2 unit)
    : handler S E bool := fun s =>
  match is_ready s with
  | Val (s, inl true) =>
    match start s with
    | Val (s, inl _) => Val (s, inl true)
    | Val (s, inr (Some e)) => Val (s, inr (f2 e))
    | Val (s, inr None) => Val (s, inl false)
    | Fault x => Fault x
    end
  | Val (s, inl false) => Val (s, inl false)
  | Val (s, inr e) => Val (s, inr (f1 e))
  | Fault x => Fault x
  end.

Definition tried {E A} (o : A + option E) : option A + E :=
  match o with inl a => inl (Some a) | inr None => inl None | inr (Some e) => inr e end.

Lemma completes_try_poll {S E A} (m : polling S E A) s Q :
  completes m s (fun s' o => Q s' (tried o)) -> completes (try_poll m) s Q.
Proof. unfold completes, try_poll. by destruct (m s) as [[s' [a|[e|]]]|]. Qed.

Definition tried_ready {E} (o : unit + option E) : bool + E :=
  match o with inl _ => inl true | inr None => inl false | inr (Some e) => inr e end.

Lemma completes_try_ready {S E} (m : polling S E unit) s Q :
  completes m s (fun s' o => Q s' (tried_ready o)) -> completes (try_ready m) s Q.
Proof.
  intros H. apply completes_bind, completes_try_poll. eapply completes_mono; [exact H|].
  by intros s' [[]|[e|]].
Qed.

Lemma completes_try_then {S E E1 E2} (f1 : E1 -> E) (f2 : E2 -> E) (is_ready : handler S E1 bool) (start : polling S E2 unit) s Q :
  completes is_ready s (fun s' o =>
    match o with
    | inl true => completes start s' (fun s2 o => Q s2 match o with inl _ => inl true | inr None => inl false | inr (Some e) => inr (f2 e) end)
    | inl false => Q s' (inl false)
    | inr e => Q s' (inr (f1 e))
    end) -> completes (try_then f1 f2 is_ready start) s Q.
Proof.
  unfold completes, try_then. destruct (is_ready s) as [[s' [[]|e]]|]; cbn [returns]; try done.
  by destruct (start s') as [[s2 [[]|[e|]]]|].
Qed.

(** * Futures *)

(** The future of an [async fn] on [&mut self] whose only await point is a polled
    method has no state of its own: polling it is the method, followed by the rest of
    the body once this is ready. [awaits env m s s' r]: between being made in [s] and
    being gone in [s'] the future is polled with any wakers, while [env] changes the
    state between two polls; it has resolved to [r], or was dropped before. *)
Inductive awaits {S K E A} (env : S -> S -> Prop) (m : K -> polling S E A) : S -> S -> option (A + E) -> Prop :=
| awaits_dropped s : awaits env m s s None
| awaits_resolved w s s' o r : m w s = Val (s', o) -> polled o = Ready r -> awaits env m s s' (Some r)
| awaits_pending w s s1 s2 s' r : m w s = Val (s1, inr None) -> env s1 s2 -> awaits env m s2 s' r -> awaits env m s s' r.

(** What a pending poll and the environment keep holds when the future is dropped. *)
Lemma awaits_ok {S K E A} (env : S -> S -> Prop) (m : K -> polling S E A) (I : S -> Prop) (Q : S -> A + E -> Prop) :
  (forall w s, I s -> completes (m w) s (fun s' o =>
    match o with inl a => Q s' (inl a) | inr None => I s' | inr (Some e) => Q s' (inr e) end)) ->
  (forall s s', I s -> env s s' -> I s') ->
  forall s s' r, awaits env m s s' r -> I s -> match r with None => I s' | Some r => Q s' r end.
Proof.
  intros Hm Henv s s' r Ha. induction Ha as [s|w s s' o r Hs Hr|w s s1 s2 s' r Hs He Ha IH]; intros HI; [done| |].
  - pose proof (Hm w s HI) as H. unfold completes in H. rewrite Hs in H. by destruct o as [a|[e|]]; cbn in Hr; simplify_eq.
  - apply IH. eapply Henv, He. pose proof (Hm w s HI) as H. unfold completes in H. by rewrite Hs in H.
Qed.

Lemma completes_map_err {S E E' A} (f : E -> E') (m : polling S E A) s Q :
  completes m s (fun s' o => Q s' match o with inl a => inl a | inr e => inr (f <$> e) end) ->
  completes (map_err f m) s Q.
Proof. unfold completes, map_err. by destruct (m s) as [[s' [a|e]]|]. Qed.

Lemma completes_zoom {S S' E A} (gf : S -> S') (sf : S' -> S -> S) (m : handler S' E A) s Q :
  completes m (gf s) (fun s' o => Q (sf s' s) o) -> completes (zoom gf sf m) s Q.
Proof. unfold completes, zoom. by destruct (m (gf s)) as [[s' o]|]. Qed.

(** A relation between the states before and after a handler, whatever it does. *)
Definition preserves {S E A} (R : S -> S -> Prop) (m : handler S E A) : Prop :=
  forall s s' o, m s = Val (s', o) -> R s s'.

Section preserves.
Context {S E : Type} {R : S -> S -> Prop} {HR : PreOrder R}.

Lemma preserves_ret {A} (a : A) : preserves R (mret a : handler S E A).
Proof. by intros s s' o [= <- <-]. Qed.
Lemma preserves_get : preserves R (get : handler S E S).
Proof. by intros s s' o [= <- <-]. Qed.
Lemma preserves_throw {A} (e : E) : preserves R (throw e : handler S E A).
Proof. by intros s s' o [= <- <-]. Qed.
Lemma preserves_lift {A} (m : res A) : preserves R (lift m : handler S E A).
Proof. intros s s' o H. unfold lift in H. destruct m; by simplify_eq. Qed.
Lemma preserves_modify f : (forall s, R s (f s)) -> preserves R (modify f : handler S E unit).
Proof. intros Hf s s' o [= <- <-]. apply Hf. Qed.
Lemma preserves_bind {A B} (m : handler S E A) (k : A -> handler S E B) :
  preserves R m -> (forall a, preserves R (k a)) -> preserves R (m ≫= k).
Proof.
  intros Hm Hk s s' o H. unfold mbind, handler_bind in H. destruct (m s) as [[s1 [a|e]]|] eqn:E1; [| |done].
  - etrans; [by eapply Hm|by eapply Hk].
  - simplify_eq. by eapply Hm.
Qed.
Lemma preserves_zoom {S' A} (gf : S -> S') (sf : S' -> S -> S) (m : handler S' E A) (R' : S' -> S' -> Prop) :
  preserves R' m -> (forall s s', R' (gf s) s' -> R s (sf s' s)) -> preserves R (zoom gf sf m).
Proof.
  intros Hm Hz s s' o H. unfold zoom in H. destruct (m (gf s)) as [[s1 o1]|] eqn:E1; [|done].
  injection H as <- <-. by eapply Hz, Hm.
Qed.
End preserves.

Lemma preserves_map_err {S E E' A} (R : S -> S -> Prop) (f : E -> E') (m : polling S E A) :
  preserves R m -> preserves R (map_err f m).
Proof.
  intros Hm s s' o H. unfold map_err in H. destruct (m s) as [[s1 [a|e]]|] eqn:E1; simplify_eq; by eapply Hm.
Qed.

(** Goes through a handler; what is left are the modifications and calls. *)
Ltac preserves_step :=
  lazymatch goal with
  | |- preserves _ (_ ≫= _) => apply preserves_bind; [|intros ?]
  | |- preserves _ get => apply preserves_get
  | |- preserves _ (mret _) => apply preserves_ret
  | |- preserves _ (throw _) => apply preserves_throw
  | |- preserves _ (fail _) => apply preserves_throw
  | |- preserves _ (lift _) => apply preserves_lift
  | |- preserves _ (map_err _ _) => apply preserves_map_err
  | |- preserves _ (match _ with _ => _ end) => case_match
  end.
Ltac preserves_tac := repeat preserves_step.

(** Steps of a proof about a handler. *)
Ltac wp_step :=
  lazymatch goal with
  | |- completes (_ ≫= _) _ _ => apply completes_bind
  | |- completes get _ _ => apply completes_get
  | |- completes (mret _) _ _ => apply completes_ret
  | |- completes (throw _) _ _ => apply completes_throw
  | |- completes (modify _) _ _ => apply completes_modify
  | |- completes (lift (Val _)) _ _ => apply completes_lift; cbn [returns]
  end; cbn beta iota.
