(* ===== verification/Spsc.v ===== *)
(** The async single-producer single-consumer channel of spsc.rs: a bounded queue
    of crossbeam and two waker cells. The methods of [Sender] and [Receiver] are
    programs over the atomic steps they take on what the two ends share, so that
    the ends can be interleaved step by step. *)

From stdpp Require Import relations.
From S2P Require Import Prelude Async.

(** * The bounded queue of crossbeam *)

Inductive TrySendError (A : Type) :=
| TrySendError_Full (t : A)
| TrySendError_Disconnected (t : A).
Arguments TrySendError_Full {A} _.
Arguments TrySendError_Disconnected {A} _.

Inductive TryRecvError := TryRecvError_Empty | TryRecvError_Disconnected.

Class Crossbeam (Q A : Type) := {
  cb_bounded : Z -> Q;
  cb_try_send : Q -> A -> Q * (unit + TrySendError A);
  cb_try_recv : Q -> Q * (A + TryRecvError);
  cb_drop_sender : Q -> Q;
  cb_drop_receiver : Q -> Q;
}.

(** A queue of at most [cb_cap] items between two ends that are alive or dropped.
    Sending fails when the receiver is gone, receiving when the sender is gone and
    nothing is left. *)
Class CrossbeamLaws (Q A : Type) `{Crossbeam Q A} := {
  cb_cap : Q -> Z;
  cb_items : Q -> list A;
  cb_sender : Q -> bool;
  cb_receiver : Q -> bool;
  cb_bounded_ok n : cb_cap (cb_bounded n) = n /\ cb_items (cb_bounded n) = [] /\
    cb_sender (cb_bounded n) = true /\ cb_receiver (cb_bounded n) = true;
  cb_try_send_ok q t : let q' := (cb_try_send q t).1 in
    cb_cap q' = cb_cap q /\ cb_sender q' = cb_sender q /\ cb_receiver q' = cb_receiver q /\
    if cb_receiver q then
      if zlen (cb_items q) <? cb_cap q
      then (cb_try_send q t).2 = inl tt /\ cb_items q' = cb_items q ++ [t]
      else (cb_try_send q t).2 = inr (TrySendError_Full t) /\ cb_items q' = cb_items q
    else (cb_try_send q t).2 = inr (TrySendError_Disconnected t) /\ cb_items q' = cb_items q;
  cb_try_recv_ok q : let q' := (cb_try_recv q).1 in
    cb_cap q' = cb_cap q /\ cb_sender q' = cb_sender q /\ cb_receiver q' = cb_receiver q /\
    match cb_items q with
    | t :: ts => (cb_try_recv q).2 = inl t /\ cb_items q' = ts
    | [] => (cb_try_recv q).2 = inr (if cb_sender q then TryRecvError_Empty else TryRecvError_Disconnected) /\
        cb_items q' = []
    end;
  cb_drop_sender_ok q : let q' := cb_drop_sender q in
    cb_cap q' = cb_cap q /\ cb_items q' = cb_items q /\ cb_sender q' = false /\ cb_receiver q' = cb_receiver q;
  cb_drop_receiver_ok q : let q' := cb_drop_receiver q in
    cb_cap q' = cb_cap q /\ cb_sender q' = cb_sender q /\ cb_receiver q' = false;
}.

(** * The two ends *)

(** [spsc::Disconnected] *)
Inductive Disconnected := mkDisconnected.

Section spsc.
Context {Q A W K : Type} {CB : Crossbeam Q A} {AW : AtomicWaker W K}.

(** What the ends share: the queue and the cells [send_ready] and [recv_ready];
    and, for the specification, the wakers that each cell woke since one was last
    registered in it. *)
Record Shared := mkShared {
  channel_ : Q;
  send_ready : W;
  recv_ready : W;
  send_woken : list K;
  recv_woken : list K;
}.

(** Programs of the sender: its atomic steps on the shared state. *)
Inductive snd_prog (R : Type) :=
| SRet (r : R)
| ChannelTrySend (t : A) (k : unit + TrySendError A -> snd_prog R)
| WakeRecvReady (k : snd_prog R)
| RegisterSendReady (w : K) (k : snd_prog R)
| DropChannelSender (k : snd_prog R).
#[global] Arguments SRet {R} _.
#[global] Arguments ChannelTrySend {R} _ _.
#[global] Arguments WakeRecvReady {R} _.
#[global] Arguments RegisterSendReady {R} _ _.
#[global] Arguments DropChannelSender {R} _.

Fixpoint snd_bind {R R'} (f : R -> snd_prog R') (p : snd_prog R) : snd_prog R' :=
  match p with
  | SRet r => f r
  | ChannelTrySend t k => ChannelTrySend t (fun a => snd_bind f (k a))
  | WakeRecvReady k => WakeRecvReady (snd_bind f k)
  | RegisterSendReady w k => RegisterSendReady w (snd_bind f k)
  | DropChannelSender k => DropChannelSender (snd_bind f k)
  end.
#[export] Instance snd_mret : MRet snd_prog := fun R r => SRet r.
#[export] Instance snd_mbind : MBind snd_prog := fun R R' f p => snd_bind f p.

(** ... and of the receiver. *)
Inductive rcv_prog (R : Type) :=
| RRet (r : R)
| ChannelTryRecv (k : A + TryRecvError -> rcv_prog R)
| WakeSendReady (k : rcv_prog R)
| RegisterRecvReady (w : K) (k : rcv_prog R)
| DropChannelReceiver (k : rcv_prog R).
#[global] Arguments RRet {R} _.
#[global] Arguments ChannelTryRecv {R} _.
#[global] Arguments WakeSendReady {R} _.
#[global] Arguments RegisterRecvReady {R} _ _.
#[global] Arguments DropChannelReceiver {R} _.

Fixpoint rcv_bind {R R'} (f : R -> rcv_prog R') (p : rcv_prog R) : rcv_prog R' :=
  match p with
  | RRet r => f r
  | ChannelTryRecv k => ChannelTryRecv (fun a => rcv_bind f (k a))
  | WakeSendReady k => WakeSendReady (rcv_bind f k)
  | RegisterRecvReady w k => RegisterRecvReady w (rcv_bind f k)
  | DropChannelReceiver k => DropChannelReceiver (rcv_bind f k)
  end.
#[export] Instance rcv_mret : MRet rcv_prog := fun R r => RRet r.
#[export] Instance rcv_mbind : MBind rcv_prog := fun R R' f p => rcv_bind f p.

(** ** [Sender], whose own state is its slot *)

Definition Sender_try_send (slot : option A) (t : A)
    : snd_prog (option A * (unit + TrySendError A)) :=
  let send_t slot :=
    r ← ChannelTrySend t SRet;
    match r with
    | inr e => mret (slot, inr e)
    | inl _ => _ ← WakeRecvReady (SRet tt); mret (slot, inl tt)
    end in
  match slot with
  | Some prev =>
    r ← ChannelTrySend prev SRet;
    match r with
    | inr (TrySendError_Full inner) => mret (Some inner, inr (TrySendError_Full t))
    | inr (TrySendError_Disconnected inner) => mret (Some inner, inr (TrySendError_Disconnected t))
    | inl _ => _ ← WakeRecvReady (SRet tt); send_t None
    end
  | None => send_t None
  end.

Definition Sender_poll_ready (slot : option A) (w : K)
    : snd_prog (option A * Poll (unit + Disconnected)) :=
  match slot with
  | Some t =>
    '(slot, r) ← Sender_try_send None t;
    match r with
    | inl _ => mret (slot, Ready (inl tt))
    | inr (TrySendError_Disconnected _) => mret (slot, Ready (inr mkDisconnected))
    | inr (TrySendError_Full t) =>
      _ ← RegisterSendReady w (SRet tt);
      '(slot, r) ← Sender_try_send slot t;
      match r with
      | inl _ => mret (slot, Ready (inl tt))
      | inr (TrySendError_Disconnected _) => mret (slot, Ready (inr mkDisconnected))
      | inr (TrySendError_Full t) => mret (Some t, Pending)
      end
    end
  | None => mret (None, Ready (inl tt))
  end.

Definition Sender_start_send (slot : option A) (item : A) : res (option A) :=
  match slot with Some _ => Fault AssertFailed | None => Val (Some item) end.

Definition Sender_poll_flush (slot : option A) (w : K) := Sender_poll_ready slot w.
Definition Sender_poll_close (slot : option A) (w : K) := Sender_poll_flush slot w.

(** The waker is woken before the channel is dropped. *)
Definition Sender_drop : snd_prog unit :=
  _ ← WakeRecvReady (SRet tt); DropChannelSender (SRet tt).

(** ** [Receiver] *)

Definition Receiver_try_recv : rcv_prog (A + TryRecvError) :=
  r ← ChannelTryRecv RRet;
  match r with
  | inr e => mret (inr e)
  | inl t => _ ← WakeSendReady (RRet tt); mret (inl t)
  end.

Definition Receiver_poll_next (w : K) : rcv_prog (Poll (option A)) :=
  r ← Receiver_try_recv;
  match r with
  | inl r => mret (Ready (Some r))
  | inr TryRecvError_Disconnected => mret (Ready None)
  | inr TryRecvError_Empty =>
    _ ← RegisterRecvReady w (RRet tt);
    r ← Receiver_try_recv;
    match r with
    | inl r => mret (Ready (Some r))
    | inr TryRecvError_Disconnected => mret (Ready None)
    | inr TryRecvError_Empty => mret Pending
    end
  end.

Definition Receiver_drop : rcv_prog unit :=
  _ ← WakeSendReady (RRet tt); DropChannelReceiver (RRet tt).

(** * Execution *)

Definition set_channel q (s : Shared) : Shared :=
  mkShared q (send_ready s) (recv_ready s) (send_woken s) (recv_woken s).
Definition wake_send_ready (s : Shared) : Shared :=
  let (a, o) := aw_wake (send_ready s) in
  mkShared (channel_ s) a (recv_ready s) (send_woken s ++ option_list o) (recv_woken s).
Definition wake_recv_ready (s : Shared) : Shared :=
  let (a, o) := aw_wake (recv_ready s) in
  mkShared (channel_ s) (send_ready s) a (send_woken s) (recv_woken s ++ option_list o).
Definition register_send_ready w (s : Shared) : Shared :=
  mkShared (channel_ s) (aw_register (send_ready s) w) (recv_ready s) [] (recv_woken s).
Definition register_recv_ready w (s : Shared) : Shared :=
  mkShared (channel_ s) (send_ready s) (aw_register (recv_ready s) w) (send_woken s) [].

(** The next atomic step of a program. *)
Definition snd_step {R} (p : snd_prog R) (s : Shared) : Shared * snd_prog R :=
  match p with
  | SRet r => (s, SRet r)
  | ChannelTrySend t k => let (q, a) := cb_try_send (channel_ s) t in (set_channel q s, k a)
  | WakeRecvReady k => (wake_recv_ready s, k)
  | RegisterSendReady w k => (register_send_ready w s, k)
  | DropChannelSender k => (set_channel (cb_drop_sender (channel_ s)) s, k)
  end.
Definition rcv_step {R} (p : rcv_prog R) (s : Shared) : Shared * rcv_prog R :=
  match p with
  | RRet r => (s, RRet r)
  | ChannelTryRecv k => let (q, a) := cb_try_recv (channel_ s) in (set_channel q s, k a)
  | WakeSendReady k => (wake_send_ready s, k)
  | RegisterRecvReady w k => (register_recv_ready w s, k)
  | DropChannelReceiver k => (set_channel (cb_drop_receiver (channel_ s)) s, k)
  end.

(** A program run to its end with no step of the other side between. *)
Fixpoint snd_run {R} (p : snd_prog R) (s : Shared) : Shared * R :=
  match p with
  | SRet r => (s, r)
  | ChannelTrySend t k => let (q, a) := cb_try_send (channel_ s) t in snd_run (k a) (set_channel q s)
  | WakeRecvReady k => snd_run k (wake_recv_ready s)
  | RegisterSendReady w k => snd_run k (register_send_ready w s)
  | DropChannelSender k => snd_run k (set_channel (cb_drop_sender (channel_ s)) s)
  end.
Fixpoint rcv_run {R} (p : rcv_prog R) (s : Shared) : Shared * R :=
  match p with
  | RRet r => (s, r)
  | ChannelTryRecv k => let (q, a) := cb_try_recv (channel_ s) in rcv_run (k a) (set_channel q s)
  | WakeSendReady k => rcv_run k (wake_send_ready s)
  | RegisterRecvReady w k => rcv_run k (register_recv_ready w s)
  | DropChannelReceiver k => rcv_run k (set_channel (cb_drop_receiver (channel_ s)) s)
  end.

(** [channel(capacity)] *)
Definition channel (capacity : Z) : Shared * option A :=
  (mkShared (cb_bounded capacity) aw_new aw_new [] [], None).
End spsc.

Arguments Shared Q W K : clear implicits.
Arguments snd_prog A K R : clear implicits.
Arguments rcv_prog A K R : clear implicits.

(** * The methods run alone *)

Section runs.
Context {Q A W K : Type} {CB : Crossbeam Q A} {CL : CrossbeamLaws Q A} {AW : AtomicWaker W K}.

(** What the sender's steps never change. *)
Definition same_queue (s s' : Shared Q W K) : Prop :=
  cb_cap (channel_ s') = cb_cap (channel_ s) /\ cb_sender (channel_ s') = cb_sender (channel_ s) /\
  cb_receiver (channel_ s') = cb_receiver (channel_ s).

Lemma same_queue_refl s : same_queue s s.
Proof. done. Qed.
Lemma same_queue_trans s1 s2 s3 : same_queue s1 s2 -> same_queue s2 s3 -> same_queue s1 s3.
Proof. unfold same_queue. intuition congruence. Qed.

Lemma wake_recv_channel (s : Shared Q W K) : channel_ (wake_recv_ready s) = channel_ s.
Proof. unfold wake_recv_ready. by destruct (aw_wake (recv_ready s)). Qed.
Lemma wake_send_channel (s : Shared Q W K) : channel_ (wake_send_ready s) = channel_ s.
Proof. unfold wake_send_ready. by destruct (aw_wake (send_ready s)). Qed.

(** [try_send] with an empty slot is the queue's, with a wakeup. *)
Lemma try_send_run (t : A) (s : Shared Q W K) :
  exists s', snd_run (Sender_try_send None t) s = (s', (None, (cb_try_send (channel_ s) t).2)) /\
    channel_ s' = (cb_try_send (channel_ s) t).1.
Proof.
  unfold Sender_try_send. cbn. destruct (cb_try_send (channel_ s) t) as [q [[]|e]]; cbn.
  - eexists. split; [done|]. by rewrite wake_recv_channel.
  - by eexists.
Qed.

(** [poll_ready] hands the item of the slot to the queue, if there is one and the
    queue has room, and else keeps it and waits. *)
Lemma poll_ready_run (slot : option A) (w : K) (s : Shared Q W K) :
  exists s' slot' r, snd_run (Sender_poll_ready slot w) s = (s', (slot', r)) /\ same_queue s s' /\
    match r with
    | Ready (inl _) => slot' = None /\ cb_items (channel_ s') = cb_items (channel_ s) ++ option_list slot /\
        (slot <> None -> cb_receiver (channel_ s) = true /\ zlen (cb_items (channel_ s)) < cb_cap (channel_ s))
    | Ready (inr _) => cb_receiver (channel_ s) = false /\ slot <> None /\ slot' = None /\
        cb_items (channel_ s') = cb_items (channel_ s)
    | Pending => slot' = slot /\ slot <> None /\ cb_items (channel_ s') = cb_items (channel_ s) /\
        cb_receiver (channel_ s) = true /\ cb_cap (channel_ s) <= zlen (cb_items (channel_ s))
    end.
Proof.
  unfold Sender_poll_ready. destruct slot as [t|]; [|by eexists s, None, _; cbn; rewrite app_nil_r].
  unfold Sender_try_send. cbn. pose proof (cb_try_send_ok (channel_ s) t) as (Hc & Hsd & Hr & H). cbn zeta in H.
  destruct (cb_try_send (channel_ s) t) as [q a] eqn:E1. cbn in *.
  destruct (cb_receiver (channel_ s)) eqn:Er; cycle 1.
  { destruct H as [-> Hi]. cbn. eexists _, _, _. split; [done|]. unfold same_queue. cbn. by rewrite Er. }
  destruct (Z.ltb_spec (zlen (cb_items (channel_ s))) (cb_cap (channel_ s))); destruct H as [-> Hi]; cbn.
  { eexists _, _, _. split; [done|]. unfold same_queue. rewrite wake_recv_channel. cbn. by rewrite Er. }
  pose proof (cb_try_send_ok q t) as (Hc2 & Hsd2 & Hr2 & H2). cbn zeta in H2.
  rewrite Hr, Hi, Hc in H2. rewrite (proj2 (Z.ltb_ge _ _)) in H2 by done. destruct H2 as [Ha2 Hi2].
  destruct (cb_try_send q t) as [q2 a2] eqn:E2. cbn in *. subst a2. cbn.
  eexists _, _, _. split; [done|]. unfold same_queue. cbn. rewrite Er. split_and!; try done; congruence.
Qed.

(** [poll_next] takes the first item, reports the end of the stream, or waits. *)
Lemma poll_next_run (w : K) (s : Shared Q W K) :
  exists s' r, rcv_run (Receiver_poll_next w) s = (s', r) /\ same_queue s s' /\
    match cb_items (channel_ s) with
    | t :: ts => r = Ready (Some t) /\ cb_items (channel_ s') = ts
    | [] => r = (if cb_sender (channel_ s) then Pending else Ready None) /\ cb_items (channel_ s') = []
    end.
Proof.
  unfold Receiver_poll_next, Receiver_try_recv. cbn.
  pose proof (cb_try_recv_ok (channel_ s)) as (Hc & Hsd & Hr & H). cbn zeta in H.
  destruct (cb_try_recv (channel_ s)) as [q a] eqn:E1. cbn in *.
  destruct (cb_items (channel_ s)) as [|t ts]; destruct H as [-> Hi]; cbn; cycle 1.
  { eexists _, _. split; [done|]. unfold same_queue. rewrite wake_send_channel. by cbn. }
  destruct (cb_sender (channel_ s)) eqn:Es; cbn; [|by eexists _, _; split; [done|]; unfold same_queue; cbn; rewrite Es].
  pose proof (cb_try_recv_ok q) as (Hc2 & Hsd2 & Hr2 & H2). cbn zeta in H2. rewrite Hi, Hsd in H2.
  destruct H2 as [Ha2 Hi2]. destruct (cb_try_recv q) as [q2 a2]. cbn in *. subst a2. cbn.
  eexists _, _. split; [done|]. unfold same_queue. cbn. rewrite Es. split_and!; try done; congruence.
Qed.

Lemma try_recv_run (s : Shared Q W K) :
  exists s' r, rcv_run Receiver_try_recv s = (s', r) /\ same_queue s s' /\
    match cb_items (channel_ s) with
    | t :: ts => r = inl t /\ cb_items (channel_ s') = ts
    | [] => r = inr (if cb_sender (channel_ s) then TryRecvError_Empty else TryRecvError_Disconnected) /\
        cb_items (channel_ s') = []
    end.
Proof.
  unfold Receiver_try_recv. cbn. pose proof (cb_try_recv_ok (channel_ s)) as (Hc & Hsd & Hr & H). cbn zeta in H.
  destruct (cb_try_recv (channel_ s)) as [q a] eqn:E1. cbn in *.
  destruct (cb_items (channel_ s)) as [|t ts]; destruct H as [-> Hi]; cbn; eexists _, _; (split; [done|]);
    unfold same_queue; rewrite ?wake_send_channel; by cbn.
Qed.

(** What was queued or in the slot stays in its order, and the message follows if it
    was sent. *)
Lemma try_send_slot_run (slot : option A) (t : A) (s : Shared Q W K) :
  exists s' slot' r, snd_run (Sender_try_send slot t) s = (s', (slot', r)) /\ same_queue s s' /\
    cb_items (channel_ s') ++ option_list slot' = (cb_items (channel_ s) ++ option_list slot) ++
      match r with inl _ => [t] | inr _ => [] end /\
    match r with
    | inl _ | inr (TrySendError_Full _) => cb_receiver (channel_ s) = true
    | inr (TrySendError_Disconnected _) => cb_receiver (channel_ s) = false
    end /\
    match r with inl _ => slot' = None | inr (TrySendError_Full u) | inr (TrySendError_Disconnected u) => u = t end /\
    (slot = None -> slot' = None).
Proof.
  assert (forall (s : Shared Q W K), exists s' r, snd_run (Sender_try_send None t) s = (s', (None, r)) /\ same_queue s s' /\
    cb_items (channel_ s') = cb_items (channel_ s) ++ match r with inl _ => [t] | inr _ => [] end /\
    match r with
    | inl _ | inr (TrySendError_Full _) => cb_receiver (channel_ s) = true
    | inr (TrySendError_Disconnected _) => cb_receiver (channel_ s) = false
    end /\
    match r with inl _ => True | inr (TrySendError_Full u) | inr (TrySendError_Disconnected u) => u = t end) as Hnone.
  { intros s0. destruct (try_send_run t s0) as (s' & -> & Hs'). exists s', (cb_try_send (channel_ s0) t).2. split; [done|].
    pose proof (cb_try_send_ok (channel_ s0) t) as (Hc & Hsd & Hr & H). cbn zeta in *. unfold same_queue. rewrite Hs'.
    split; [done|]. destruct (cb_receiver (channel_ s0)); [destruct (zlen (cb_items (channel_ s0)) <? cb_cap (channel_ s0))|];
      destruct H as [-> ->]; rewrite ?app_nil_r; done. }
  destruct slot as [prev|].
  2: { destruct (Hnone s) as (s' & r & H1 & H2 & H3 & H4 & H5). exists s', None, r. split; [done|]. split; [done|].
       cbn [option_list]. rewrite !app_nil_r. split; [done|]. split; [done|]. by destruct r. }
  unfold Sender_try_send. cbn [snd_run snd_bind mbind snd_mbind].
  pose proof (cb_try_send_ok (channel_ s) prev) as (Hc & Hsd & Hr & H). cbn zeta in H.
  destruct (cb_try_send (channel_ s) prev) as [q a] eqn:E1. cbn [fst snd] in *.
  destruct (cb_receiver (channel_ s)) eqn:Er.
  2: { destruct H as [-> Hi]. eexists _, _, _. split; [done|]. cbn. rewrite Hi, app_nil_r. unfold same_queue. cbn. by rewrite Er. }
  destruct (zlen (cb_items (channel_ s)) <? cb_cap (channel_ s)); destruct H as [-> Hi].
  2: { eexists _, _, _. split; [done|]. cbn. rewrite Hi, app_nil_r. unfold same_queue. cbn. by rewrite Er. }
  destruct (Hnone (wake_recv_ready (set_channel q s))) as (s' & r & H1 & H2 & H3 & H4 & H5).
  exists s', None, r. unfold Sender_try_send in H1. cbn [snd_run snd_bind mbind snd_mbind] in H1 |- *.
  split; [exact H1|]. unfold same_queue in *. rewrite wake_recv_channel in *. cbn in *. rewrite Hc, Hsd, Hr in *. rewrite Er in *.
  split; [done|]. rewrite H3, Hi, app_nil_r. split; [done|]. split; [done|]. by destruct r.
Qed.
End runs.
