(* ===== verification/SpscSafety.v ===== *)
(** What the spsc channel guarantees when its two ends are interleaved step by
    step: the items arrive in order and none is lost, and no end sleeps through an
    item or a free place. The exception is the drop of an end, which wakes the
    other before it disconnects the queue. *)

From stdpp Require Import relations.
From S2P Require Import Prelude Async Spsc.

(** * The two ends, interleaved *)

Section system.
Context {Q A W K : Type} {CB : Crossbeam Q A} {AW : AtomicWaker W K}.

Inductive sender_call :=
| CallTrySend (t : A)
| CallPollReady (w : K)
| CallStartSend (t : A)
| CallSenderDrop.
Inductive sender_result :=
| RTrySend (r : unit + TrySendError A)
| RPollReady (w : K) (r : Poll (unit + Disconnected))
| RStartSend
| RSenderDrop.

Inductive receiver_call :=
| CallTryRecv
| CallPollNext (w : K)
| CallReceiverDrop.
Inductive receiver_result :=
| RTryRecv (r : A + TryRecvError)
| RPollNext (w : K) (r : Poll (option A))
| RReceiverDrop.

(** [None] when the call panics. *)
Definition sender_prog (slot : option A) (c : sender_call)
    : option (snd_prog A K (option A * sender_result)) :=
  match c with
  | CallTrySend t => Some ('(slot, r) ← Sender_try_send slot t; mret (slot, RTrySend r))
  | CallPollReady w => Some ('(slot, r) ← Sender_poll_ready slot w; mret (slot, RPollReady w r))
  | CallStartSend t =>
    match Sender_start_send slot t with
    | Val slot => Some (mret (slot, RStartSend))
    | Fault _ => None
    end
  | CallSenderDrop => Some (_ ← Sender_drop; mret (slot, RSenderDrop))
  end.

Definition receiver_prog (c : receiver_call) : rcv_prog A K receiver_result :=
  match c with
  | CallTryRecv => r ← Receiver_try_recv; mret (RTryRecv r)
  | CallPollNext w => r ← Receiver_poll_next w; mret (RPollNext w r)
  | CallReceiverDrop => _ ← Receiver_drop; mret RReceiverDrop
  end.

(** An end between two calls, with the waker its last poll left waiting; in a
    call; or dropped. *)
Inductive sender_state :=
| SIdle (slot : option A) (pending : option K)
| SBusy (p : snd_prog A K (option A * sender_result))
| SGone (slot : option A).
Inductive receiver_state :=
| RIdle (pending : option K)
| RBusy (p : rcv_prog A K receiver_result)
| RGone.

(** The items given to a call, those an error gives back, those received. *)
Definition given (c : sender_call) : list A :=
  match c with CallTrySend t | CallStartSend t => [t] | _ => [] end.
Definition given_up (r : sender_result) : nat :=
  match r with RTrySend (inr _) | RPollReady _ (Ready (inr _)) => 1 | _ => 0 end.
Definition got (r : receiver_result) : list A :=
  match r with RTryRecv (inl t) | RPollNext _ (Ready (Some t)) => [t] | _ => [] end.

Definition after_send (slot : option A) (r : sender_result) : sender_state :=
  match r with
  | RSenderDrop => SGone slot
  | RPollReady w Pending => SIdle slot (Some w)
  | _ => SIdle slot None
  end.
Definition after_recv (r : receiver_result) : receiver_state :=
  match r with
  | RReceiverDrop => RGone
  | RPollNext w Pending => RIdle (Some w)
  | _ => RIdle None
  end.

(** The state of both ends, the items submitted and not given back, and the items
    received. *)
Record config := mkConfig {
  c_shared : Shared Q W K;
  c_sender : sender_state;
  c_receiver : receiver_state;
  c_submitted : list A;
  c_received : list A;
}.

Inductive spsc_step : config -> config -> Prop :=
| sender_calls sh slot pending c p rcv sub rec :
    sender_prog slot c = Some p ->
    spsc_step (mkConfig sh (SIdle slot pending) rcv sub rec)
      (mkConfig sh (SBusy p) rcv (sub ++ given c) rec)
| sender_steps sh p rcv sub rec :
    spsc_step (mkConfig sh (SBusy p) rcv sub rec)
      (mkConfig (snd_step p sh).1 (SBusy (snd_step p sh).2) rcv sub rec)
| sender_returns sh slot r rcv sub rec :
    spsc_step (mkConfig sh (SBusy (SRet (slot, r))) rcv sub rec)
      (mkConfig sh (after_send slot r) rcv (take (length sub - given_up r) sub) rec)
| receiver_calls sh pending c snd sub rec :
    spsc_step (mkConfig sh snd (RIdle pending) sub rec)
      (mkConfig sh snd (RBusy (receiver_prog c)) sub rec)
| receiver_steps sh snd p sub rec :
    spsc_step (mkConfig sh snd (RBusy p) sub rec)
      (mkConfig (rcv_step p sh).1 snd (RBusy (rcv_step p sh).2) sub rec)
| receiver_returns sh snd r sub rec :
    spsc_step (mkConfig sh snd (RBusy (RRet r)) sub rec)
      (mkConfig sh snd (after_recv r) sub (rec ++ got r)).

Definition spsc_init (capacity : Z) : config :=
  let (sh, slot) := channel capacity in mkConfig sh (SIdle slot None) (RIdle None) [] [].

Definition spsc_reachable (capacity : Z) (c : config) : Prop := rtc spsc_step (spsc_init capacity) c.
End system.

Arguments config Q A W K : clear implicits.
Arguments sender_state A K : clear implicits.
Arguments receiver_state A K : clear implicits.
Arguments sender_call A K : clear implicits.
Arguments receiver_call K : clear implicits.
Arguments sender_result A K : clear implicits.
Arguments receiver_result A K : clear implicits.

(** * What the programs do *)

(** How far an end that is about to sleep has come: its waker was registered, and
    the queue was found full, or empty, after that. *)
Inductive phase (K : Type) := Awake | Registered (w : K) | Checked (w : K).
Arguments Awake {K}.
Arguments Registered {K} _.
Arguments Checked {K} _.

Definition checked {K} (ph : phase K) : phase K :=
  match ph with Registered w => Checked w | _ => ph end.

Section programs.
Context {A K : Type}.

Definition wakes_recv {R} (p : snd_prog A K R) : bool :=
  match p with WakeRecvReady _ => true | _ => false end.
Definition wakes_send {R} (p : rcv_prog A K R) : bool :=
  match p with WakeSendReady _ => true | _ => false end.

(** A program of the sender that holds the items [held]: whatever the queue
    answers, it sends them in order, wakes the receiver after each, and ends with
    those that are left in its slot and given back. *)
Fixpoint snd_ok (p : snd_prog A K (option A * sender_result A K)) (held : list A) (ph : phase K) : Prop :=
  match p with
  | SRet (slot, r) =>
    (exists back, held = option_list slot ++ back /\ length back = given_up r) /\
    match r with RPollReady w Pending => ph = Checked w | _ => True end
  | ChannelTrySend t k =>
    (exists held', held = t :: held' /\ wakes_recv (k (inl tt)) = true /\ snd_ok (k (inl tt)) held' Awake) /\
    snd_ok (k (inr (TrySendError_Full t))) held (checked ph) /\
    snd_ok (k (inr (TrySendError_Disconnected t))) held Awake
  | WakeRecvReady k => snd_ok k held Awake
  | RegisterSendReady w k => snd_ok k held (Registered w)
  | DropChannelSender k => snd_ok k held Awake
  end.

(** A program of the receiver that has taken the items [held] from the queue. *)
Fixpoint rcv_ok (p : rcv_prog A K (receiver_result A K)) (held : list A) (ph : phase K) (alive : bool) : Prop :=
  match p with
  | RRet r => got r = held /\ (alive = false -> r = RReceiverDrop) /\
    match r with RPollNext w Pending => ph = Checked w | _ => True end
  | ChannelTryRecv k => alive = true /\
    (forall t, wakes_send (k (inl t)) = true /\ rcv_ok (k (inl t)) (held ++ [t]) Awake alive) /\
    rcv_ok (k (inr TryRecvError_Empty)) held (checked ph) alive /\
    rcv_ok (k (inr TryRecvError_Disconnected)) held Awake alive
  | WakeSendReady k => rcv_ok k held Awake alive
  | RegisterRecvReady w k => rcv_ok k held (Registered w) alive
  | DropChannelReceiver k => rcv_ok k held Awake false
  end.

Lemma sender_prog_ok slot c p :
  sender_prog slot c = Some p -> snd_ok p (option_list slot ++ given c) Awake.
Proof.
  destruct c as [t|w|t|], slot as [s|]; cbn; intros [= <-]; cbn;
    repeat match goal with
    | |- _ /\ _ => split
    | |- exists held', _ :: _ = _ :: held' /\ _ => eexists; split; [reflexivity|]
    | |- exists back, _ :: _ = _ :: back /\ _ => eexists; split; [reflexivity|]
    | |- exists back, _ = back /\ _ => eexists; split; [reflexivity|]
    | |- _ => done
    end.
Qed.

Lemma receiver_prog_ok c : rcv_ok (receiver_prog c) [] Awake true.
Proof. destruct c; cbn; repeat split; done. Qed.
End programs.

(** * The invariant *)

Section invariant.
Context {Q A W K : Type} {CB : Crossbeam Q A} {CL : CrossbeamLaws Q A}.
Context {AW : AtomicWaker W K} {AL : AtomicWakerLaws W K}.

Abbreviation config := (config Q A W K).
Abbreviation shared := (Shared Q W K).

Definition sender_ok (s : sender_state A K) (held : list A) (ph : phase K) : Prop :=
  match s with
  | SIdle slot pending => held = option_list slot /\
      match pending with Some w => ph = Checked w | None => True end
  | SBusy p => snd_ok p held ph
  | SGone slot => held = option_list slot
  end.
Definition receiver_ok (r : receiver_state A K) (held : list A) (ph : phase K) (alive : bool) : Prop :=
  match r with
  | RIdle pending => held = [] /\ alive = true /\
      match pending with Some w => ph = Checked w | None => True end
  | RBusy p => rcv_ok p held ph alive
  | RGone => held = []
  end.

(** Whether an end is about to wake the other. *)
Definition sender_wakes (s : sender_state A K) : bool :=
  match s with SBusy p => wakes_recv p | _ => false end.
Definition receiver_wakes (r : receiver_state A K) : bool :=
  match r with RBusy p => wakes_send p | _ => false end.

(** A waker that is registered is still there or was woken; and when the queue was
    found [blocked] after that, it still is, or the other end is about to wake. *)
Definition phase_ok (ph : phase K) (cell : W) (woken : list K) (blocked : Prop) : Prop :=
  match ph with
  | Awake => True
  | Registered w => aw_registered cell = Some w \/ w ∈ woken
  | Checked w => (aw_registered cell = Some w /\ blocked) \/ w ∈ woken
  end.

Definition full (q : Q) : Prop := cb_receiver q = true -> cb_cap q <= zlen (cb_items q).

Record spsc_inv (c : config) (sheld rheld : list A) (sph rph : phase K) : Prop := {
  sv_sender : sender_ok (c_sender c) sheld sph;
  sv_receiver : receiver_ok (c_receiver c) rheld rph (cb_receiver (channel_ (c_shared c)));
  sv_fifo : exists mid, c_submitted c = c_received c ++ rheld ++ mid ++ sheld /\
    (cb_receiver (channel_ (c_shared c)) = true -> mid = cb_items (channel_ (c_shared c)));
  sv_cap : zlen (cb_items (channel_ (c_shared c))) <= cb_cap (channel_ (c_shared c)) \/
    cb_receiver (channel_ (c_shared c)) = false;
  sv_send : phase_ok sph (send_ready (c_shared c)) (send_woken (c_shared c))
    (full (channel_ (c_shared c)) \/ receiver_wakes (c_receiver c) = true);
  sv_recv : phase_ok rph (recv_ready (c_shared c)) (recv_woken (c_shared c))
    (cb_items (channel_ (c_shared c)) = [] \/ sender_wakes (c_sender c) = true);
}.

(** ** The cells *)

Lemma phase_ok_mono ph cell woken (P P' : Prop) : (P -> P') -> phase_ok ph cell woken P -> phase_ok ph cell woken P'.
Proof. destruct ph; cbn; tauto. Qed.

(** After the cell was woken, whoever was registered has been. *)
Lemma phase_ok_wake ph cell woken (P P' : Prop) :
  phase_ok ph cell woken P -> phase_ok ph (aw_wake cell).1 (woken ++ option_list (aw_wake cell).2) P'.
Proof.
  rewrite aw_wake_woken. destruct ph as [|w|w]; cbn; [done|intros [->|?]|intros [[-> _]|?]];
    right; apply elem_of_app; auto; right; by left.
Qed.

Lemma phase_ok_register w cell P : phase_ok (Registered w) (aw_register cell w) [] P.
Proof. left. apply aw_register_registered. Qed.

Lemma phase_ok_checked ph cell woken (P P' : Prop) :
  phase_ok ph cell woken P -> P' -> phase_ok (checked ph) cell woken P'.
Proof. destruct ph; cbn; tauto. Qed.

Lemma wake_send_ready_eq (s : shared) : wake_send_ready s =
  mkShared (channel_ s) (aw_wake (send_ready s)).1 (recv_ready s)
    (send_woken s ++ option_list (aw_wake (send_ready s)).2) (recv_woken s).
Proof. unfold wake_send_ready. by destruct (aw_wake (send_ready s)). Qed.
Lemma wake_recv_ready_eq (s : shared) : wake_recv_ready s =
  mkShared (channel_ s) (send_ready s) (aw_wake (recv_ready s)).1
    (send_woken s) (recv_woken s ++ option_list (aw_wake (recv_ready s)).2).
Proof. unfold wake_recv_ready. by destruct (aw_wake (recv_ready s)). Qed.

(** ** Every step keeps it *)

Local Ltac split_inv := constructor; cbn [c_shared c_sender c_receiver c_submitted c_received
  channel_ send_ready recv_ready send_woken recv_woken set_channel register_send_ready register_recv_ready] in *.

(** When the next step of an end is not to wake, what blocks the other is the
    queue. *)
Local Ltac awake := let H := fresh in intros H; destruct H; [auto|done].

Lemma inv_sender_steps sh p rcv sub rec sheld rheld sph rph :
  spsc_inv (mkConfig sh (SBusy p) rcv sub rec) sheld rheld sph rph ->
  exists sheld' sph', spsc_inv (mkConfig (snd_step p sh).1 (SBusy (snd_step p sh).2) rcv sub rec) sheld' rheld sph' rph.
Proof.
  intros [Hs Hr (mid & Hf & Hmid) Hcap Hsend Hrecv]; cbn in *.
  destruct p as [r|t k|k|w k|k]; cbn [snd_step].
  - exists sheld, sph. split_inv; eauto.
  - cbn in Hs. destruct Hs as ((held' & -> & Hw & Hk) & Hfull & Hdis).
    pose proof (cb_try_send_ok (channel_ sh) t) as (Hc & Hsd & Hrc & H).
    destruct (cb_try_send (channel_ sh) t) as [q a]. cbn in *.
    destruct (cb_receiver (channel_ sh)) eqn:Hal; cycle 1.
    { destruct H as [-> Hit]. exists (t :: held'), Awake. split_inv; rewrite ?Hrc, ?Hit; try done; [by exists mid|by right|].
      eapply phase_ok_mono; [|exact Hrecv]. awake. }
    rewrite Hmid in Hf by done. destruct (Z.ltb_spec (zlen (cb_items (channel_ sh))) (cb_cap (channel_ sh))) as [Hlt|Hge];
      destruct H as [-> Hit].
    + exists held', Awake. split_inv; rewrite ?Hrc; try done.
      * exists (cb_items q). rewrite Hit. split; [|done]. rewrite Hf, <- !app_assoc. done.
      * rewrite Hit, zlen_app, Hc. left. unfold zlen at 2; cbn. lia.
      * eapply phase_ok_mono; [|exact Hrecv]. intros _. by right.
    + exists (t :: held'), (checked sph). split_inv; rewrite ?Hrc, ?Hit, ?Hc; try done.
      * eexists. by split.
      * eapply phase_ok_checked; [exact Hsend|]. left. intros _. by rewrite Hc, Hit.
      * eapply phase_ok_mono; [|exact Hrecv]. awake.
  - exists sheld, Awake. rewrite wake_recv_ready_eq. split_inv; try done; [by exists mid|].
    by eapply phase_ok_wake.
  - exists sheld, (Registered w). split_inv; try done; [by exists mid|by apply phase_ok_register|].
    eapply phase_ok_mono; [|exact Hrecv]. awake.
  - pose proof (cb_drop_sender_ok (channel_ sh)) as (Hc & Hit & _ & Hrc). cbn in *.
    exists sheld, Awake. split_inv; rewrite ?Hrc, ?Hc, ?Hit; try done; [by exists mid|].
    eapply phase_ok_mono; [|exact Hrecv]. awake.
Qed.

Lemma inv_receiver_steps sh p snd sub rec sheld rheld sph rph :
  spsc_inv (mkConfig sh snd (RBusy p) sub rec) sheld rheld sph rph ->
  exists rheld' rph', spsc_inv (mkConfig (rcv_step p sh).1 snd (RBusy (rcv_step p sh).2) sub rec) sheld rheld' sph rph'.
Proof.
  intros [Hs Hr (mid & Hf & Hmid) Hcap Hsend Hrecv]; cbn in *.
  destruct p as [r|k|k|w k|k]; cbn [rcv_step].
  - exists rheld, rph. split_inv; eauto.
  - cbn in Hr. destruct Hr as (Hal & Hgot & Hempty & Hdis).
    pose proof (cb_try_recv_ok (channel_ sh)) as (Hc & Hsd & Hrc & H).
    destruct (cb_try_recv (channel_ sh)) as [q a]. cbn in *. rewrite Hmid in Hf by done.
    destruct (cb_items (channel_ sh)) as [|t ts] eqn:Eit; destruct H as [-> Hit].
    + destruct (cb_sender (channel_ sh));
        [exists rheld, (checked rph)|exists rheld, Awake];
        (split_inv; rewrite ?Hrc, ?Hit, ?Hc, ?Hal in *; try done; [by exists []|..]).
      * eapply phase_ok_mono; [|exact Hsend]. unfold full. rewrite Eit, Hit, Hc, Hrc. awake.
      * eapply phase_ok_checked; [exact Hrecv|]. by left.
      * eapply phase_ok_mono; [|exact Hsend]. unfold full. rewrite Eit, Hit, Hc, Hrc. awake.
    + destruct (Hgot t) as [Hw Hk]. exists (rheld ++ [t]), Awake. split_inv; rewrite ?Hrc, ?Hit, ?Hc, ?Hal in *; try done.
      * exists ts. split; [|done]. by rewrite Hf, <- !app_assoc.
      * rewrite zlen_cons in Hcap. destruct Hcap; [left; lia|by right].
      * eapply phase_ok_mono; [|exact Hsend]. intros _. by right.
  - exists rheld, Awake. rewrite wake_send_ready_eq. split_inv; try done; [by exists mid|].
    by eapply phase_ok_wake.
  - exists rheld, (Registered w). split_inv; try done; [by exists mid| |by apply phase_ok_register].
    eapply phase_ok_mono; [|exact Hsend]. awake.
  - pose proof (cb_drop_receiver_ok (channel_ sh)) as (Hc & _ & Hrc). cbn in *.
    exists rheld, Awake. split_inv; rewrite ?Hrc; try done; [by exists mid|by right|].
    eapply phase_ok_mono; [|exact Hsend]. intros _. left. intros Hal. by rewrite Hrc in Hal.
Qed.

Lemma inv_sender_calls sh slot pending c p rcv sub rec sheld rheld sph rph :
  sender_prog slot c = Some p ->
  spsc_inv (mkConfig sh (SIdle slot pending) rcv sub rec) sheld rheld sph rph ->
  spsc_inv (mkConfig sh (SBusy p) rcv (sub ++ given c) rec) (option_list slot ++ given c) rheld Awake rph.
Proof.
  intros Hp [[-> _] Hr (mid & Hf & Hmid) Hcap Hsend Hrecv]; cbn in *. split_inv; try done.
  - by apply sender_prog_ok.
  - exists mid. split; [|done]. by rewrite Hf, <- !app_assoc.
  - eapply phase_ok_mono; [|exact Hrecv]. awake.
Qed.

Lemma inv_sender_returns sh slot r rcv sub rec sheld rheld sph rph :
  spsc_inv (mkConfig sh (SBusy (SRet (slot, r))) rcv sub rec) sheld rheld sph rph ->
  spsc_inv (mkConfig sh (after_send slot r) rcv (take (length sub - given_up r) sub) rec)
    (option_list slot) rheld sph rph.
Proof.
  intros [[(back & -> & Hl) Hph] Hr (mid & Hf & Hmid) Hcap Hsend Hrecv]; cbn in *.
  assert (take (length sub - given_up r) sub = rec ++ rheld ++ mid ++ option_list slot) as Htake.
  { rewrite Hf, <- Hl, !app_assoc, (length_app _ back), Nat.add_sub. by rewrite take_app_length. }
  split_inv; try done.
  - destruct r as [|w [|]| |]; cbn; eauto.
  - by exists mid.
  - eapply phase_ok_mono; [|exact Hrecv]. awake.
Qed.

Lemma inv_receiver_calls sh snd pending c sub rec sheld rheld sph rph :
  spsc_inv (mkConfig sh snd (RIdle pending) sub rec) sheld rheld sph rph ->
  spsc_inv (mkConfig sh snd (RBusy (receiver_prog c)) sub rec) sheld [] sph Awake.
Proof.
  intros [Hs (-> & Hal & _) (mid & Hf & Hmid) Hcap Hsend Hrecv]; cbn in *. split_inv; try done.
  - rewrite Hal. apply receiver_prog_ok.
  - by exists mid.
  - eapply phase_ok_mono; [|exact Hsend]. awake.
Qed.

Lemma inv_receiver_returns sh snd r sub rec sheld rheld sph rph :
  spsc_inv (mkConfig sh snd (RBusy (RRet r)) sub rec) sheld rheld sph rph ->
  spsc_inv (mkConfig sh snd (after_recv r) sub (rec ++ got r)) sheld [] sph rph.
Proof.
  intros [Hs (Hgot & Hal & Hph) (mid & Hf & Hmid) Hcap Hsend Hrecv]; cbn in *. subst rheld. split_inv; try done.
  - destruct (cb_receiver (channel_ sh)); [|by rewrite Hal]. destruct r as [|w [|]|]; cbn; eauto.
  - exists mid. by rewrite <- !app_assoc.
  - eapply phase_ok_mono; [|exact Hsend]. awake.
Qed.

Lemma spsc_step_inv c c' sheld rheld sph rph :
  spsc_step c c' -> spsc_inv c sheld rheld sph rph ->
  exists sheld' rheld' sph' rph', spsc_inv c' sheld' rheld' sph' rph'.
Proof.
  intros [] Hinv.
  - eapply inv_sender_calls in Hinv; [|done]. eauto.
  - apply inv_sender_steps in Hinv as (? & ? & ?). eauto.
  - apply inv_sender_returns in Hinv. eauto.
  - eapply inv_receiver_calls in Hinv. eauto.
  - apply inv_receiver_steps in Hinv as (? & ? & ?). eauto.
  - apply inv_receiver_returns in Hinv. eauto.
Qed.

Lemma spsc_reachable_inv capacity c :
  0 <= capacity -> spsc_reachable capacity c -> exists sheld rheld sph rph, spsc_inv c sheld rheld sph rph.
Proof.
  intros Hcap Hc. apply (rtc_ind_r (R := spsc_step)
    (fun c => exists sheld rheld sph rph, spsc_inv c sheld rheld sph rph) (spsc_init capacity)); [..|exact Hc].
  - exists [], [], Awake, Awake. unfold spsc_init, channel.
    destruct (cb_bounded_ok (Q := Q) (A := A) capacity) as (Hn & Hi & _ & Hr).
    constructor; cbn; rewrite ?Hn, ?Hi, ?Hr; try done; [by exists []|by left].
  - intros ? ? _ Hstep (sheld & rheld & sph & rph & Hinv). by eapply spsc_step_inv.
Qed.

(** The capacity does not change. *)
Lemma spsc_step_cap c c' : spsc_step c c' -> cb_cap (channel_ (c_shared c')) = cb_cap (channel_ (c_shared c)).
Proof.
  intros []; cbn; try done.
  - destruct p as [r|t k|k|w k|k]; cbn [snd_step]; [done| | |done|].
    + pose proof (cb_try_send_ok (channel_ sh) t) as [Hc _]. by destruct (cb_try_send (channel_ sh) t).
    + by rewrite wake_recv_ready_eq.
    + by destruct (cb_drop_sender_ok (channel_ sh)) as [Hc _].
  - destruct p as [r|k|k|w k|k]; cbn [rcv_step]; [done| | |done|].
    + pose proof (cb_try_recv_ok (channel_ sh)) as [Hc _]. by destruct (cb_try_recv (channel_ sh)).
    + by rewrite wake_send_ready_eq.
    + by destruct (cb_drop_receiver_ok (channel_ sh)) as [Hc _].
Qed.
Lemma spsc_reachable_cap capacity c : spsc_reachable capacity c -> cb_cap (channel_ (c_shared c)) = capacity.
Proof.
  intros Hc. apply (rtc_ind_r (R := spsc_step)
    (fun c => cb_cap (channel_ (c_shared c)) = capacity) (spsc_init capacity)); [..|exact Hc].
  - unfold spsc_init, channel. cbn. by destruct (cb_bounded_ok (Q := Q) (A := A) capacity) as [-> _].
  - intros ? ? _ Hstep <-. by apply spsc_step_cap.
Qed.
End invariant.

(** * Properties *)

Section properties.
Context {Q A W K : Type} {CB : Crossbeam Q A} {CL : CrossbeamLaws Q A}.
Context {AW : AtomicWaker W K} {AL : AtomicWakerLaws W K}.

(** C20. The channel is first-in first-out and loses nothing: however the atomic
    steps of the two ends interleave, the items received are, in order, a prefix of
    those submitted and not given back; and between calls the rest are exactly
    those in the queue, never more than its capacity, and the one in the slot. *)
Theorem spsc_fifo capacity (c : config Q A W K) :
  0 <= capacity -> spsc_reachable capacity c ->
  (exists rest, c_submitted c = c_received c ++ rest) /\
  forall slot pending pending', c_sender c = SIdle slot pending -> c_receiver c = RIdle pending' ->
    c_submitted c = c_received c ++ cb_items (channel_ (c_shared c)) ++ option_list slot /\
    zlen (cb_items (channel_ (c_shared c))) <= capacity.
Proof.
  intros Hcap Hc. rewrite <- (spsc_reachable_cap capacity c Hc).
  destruct (spsc_reachable_inv capacity c Hcap Hc)
    as (sheld & rheld & sph & rph & [Hs Hr (mid & Hf & Hmid) Hle _ _]).
  split; [by eexists|]. intros slot p p' Es Er. rewrite Es in Hs. rewrite Er in Hr.
  destruct Hs as [-> _], Hr as (-> & Hal & _). rewrite (Hmid Hal) in Hf. split; [exact Hf|].
  rewrite Hal in Hle. by destruct Hle.
Qed.

(** C21. No wakeup is lost while both ends are alive: when the receiver's last poll
    left it waiting and there is an item, or the sender's left it waiting and
    there is room, and the other end is not in the middle of a call, then its
    waker was woken. So a channel with room for an item never has both ends
    asleep. *)
Theorem spsc_no_lost_wakeup capacity (c : config Q A W K) :
  0 <= capacity -> spsc_reachable capacity c -> cb_receiver (channel_ (c_shared c)) = true ->
  let items := cb_items (channel_ (c_shared c)) in
  (forall w, c_receiver c = RIdle (Some w) -> items <> [] -> (forall p, c_sender c <> SBusy p) ->
     w ∈ recv_woken (c_shared c)) /\
  (forall w slot, c_sender c = SIdle slot (Some w) -> zlen items < capacity ->
     (forall p, c_receiver c <> RBusy p) -> w ∈ send_woken (c_shared c)) /\
  (forall w w' slot, c_receiver c = RIdle (Some w) -> c_sender c = SIdle slot (Some w') -> 0 < capacity ->
     w ∈ recv_woken (c_shared c) \/ w' ∈ send_woken (c_shared c)).
Proof.
  intros Hcap Hc Hal items. subst items. rewrite <- (spsc_reachable_cap capacity c Hc).
  destruct (spsc_reachable_inv capacity c Hcap Hc) as (sheld & rheld & sph & rph & [Hs Hr _ _ Hsend Hrecv]).
  assert (forall w, c_receiver c = RIdle (Some w) -> cb_items (channel_ (c_shared c)) <> [] ->
    (forall p, c_sender c <> SBusy p) -> w ∈ recv_woken (c_shared c)) as HR.
  { intros w Er Hne Hnb. rewrite Er in Hr. destruct Hr as (_ & _ & ->).
    destruct Hrecv as [[_ [?|Hw]]|?]; [done| |done]. destruct (c_sender c); try done. by destruct (Hnb p). }
  assert (forall w slot, c_sender c = SIdle slot (Some w) ->
    zlen (cb_items (channel_ (c_shared c))) < cb_cap (channel_ (c_shared c)) ->
    (forall p, c_receiver c <> RBusy p) -> w ∈ send_woken (c_shared c)) as HS.
  { intros w slot Es Hlt Hnb. rewrite Es in Hs. destruct Hs as [_ ->].
    destruct Hsend as [[_ [Hf|Hw]]|?]; [specialize (Hf Hal); lia| |done].
    destruct (c_receiver c); try done. by destruct (Hnb p). }
  split; [exact HR|]. split; [exact HS|]. intros w w' slot Er Es Hpos.
  destruct (cb_items (channel_ (c_shared c))) as [|t ts] eqn:E.
  - right. apply (HS w' slot Es); [unfold zlen; cbn; lia|]. intros p. by rewrite Er.
  - left. apply HR; [done..|]. intros p. by rewrite Es.
Qed.
End properties.

(** ** A queue for the examples *)

Record list_queue (A : Type) := mkListQueue {
  lq_cap : Z; lq_items : list A; lq_sender : bool; lq_receiver : bool }.
Arguments mkListQueue {A} _ _ _ _.
Arguments lq_cap {A} _.
Arguments lq_items {A} _.
Arguments lq_sender {A} _.
Arguments lq_receiver {A} _.

#[export] Instance list_crossbeam {A} : Crossbeam (list_queue A) A := {|
  cb_bounded n := mkListQueue n [] true true;
  cb_try_send q t :=
    if lq_receiver q then
      if zlen (lq_items q) <? lq_cap q
      then (mkListQueue (lq_cap q) (lq_items q ++ [t]) (lq_sender q) true, inl tt)
      else (q, inr (TrySendError_Full t))
    else (q, inr (TrySendError_Disconnected t));
  cb_try_recv q :=
    match lq_items q with
    | t :: ts => (mkListQueue (lq_cap q) ts (lq_sender q) (lq_receiver q), inl t)
    | [] => (q, inr (if lq_sender q then TryRecvError_Empty else TryRecvError_Disconnected))
    end;
  cb_drop_sender q := mkListQueue (lq_cap q) (lq_items q) false (lq_receiver q);
  cb_drop_receiver q := mkListQueue (lq_cap q) [] (lq_sender q) false;
|}.
#[export] Instance list_crossbeam_laws {A} : CrossbeamLaws (list_queue A) A.
Proof.
  refine {| cb_cap := lq_cap; cb_items := lq_items; cb_sender := lq_sender; cb_receiver := lq_receiver |}; cbn.
  - done.
  - intros q t. destruct (lq_receiver q) eqn:E; [|done].
    by destruct (Z.ltb_spec (zlen (lq_items q)) (lq_cap q)); rewrite ?E.
  - intros q. destruct (lq_items q) eqn:E; rewrite ?E; done.
  - done.
  - done.
Defined.

Abbreviation example_config := (config (list_queue Z) Z (option Z) Z).

Local Ltac calls c := eapply rtc_l; [by apply (sender_calls _ _ _ c); reflexivity|]; cbn.
Local Ltac polls c := eapply rtc_l; [by apply (receiver_calls _ _ c)|]; cbn.
Local Ltac steps_s := eapply rtc_l; [apply sender_steps|]; cbn.
Local Ltac steps_r := eapply rtc_l; [apply receiver_steps|]; cbn.
Local Ltac returns_s := eapply rtc_l; [apply sender_returns|]; cbn.
Local Ltac returns_r := eapply rtc_l; [apply receiver_returns|]; cbn.

(** Dropping an end can lose a wakeup: [drop] wakes the other end before the
    fields of the dropped end, and with them the crossbeam end, are dropped. A
    receiver that polls in between goes to sleep on a channel that is then
    disconnected, and a sender likewise; nothing wakes them, although polling
    again would report the disconnection. *)
Theorem spsc_drop_loses_wakeup :
  (exists c : example_config, spsc_reachable 1 c /\ c_sender c = SGone None /\
     c_receiver c = RIdle (Some 7) /\ recv_woken (c_shared c) = [] /\
     (rcv_run (Receiver_poll_next 7) (c_shared c)).2 = Ready None) /\
  (exists c : example_config, spsc_reachable 1 c /\ c_receiver c = RGone /\
     c_sender c = SIdle (Some 2) (Some 8) /\ send_woken (c_shared c) = [] /\
     (snd_run (Sender_poll_ready (Some 2) 8) (c_shared c)).2 = (None, Ready (inr mkDisconnected))).
Proof.
  split; eexists.
  - split; [unfold spsc_reachable, spsc_init; cbn|].
    + calls (@CallSenderDrop Z Z). steps_s. polls (CallPollNext 7). do 3 steps_r. returns_r. steps_s. returns_s.
      apply rtc_refl.
    + by repeat split.
  - split; [unfold spsc_reachable, spsc_init; cbn|].
    + calls (@CallTrySend Z Z 1). do 2 steps_s. returns_s. calls (@CallStartSend Z Z 2). returns_s.
      polls (@CallReceiverDrop Z). steps_r. calls (@CallPollReady Z Z 8). do 3 steps_s. returns_s.
      steps_r. returns_r. apply rtc_refl.
    + by repeat split.
Qed.

(** The receiver waits, an item is sent, and the receiver was woken. *)
Lemma example_waiting : exists c : example_config, spsc_reachable 1 c /\
  c_sender c = SIdle (Some 6) None /\ c_receiver c = RIdle (Some 7) /\
  channel_ (c_shared c) = mkListQueue 1 [5] true true /\ c_submitted c = [5; 6] /\ c_received c = [].
Proof.
  eexists. split; [unfold spsc_reachable, spsc_init; cbn|].
  - polls (CallPollNext 7). do 3 steps_r. returns_r.
    calls (@CallTrySend Z Z 5). do 2 steps_s. returns_s. calls (@CallStartSend Z Z 6). returns_s. apply rtc_refl.
  - by repeat split.
Qed.

Lemma spsc_fifo_witness : exists c : example_config,
  c_submitted c = c_received c ++ [5] ++ [6] /\ exists rest, c_submitted c = c_received c ++ rest.
Proof.
  destruct example_waiting as (c & Hc & Es & Er & Eq & _).
  destruct (spsc_fifo 1 c ltac:(lia) Hc) as [H1 H2]. exists c. split; [|exact H1].
  destruct (H2 _ _ _ Es Er) as [Hf _]. rewrite Eq in Hf. exact Hf.
Defined.

Lemma spsc_no_lost_wakeup_witness : exists c : example_config,
  c_receiver c = RIdle (Some 7) /\ 7 ∈ recv_woken (c_shared c).
Proof.
  destruct example_waiting as (c & Hc & Es & Er & Eq & _). exists c. split; [exact Er|].
  assert (cb_receiver (channel_ (c_shared c)) = true) as Hal by (rewrite Eq; reflexivity).
  destruct (spsc_no_lost_wakeup 1 c ltac:(lia) Hc Hal) as [H _]. apply (H 7 Er).
  - rewrite Eq. discriminate.
  - rewrite Es. discriminate.
Defined.
