(* ===== verification/EventWatch.v ===== *)
(** The event stream of event_watch.rs: any number of senders signal, one receiver
    waits. The methods are programs over atomic steps on the shared flag and waker
    cell, and any interleaving of them keeps the promise of the documentation. *)

From stdpp Require Import relations.
From S2P Require Import Prelude Async.

(** * The methods *)

Section event_watch.
Context {W K : Type} {AW : AtomicWaker W K}.

(** The flag and the cell; and the wakers woken since one was last registered. *)
Record State := mkState {
  waker : W;
  signaled : bool;
  woken : list K;
}.

Inductive ew_prog (R : Type) :=
| ERet (r : R)
| StoreSignaled (b : bool) (k : ew_prog R)
| SwapSignaled (b : bool) (k : bool -> ew_prog R)
| WakeWaker (k : ew_prog R)
| RegisterWaker (w : K) (k : ew_prog R).
#[global] Arguments ERet {R} _.
#[global] Arguments StoreSignaled {R} _ _.
#[global] Arguments SwapSignaled {R} _ _.
#[global] Arguments WakeWaker {R} _.
#[global] Arguments RegisterWaker {R} _ _.

Definition ew_channel : State := mkState aw_new false [].

(** [Sender::signal] *)
Definition signal : ew_prog unit := StoreSignaled true (WakeWaker (ERet tt)).

(** [Receiver::wait], polled with the waker [w]. *)
Definition poll_wait (w : K) : ew_prog (Poll unit) :=
  SwapSignaled false (fun s =>
    if s then ERet (Ready tt)
    else RegisterWaker w (SwapSignaled false (fun s => if s then ERet (Ready tt) else ERet Pending))).

(** * Execution *)

Definition wake_waker (s : State) : State :=
  let (a, o) := aw_wake (waker s) in mkState a (signaled s) (woken s ++ option_list o).

Definition ew_step {R} (p : ew_prog R) (s : State) : State * ew_prog R :=
  match p with
  | ERet r => (s, ERet r)
  | StoreSignaled b k => (mkState (waker s) b (woken s), k)
  | SwapSignaled b k => (mkState (waker s) b (woken s), k (signaled s))
  | WakeWaker k => (wake_waker s, k)
  | RegisterWaker w k => (mkState (aw_register (waker s) w) (signaled s) [], k)
  end.

Fixpoint ew_run {R} (p : ew_prog R) (s : State) : State * R :=
  match p with
  | ERet r => (s, r)
  | StoreSignaled b k => ew_run k (mkState (waker s) b (woken s))
  | SwapSignaled b k => ew_run (k (signaled s)) (mkState (waker s) b (woken s))
  | WakeWaker k => ew_run k (wake_waker s)
  | RegisterWaker w k => ew_run k (mkState (aw_register (waker s) w) (signaled s) [])
  end.

(** The receiver between two polls, with the waker the last one left waiting, or
    in one. *)
Inductive waiter :=
| WIdle (pending : option K)
| WBusy (w : K) (p : ew_prog (Poll unit)).

Definition after_wait (w : K) (r : Poll unit) : waiter :=
  WIdle (match r with Pending => Some w | Ready _ => None end).

(** The shared state, the calls of [signal] in progress, the receiver; how often
    [signal] was called and how often [wait] has resolved. *)
Record watch := mkWatch {
  e_state : State;
  e_signals : list (ew_prog unit);
  e_waiter : waiter;
  e_called : nat;
  e_resolved : nat;
}.

Inductive watch_step : watch -> watch -> Prop :=
| signal_calls s ps r n m :
    watch_step (mkWatch s ps r n m) (mkWatch s (ps ++ [signal]) r (S n) m)
| signal_steps s l1 p l2 r n m :
    watch_step (mkWatch s (l1 ++ p :: l2) r n m)
      (mkWatch (ew_step p s).1 (l1 ++ (ew_step p s).2 :: l2) r n m)
| signal_returns s l1 l2 r n m :
    watch_step (mkWatch s (l1 ++ ERet tt :: l2) r n m) (mkWatch s (l1 ++ l2) r n m)
| wait_polls s ps pending w n m :
    watch_step (mkWatch s ps (WIdle pending) n m) (mkWatch s ps (WBusy w (poll_wait w)) n m)
| wait_steps s ps w p n m :
    watch_step (mkWatch s ps (WBusy w p) n m) (mkWatch (ew_step p s).1 ps (WBusy w (ew_step p s).2) n m)
| wait_returns s ps w r n m :
    watch_step (mkWatch s ps (WBusy w (ERet r)) n m)
      (mkWatch s ps (after_wait w r) n (match r with Ready _ => S m | Pending => m end)).

Definition watch_reachable (c : watch) : Prop :=
  rtc watch_step (mkWatch ew_channel [] (WIdle None) 0 0) c.
End event_watch.

Arguments State W K : clear implicits.
Arguments ew_prog K R : clear implicits.
Arguments watch W K : clear implicits.
Arguments waiter K : clear implicits.

(** * The invariant *)

Section invariant.
Context {W K : Type} {AW : AtomicWaker W K} {AL : AtomicWakerLaws W K}.

(** A call of [signal] in progress is at one of its three points; so is a poll. *)
Inductive signal_at : ew_prog K unit -> Prop :=
| at_store : signal_at signal
| at_wake : signal_at (WakeWaker (ERet tt))
| at_return : signal_at (ERet tt).

Definition to_store (p : ew_prog K unit) : bool := match p with StoreSignaled _ _ => true | _ => false end.
Definition to_wake (p : ew_prog K unit) : bool := match p with WakeWaker _ => true | _ => false end.

(** The receiver's waker is still registered, or was woken. *)
Definition registered (w : K) (s : State W K) : Prop := aw_registered (waker s) = Some w \/ w ∈ woken s.

(** A receiver that sleeps was woken, or there was no signal since, or the one
    there was is about to wake it. *)
Definition asleep (w : K) (s : State W K) (ps : list (ew_prog K unit)) : Prop :=
  w ∈ woken s \/ (aw_registered (waker s) = Some w /\ (signaled s = false \/ Exists (fun p => to_wake p = true) ps)).

Definition waiter_ok (r : waiter K) (s : State W K) (ps : list (ew_prog K unit)) : Prop :=
  match r with
  | WIdle None => True
  | WIdle (Some w) => asleep w s ps
  | WBusy w p =>
    p = poll_wait w \/ p = ERet (Ready tt) \/ (p = ERet Pending /\ asleep w s ps) \/
    p = RegisterWaker w (SwapSignaled false (fun s => if s then ERet (Ready tt) else ERet Pending)) \/
    (p = SwapSignaled false (fun s => if s then ERet (Ready tt) else ERet Pending) /\ registered w s)
  end.

(** Signals that the flag holds or that a poll has just taken. *)
Definition taken (r : waiter K) : nat := match r with WBusy _ (ERet (Ready _)) => 1 | _ => 0 end.

Record watch_inv (c : watch W K) : Prop := {
  wv_signals : Forall signal_at (e_signals c);
  wv_waiter : waiter_ok (e_waiter c) (e_state c) (e_signals c);
  wv_count : (e_resolved c + taken (e_waiter c) + (if signaled (e_state c) then 1 else 0) +
    length (filter (fun p => to_store p = true) (e_signals c)) <= e_called c)%nat;
}.

(** ** Steps of a signal *)

Lemma asleep_mono w s ps ps' :
  (Exists (fun p => to_wake p = true) ps -> Exists (fun p => to_wake p = true) ps') ->
  asleep w s ps -> asleep w s ps'.
Proof. unfold asleep. tauto. Qed.

Lemma asleep_store w s l1 l2 :
  asleep w s (l1 ++ signal :: l2) -> asleep w (mkState (waker s) true (woken s)) (l1 ++ WakeWaker (ERet tt) :: l2).
Proof.
  intros [?|[? _]]; [by left|right]. split; [done|]. right. apply Exists_app. right. by apply Exists_cons_hd.
Qed.

Lemma wake_waker_eq (s : State W K) :
  wake_waker s = mkState (aw_wake (waker s)).1 (signaled s) (woken s ++ option_list (aw_wake (waker s)).2).
Proof. unfold wake_waker. by destruct (aw_wake (waker s)). Qed.

Lemma woken_wake w s : registered w s -> w ∈ woken (wake_waker s).
Proof.
  rewrite wake_waker_eq. cbn. rewrite aw_wake_woken, elem_of_app. intros [->|?]; [right; by left|by left].
Qed.

Lemma asleep_registered w s ps : asleep w s ps -> registered w s.
Proof. intros [?|[? _]]; [by right|by left]. Qed.

Lemma waiter_ok_mono r s s' ps ps' :
  (forall w, asleep w s ps -> asleep w s' ps') -> (forall w, registered w s -> registered w s') ->
  waiter_ok r s ps -> waiter_ok r s' ps'.
Proof. intros Ha Hr. destruct r as [[w|]|w p]; cbn; [auto|done|]. naive_solver. Qed.

Lemma exists_wake_swap (p q : ew_prog K unit) l1 l2 :
  to_wake p = false -> Exists (fun p => to_wake p = true) (l1 ++ p :: l2) ->
  Exists (fun p => to_wake p = true) (l1 ++ q :: l2).
Proof. intros Hp. rewrite !Exists_app, !Exists_cons, Hp. intros [?|[?|?]]; auto. done. Qed.

Lemma filter_store_app (l1 l2 : list (ew_prog K unit)) :
  length (filter (fun p => to_store p = true) (l1 ++ l2)) =
  (length (filter (fun p => to_store p = true) l1) + length (filter (fun p => to_store p = true) l2))%nat.
Proof. by rewrite filter_app, length_app. Qed.

Lemma filter_store_cons (p : ew_prog K unit) l :
  length (filter (fun p => to_store p = true) (p :: l)) =
  ((if to_store p then 1 else 0) + length (filter (fun p => to_store p = true) l))%nat.
Proof. rewrite filter_cons. destruct (to_store p); cbn; done. Qed.

Lemma inv_signal_steps (s : State W K) l1 p l2 r n m :
  watch_inv (mkWatch s (l1 ++ p :: l2) r n m) ->
  watch_inv (mkWatch (ew_step p s).1 (l1 ++ (ew_step p s).2 :: l2) r n m).
Proof.
  intros [Hs Hw Hc]; cbn in *. rewrite filter_store_app, filter_store_cons in Hc.
  assert (signal_at p) as Hp by (rewrite Forall_app, Forall_cons in Hs; tauto).
  assert (forall q, signal_at q -> Forall signal_at (l1 ++ q :: l2)) as Hs'.
  { intros q Hq. rewrite Forall_app, Forall_cons in *. tauto. }
  destruct Hp; cbn in *.
  - split; cbn; [apply Hs'; constructor| |].
    + eapply waiter_ok_mono; [| |exact Hw]; intros w; [apply asleep_store|done].
    + rewrite filter_store_app, filter_store_cons. cbn. destruct (signaled s); lia.
  - split; cbn; [apply Hs'; constructor| |].
    + eapply waiter_ok_mono; [..|exact Hw]; intros w Ha.
      * left. by eapply woken_wake, asleep_registered.
      * right. by apply woken_wake.
    + rewrite wake_waker_eq, filter_store_app, filter_store_cons. cbn. lia.
  - split; cbn; [done|done|]. rewrite filter_store_app, filter_store_cons. cbn. lia.
Qed.

Lemma inv_wait_steps (s : State W K) ps w p n m :
  watch_inv (mkWatch s ps (WBusy w p) n m) ->
  watch_inv (mkWatch (ew_step p s).1 ps (WBusy w (ew_step p s).2) n m).
Proof.
  intros [Hs Hw Hc]; cbn in *. destruct Hw as [->|[->|[[-> Ha]|[->|[-> Hr]]]]]; cbn in *.
  - split; cbn; [done|destruct (signaled s); auto 10|destruct (signaled s); cbn in *; lia].
  - split; cbn; [done|auto|lia].
  - split; cbn; [done|auto|lia].
  - split; cbn; [done| |lia]. do 4 right. split; [done|]. left. apply aw_register_registered.
  - split; cbn; [done| |destruct (signaled s); cbn in *; lia]. destruct (signaled s) eqn:E; [auto|].
    right. right. left. split; [done|]. destruct Hr; [right; cbn; auto|by left].
Qed.

Lemma watch_step_inv c c' : watch_step c c' -> watch_inv c -> watch_inv c'.
Proof.
  intros [] Hinv.
  - destruct Hinv as [Hs Hw Hc]; cbn in *. split; cbn.
    + apply Forall_app. split; [done|]. repeat constructor.
    + eapply waiter_ok_mono; [| |exact Hw]; intros w; [|done]. apply asleep_mono. rewrite Exists_app. tauto.
    + rewrite filter_store_app, filter_store_cons, filter_nil. cbn. lia.
  - by apply inv_signal_steps.
  - destruct Hinv as [Hs Hw Hc]; cbn in *. rewrite filter_store_app, filter_store_cons in Hc. split; cbn.
    + rewrite Forall_app, Forall_cons in *. tauto.
    + eapply waiter_ok_mono; [| |exact Hw]; intros w; [|done]. apply asleep_mono.
      rewrite !Exists_app, Exists_cons. cbn. intuition done.
    + rewrite filter_store_app. cbn in Hc. lia.
  - destruct Hinv as [Hs Hw Hc]; cbn in *. split; cbn; [done|by left|lia].
  - by apply inv_wait_steps.
  - destruct Hinv as [Hs Hw Hc]; cbn in *. split; cbn; [done|..].
    + destruct r; cbn; [|done].
      destruct Hw as [|[|[[_ Ha]|[|[? _]]]]]; try done.
    + destruct r; cbn in *; lia.
Qed.

Lemma watch_reachable_inv c : watch_reachable c -> watch_inv c.
Proof.
  intros Hc. apply (rtc_ind_r (R := watch_step) watch_inv (mkWatch ew_channel [] (WIdle None) 0 0)); [..|exact Hc].
  - by split.
  - intros ? ? _ Hstep. by apply watch_step_inv.
Qed.
End invariant.

(** * Properties *)

(** C22. No event is lost, however the steps of the senders and the receiver
    interleave: when a signal was stored and no call of [signal] is in progress, a
    receiver that sleeps was woken, and the next poll of [wait] resolves at once
    and consumes the event; and [wait] never resolves more often than [signal] was
    called. *)
Theorem event_not_lost {W K} `{AtomicWakerLaws W K} (c : watch W K) :
  watch_reachable c ->
  (signaled (e_state c) = true -> e_signals c = [] ->
     (forall w, e_waiter c = WIdle (Some w) -> w ∈ woken (e_state c)) /\
     forall w, exists s, ew_run (poll_wait w) (e_state c) = (s, Ready tt) /\ signaled s = false) /\
  (e_resolved c <= e_called c)%nat.
Proof.
  intros [Hs Hw Hc]%watch_reachable_inv. split; [|lia]. intros Hsig He. split.
  - intros w Hidle. rewrite Hidle, He in Hw. destruct Hw as [?|[_ [?|Hx]]]; [done|congruence|by apply Exists_nil in Hx].
  - intros w. eexists. unfold poll_wait. cbn. rewrite Hsig. cbn. by split.
Qed.

(** A receiver goes to sleep; a signal wakes it. *)
Lemma event_not_lost_witness : exists c : watch (option Z) Z,
  e_waiter c = WIdle (Some 7) /\ signaled (e_state c) = true /\ 7 ∈ woken (e_state c).
Proof.
  assert (watch_reachable (W := option Z) (K := Z) (mkWatch (mkState None true [7]) [] (WIdle (Some 7)) 1 0)) as Hc.
  { unfold watch_reachable.
    eapply rtc_l; [apply (wait_polls _ _ _ 7)|]. do 3 (eapply rtc_l; [apply wait_steps|]; cbn).
    eapply rtc_l; [apply wait_returns|]. eapply rtc_l; [apply signal_calls|].
    eapply rtc_l; [apply (signal_steps _ [] _ [])|]; cbn. eapply rtc_l; [apply (signal_steps _ [] _ [])|]; cbn.
    eapply rtc_l; [apply (signal_returns _ [] [])|]; cbn. apply rtc_refl. }
  eexists. split; [|split]; cycle 2.
  - destruct (event_not_lost _ Hc) as [H _]. destruct (H eq_refl eq_refl) as [Hw _]. apply (Hw 7 eq_refl).
  - reflexivity.
  - reflexivity.
Defined.
