(* ===== verification/Unreliable.v ===== *)
(** The unreliable channel of unreliable_channel.rs: messages are coalesced into
    packets, each with its length before it, and taken out of the packets that
    arrive. The packet queues are spsc channels. *)

From stdpp Require Import relations.
From S2P Require Import Prelude StreamPos BandwidthLimiter Packet Wire Async Spsc.

(** * Data *)

(** [unreliable_channel::SendError] and [RecvError]. *)
Inductive SendError := SendError_Disconnected | SendError_TooBig.
Inductive RecvError := RecvError_Disconnected | RecvError_BadFormat.

(** [unreliable_channel::Settings] *)
Record UnreliableSettings := mkUnreliableSettings {
  us_bandwidth : Z;
  us_burst_bandwidth : Z;
}.

(** [Timer::sleep] and the future it returns. *)
Class Sleeper (T Sl K : Type) := {
  sleep : T -> Duration -> T * Sl;
  poll_sleep : T -> Sl -> K -> T * Sl * bool;
}.

Section unreliable.
Context {T Instant P Pool Q W K Sl : Type}.
Context {TI : Timer T Instant} {SL : Sleeper T Sl K} {PI : Packet P} {PPI : PacketPool Pool P}.
Context {BO : ByteOrder} {CB : Crossbeam Q P} {AW : AtomicWaker W K}.

(** The channel: its half of the queue of outgoing packets, with the slot of the
    sender, and of the queue of incoming ones. *)
Record UnreliableChannel := mkUnreliableChannel {
  u_timer : T;
  u_pool : Pool;
  u_limiter : BandwidthLimiter Instant;
  u_sender : Shared Q W K * option P;
  u_receiver : Shared Q W K;
  u_out_packet : P;
  u_in_packet : option (P * Z);
  u_delay : option Sl;
}.

Definition set_u_timer v u := mkUnreliableChannel v (u_pool u) (u_limiter u) (u_sender u) (u_receiver u)
  (u_out_packet u) (u_in_packet u) (u_delay u).
Definition set_u_pool v u := mkUnreliableChannel (u_timer u) v (u_limiter u) (u_sender u) (u_receiver u)
  (u_out_packet u) (u_in_packet u) (u_delay u).
Definition set_u_limiter v u := mkUnreliableChannel (u_timer u) (u_pool u) v (u_sender u) (u_receiver u)
  (u_out_packet u) (u_in_packet u) (u_delay u).
Definition set_u_sender v u := mkUnreliableChannel (u_timer u) (u_pool u) (u_limiter u) v (u_receiver u)
  (u_out_packet u) (u_in_packet u) (u_delay u).
Definition set_u_receiver v u := mkUnreliableChannel (u_timer u) (u_pool u) (u_limiter u) (u_sender u) v
  (u_out_packet u) (u_in_packet u) (u_delay u).
Definition set_u_out v u := mkUnreliableChannel (u_timer u) (u_pool u) (u_limiter u) (u_sender u) (u_receiver u)
  v (u_in_packet u) (u_delay u).
Definition set_u_in v u := mkUnreliableChannel (u_timer u) (u_pool u) (u_limiter u) (u_sender u) (u_receiver u)
  (u_out_packet u) v (u_delay u).
Definition set_u_delay v u := mkUnreliableChannel (u_timer u) (u_pool u) (u_limiter u) (u_sender u) (u_receiver u)
  (u_out_packet u) (u_in_packet u) v.

Abbreviation u_poll := (polling UnreliableChannel).

Definition UnreliableChannel_new (timer : T) (packet_pool : Pool) (settings : UnreliableSettings)
    (sender : Shared Q W K * option P) (receiver : Shared Q W K) : UnreliableChannel :=
  let (packet_pool, out_packet) := acquire packet_pool in
  let (timer, limiter) :=
    BandwidthLimiter_new timer (us_bandwidth settings) (us_burst_bandwidth settings) in
  mkUnreliableChannel timer packet_pool limiter sender receiver out_packet None None.

(** [(capacity.min(MAX_PACKET_LEN as usize) as u16) - 2] *)
Definition max_message_len (u : UnreliableChannel) : res Z :=
  sub_u 16 (as_u16 (Z.min (pool_capacity (u_pool u)) MAX_PACKET_LEN)) 2.

(** * Sending *)

(** [StartSend]: the packet itself is that of the channel. *)
Record StartSend := mkStartSend { ss_start : Z; ss_capacity : Z }.

Definition StartSend_new {E} (capacity : Z) : u_poll E StartSend :=
  u ← get;
  let packet := u_out_packet u in
  _ ← lift (assert (zlen (deref packet) + 2 <=? capacity));
  let start := zlen (deref packet) in
  packet ← lift (resize packet capacity 0);
  _ ← modify (set_u_out packet);
  mret (mkStartSend start capacity).

(** [buffer()[0..msg.len()].copy_from_slice(msg)] *)
Definition StartSend_write {E} (s : StartSend) (msg : list Z) : u_poll E unit :=
  u ← get;
  _ ← lift (slice_from (deref (u_out_packet u)) (ss_start s + 2));
  packet ← lift (put_bytes (u_out_packet u) (ss_start s + 2) msg);
  modify (set_u_out packet).

Definition StartSend_finish {E} (s : StartSend) (msg_len : Z) : u_poll E unit :=
  room ← lift (usize_sub (ss_capacity s) (ss_start s));
  room ← lift (usize_sub room 2);
  _ ← lift (assert (msg_len <? room));
  msg_len ← lift (unwrap (if msg_len <=? u16_max then Some msg_len else None));
  u ← get;
  packet ← lift (put_bytes (u_out_packet u) (ss_start s) (write_u16 msg_len));
  packet ← lift (truncate packet (ss_start s + msg_len + 2));
  modify (set_u_out packet).

Definition start_send {E} : u_poll E StartSend :=
  u ← get; StartSend_new (pool_capacity (u_pool u)).

(** Run the sender's program on the outgoing queue. *)
Definition sender_poll {E R} (p : option P -> snd_prog P K (option P * R)) : u_poll E R :=
  u ← get;
  let (sh, slot) := u_sender u in
  let '(sh, (slot, r)) := snd_run (p slot) sh in
  _ ← modify (set_u_sender (sh, slot)); mret r.

Definition sender_err (r : Poll (unit + Disconnected)) : Poll (unit + SendError) :=
  match r with
  | Pending => Pending
  | Ready (inl _) => Ready (inl tt)
  | Ready (inr _) => Ready (inr SendError_Disconnected)
  end.

(** The delay of the limiter, set when there is none, and waited for. *)
Definition wait_bandwidth {E} (w : K) : u_poll E unit :=
  u ← get;
  _ ← match u_delay u with
      | Some _ => mret tt
      | None =>
        '(timer, l) ← lift (update_available (u_limiter u) (u_timer u));
        _ ← modify (set_u_timer timer);
        _ ← modify (set_u_limiter l);
        delay ← lift (delay_until_available l);
        match delay with
        | None => mret tt
        | Some d =>
          let (timer, sl) := sleep timer d in
          _ ← modify (set_u_timer timer); modify (set_u_delay (Some sl))
        end
      end;
  u ← get;
  match u_delay u with
  | None => mret tt
  | Some sl =>
    let '(timer, sl, done) := poll_sleep (u_timer u) sl w in
    _ ← modify (set_u_timer timer);
    _ ← modify (set_u_delay (Some sl));
    if done : bool then modify (set_u_delay None) else not_ready
  end.

Definition poll_flush (w : K) : u_poll SendError unit :=
  u ← get;
  if zlen (deref (u_out_packet u)) =? 0 then mret tt
  else
    _ ← wait_bandwidth w;
    r ← sender_poll (fun slot => Sender_poll_ready slot w);
    _ ← ready (sender_err r);
    u ← get;
    let out_packet := u_out_packet u in
    let (pool, fresh) := acquire (u_pool u) in
    _ ← modify (set_u_pool pool);
    _ ← modify (set_u_out fresh);
    _ ← modify (fun u => set_u_limiter (take_bytes (u_limiter u) (as_u32 (zlen (deref out_packet)))) u);
    slot ← lift (Sender_start_send (u_sender u).2 out_packet);
    _ ← modify (fun u => set_u_sender ((u_sender u).1, slot) u);
    r ← sender_poll (fun slot => Sender_poll_flush slot w);
    ready (sender_err r).

Definition poll_send_ready (w : K) (msg_len : Z) : u_poll SendError unit :=
  if u16_max <? msg_len then fail SendError_TooBig
  else
    u ← get;
    let start := zlen (deref (u_out_packet u)) in
    room ← lift (usize_sub (pool_capacity (u_pool u)) start);
    if room <? msg_len + 2 then
      _ ← poll_flush w;
      u ← get;
      if pool_capacity (u_pool u) <? msg_len + 2 then fail SendError_TooBig else mret tt
    else mret tt.

Definition poll_send (w : K) (msg : list Z) : u_poll SendError unit :=
  _ ← poll_send_ready w (zlen msg);
  send ← start_send;
  _ ← StartSend_write send msg;
  StartSend_finish send (zlen msg).

(** * Receiving *)

Definition poll_recv_ready (w : K) : u_poll RecvError unit :=
  u ← get;
  let in_packet := match u_in_packet u with
                   | Some (packet, in_pos) =>
                     if in_pos =? zlen (deref packet) then None else Some (packet, in_pos)
                   | None => None
                   end in
  _ ← modify (set_u_in in_packet);
  match in_packet with
  | Some _ => mret tt
  | None =>
    let (sh, r) := rcv_run (Receiver_poll_next w) (u_receiver u) in
    _ ← modify (set_u_receiver sh);
    match r with
    | Pending => not_ready
    | Ready None => fail RecvError_Disconnected
    | Ready (Some packet) => modify (set_u_in (Some (packet, 0)))
    end
  end.

(** Where in the packet the next message is to be read. *)
Definition recv_at (bytes : list Z) (in_pos : Z) : res (Z * (list Z + RecvError)) :=
  _ ← assert (negb (in_pos =? zlen bytes));
  if zlen bytes <? in_pos + 2 then Val (zlen bytes, inr RecvError_BadFormat)
  else
    header ← slice bytes in_pos (in_pos + 2);
    let length := read_u16 header in
    let in_pos := in_pos + 2 in
    if zlen bytes <? in_pos + length then Val (zlen bytes, inr RecvError_BadFormat)
    else
      msg ← slice bytes in_pos (in_pos + length);
      Val (in_pos + length, inl msg).

Definition recv_next : u_poll RecvError (list Z) :=
  u ← get;
  '(packet, in_pos) ← lift (unwrap (u_in_packet u));
  '(in_pos, r) ← lift (recv_at (deref packet) in_pos);
  _ ← modify (set_u_in (Some (packet, in_pos)));
  match r with inl msg => mret msg | inr e => fail e end.

Definition poll_recv (w : K) : u_poll RecvError (list Z) :=
  _ ← poll_recv_ready w; recv_next.

(** * The methods built on these *)

(** The polls of the futures of the [async]
    methods, and the methods that do not wait, which poll with a waker that does
    nothing. *)
Definition u_send (msg : list Z) (w : K) : u_poll SendError unit := poll_send w msg.
Definition u_try_send (noop : K) (msg : list Z) : handler UnreliableChannel SendError bool :=
  try_ready (poll_send noop msg).
Definition u_flush (w : K) : u_poll SendError unit := poll_flush w.
Definition u_try_flush (noop : K) : handler UnreliableChannel SendError bool := try_ready (poll_flush noop).
Definition u_recv (w : K) : u_poll RecvError (list Z) := _ ← poll_recv_ready w; recv_next.
Definition u_try_recv (noop : K) : handler UnreliableChannel RecvError (option (list Z)) :=
  try_poll (_ ← poll_recv_ready noop; recv_next).
End unreliable.

Arguments UnreliableChannel T Instant P Pool Q W K Sl : clear implicits.
