(* ===== verification/UnreliableSafety.v ===== *)
(** What the unreliable channel guarantees: the messages of a packet arrive as they
    were sent, any packet that is not empty is read to its end without a panic,
    and flushing loses no packet; and three inputs on which it fails. *)

From stdpp Require Import relations.
From Stdlib Require Import SpecFloat.
From S2P Require Import Prelude StreamPos BandwidthLimiter Packet Wire Async Spsc SpscSafety Unreliable.

(** * Reading a packet *)

Section reading.
Context {BO : ByteOrder} {BOL : ByteOrderLaws}.

(** A read moves forward and stays in the packet. *)
Lemma recv_at_ok bytes in_pos :
  0 <= in_pos < zlen bytes ->
  exists in_pos' r, recv_at bytes in_pos = Val (in_pos', r) /\ in_pos < in_pos' <= zlen bytes.
Proof.
  intros Hpos. unfold recv_at. rewrite (proj2 (Z.eqb_neq _ _)) by lia. cbn [negb assert mbind res_bind].
  destruct (Z.ltb_spec (zlen bytes) (in_pos + 2)); [eexists _, _; split; [done|lia]|].
  rewrite slice_ok by lia. cbn [mbind res_bind].
  set (h := ztake (in_pos + 2 - in_pos) (zdrop in_pos bytes)).
  assert (is_u16 (read_u16 h)) as Hu by (apply read_u16_range; subst h; rewrite zlen_sub; lia).
  unfold is_u16 in Hu. destruct (Z.ltb_spec (zlen bytes) (in_pos + 2 + read_u16 h)); [eexists _, _; split; [done|lia]|].
  rewrite slice_ok by lia. eexists _, _. split; [done|lia].
Qed.

Lemma recv_at_frame pre msg rest :
  zlen msg <= u16_max -> recv_at (pre ++ frame msg ++ rest) (zlen pre) = Val (zlen (pre ++ frame msg), inl msg).
Proof.
  intros Hm. assert (is_u16 (zlen msg)) as Hu by (unfold is_u16; zlen_facts; lia).
  pose proof (write_u16_len _ Hu) as H2. pose proof (zlen_nonneg rest). unfold frame in *. zlen_facts.
  unfold recv_at. rewrite !zlen_app, H2. rewrite (proj2 (Z.eqb_neq _ _)) by lia. cbn [negb assert mbind res_bind].
  rewrite (proj2 (Z.ltb_ge _ _)) by lia.
  pose proof (slice_mid pre (write_u16 (zlen msg)) (msg ++ rest)) as Hs1. rewrite H2 in Hs1.
  rewrite <- (app_assoc (write_u16 _)), Hs1. cbn [mbind res_bind]. rewrite read_write_u16 by done.
  rewrite (proj2 (Z.ltb_ge _ _)) by lia.
  pose proof (slice_mid (pre ++ write_u16 (zlen msg)) msg rest) as Hs2.
  rewrite zlen_app, H2, <- app_assoc in Hs2. rewrite Hs2. cbn [mbind res_bind]. do 2 f_equal. lia.
Qed.

End reading.

(** * Writing a message *)

Section sending.
Context {T Instant P Pool Q W K Sl : Type}.
Context {TI : Timer T Instant} {SL : Sleeper T Sl K} {PI : Packet P} {PL : PacketLaws P}.
Context {PPI : PacketPool Pool P} {PPL : PacketPoolLaws Pool P}.
Context {BO : ByteOrder} {BOL : ByteOrderLaws} {CB : Crossbeam Q P} {CL : CrossbeamLaws Q P} {AW : AtomicWaker W K}.

Abbreviation channel := (UnreliableChannel T Instant P Pool Q W K Sl).

(** The packet being filled has the capacity of the pool. *)
Definition u_inv (u : channel) : Prop :=
  packet_wf (u_out_packet u) /\ packet_capacity (u_out_packet u) = pool_capacity (u_pool u).

Definition out_bytes (u : channel) : list Z := deref (u_out_packet u).
Definition capacity (u : channel) : Z := pool_capacity (u_pool u).

(** Only the packet being filled has changed. *)
Definition out_changed (u : channel) (bytes : list Z) (u' : channel) : Prop :=
  exists p, u' = set_u_out p u /\ packet_wf p /\ deref p = bytes /\ packet_capacity p = capacity u.

Local Ltac proj := cbn [u_timer u_pool u_limiter u_sender u_receiver u_out_packet u_in_packet u_delay
  set_u_timer set_u_pool set_u_limiter set_u_sender set_u_receiver set_u_out set_u_in set_u_delay
  ss_start ss_capacity].
Local Ltac wp := repeat (wp_step; proj).

Lemma u_lens (u : channel) : u_inv u -> 0 <= zlen (out_bytes u) <= capacity u /\ capacity u < usize_modulus.
Proof.
  intros [Hwf Hc]. pose proof (deref_len _ Hwf). pose proof (pool_capacity_pos (u_pool u)).
  unfold capacity, out_bytes in *. zlen_facts. lia.
Qed.

Lemma start_send_ok {E} (u : channel) :
  u_inv u -> zlen (out_bytes u) + 2 <= capacity u ->
  completes (E := option E) start_send u (fun u' o =>
    o = inl (mkStartSend (zlen (out_bytes u)) (capacity u)) /\
    out_changed u (out_bytes u ++ replicate (Z.to_nat (capacity u - zlen (out_bytes u))) 0) u').
Proof.
  intros Hu Hroom. pose proof (u_lens u Hu). destruct Hu as [Hwf Hc]. unfold start_send, StartSend_new. wp.
  unfold out_bytes, capacity in *. rewrite (proj2 (Z.leb_le _ _)) by lia. wp.
  destruct (resize_ok (u_out_packet u) (pool_capacity (u_pool u)) 0 Hwf) as (p & Hp & Hpwf & Hd & Hcap); [lia|].
  apply completes_lift. rewrite Hp. cbn [returns]. wp. split; [done|]. exists p.
  rewrite resized_grow in Hd by lia. split_and!; try done. unfold capacity. congruence.
Qed.

(** The message and its header go into the room behind the messages so far. *)
Lemma write_ok {E} (u : channel) pre tail msg :
  u_inv u -> out_bytes u = pre ++ tail -> zlen (pre ++ tail) = capacity u -> 2 + zlen msg <= zlen tail ->
  completes (E := option E) (StartSend_write (mkStartSend (zlen pre) (capacity u)) msg) u (fun u' o =>
    o = inl tt /\ exists h rest, out_changed u (pre ++ h ++ msg ++ rest) u' /\ zlen h = 2 /\
      zlen rest = zlen tail - 2 - zlen msg).
Proof.
  intros Hu Hd Hcap Hroom. pose proof (u_lens u Hu). destruct Hu as [Hwf Hc]. unfold StartSend_write. wp.
  unfold out_bytes in *. rewrite zlen_app in Hcap. zlen_facts. apply completes_lift.
  rewrite Hd, slice_from_ok by (rewrite zlen_app; lia). cbn [returns]. wp.
  destruct (put_bytes_ok (u_out_packet u) (zlen pre + 2) msg Hwf) as (p & Hp & Hpwf & Hpd & Hpc);
    [lia|rewrite Hd, zlen_app; lia|].
  apply completes_lift. rewrite Hp. cbn [returns]. wp. split; [done|].
  exists (ztake 2 tail), (zdrop (2 + zlen msg) tail). rewrite zlen_ztake, zlen_zdrop. split; [|lia].
  exists p. split_and!; try done; [|unfold capacity; congruence].
  rewrite Hpd, Hd. set (h := ztake 2 tail).
  assert (tail = h ++ ztake (zlen msg) (zdrop 2 tail) ++ zdrop (2 + zlen msg) tail) as Ht.
  { rewrite <- (ztake_zdrop 2 tail) at 1. unfold h. f_equal.
    rewrite <- (ztake_zdrop (zlen msg) (zdrop 2 tail)) at 1. by rewrite zdrop_zdrop by lia. }
  rewrite Ht at 1. rewrite (app_assoc pre h).
  replace (zlen pre + 2) with (zlen (pre ++ h)) by (unfold h; rewrite zlen_app, zlen_ztake; lia).
  rewrite splice_mid by (rewrite zlen_sub; lia). by rewrite <- app_assoc.
Qed.

Lemma finish_ok {E} (u : channel) pre h msg rest :
  u_inv u -> out_bytes u = pre ++ h ++ msg ++ rest -> zlen h = 2 ->
  zlen (pre ++ h ++ msg ++ rest) = capacity u -> zlen msg <= u16_max -> 0 < zlen rest ->
  completes (E := option E) (StartSend_finish (mkStartSend (zlen pre) (capacity u)) (zlen msg)) u (fun u' o =>
    o = inl tt /\ out_changed u (pre ++ frame msg) u').
Proof.
  intros Hu Hd Hh Hcap Hm Hrest. pose proof (u_lens u Hu). destruct Hu as [Hwf Hc]. unfold StartSend_finish. wp.
  rewrite !zlen_app in Hcap. zlen_facts. unfold u16_max, out_bytes in *.
  apply completes_lift. rewrite usize_sub_ok by lia. cbn [returns]. wp.
  apply completes_lift. rewrite usize_sub_ok by lia. cbn [returns]. wp.
  rewrite (proj2 (Z.ltb_lt _ _)), (proj2 (Z.leb_le (zlen msg) 65535)) by lia. cbn [assert unwrap]. wp.
  assert (zlen (write_u16 (zlen msg)) = 2) as Hs2 by (apply write_u16_len; unfold is_u16, u16_max; lia).
  destruct (put_bytes_ok (u_out_packet u) (zlen pre) (write_u16 (zlen msg)) Hwf) as (p & Hp & Hpwf & Hpd & Hpc);
    [lia|rewrite Hd, !zlen_app; lia|].
  apply completes_lift. rewrite Hp. cbn [returns]. wp.
  rewrite Hd, splice_mid in Hpd by lia.
  destruct (truncate_ok p (zlen pre + zlen msg + 2) Hpwf) as (q & Hq & Hqwf & Hqd & Hqc); [lia|].
  apply completes_lift. rewrite Hq. cbn [returns]. wp. split; [done|]. exists q.
  split_and!; try done; [|unfold capacity; congruence]. unfold frame.
  rewrite Hqd, Hpd, !app_assoc, ztake_app_le by (rewrite !zlen_app; lia).
  by rewrite ztake_ge by (rewrite !zlen_app; lia).
Qed.

(** ... unless they fill the packet exactly. *)
Lemma finish_exact {E} (u : channel) (pre : list Z) n :
  0 <= n -> zlen pre + 2 + n = capacity u -> capacity u < usize_modulus ->
  StartSend_finish (E := E) (mkStartSend (zlen pre) (capacity u)) n u = Fault AssertFailed.
Proof.
  intros. pose proof (zlen_nonneg pre). unfold StartSend_finish, mbind, handler_bind, lift. cbn [ss_start ss_capacity].
  rewrite usize_sub_ok by lia. rewrite usize_sub_ok by lia.
  by rewrite (proj2 (Z.ltb_ge _ _)) by lia.
Qed.

Lemma out_changed_inv u bytes u' : u_inv u -> out_changed u bytes u' ->
  u_inv u' /\ out_bytes u' = bytes /\ capacity u' = capacity u.
Proof. intros [Hwf Hc] (p & -> & Hp & Hd & Hcap). unfold u_inv, out_bytes, capacity in *. by proj. Qed.

Lemma out_changed_trans u u1 u2 bytes1 bytes2 :
  out_changed u bytes1 u1 -> out_changed u1 bytes2 u2 -> out_changed u bytes2 u2.
Proof. intros (p1 & -> & _ & _ & _) (p2 & -> & ? & ? & ?). by exists p2. Qed.

(** A message that does not fill the packet is appended to it. *)
Lemma append_ok {E} (u : channel) msg :
  u_inv u -> zlen msg <= u16_max -> zlen (out_bytes u) + 2 + zlen msg < capacity u ->
  completes (E := option E) (send ← start_send; _ ← StartSend_write send msg; StartSend_finish send (zlen msg)) u
    (fun u' o => o = inl tt /\ out_changed u (out_bytes u ++ frame msg) u').
Proof.
  intros Hu Hm Hroom. pose proof (u_lens u Hu). zlen_facts. wp.
  eapply completes_mono; [apply (start_send_ok u Hu); lia|].
  intros u1 o (-> & Hs1). destruct (out_changed_inv _ _ _ Hu Hs1) as (Hu1 & Hd1 & Hc1). wp.
  set (pre := out_bytes u) in *. rewrite <- Hc1 in Hd1 |- *.
  set (tail := replicate (Z.to_nat (capacity u1 - zlen pre)) 0) in *.
  assert (zlen tail = capacity u1 - zlen pre) as Ht by (subst tail; rewrite zlen_replicate; lia).
  assert (zlen (pre ++ tail) = capacity u1) as Hl by (rewrite zlen_app; lia).
  eapply completes_mono; [apply (write_ok u1 pre tail msg Hu1 Hd1 Hl); lia|].
  intros u2 o (-> & h & rest & Hs2 & Hh & Hrest).
  destruct (out_changed_inv _ _ _ Hu1 Hs2) as (Hu2 & Hd2 & Hc2). wp. rewrite <- Hc2.
  eapply completes_mono; [apply (finish_ok u2 pre h msg rest Hu2 Hd2 Hh)|]; [|done|lia|].
  - rewrite !zlen_app. lia.
  - intros u3 o (-> & Hs3). split; [done|]. by eapply out_changed_trans, out_changed_trans.
Qed.

Lemma poll_send_ready_fits w (u : channel) n :
  u_inv u -> n <= u16_max -> zlen (out_bytes u) + 2 + n <= capacity u ->
  completes (poll_send_ready w n) u (fun u' o => u' = u /\ o = inl tt).
Proof.
  intros Hu Hm Hroom. pose proof (u_lens u Hu). unfold poll_send_ready.
  rewrite (proj2 (Z.ltb_ge _ _)) by lia. wp. unfold out_bytes, capacity in *.
  apply completes_lift. rewrite usize_sub_ok by lia. cbn [returns]. wp.
  rewrite (proj2 (Z.ltb_ge _ _)) by lia. by wp.
Qed.

Lemma poll_send_ok w (u : channel) msg :
  u_inv u -> zlen msg <= u16_max -> zlen (out_bytes u) + 2 + zlen msg < capacity u ->
  completes (poll_send w msg) u (fun u' o => o = inl tt /\ out_changed u (out_bytes u ++ frame msg) u').
Proof.
  intros Hu Hm Hroom. unfold poll_send. apply completes_bind.
  eapply completes_mono; [apply poll_send_ready_fits; [done|lia..]|]. intros ? ? [-> ->]. by apply append_ok.
Qed.

(** * Flushing *)

Lemma sender_poll_ok {E R} (u : channel) (p : option P -> snd_prog P K (option P * R)) (Q0 : channel -> R + option E -> Prop) :
  (let '(sh, (slot, r)) := snd_run (p (u_sender u).2) (u_sender u).1 in Q0 (set_u_sender (sh, slot) u) (inl r)) ->
  completes (sender_poll p) u Q0.
Proof.
  intros H. unfold sender_poll. wp. destruct (u_sender u) as [sh slot]. cbn in H.
  destruct (snd_run (p slot) sh) as [sh' [slot' r]]. wp. exact H.
Qed.

(** What waiting for bandwidth leaves alone. *)
Record same_packets (u u' : channel) : Prop := {
  sk_pool : u_pool u' = u_pool u;
  sk_sender : u_sender u' = u_sender u;
  sk_receiver : u_receiver u' = u_receiver u;
  sk_out : u_out_packet u' = u_out_packet u;
  sk_in : u_in_packet u' = u_in_packet u;
}.

(** The clock and the limiter give an answer: none of their arithmetic panics. *)
Definition limiter_ok (u : channel) : Prop :=
  u_delay u <> None \/
  exists timer l d, update_available (u_limiter u) (u_timer u) = Val (timer, l) /\ delay_until_available l = Val d.

(** Whether the wait for bandwidth is over at once. *)
Definition bandwidth_ready (w : K) (u : channel) : bool :=
  match u_delay u with
  | Some sl => (poll_sleep (u_timer u) sl w).2
  | None =>
    match ('(timer, l) ← update_available (u_limiter u) (u_timer u); d ← delay_until_available l; Val (timer, d)) with
    | Val (_, None) => true
    | Val (timer, Some d) => let (timer, sl) := sleep timer d in (poll_sleep timer sl w).2
    | Fault _ => false
    end
  end.

Lemma wait_bandwidth_ok {E} w (u : channel) :
  limiter_ok u -> completes (E := option E) (wait_bandwidth w) u (fun u' o =>
    same_packets u u' /\ o = if bandwidth_ready w u then inl tt else inr None).
Proof.
  intros Hl. unfold wait_bandwidth, bandwidth_ready. wp.
  assert (forall u1 : channel, same_packets u u1 ->
    completes (E := option E) (match u_delay u1 with
      | None => mret tt
      | Some sl =>
        let '(timer, sl, done) := poll_sleep (u_timer u1) sl w in
        _ ← modify (set_u_timer timer);
        _ ← modify (set_u_delay (Some sl));
        if done : bool then modify (set_u_delay None) else not_ready
      end) u1 (fun u' o => same_packets u u' /\
        o = if match u_delay u1 with Some sl => (poll_sleep (u_timer u1) sl w).2 | None => true end then inl tt else inr None)) as Hpoll.
  { intros u1 []. destruct (u_delay u1) as [sl|]; [|by wp]. destruct (poll_sleep (u_timer u1) sl w) as [[tm sl'] []]; by wp. }
  destruct (u_delay u) as [sl|] eqn:Hd.
  { wp. rewrite Hd. specialize (Hpoll u). rewrite Hd in Hpoll. by apply Hpoll. }
  destruct Hl as [?|(timer & l & d & Hup & Hdel)]; [congruence|].
  wp. apply completes_lift. rewrite Hup. cbn [returns]. wp. apply completes_lift. rewrite Hdel. cbn [returns mbind res_bind].
  rewrite Hdel. cbn [mbind res_bind]. destruct d as [d|].
  - destruct (sleep timer d) as [tm sl]. wp.
    match goal with |- completes _ ?u1 _ => exact (Hpoll u1 ltac:(by split)) end.
  - wp. specialize (Hpoll (set_u_limiter l (set_u_timer timer u)) ltac:(by split)). proj.
    cbn [u_delay set_u_limiter set_u_timer] in Hpoll. rewrite Hd in Hpoll |- *. exact Hpoll.
Qed.

(** The packets on their way out: in the queue, in the slot, being filled. *)
Definition outgoing (u : channel) : list P :=
  cb_items (channel_ (u_sender u).1) ++ option_list (u_sender u).2 ++
  (if zlen (out_bytes u) =? 0 then [] else [u_out_packet u]).

Lemma acquire_fresh (u : channel) :
  let q := (acquire (u_pool u)).2 in
  packet_wf q /\ packet_capacity q = capacity u /\ deref q = [] /\
  pool_capacity (acquire (u_pool u)).1 = capacity u.
Proof.
  cbn zeta. destruct (acquire_ok (u_pool u)) as (? & ? & ?). pose proof (acquire_empty (u_pool u)). done.
Qed.

(** How a flush ends: at once when there is nothing to send; else once there is bandwidth,
    and room in the queue for the packet behind the one in the slot. *)
Definition flush_outcome (w : K) (u : channel) : unit + option SendError :=
  let q := channel_ (u_sender u).1 in
  if zlen (out_bytes u) =? 0 then inl tt
  else if negb (bandwidth_ready w u) then inr None
  else if negb (cb_receiver q) then inr (Some SendError_Disconnected)
  else if zlen (cb_items q ++ option_list (u_sender u).2) <? cb_cap q then inl tt
  else inr None.

(** What a flush leaves: every packet that was on its way still is, unless the other
    side is gone. *)
Definition flushed (u u' : channel) (o : unit + option SendError) : Prop :=
  u_inv u' /\ capacity u' = capacity u /\ (o <> inr (Some SendError_Disconnected) -> outgoing u' = outgoing u) /\
  match o with inl _ => out_bytes u' = [] | inr _ => True end.

(** The packet goes into the slot of the sender, and from there into the queue. *)
Lemma flush_packet_ok w (u : channel) s :
  u_inv u -> out_bytes u <> [] -> bandwidth_ready w u = true -> same_queue (u_sender u).1 s ->
  cb_items (channel_ s) = cb_items (channel_ (u_sender u).1) ++ option_list (u_sender u).2 ->
  forall u1 pool q, u_out_packet u1 = q -> u_pool u1 = pool -> packet_wf q -> packet_capacity q = capacity u ->
    deref q = [] -> pool_capacity pool = capacity u -> u_sender u1 = (s, Some (u_out_packet u)) ->
  completes (r ← sender_poll (fun slot => Sender_poll_flush slot w); ready (sender_err r)) u1 (fun u' o =>
    o = flush_outcome w u /\ flushed u u' o).
Proof.
  intros Hu Hne Hb Hq2 Hi u1 pool q Hout Hpool Hqwf Hqc Hqd Hpc Hsnd. unfold flush_outcome. cbn zeta. rewrite Hb.
  rewrite (proj2 (Z.eqb_neq _ _)) by (intros Hz; by apply Hne, zlen_zero_nil). cbn [negb]. wp.
  apply sender_poll_ok. rewrite Hsnd. cbn [fst snd].
  destruct (poll_ready_run (Some (u_out_packet u)) w s) as (s3 & slot3 & r3 & Hrun & Hq3 & Hr3).
  unfold Sender_poll_flush. rewrite Hrun. rewrite <- Hi. destruct Hq2 as (Hcap & _ & Hal). rewrite <- Hcap, <- Hal.
  assert (forall u' : channel, u_out_packet u' = q -> u_pool u' = pool -> u_inv u' /\ capacity u' = capacity u /\ out_bytes u' = []) as Hfresh.
  { intros u' Ho Hp. unfold u_inv, out_bytes, capacity in *. rewrite Ho, Hp, Hqd. split_and!; congruence. }
  assert (forall u' : channel, u_out_packet u' = q -> outgoing u' = cb_items (channel_ (u_sender u').1) ++ option_list (u_sender u').2) as Hgo.
  { intros u' Ho. unfold outgoing, out_bytes. rewrite Ho, Hqd. cbn. by rewrite app_nil_r. }
  assert (outgoing u = cb_items (channel_ s) ++ [u_out_packet u]) as Hold.
  { unfold outgoing. rewrite (proj2 (Z.eqb_neq _ _)), Hi, <- app_assoc by (intros Hz; by apply Hne, zlen_zero_nil). done. }
  destruct r3 as [|[[]|e]]; cbn [sender_err ready]; unfold not_ready, fail; wp;
    match goal with |- _ = _ /\ flushed _ ?u2 _ =>
      destruct (Hfresh u2 Hout Hpool) as (? & ? & ?); specialize (Hgo u2 Hout); cbn [u_sender set_u_sender fst snd] in Hgo end.
  - destruct Hr3 as (-> & _ & Hi3 & -> & Hlt). cbn [negb]. rewrite (proj2 (Z.ltb_ge _ _)) by done.
    split; [done|]. split_and!; try done. intros _. by rewrite Hgo, Hold, Hi3.
  - destruct Hr3 as (-> & Hi3 & Hlt). destruct Hlt as [-> ?]; [done|]. cbn [negb]. rewrite (proj2 (Z.ltb_lt _ _)) by done.
    split; [done|]. split_and!; try done. intros _. by rewrite Hgo, Hold, Hi3, app_nil_r.
  - destruct Hr3 as (-> & _). split; [done|]. split_and!; try done.
Qed.

Lemma poll_flush_ok w (u : channel) :
  u_inv u -> limiter_ok u ->
  completes (poll_flush w) u (fun u' o => o = flush_outcome w u /\ flushed u u' o).
Proof.
  intros Hu Hl. unfold poll_flush. wp. unfold flush_outcome at 1. cbn zeta. unfold out_bytes at 1.
  destruct (Z.eqb_spec (zlen (deref (u_out_packet u))) 0) as [Hz|Hz].
  { wp. split; [done|]. split_and!; try done. by apply zlen_zero_nil. }
  assert (out_bytes u <> []) as Hne by (unfold out_bytes; intros Hn; by rewrite Hn in Hz).
  wp. eapply completes_mono; [by apply wait_bandwidth_ok|]. intros u1 o ([Hpool Hsnd Hrcv Hout Hin] & ->).
  assert (forall u2 : channel, u_pool u2 = u_pool u -> u_out_packet u2 = u_out_packet u ->
    cb_items (channel_ (u_sender u2).1) = cb_items (channel_ (u_sender u).1) -> (u_sender u2).2 = (u_sender u).2 ->
    flushed u u2 (inr None)) as Hsame.
  { intros u2 Hp Ho Hi Hs. unfold flushed, u_inv, capacity, outgoing, out_bytes in *. rewrite Hp, Ho, Hi, Hs. by destruct Hu; split_and!. }
  destruct (bandwidth_ready w u) eqn:Hb; cbn [negb]; [|split; [done|]; apply Hsame; by rewrite ?Hsnd].
  wp. apply sender_poll_ok. rewrite Hsnd.
  destruct (poll_ready_run (u_sender u).2 w (u_sender u).1) as (s2 & slot2 & r2 & -> & Hq2 & Hr2).
  destruct r2 as [|[[]|e]]; cbn [sender_err ready]; unfold not_ready, fail; wp.
  - destruct Hr2 as (-> & Hslot & Hi & -> & Hfull). cbn [negb]. destruct (u_sender u).2 as [p|] eqn:Hs; [|done].
    rewrite (proj2 (Z.ltb_ge _ _)) by (rewrite zlen_app; change (zlen (option_list (Some p))) with 1; lia).
    split; [done|]. apply Hsame; proj; cbn [u_sender set_u_sender fst snd]; congruence.
  - destruct Hr2 as (-> & Hi & _). proj. destruct (acquire_fresh u) as (Hqwf & Hqc & Hqd & Hpc).
    rewrite Hpool, Hout. destruct (acquire (u_pool u)) as [pool q]. cbn in Hqwf, Hqc, Hqd, Hpc. wp.
    apply completes_lift. cbn [Sender_start_send fst snd returns u_sender set_u_sender].
    apply completes_bind, completes_modify. cbn beta iota. eapply completes_mono; [by apply (flush_packet_ok w u s2 Hu Hne Hb Hq2 Hi _ pool q)|].
    intros u' o [-> Hf]. split; [|exact Hf]. unfold flush_outcome, out_bytes. cbn zeta. by rewrite (proj2 (Z.eqb_neq _ _)), Hb by done.
  - destruct Hr2 as (-> & _ & _ & Hi). split; [done|].
    unfold flushed, u_inv, capacity in *; proj. rewrite Hpool, Hout. destruct Hu. split_and!; try done.
Qed.

(** The bytes of the packets on their way out. *)
Definition stream (u : channel) : list Z := concat (deref <$> outgoing u).

Lemma stream_eq (u : channel) :
  stream u = concat (deref <$> (cb_items (channel_ (u_sender u).1) ++ option_list (u_sender u).2)) ++ out_bytes u.
Proof.
  unfold stream, outgoing. rewrite app_assoc, fmap_app, concat_app. f_equal.
  destruct (Z.eqb_spec (zlen (out_bytes u)) 0) as [Hz|]; cbn; [by rewrite (zlen_zero_nil _ Hz)|by rewrite app_nil_r].
Qed.

Lemma out_changed_stream (u u' : channel) bytes :
  out_changed u (out_bytes u ++ bytes) u' -> stream u' = stream u ++ bytes.
Proof.
  intros (p & -> & _ & Hd & _). rewrite !stream_eq. unfold out_bytes in *. proj. by rewrite Hd, <- !app_assoc.
Qed.

(** How sending a message of [n] bytes ends: at once when it fits behind the others, and
    else after a flush; it is too big when a header cannot say its length, or when it is
    longer than a packet. *)
Definition send_outcome (w : K) (u : channel) (n : Z) : unit + option SendError :=
  if u16_max <? n then inr (Some SendError_TooBig)
  else if zlen (out_bytes u) + 2 + n <=? capacity u then inl tt
  else
    match flush_outcome w u with
    | inl _ => if capacity u <? 2 + n then inr (Some SendError_TooBig) else inl tt
    | inr e => inr e
    end.

(** What a call has left, that has sent nothing. *)
Record nothing_sent (u u' : channel) (o : unit + option SendError) : Prop := {
  ns_inv : u_inv u';
  ns_capacity : capacity u' = capacity u;
  ns_stream : o <> inr (Some SendError_Disconnected) -> stream u' = stream u;
}.

Lemma poll_send_ready_ok w (u : channel) n :
  u_inv u -> limiter_ok u -> 0 <= n ->
  completes (poll_send_ready w n) u (fun u' o =>
    o = send_outcome w u n /\ nothing_sent u u' o /\ (u16_max < n -> u' = u) /\
    match o with
    | inl _ => n <= u16_max /\ n + 2 <= capacity u /\
        (out_bytes u' = [] \/ u' = u /\ zlen (out_bytes u) + 2 + n <= capacity u)
    | inr _ => True
    end).
Proof.
  intros Hu Hl Hn. pose proof (u_lens u Hu) as Hlen. unfold poll_send_ready, send_outcome.
  destruct (Z.ltb_spec u16_max n); [unfold fail; wp; by split_and!|]. wp.
  unfold out_bytes, capacity in Hlen. apply completes_lift. rewrite usize_sub_ok by lia. cbn [returns]. wp.
  fold (capacity u). fold (out_bytes u). destruct (Z.ltb_spec (capacity u - zlen (out_bytes u)) (n + 2)); cycle 1.
  { wp. rewrite (proj2 (Z.leb_le _ _)) by lia. zlen_facts. split_and!; [done|done|lia|lia|lia|]. right. split; [done|lia]. }
  rewrite (proj2 (Z.leb_gt _ _)) by lia.
  wp. eapply completes_mono; [by apply poll_flush_ok|]. intros u' o (Ho & Hu' & Hc & Hgo & Hout). rewrite <- Ho.
  assert (nothing_sent u u' o) as [? ? Hns] by (split; try done; unfold stream; intros Hd; by rewrite Hgo).
  destruct o as [[]|e]; [|wp; split; [done|]; split; [by split|]; split; [lia|done]].
  specialize (Hns ltac:(done)). wp. fold (capacity u'). rewrite Hc, (Z.add_comm 2 n).
  destruct (Z.ltb_spec (capacity u) (n + 2)); unfold fail; wp; (split; [done|]; split; [by split|]; split; [lia|]); [done|].
  split_and!; [lia..|]. by left.
Qed.

(** C35. [poll_send] on every branch (the exact fit apart, on which the code panics). It
    reports [TooBig] at once for a message that is longer than a header can say, and
    else succeeds at once when the message fits behind those coalesced. Otherwise these
    are flushed first, which is not ready as long as there is no bandwidth or no room in
    the queue, and fails when the other side is gone; after that it reports [TooBig] when
    the message is longer than a packet, and else succeeds. On success the frame of the
    message is appended to what is on its way, at the end of one packet; without, unless
    the other side is gone, what was sent before is still on its way, in the same order. *)
Theorem poll_send_correct w (u : channel) (msg : list Z) :
  u_inv u -> limiter_ok u -> 2 + zlen msg <> capacity u -> zlen (out_bytes u) + 2 + zlen msg <> capacity u ->
  completes (poll_send w msg) u (fun u' o =>
    o = send_outcome w u (zlen msg) /\ u_inv u' /\ capacity u' = capacity u /\ (u16_max < zlen msg -> u' = u) /\
    match o with
    | inl _ => stream u' = stream u ++ frame msg /\ exists before, out_bytes u' = before ++ frame msg
    | inr (Some SendError_Disconnected) => cb_receiver (channel_ (u_sender u).1) = false
    | inr _ => stream u' = stream u
    end).
Proof.
  intros Hu Hl Hex Hex'. zlen_facts. unfold poll_send. apply completes_bind.
  eapply completes_mono; [by apply poll_send_ready_ok|].
  intros u1 o (Hsend & [Hu1 Hc1 Hs1] & Hbig & Ho). destruct o as [[]|e]; cycle 1.
  { split_and!; try done. destruct e as [[]|]; [|by apply Hs1..].
    unfold send_outcome, flush_outcome in Hsend. cbn zeta in Hsend. destruct (cb_receiver _); [|done].
    cbn [negb] in Hsend. exfalso. repeat (case_match; simplify_eq). }
  destruct Ho as (Hm & Hcap & Hroom).
  assert (zlen (out_bytes u1) + 2 + zlen msg < capacity u1) as Hfit.
  { rewrite Hc1. destruct Hroom as [Hn|[-> ?]]; [rewrite Hn; change (zlen []) with 0; lia|lia]. }
  eapply completes_mono; [by apply (append_ok u1 msg Hu1)|]. intros u2 o (-> & Hs2).
  destruct (out_changed_inv _ _ _ Hu1 Hs2) as (Hu2 & Hd2 & Hc2).
  split_and!; [done|done|congruence|lia|by rewrite (out_changed_stream _ _ _ Hs2), Hs1|by eexists].
Qed.

(** * Receiving *)

(** The packet being read and those that wait: the position is in the packet, and no
    packet is empty. *)
Definition r_inv (u : channel) : Prop :=
  match u_in_packet u with
  | Some (p, in_pos) => packet_wf p /\ 0 <= in_pos <= zlen (deref p)
  | None => True
  end /\
  Forall (fun p => packet_wf p /\ deref p <> []) (cb_items (channel_ (u_receiver u))).

(** The bytes that are still to be read. *)
Definition unread (u : channel) : Z :=
  match u_in_packet u with Some (p, in_pos) => zlen (deref p) - in_pos | None => 0 end +
  zlen (concat (deref <$> cb_items (channel_ (u_receiver u)))).

(** After [poll_recv_ready] there is a packet with bytes to read. *)
Lemma poll_recv_ready_ok w (u : channel) :
  r_inv u ->
  completes (poll_recv_ready w) u (fun u' o => r_inv u' /\
    match o with
    | inl _ => unread u' = unread u /\ exists p in_pos, u_in_packet u' = Some (p, in_pos) /\ in_pos < zlen (deref p)
    | inr None => unread u = 0 /\ cb_sender (channel_ (u_receiver u)) = true
    | inr (Some e) => e = RecvError_Disconnected /\ unread u = 0 /\ cb_sender (channel_ (u_receiver u)) = false
    end).
Proof.
  intros [Hin Hq]. unfold poll_recv_ready. wp. unfold r_inv, unread in *.
  set (inp := match u_in_packet u with Some (packet, in_pos) =>
    if in_pos =? zlen (deref packet) then None else Some (packet, in_pos) | None => None end).
  assert (match u_in_packet u with Some (p, in_pos) => zlen (deref p) - in_pos | None => 0 end =
          match inp with Some (p, in_pos) => zlen (deref p) - in_pos | None => 0 end /\
          match inp with Some (p, in_pos) => packet_wf p /\ 0 <= in_pos < zlen (deref p) | None => True end) as [-> Hinp].
  { subst inp. destruct (u_in_packet u) as [[p pos]|]; [|done]. destruct (Z.eqb_spec pos (zlen (deref p))); [lia|].
    split; [done|]. split; [apply Hin|lia]. }
  destruct inp as [[p pos]|]; wp.
  { split; [split; [|done]; split; [apply Hinp|lia]|]. split; [done|]. exists p, pos. split; [done|lia]. }
  pose proof (poll_next_run w (u_receiver u)) as (s' & r & -> & _ & Hr).
  destruct (cb_items (channel_ (u_receiver u))) as [|p ps]; destruct Hr as [-> Hi].
  - destruct (cb_sender (channel_ (u_receiver u))); wp; unfold not_ready, fail; wp; rewrite Hi; by split_and!.
  - wp. rewrite Hi. apply Forall_cons in Hq as [[Hwf Hne] Hq]. cbn [fmap list_fmap concat]. rewrite zlen_app. zlen_facts.
    split; [split; [split; [done|lia]|done]|]. split; [lia|]. exists p, 0. split; [done|].
    destruct (deref p); [done|]. rewrite zlen_cons. zlen_facts. lia.
Qed.

(** C36. Reading never panics and comes to an end, whatever bytes the peer sends: as
    long as no packet is empty, every call of [poll_recv] that gives a message or
    reports a badly formatted packet consumes some of the bytes that were to be read,
    and it waits, or reports that the other side is gone, only when there are none. *)
Theorem unreliable_recv_total w (u : channel) :
  r_inv u ->
  completes (poll_recv w) u (fun u' o => r_inv u' /\
    match o with
    | inl _ | inr (Some RecvError_BadFormat) => 0 <= unread u' < unread u
    | inr None => unread u = 0 /\ cb_sender (channel_ (u_receiver u)) = true
    | inr (Some RecvError_Disconnected) => unread u = 0 /\ cb_sender (channel_ (u_receiver u)) = false
    end).
Proof.
  intros Hu. unfold poll_recv. apply completes_bind. eapply completes_mono; [by apply poll_recv_ready_ok|].
  intros u1 o [Hu1 Ho]. destruct o as [[]|[e|]]; [|by destruct Ho as (-> & ? & ?)|done].
  destruct Ho as (Hun & p & pos & Hp & Hpos). rewrite <- Hun. clear Hun. unfold r_inv, unread in *. rewrite Hp in *.
  destruct Hu1 as [[Hwf Hpos'] Hq]. unfold recv_next. wp.
  rewrite Hp. apply completes_lift. cbn [unwrap returns]. wp.
  destruct (recv_at_ok (deref p) pos) as (pos' & r & Hr & ?); [lia..|].
  apply completes_lift. rewrite Hr. cbn [returns]. wp. zlen_facts.
  destruct r as [msg|e]; [wp|unfold fail; wp].
  - split; [split; [split; [done|lia]|done]|]. lia.
  - assert (e = RecvError_BadFormat) as ->; [|split; [split; [split; [done|lia]|done]|lia]].
    clear -Hr. unfold recv_at, assert, mbind, res_bind in Hr.
    repeat case_match; by simplify_eq.
Qed.

(** * From one side to the other *)

(** The messages sent one after another, and received one after another. *)
Fixpoint poll_sends (w : K) (msgs : list (list Z)) : polling channel SendError unit :=
  match msgs with
  | [] => mret tt
  | msg :: msgs => _ ← poll_send w msg; poll_sends w msgs
  end.
Fixpoint poll_recvs (w : K) (n : nat) : polling channel RecvError (list (list Z)) :=
  match n with
  | O => mret []
  | S n => msg ← poll_recv w; msgs ← poll_recvs w n; mret (msg :: msgs)
  end.

Lemma poll_sends_ok w msgs : Forall (fun m => zlen m <= u16_max) msgs -> forall u : channel,
  u_inv u -> zlen (out_bytes u) + zlen (concat (frame <$> msgs)) < capacity u ->
  completes (poll_sends w msgs) u (fun u' o =>
    o = inl tt /\ out_changed u (out_bytes u ++ concat (frame <$> msgs)) u').
Proof.
  induction 1 as [|msg msgs Hm Hms IH]; intros u Hu Hroom; cbn [poll_sends fmap list_fmap concat] in *.
  - wp. split; [done|]. rewrite app_nil_r. exists (u_out_packet u). destruct Hu. split_and!; try done. by destruct u.
  - rewrite zlen_app, zlen_frame in Hroom by done. zlen_facts. apply completes_bind.
    eapply completes_mono; [apply poll_send_ok; [done..|lia]|]. intros u1 o (-> & Hs1).
    destruct (out_changed_inv _ _ _ Hu Hs1) as (Hu1 & Hd1 & Hc1).
    eapply completes_mono; [apply (IH u1 Hu1); rewrite Hd1, Hc1, zlen_app, zlen_frame by done; lia|].
    intros u2 o (-> & Hs2). split; [done|]. rewrite Hd1, <- app_assoc in Hs2. by eapply out_changed_trans.
Qed.

(** Reading on in a packet of frames: one, and several. *)
Lemma poll_recv_frame w p (u : channel) pre msg rest :
  zlen msg <= u16_max -> deref p = pre ++ frame msg ++ rest -> u_in_packet u = Some (p, zlen pre) ->
  completes (poll_recv w) u (fun u' o =>
    o = inl msg /\ u_in_packet u' = Some (p, zlen (pre ++ frame msg)) /\ u_receiver u' = u_receiver u /\ u_pool u' = u_pool u).
Proof.
  intros Hm Hd Hin. pose proof (zlen_frame msg Hm) as Hf. zlen_facts. unfold poll_recv, poll_recv_ready, recv_next. wp. rewrite Hin.
  rewrite (proj2 (Z.eqb_neq _ _)) by (rewrite Hd, !zlen_app; zlen_facts; lia). wp.
  apply completes_lift. cbn [unwrap returns]. wp.
  apply completes_lift. rewrite Hd, recv_at_frame by done. cbn [returns]. by wp.
Qed.

Lemma poll_recvs_ok w p msgs : Forall (fun m => zlen m <= u16_max) msgs -> forall (u : channel) pre,
  deref p = pre ++ concat (frame <$> msgs) -> u_in_packet u = Some (p, zlen pre) ->
  completes (poll_recvs w (length msgs)) u (fun u' o =>
    o = inl msgs /\ u_in_packet u' = Some (p, zlen (deref p)) /\ u_receiver u' = u_receiver u).
Proof.
  induction 1 as [|msg msgs Hm Hms IH]; intros u pre Hd Hin; cbn [length poll_recvs fmap list_fmap concat] in *.
  - wp. rewrite app_nil_r in Hd. by rewrite Hd.
  - apply completes_bind. eapply completes_mono; [by eapply poll_recv_frame|]. intros u1 o (-> & Hp1 & Hr1 & _).
    apply completes_bind. eapply completes_mono; [apply (IH _ (pre ++ frame msg)); [by rewrite <- app_assoc|done]|].
    intros u2 o (-> & Hp & Hr). wp. split_and!; [done|by rewrite Hp|by rewrite Hr].
Qed.

(** The first read of a packet takes it from the queue. *)
Lemma poll_recv_packet w (v : channel) p packets :
  u_in_packet v = None -> cb_items (channel_ (u_receiver v)) = p :: packets -> deref p <> [] ->
  exists v1, u_in_packet v1 = Some (p, 0) /\ cb_items (channel_ (u_receiver v1)) = packets /\
    u_pool v1 = u_pool v /\ poll_recv w v = poll_recv w v1.
Proof.
  intros Hin Hq Hp. pose proof (poll_next_run w (u_receiver v)) as (s' & r & Hrun & _ & Hr).
  rewrite Hq in Hr. destruct Hr as [-> Hi]. exists (set_u_in (Some (p, 0)) (set_u_receiver s' (set_u_in None v))).
  split_and!; [done..|]. unfold poll_recv, poll_recv_ready, mbind, handler_bind, get, modify. rewrite Hin. proj.
  rewrite Hrun. rewrite (proj2 (Z.eqb_neq _ _)); [reflexivity|].
  destruct (deref p); [done|]. rewrite zlen_cons. zlen_facts. lia.
Qed.

(** Messages that fit together into a packet are coalesced into one, and the other
    side, when that packet is the next in its queue, reads exactly these messages
    from it, in order. *)
Theorem unreliable_roundtrip w w' (u v : channel) (msgs : list (list Z)) :
  u_inv u -> out_bytes u = [] -> msgs <> [] -> Forall (fun m => zlen m <= u16_max) msgs ->
  zlen (concat (frame <$> msgs)) < capacity u ->
  completes (poll_sends w msgs) u (fun u' o =>
    o = inl tt /\ u_sender u' = u_sender u /\
    forall packets, u_in_packet v = None -> cb_items (channel_ (u_receiver v)) = u_out_packet u' :: packets ->
      completes (poll_recvs w' (length msgs)) v (fun v' o =>
        o = inl msgs /\ cb_items (channel_ (u_receiver v')) = packets)).
Proof.
  intros Hu Hn Hne Hms Hroom.
  eapply completes_mono; [apply poll_sends_ok; [done..|rewrite Hn; change (zlen []) with 0; lia]|].
  intros u' o (-> & p & -> & Hwf & Hd & _). proj. split_and!; [done..|]. intros packets Hin Hq.
  rewrite Hn in Hd. change ([] ++ ?x) with x in Hd. destruct msgs as [|msg msgs]; [done|].
  assert (deref p <> []) as Hp.
  { rewrite Hd. cbn [fmap list_fmap concat]. apply Forall_cons in Hms as [Hm _].
    pose proof (zlen_frame msg Hm). destruct (frame msg); [|done]. change (zlen []) with 0 in *. zlen_facts. lia. }
  destruct (poll_recv_packet w' v p packets Hin Hq Hp) as (v1 & Hin1 & Hq1 & _ & Heq).
  pose proof (poll_recvs_ok w' p _ Hms v1 [] Hd Hin1) as Hrec. cbn [length] in *.
  assert (poll_recvs w' (S (length msgs)) v = poll_recvs w' (S (length msgs)) v1) as Hrun
    by (cbn [poll_recvs]; unfold mbind, handler_bind; by rewrite Heq).
  unfold completes in *. rewrite Hrun. eapply completes_mono; [exact Hrec|].
  intros v' o (-> & _ & ->). by rewrite Hq1.
Qed.

(** * Inputs on which it fails *)

(** A message that fills the packet exactly passes [poll_send_ready]. *)
Lemma poll_send_exact w (u : channel) msg :
  u_inv u -> zlen msg <= u16_max -> zlen (out_bytes u) + 2 + zlen msg = capacity u ->
  poll_send w msg u = Fault AssertFailed.
Proof.
  intros Hu Hm Hroom. pose proof (u_lens u Hu). zlen_facts.
  pose proof (poll_send_ready_fits w u (zlen msg) Hu Hm ltac:(lia)) as Hr.
  apply completes_inv in Hr as (u0 & o & Hr & -> & ->).
  pose proof (start_send_ok (E := SendError) u Hu ltac:(lia)) as Hs1.
  apply completes_inv in Hs1 as (u1 & o & Hrun1 & -> & Hs1).
  destruct (out_changed_inv _ _ _ Hu Hs1) as (Hu1 & Hd1 & Hc1). rewrite <- Hc1 in Hd1, Hrun1, Hroom.
  pose proof (write_ok (E := SendError) u1 (out_bytes u) _ msg Hu1 Hd1) as Hs2.
  rewrite zlen_app, zlen_replicate in Hs2. specialize (Hs2 ltac:(lia) ltac:(lia)).
  apply completes_inv in Hs2 as (u2 & o & Hrun2 & -> & h & rest & Hs2 & _).
  destruct (out_changed_inv _ _ _ Hu1 Hs2) as (Hu2 & Hd2 & Hc2).
  unfold poll_send, mbind, handler_bind. rewrite Hr, Hrun1, Hrun2, <- Hc2. apply finish_exact; lia.
Qed.

(** [send] panics on a message of the length that [max_message_len] announces,
    when nothing is coalesced: [finish] asserts that the message is shorter than the
    room, where the room itself would do. *)
Theorem max_message_panics w (u : channel) msg :
  u_inv u -> out_bytes u = [] -> capacity u <= MAX_PACKET_LEN ->
  max_message_len u = Val (zlen msg) -> poll_send w msg u = Fault AssertFailed.
Proof.
  intros Hu Hn Hc Hmax. pose proof (u_lens u Hu). unfold max_message_len, sub_u, as_u16, capacity, MAX_PACKET_LEN in *.
  rewrite Z.min_l, Z.mod_small in Hmax by lia. unfold chk in Hmax.
  case_match; [|done]. injection Hmax as Hmax.
  apply poll_send_exact; [done|unfold u16_max; lia|]. rewrite Hn. unfold capacity. change (zlen []) with 0. lia.
Qed.

(** A peer that sends an empty packet makes the receiver panic: [recv_next]
    asserts that there is something to read in the packet it was just given. *)
Theorem empty_packet_panics w (u : channel) p packets :
  u_in_packet u = None -> cb_items (channel_ (u_receiver u)) = p :: packets -> deref p = [] ->
  poll_recv w u = Fault AssertFailed.
Proof.
  intros Hin Hq Hp. pose proof (poll_next_run w (u_receiver u)) as (s' & r & Hrun & _ & Hr).
  rewrite Hq in Hr. destruct Hr as [-> Hi].
  unfold poll_recv, poll_recv_ready, recv_next, mbind, handler_bind, get, modify. rewrite Hin. proj.
  rewrite Hrun. cbn. by rewrite Hp.
Qed.

(** [flush] can report success for a packet that was not sent: when the queue is
    full, the packet waits in the slot of the sender and the first poll is not ready;
    the second finds the packet being filled empty and is ready at once, with the
    first still in the slot. *)
Theorem flush_reports_early w w' (u : channel) timer l :
  u_inv u -> out_bytes u <> [] -> (u_sender u).2 = None ->
  cb_receiver (channel_ (u_sender u).1) = true ->
  cb_cap (channel_ (u_sender u).1) <= zlen (cb_items (channel_ (u_sender u).1)) ->
  u_delay u = None -> update_available (u_limiter u) (u_timer u) = Val (timer, l) ->
  delay_until_available l = Val None ->
  completes (poll_flush w) u (fun u1 o => o = inr None /\
    cb_items (channel_ (u_sender u1).1) = cb_items (channel_ (u_sender u).1) /\
    (u_sender u1).2 = Some (u_out_packet u) /\
    poll_flush w' u1 = Val (u1, inl tt)).
Proof.
  intros Hu Hne Hslot Hal Hfull Hnd Hup Hdel. unfold poll_flush at 1. wp. rewrite (proj2 (Z.eqb_neq _ _)).
  2: { unfold out_bytes in *. intros Hz. by apply Hne, zlen_zero_nil. }
  unfold wait_bandwidth. wp. rewrite Hnd. wp. apply completes_lift. rewrite Hup. cbn [returns]. wp.
  apply completes_lift. rewrite Hdel. cbn [returns]. wp. rewrite Hnd. wp.
  apply sender_poll_ok. proj. rewrite Hslot. cbn [Sender_poll_ready snd_run mret snd_mret]. cbn [sender_err ready]. wp.
  pose proof (acquire_fresh u) as (_ & _ & Hqd & _). destruct (acquire (u_pool u)) as [pool q]. cbn in Hqd. wp.
  apply completes_lift. cbn [Sender_start_send fst snd returns]. wp. apply sender_poll_ok. cbn [set_u_sender u_sender fst snd].
  destruct (poll_ready_run (Some (u_out_packet u)) w (u_sender u).1) as (s3 & slot3 & r3 & Hrun & Hq3 & Hr3).
  unfold Sender_poll_flush. rewrite Hrun. destruct r3 as [|[[]|e]]; cbn [sender_err ready]; unfold not_ready, fail; wp.
  - destruct Hr3 as (-> & _ & Hi & _). split_and!; [done..|]. unfold poll_flush, mbind, handler_bind, get. proj. by rewrite Hqd.
  - destruct Hr3 as (_ & _ & Hlt). specialize (Hlt ltac:(done)). lia.
  - destruct Hr3. congruence.
Qed.
End sending.

(** * Examples *)

Module UnreliableExample.
(** Packets of sixteen bytes; a sleep that is over at once. *)
#[export] Instance buffers : BufferPool bool := {|
  buffer_capacity _ := 16;
  acquire_buffer b := (b, replicate 16 0);
|}.
#[export] Instance buffers_laws : BufferPoolLaws bool.
Proof. constructor; intros []; cbn; done. Qed.
#[export] Instance sleeper : Sleeper Z unit Z := {| sleep t _ := (t, tt); poll_sleep t s _ := (t, s, true) |}.

Abbreviation example_channel := (UnreliableChannel Z Z BufferPacket (BufferPacketPool bool)
  (list_queue BufferPacket) (option Z) Z unit).

(** A new channel, with queues of one packet; its incoming queue holds [packets]. *)
Definition channel_with (packets : list BufferPacket) : example_channel :=
  let u := UnreliableChannel_new 0 (mkBufferPacketPool true) (mkUnreliableSettings 1000 1500)
             (Spsc.channel 1) (Spsc.channel 1).1 in
  set_u_receiver (set_channel (mkListQueue 1 packets true true) (u_receiver u)) u.
Definition packet_of (bytes : list Z) : BufferPacket := mkBufferPacket bytes (zlen bytes).

(** The channel after it was given these messages. *)
Definition after_sends (msgs : list (list Z)) : example_channel :=
  match poll_sends 7 msgs (channel_with []) with Val (u, _) => u | Fault _ => channel_with [] end.
End UnreliableExample.

Import UnreliableExample.

Lemma example_inv msgs : msgs = [] \/ msgs = [[1; 2; 3]] -> u_inv (after_sends msgs).
Proof. intros [-> | ->]; split; vm_compute; split; discriminate || reflexivity. Qed.

Lemma unreliable_roundtrip_witness :
  completes (poll_recvs 8 2) (channel_with [u_out_packet (after_sends [[1; 2; 3]; [4; 5]])]) (fun v' o =>
    o = inl [[1; 2; 3]; [4; 5]] /\ cb_items (channel_ (u_receiver v')) = []).
Proof.
  pose proof (unreliable_roundtrip 7 8 (channel_with []) (channel_with [u_out_packet (after_sends [[1; 2; 3]; [4; 5]])])
    [[1; 2; 3]; [4; 5]] (example_inv [] (or_introl eq_refl)) eq_refl ltac:(done)
    ltac:(repeat constructor; unfold u16_max, zlen; cbn; lia) ltac:(vm_compute; reflexivity)) as H.
  apply completes_inv in H as (u' & o & Hrun & _ & _ & H). apply (H []); [reflexivity|].
  unfold after_sends at 1. rewrite Hrun. reflexivity.
Defined.

(** Two bytes announced, and one there. *)
Definition example_short : example_channel := channel_with [packet_of [2; 0; 5]].
Definition result_of {A} (r : res (example_channel * A)) : option A :=
  match r with Val (_, o) => Some o | Fault _ => None end.

Lemma unreliable_recv_total_witness : exists u',
  poll_recv 8 example_short = Val (u', inr (Some RecvError_BadFormat)) /\ 0 <= unread u' < 3.
Proof.
  assert (r_inv example_short) as Hinv.
  { split; [exact I|]. constructor; [|constructor]. split; [split; vm_compute; discriminate|vm_compute; discriminate]. }
  pose proof (unreliable_recv_total 8 example_short Hinv) as H. apply completes_inv in H as (u' & o & Hrun & _ & H).
  assert (result_of (poll_recv 8 example_short) = Some (inr (Some RecvError_BadFormat))) as Ho by (vm_compute; reflexivity).
  rewrite Hrun in Ho. injection Ho as ->. exists u'. split; [exact Hrun|exact H].
Defined.

(** Its limiter after the next reading of the clock. *)
Definition example_updated : BandwidthLimiter Z :=
  mkBandwidthLimiter 1000 1500 (f64_of_int 1500) (2 * nanos_per_sec).

(** A message that does not fit behind the one that is coalesced flushes it. *)
Definition example_one : example_channel := after_sends [[1; 2; 3]].
Definition example_msg : list Z := [4; 5; 6; 7; 8; 9; 10; 11; 12; 13].

Lemma example_one_inv : u_inv example_one.
Proof. exact (example_inv _ (or_intror eq_refl)). Qed.
Lemma example_one_limiter : limiter_ok example_one.
Proof. right. exists (2 * nanos_per_sec), example_updated, None. split; vm_compute; reflexivity. Qed.
Lemma example_one_room : 2 + zlen example_msg <> capacity example_one /\
  zlen (out_bytes example_one) + 2 + zlen example_msg <> capacity example_one.
Proof. split; vm_compute; discriminate. Qed.
Lemma example_one_result : result_of (poll_send 7 example_msg example_one) = Some (inl tt).
Proof. vm_compute. reflexivity. Qed.
Lemma example_one_stream : stream example_one = frame [1; 2; 3].
Proof. vm_compute. reflexivity. Qed.

(** A message that is longer than a packet, and one when the other side is gone. *)
Definition example_long : list Z := replicate 20 1.
Definition example_gone : example_channel :=
  set_u_sender (set_channel (mkListQueue 1 [] true false) (u_sender example_one).1, None) example_one.

Lemma example_long_room : 2 + zlen example_long <> capacity example_one /\
  zlen (out_bytes example_one) + 2 + zlen example_long <> capacity example_one.
Proof. split; vm_compute; discriminate. Qed.
Lemma example_long_outcome : send_outcome 7 example_one (zlen example_long) = inr (Some SendError_TooBig).
Proof. vm_compute. reflexivity. Qed.
Lemma example_gone_inv : u_inv example_gone.
Proof. split; vm_compute; split; discriminate || reflexivity. Qed.
Lemma example_gone_limiter : limiter_ok example_gone.
Proof. right. exists (2 * nanos_per_sec), example_updated, None. split; vm_compute; reflexivity. Qed.
Lemma example_gone_room : 2 + zlen example_msg <> capacity example_gone /\
  zlen (out_bytes example_gone) + 2 + zlen example_msg <> capacity example_gone.
Proof. split; vm_compute; discriminate. Qed.
Lemma example_gone_outcome : send_outcome 7 example_gone (zlen example_msg) = inr (Some SendError_Disconnected).
Proof. vm_compute. reflexivity. Qed.

Lemma poll_send_correct_witness :
  (exists u', poll_send 7 example_msg example_one = Val (u', inl tt) /\ stream u' = frame [1; 2; 3] ++ frame example_msg) /\
  (exists u', poll_send 7 example_long example_one = Val (u', inr (Some SendError_TooBig)) /\ stream u' = frame [1; 2; 3]) /\
  (exists u', poll_send 7 example_msg example_gone = Val (u', inr (Some SendError_Disconnected))).
Proof.
  split; [|split].
  - pose proof (poll_send_correct 7 example_one example_msg example_one_inv example_one_limiter
      (proj1 example_one_room) (proj2 example_one_room)) as H.
    apply completes_inv in H as (u' & o & Hrun & _ & _ & _ & _ & H).
    pose proof example_one_result as Ho. rewrite Hrun in Ho. injection Ho as ->. exists u'. split; [exact Hrun|].
    destruct H as [H _]. rewrite <- example_one_stream. exact H.
  - pose proof (poll_send_correct 7 example_one example_long example_one_inv example_one_limiter
      (proj1 example_long_room) (proj2 example_long_room)) as H.
    apply completes_inv in H as (u' & o & Hrun & Ho & _ & _ & _ & H). rewrite example_long_outcome in Ho. subst o.
    exists u'. split; [exact Hrun|]. rewrite <- example_one_stream. exact H.
  - pose proof (poll_send_correct 7 example_gone example_msg example_gone_inv example_gone_limiter
      (proj1 example_gone_room) (proj2 example_gone_room)) as H.
    apply completes_inv in H as (u' & o & Hrun & Ho & _). rewrite example_gone_outcome in Ho. subst o.
    exists u'. exact Hrun.
Defined.

Lemma max_message_panics_witness :
  max_message_len (channel_with []) = Val 14 /\ poll_send 7 (replicate 14 0) (channel_with []) = Fault AssertFailed.
Proof.
  split; [vm_compute; reflexivity|].
  apply (max_message_panics 7 (channel_with []) (replicate 14 0) (example_inv [] (or_introl eq_refl)));
    vm_compute; reflexivity || discriminate.
Defined.

Lemma empty_packet_panics_witness :
  poll_recv 8 (channel_with [packet_of []]) = Fault AssertFailed.
Proof. apply (empty_packet_panics 8 (channel_with [packet_of []]) (packet_of []) []); reflexivity. Defined.

(** The queue holds one packet, which nobody has taken. *)
Definition example_full : example_channel :=
  let u := after_sends [[1; 2; 3]] in
  set_u_sender (set_channel (mkListQueue 1 [packet_of [1]] true true) (u_sender u).1, None) u.

Lemma flush_reports_early_witness : exists u',
  poll_flush 7 example_full = Val (u', inr None) /\ poll_flush 8 u' = Val (u', inl tt) /\
  (u_sender u').2 = Some (u_out_packet example_full).
Proof.
  assert (u_inv example_full) as Hinv by exact (example_inv _ (or_intror eq_refl)).
  assert (cb_receiver (channel_ (u_sender example_full).1) = true) as Hal by (vm_compute; reflexivity).
  pose proof (flush_reports_early 7 8 example_full (2 * nanos_per_sec) example_updated
    Hinv ltac:(vm_compute; discriminate) ltac:(vm_compute; reflexivity) Hal ltac:(vm_compute; discriminate)
    ltac:(vm_compute; reflexivity) ltac:(vm_compute; reflexivity) ltac:(vm_compute; reflexivity)) as H.
  apply completes_inv in H as (u' & o & Hrun & -> & _ & Hs & Hf). exists u'. split; [exact Hrun|]. split; [exact Hf|exact Hs].
Defined.
