(* ===== verification/Mux.v ===== *)
(** The packet multiplexer of packet_multiplexer.rs: packets that keep their first
    byte for the number of a channel, and the handles that route them between one
    stream of packets and the queues of the channels. *)

From stdpp Require Import gmap.
From S2P Require Import Prelude Packet Wire Async Spsc.

(** * Packets with a channel byte *)

(** [MuxPacket]: the first byte of the inner packet is the channel's. *)
Record MuxPacket (P : Type) := mkMuxPacket { mux_inner : P }.
Arguments mkMuxPacket {P} _.
Arguments mux_inner {P} _.

Section mux_packet.
Context {P : Type} {PI : Packet P}.

(** [&self.0[1..]]; a [MuxPacket] always has its first byte. *)
Definition MuxPacket_deref (p : MuxPacket P) : list Z := zdrop 1 (deref (mux_inner p)).

(** The bytes behind the first overwritten, as through [deref_mut]. *)
Definition MuxPacket_set (p : MuxPacket P) (bs : list Z) : MuxPacket P :=
  mkMuxPacket (set_bytes (mux_inner p) (ztake 1 (deref (mux_inner p)) ++ bs)).

Definition MuxPacket_resize (p : MuxPacket P) (len val : Z) : res (MuxPacket P) :=
  inner_len ← usize_add len 1;
  q ← resize (mux_inner p) inner_len val; Val (mkMuxPacket q).

(** The provided methods of the trait, which [MuxPacket] overrides. *)
Definition MuxPacket_extend (p : MuxPacket P) (other : list Z) : res (MuxPacket P) :=
  q ← extend (mux_inner p) other; Val (mkMuxPacket q).
Definition MuxPacket_truncate (p : MuxPacket P) (len : Z) : res (MuxPacket P) :=
  inner_len ← usize_add len 1;
  q ← truncate (mux_inner p) inner_len; Val (mkMuxPacket q).
Definition MuxPacket_clear (p : MuxPacket P) : res (MuxPacket P) :=
  q ← resize (mux_inner p) 1 0; Val (mkMuxPacket q).

#[export] Instance MuxPacket_packet : Packet (MuxPacket P) := {|
  deref := MuxPacket_deref;
  packet_capacity p := packet_capacity (mux_inner p) - 1;
  set_bytes := MuxPacket_set;
  resize := MuxPacket_resize;
|}.
End mux_packet.

(** [MuxPacketPool] *)
Record MuxPacketPool (Pool : Type) := mkMuxPacketPool { mux_pool : Pool }.
Arguments mkMuxPacketPool {Pool} _.
Arguments mux_pool {Pool} _.

Section mux_pool.
Context {P Pool : Type} {PI : Packet P} {PPI : PacketPool Pool P}.

Definition MuxPacketPool_capacity (pool : MuxPacketPool Pool) : res Z :=
  usize_sub (pool_capacity (mux_pool pool)) 1.

Definition MuxPacketPool_acquire (pool : MuxPacketPool Pool) : res (MuxPacketPool Pool * MuxPacket P) :=
  let (inner, packet) := acquire (mux_pool pool) in
  packet ← resize packet 1 0;
  Val (mkMuxPacketPool inner, mkMuxPacket packet).

(** The pool as its clients see it; both methods panic only on an inner pool of
    capacity zero, for which the values here mean nothing. *)
#[export] Instance MuxPacketPool_pool : PacketPool (MuxPacketPool Pool) (MuxPacket P) := {|
  pool_capacity pool := match MuxPacketPool_capacity pool with Val n => n | Fault _ => 0 end;
  acquire pool :=
    match MuxPacketPool_acquire pool with
    | Val r => r
    | Fault _ => (pool, mkMuxPacket (acquire (mux_pool pool)).2)
    end;
|}.
End mux_pool.

(** * Statistics *)

Record ChannelStatisticsData := mkChannelStatisticsData {
  incoming_packets : Z;
  incoming_bytes : Z;
  outgoing_packets : Z;
  outgoing_bytes : Z;
}.

(** [AtomicU64::fetch_add] wraps around. *)
Definition u64_wrapping_add (a b : Z) : Z := (a + b) mod 18446744073709551616.

Definition mark_incoming_packet (len : Z) (s : ChannelStatisticsData) : ChannelStatisticsData :=
  mkChannelStatisticsData (u64_wrapping_add (incoming_packets s) 1) (u64_wrapping_add (incoming_bytes s) len)
    (outgoing_packets s) (outgoing_bytes s).
Definition mark_outgoing_packet (len : Z) (s : ChannelStatisticsData) : ChannelStatisticsData :=
  mkChannelStatisticsData (incoming_packets s) (incoming_bytes s)
    (u64_wrapping_add (outgoing_packets s) 1) (u64_wrapping_add (outgoing_bytes s) len).

Record ChannelTotals := mkChannelTotals { packets : Z; bytes : Z }.
Definition incoming_totals (s : ChannelStatisticsData) := mkChannelTotals (incoming_packets s) (incoming_bytes s).
Definition outgoing_totals (s : ChannelStatisticsData) := mkChannelTotals (outgoing_packets s) (outgoing_bytes s).

(** * The multiplexer *)

Inductive DuplicateChannel := mkDuplicateChannel.

Inductive IncomingError := UnknownPacketChannel | ChannelReceiverDropped.

Inductive IncomingTrySendError (P : Type) :=
| IsFull (p : P)
| TrySend_Error (e : IncomingError).
Arguments IsFull {P} _.
Arguments TrySend_Error {P} _.

Definition is_full {P} (e : IncomingTrySendError P) : bool :=
  match e with IsFull _ => true | TrySend_Error _ => false end.

(** [FxHashSet::iter().next()]: some element of the set, which one is up to the
    hashes. *)
Class HashOrder := {
  hash_first : gset Z -> option Z;
  hash_first_ok s : match hash_first s with Some x => x ∈ s | None => s = ∅ end;
}.

Section multiplexer.
Context {P Q W K : Type} {PI : Packet P} {CB : Crossbeam Q (MuxPacket P)} {AW : AtomicWaker W K}.
Context {HO : HashOrder}.

(** What the handles of a channel share: the queue of packets that came in for it,
    the queue of packets that are to go out, and the counters. *)
Record MuxChannel := mkMuxChannel {
  mc_incoming : Shared Q W K;
  mc_outgoing : Shared Q W K;
  mc_statistics : ChannelStatisticsData;
}.

Definition set_mc_incoming v c := mkMuxChannel v (mc_outgoing c) (mc_statistics c).
Definition set_mc_outgoing v c := mkMuxChannel (mc_incoming c) v (mc_statistics c).
Definition set_mc_statistics v c := mkMuxChannel (mc_incoming c) (mc_outgoing c) v.

(** The shared parts live in a store, under the number of their channel: of a
    [ChannelSender] its own slot is left, of a [ChannelReceiver] its number. *)
Abbreviation Store := (gmap Z MuxChannel).
Abbreviation ChannelSender := (option (MuxPacket P)).
Abbreviation ChannelReceiver := Z.

Record PacketMultiplexer := mkPacketMultiplexer {
  pm_store : Store;
  pm_incoming : gmap Z ChannelSender;
  pm_outgoing : list ChannelReceiver;
}.

Definition PacketMultiplexer_new : PacketMultiplexer := mkPacketMultiplexer ∅ ∅ [].

(** The caller gets the outgoing sender, whose slot is returned, and the incoming
    receiver and the statistics, which are the store's. *)
Definition open_channel (channel : Z) (buffer_size : Z) (m : PacketMultiplexer)
    : PacketMultiplexer * (option (MuxPacket P) + DuplicateChannel) :=
  let statistics := mkChannelStatisticsData 0 0 0 0 in
  match pm_incoming m !! channel with
  | Some _ => (m, inr mkDuplicateChannel)
  | None =>
    let (incoming, incoming_slot) := Spsc.channel buffer_size in
    let (outgoing, outgoing_slot) := Spsc.channel buffer_size in
    (mkPacketMultiplexer
       (<[channel := mkMuxChannel incoming outgoing statistics]> (pm_store m))
       (<[channel := incoming_slot]> (pm_incoming m))
       (pm_outgoing m ++ [channel]),
     inl outgoing_slot)
  end.

Record IncomingMultiplexedPackets := mkIncoming {
  im_store : Store;
  im_incoming : gmap Z ChannelSender;
  im_to_send : option P;
  im_to_flush : gset Z;
}.

Definition set_im_store v m := mkIncoming v (im_incoming m) (im_to_send m) (im_to_flush m).
Definition set_im_incoming v m := mkIncoming (im_store m) v (im_to_send m) (im_to_flush m).
Definition set_im_to_send v m := mkIncoming (im_store m) (im_incoming m) v (im_to_flush m).
Definition set_im_to_flush v m := mkIncoming (im_store m) (im_incoming m) (im_to_send m) v.

Definition start (m : PacketMultiplexer) : IncomingMultiplexedPackets * list ChannelReceiver :=
  (mkIncoming (pm_store m) (pm_incoming m) None ∅, pm_outgoing m).

(** ** Packets that come in *)

Abbreviation im_handler := (handler IncomingMultiplexedPackets).

(** [get_mut(&channel).ok_or(error)?] *)
Definition sender_of {E} (channel : Z) (error : E) : im_handler E ChannelSender :=
  m ← get;
  match im_incoming m !! channel with Some slot => mret slot | None => throw error end.

(** A method of [incoming.sender]. *)
Definition on_sender {E R} (channel : Z) (slot : ChannelSender)
    (p : option (MuxPacket P) -> snd_prog (MuxPacket P) K (option (MuxPacket P) * R)) : im_handler E R :=
  m ← get;
  c ← lift (unwrap (im_store m !! channel));
  let '(sh, (slot, r)) := snd_run (p slot) (mc_incoming c) in
  _ ← modify (set_im_store (<[channel := set_mc_incoming sh c]> (im_store m)));
  _ ← modify (set_im_incoming (<[channel := slot]> (im_incoming m)));
  mret r.

(** [incoming.statistics.mark_incoming_packet(len)] *)
Definition mark_incoming {E} (channel : Z) (len : Z) : im_handler E unit :=
  m ← get;
  c ← lift (unwrap (im_store m !! channel));
  modify (set_im_store (<[channel := set_mc_statistics (mark_incoming_packet len (mc_statistics c)) c]> (im_store m))).

Definition Incoming_try_send (packet : P) : im_handler (IncomingTrySendError P) unit :=
  channel ← lift (index (deref packet) 0);
  slot ← sender_of channel (TrySend_Error UnknownPacketChannel);
  mux_packet_len ← lift (usize_sub (zlen (deref packet)) 1);
  r ← on_sender channel slot (fun slot => Sender_try_send slot (mkMuxPacket packet));
  match r with
  | inr (TrySendError_Full p) => throw (IsFull (mux_inner p))
  | inr (TrySendError_Disconnected _) => throw (TrySend_Error ChannelReceiverDropped)
  | inl _ => mark_incoming channel mux_packet_len
  end.

Abbreviation im_poll := (polling IncomingMultiplexedPackets).

Definition Incoming_poll_ready (w : K) : im_poll IncomingError unit :=
  m ← get;
  _ ← modify (set_im_to_send None);
  match im_to_send m with
  | None => mret tt
  | Some packet =>
    channel ← lift (index (deref packet) 0);
    slot ← sender_of channel (Some UnknownPacketChannel);
    r ← on_sender channel slot (fun slot => Sender_poll_ready slot w);
    match r with
    | Pending => _ ← modify (set_im_to_send (Some packet)); not_ready
    | Ready (inr _) => fail ChannelReceiverDropped
    | Ready (inl _) =>
      mux_packet_len ← lift (usize_sub (zlen (deref packet)) 1);
      slot ← sender_of channel (Some UnknownPacketChannel);
      slot ← lift (Sender_start_send slot (mkMuxPacket packet));
      _ ← modify (fun m => set_im_incoming (<[channel := slot]> (im_incoming m)) m);
      _ ← mark_incoming channel mux_packet_len;
      modify (fun m => set_im_to_flush ({[channel]} ∪ im_to_flush m) m)
    end
  end.

Definition Incoming_start_send (item : P) : im_poll IncomingError unit :=
  m ← get;
  _ ← lift (assert (match im_to_send m with None => true | Some _ => false end));
  modify (set_im_to_send (Some item)).

(** The loop of [poll_flush]; [fuel] bounds its iterations. *)
Fixpoint flush_loop (fuel : nat) (w : K) : im_poll IncomingError unit :=
  m ← get;
  match hash_first (im_to_flush m) with
  | None => mret tt
  | Some channel =>
    match fuel with
    | O => lift (Fault OutOfFuel)
    | S fuel =>
      slot ← sender_of channel (Some UnknownPacketChannel);
      r ← on_sender channel slot (fun slot => Sender_poll_flush slot w);
      match r with
      | Ready (inr _) => fail ChannelReceiverDropped
      | Pending => not_ready
      | Ready (inl _) =>
        _ ← modify (fun m => set_im_to_flush (im_to_flush m ∖ {[channel]}) m);
        flush_loop fuel w
      end
    end
  end.

Definition Incoming_poll_flush (w : K) : im_poll IncomingError unit :=
  _ ← Incoming_poll_ready w;
  m ← get;
  flush_loop (size (im_to_flush m)) w.

Definition Incoming_poll_close (w : K) : im_poll IncomingError unit := Incoming_poll_flush w.

(** ** Packets that go out *)

(** One of the streams that [SelectAll] polls, whichever it is. *)
Definition ChannelReceiver_poll_next (channel : ChannelReceiver) (w : K) (store : Store)
    : res (Store * Poll (option P)) :=
  c ← unwrap (store !! channel);
  let (sh, r) := rcv_run (Receiver_poll_next w) (mc_outgoing c) in
  let c := set_mc_outgoing sh c in
  match r with
  | Ready (Some packet) =>
    packet ← put_bytes (mux_inner packet) 0 [channel];
    len ← usize_sub (zlen (deref packet)) 1;
    let c := set_mc_statistics (mark_outgoing_packet len (mc_statistics c)) c in
    Val (<[channel := c]> store, Ready (Some packet))
  | Ready None => Val (<[channel := c]> store, Ready None)
  | Pending => Val (<[channel := c]> store, Pending)
  end.

(** [SelectAll]: of the streams that it still has it polls some, here those of [order],
    one after another until one is ready with an item; a stream that has ended is taken
    out, and with the last one the selection ends. *)
Fixpoint Outgoing_poll_next (order : list Z) (w : K) (outgoing : list ChannelReceiver) (store : Store)
    : res (Store * list ChannelReceiver * Poll (option P)) :=
  match order with
  | [] => Val (store, outgoing, match outgoing with [] => Ready None | _ => Pending end)
  | channel :: order =>
    if decide (channel ∈ outgoing) then
      '(store, r) ← ChannelReceiver_poll_next channel w store;
      match r with
      | Ready (Some packet) => Val (store, outgoing, Ready (Some packet))
      | Ready None => Outgoing_poll_next order w (filter (fun c => c <> channel) outgoing) store
      | Pending => Outgoing_poll_next order w outgoing store
      end
    else Outgoing_poll_next order w outgoing store
  end.
End multiplexer.

Arguments MuxChannel Q W K : clear implicits.
Arguments PacketMultiplexer P Q W K : clear implicits.
Arguments IncomingMultiplexedPackets P Q W K : clear implicits.
