(* ===== verification/MuxSafety.v ===== *)
(** What the multiplexer guarantees: a [MuxPacket] behaves as a packet that is one
    byte shorter, a packet sent on a channel of one multiplexer comes out on the
    same channel of the other with the same bytes, and flushing hands every packet
    that was accepted to the queue of its channel. *)

From stdpp Require Import gmap.
From S2P Require Import Prelude Packet Wire Async Spsc SpscSafety Mux.

(** * Packets *)

Section packets.
Context {P : Type} {PI : Packet P} {PL : PacketLaws P}.

(** The inner packet has its first byte, and its capacity is a [usize]. *)
Definition mux_packet_wf (p : MuxPacket P) : Prop :=
  packet_wf (mux_inner p) /\ 1 <= zlen (deref (mux_inner p)) /\ packet_capacity (mux_inner p) < usize_modulus.

Lemma MuxPacket_len (p : MuxPacket P) : mux_packet_wf p -> zlen (deref (mux_inner p)) = 1 + zlen (MuxPacket_deref p).
Proof. intros (_ & Hl & _). unfold MuxPacket_deref. rewrite zlen_zdrop. lia. Qed.

Lemma zdrop_resized (l : list Z) len v :
  1 <= zlen l -> 0 <= len -> zdrop 1 (resized l (len + 1) v) = resized (zdrop 1 l) len v.
Proof.
  intros Hl Hlen. unfold resized. rewrite zdrop_app_le by (rewrite zlen_ztake; lia).
  rewrite zdrop_ztake, zlen_zdrop by lia. f_equal; f_equal; lia.
Qed.

#[export] Instance MuxPacket_laws : PacketLaws (MuxPacket P).
Proof.
  refine {| packet_wf := mux_packet_wf |}; cbn.
  - intros p (Hwf & Hl & _). pose proof (deref_len _ Hwf). unfold MuxPacket_deref. rewrite zlen_zdrop. lia.
  - intros p len v (Hwf & Hl & Hc) Hlen. unfold MuxPacket_resize. rewrite usize_add_ok by lia. cbn [mbind res_bind].
    destruct (resize_ok (mux_inner p) (len + 1) v Hwf) as (q & -> & Hq & Hd & Hcap); [lia|].
    eexists. split; [done|]. unfold mux_packet_wf, MuxPacket_deref. cbn [mux_inner].
    rewrite Hd, zlen_resized, zdrop_resized, Hcap by lia. split_and!; done || lia.
  - intros p len v (Hwf & _) Hlen. unfold MuxPacket_resize, add_u, chk. case_match; [|by eexists].
    cbn [mbind res_bind]. destruct (resize_over (mux_inner p) (len + 1) v Hwf) as [e ->]; [lia|by eexists].
  - intros p bs Hwf Hbs. pose proof (MuxPacket_len p Hwf) as Hlen. destruct Hwf as (Hwf & Hl & Hc).
    zlen_facts. destruct (set_bytes_ok (mux_inner p) (ztake 1 (deref (mux_inner p)) ++ bs) Hwf) as (Hq & Hd & Hcap).
    { rewrite zlen_app, zlen_ztake. lia. }
    unfold mux_packet_wf, MuxPacket_deref, MuxPacket_set in *. cbn [mux_inner]. rewrite Hd, Hcap, zlen_app, zlen_ztake.
    split_and!; try done; try lia. rewrite zdrop_app_ge, zdrop_0 by (rewrite zlen_ztake; lia). done.
Defined.



End packets.

Section pools.
Context {P Pool : Type} {PI : Packet P} {PL : PacketLaws P} {PPI : PacketPool Pool P} {PPL : PacketPoolLaws Pool P}.
Context (Hpool : forall pool : Pool, 1 <= pool_capacity pool).

Lemma MuxPacketPool_acquire_ok (pool : MuxPacketPool Pool) :
  exists pool' q, MuxPacketPool_acquire pool = Val (pool', q) /\ mux_packet_wf q /\ MuxPacket_deref q = [] /\
    packet_capacity (mux_inner q) = pool_capacity (mux_pool pool) /\
    pool_capacity (mux_pool pool') = pool_capacity (mux_pool pool).
Proof.
  unfold MuxPacketPool_acquire. pose proof (Hpool (mux_pool pool)). pose proof (pool_capacity_pos (mux_pool pool)).
  destruct (acquire_ok (mux_pool pool)) as (Hwf & Hc & Hp). pose proof (acquire_empty (mux_pool pool)) as He.
  destruct (acquire (mux_pool pool)) as [inner p]. cbn in *.
  destruct (resize_ok p 1 0 Hwf) as (q & -> & Hq & Hd & Hcap); [lia|]. cbn [mbind res_bind].
  eexists _, _. split; [done|]. unfold mux_packet_wf, MuxPacket_deref. cbn.
  rewrite Hd, zlen_resized by lia. split_and!; try done; try lia.
  apply zdrop_ge. rewrite zlen_resized; lia.
Qed.

(** So a channel can run over a pool of [MuxPacket]s as over any other. *)
Lemma MuxPacketPool_laws : PacketPoolLaws (MuxPacketPool Pool) (MuxPacket P).
Proof.
  constructor; intros pool; cbn; unfold MuxPacketPool_capacity; pose proof (Hpool (mux_pool pool));
    pose proof (pool_capacity_pos (mux_pool pool)); try rewrite usize_sub_ok by lia; try lia;
    destruct (MuxPacketPool_acquire_ok pool) as (pool' & q & -> & Hq & Hd & Hc & Hp); cbn; [|done].
  split_and!; [done|lia|]. rewrite usize_sub_ok by lia. lia.
Qed.
End pools.

(** * The incoming handle *)

Section incoming.
Context {P Q W K : Type} {PI : Packet P} {CB : Crossbeam Q (MuxPacket P)} {CL : CrossbeamLaws Q (MuxPacket P)}.
Context {AW : AtomicWaker W K} {HO : HashOrder}.

Abbreviation incoming := (IncomingMultiplexedPackets P Q W K).

(** Every open channel has its shared part, a sender whose slot is taken is to be
    flushed, and the packet that waits is not empty (its length is a [usize]). *)
Record im_inv (m : incoming) : Prop := {
  ii_store c : is_Some (im_incoming m !! c) <-> is_Some (im_store m !! c);
  ii_flush c : c ∈ im_to_flush m -> is_Some (im_incoming m !! c);
  ii_slot c p : im_incoming m !! c = Some (Some p) -> c ∈ im_to_flush m;
  ii_send p : im_to_send m = Some p -> 1 <= zlen (deref p) < usize_modulus;
}.

Definition all_alive (m : incoming) : Prop :=
  forall c mc, im_store m !! c = Some mc -> cb_receiver (channel_ (mc_incoming mc)) = true.

(** The packet that waits, if it is for the channel. *)
Definition waiting_for (m : incoming) (c : Z) : list (MuxPacket P) :=
  match im_to_send m with
  | Some p => if bool_decide (zlookup 0 (deref p) = Some c) then [mkMuxPacket p] else []
  | None => []
  end.

(** The packets of an open channel that have not been received yet, in order. *)
Definition packets_for (m : incoming) (c : Z) : list (MuxPacket P) :=
  match im_store m !! c, im_incoming m !! c with
  | Some mc, Some slot => cb_items (channel_ (mc_incoming mc)) ++ option_list slot ++ waiting_for m c
  | _, _ => []
  end.

(** No packet was lost, and the queues of outgoing packets are as before. *)
Record kept (m m' : incoming) : Prop := {
  kp_inv : im_inv m';
  kp_alive : all_alive m';
  kp_packets c : packets_for m' c = packets_for m c;
  kp_outgoing c : mc_outgoing <$> im_store m' !! c = mc_outgoing <$> im_store m !! c;
}.

Local Ltac proj := cbn [im_store im_incoming im_to_send im_to_flush set_im_store set_im_incoming set_im_to_send
  set_im_to_flush mc_incoming mc_outgoing mc_statistics set_mc_incoming set_mc_statistics fst snd].
Local Ltac wp := repeat (wp_step; proj).

Lemma sender_of_ok {E} c (e : E) (m : incoming) slot Q0 :
  im_incoming m !! c = Some slot -> Q0 m (inl slot) -> completes (sender_of c e) m Q0.
Proof. intros Hc HQ. unfold sender_of. wp. rewrite Hc. by wp. Qed.

Lemma sender_of_none {E} c (e : E) (m : incoming) Q0 :
  im_incoming m !! c = None -> Q0 m (inr e) -> completes (sender_of c e) m Q0.
Proof. intros Hc HQ. unfold sender_of. wp. rewrite Hc. by wp. Qed.

(** The state after a method of a sender has run. *)
Definition sender_ran (c : Z) (mc : MuxChannel Q W K) sh slot (m : incoming) : incoming :=
  set_im_incoming (<[c := slot]> (im_incoming m)) (set_im_store (<[c := set_mc_incoming sh mc]> (im_store m)) m).

Lemma on_sender_ok {E R} c slot p (m : incoming) mc sh (slot' : option (MuxPacket P)) (r : R) Q0 :
  im_store m !! c = Some mc -> snd_run (p slot) (mc_incoming mc) = (sh, (slot', r)) ->
  Q0 (sender_ran c mc sh slot' m) (inl r) -> completes (E := E) (on_sender c slot p) m Q0.
Proof.
  intros Hc Hrun HQ. unfold on_sender. wp. rewrite Hc. cbn [unwrap]. wp. rewrite Hrun. wp. exact HQ.
Qed.

(** One channel has changed. *)
Lemma one_channel_inv c mc mc' slot slot' to_send to_flush (m : incoming) :
  let m' := mkIncoming (<[c := mc']> (im_store m)) (<[c := slot']> (im_incoming m)) to_send to_flush in
  im_inv m -> all_alive m -> im_store m !! c = Some mc -> im_incoming m !! c = Some slot ->
  same_queue (mc_incoming mc) (mc_incoming mc') -> mc_outgoing mc' = mc_outgoing mc ->
  (slot' <> None -> c ∈ to_flush) -> im_to_flush m ⊆ to_flush ⊆ {[c]} ∪ im_to_flush m ->
  (forall p, to_send = Some p -> 1 <= zlen (deref p) < usize_modulus) ->
  im_inv m' /\ all_alive m' /\ forall c, mc_outgoing <$> im_store m' !! c = mc_outgoing <$> im_store m !! c.
Proof.
  intros m' [Hst Hfl Hsl Hse] Hal Hc Hslot (_ & _ & Hrecv) Hout Hf [Hf1 Hf2] Hts. split_and!.
  - split; unfold m'; proj; [intros c'|intros c'|intros c' p|done];
      destruct (decide (c' = c)) as [->|Hne]; rewrite ?lookup_insert_eq, ?lookup_insert_ne by done; try (by eauto).
    + intros Hin%Hf2. apply Hfl. set_solver.
    + intros [= ->]. by apply Hf.
  - intros c' mc2. unfold m'. proj. destruct (decide (c' = c)) as [->|Hne];
      rewrite ?lookup_insert_eq, ?lookup_insert_ne by done; [|apply Hal]. intros [= <-]. rewrite Hrecv. by eapply Hal.
  - intros c'. unfold m'. proj. destruct (decide (c' = c)) as [->|Hne].
    + rewrite lookup_insert_eq, Hc. cbn. by rewrite Hout.
    + by rewrite lookup_insert_ne.
Qed.

(** ... and perhaps the packet that waits for it. *)
Lemma one_channel_kept c mc mc' slot slot' to_send to_flush (m : incoming) :
  let m' := mkIncoming (<[c := mc']> (im_store m)) (<[c := slot']> (im_incoming m)) to_send to_flush in
  im_inv m -> all_alive m -> im_store m !! c = Some mc -> im_incoming m !! c = Some slot ->
  cb_items (channel_ (mc_incoming mc')) ++ option_list slot' ++ waiting_for m' c =
    cb_items (channel_ (mc_incoming mc)) ++ option_list slot ++ waiting_for m c ->
  (forall c', c' <> c -> waiting_for m' c' = waiting_for m c') ->
  same_queue (mc_incoming mc) (mc_incoming mc') -> mc_outgoing mc' = mc_outgoing mc ->
  (slot' <> None -> c ∈ to_flush) -> im_to_flush m ⊆ to_flush ⊆ {[c]} ∪ im_to_flush m ->
  (forall p, to_send = Some p -> 1 <= zlen (deref p) < usize_modulus) ->
  kept m m'.
Proof.
  intros m' Hm Hal Hc Hslot Hit Hother Hq Hout Hf Hfs Hts.
  destruct (one_channel_inv c mc mc' slot slot' to_send to_flush m) as (Hm' & Hal' & Hout'); try done. split; try done.
  intros c'. unfold packets_for. destruct (decide (c' = c)) as [->|Hne].
  - unfold m' at 1 2. proj. rewrite !lookup_insert_eq, Hc, Hslot. exact Hit.
  - unfold m' at 1 2. proj. rewrite !lookup_insert_ne by done. by rewrite Hother.
Qed.

(** A channel whose sender has moved its slot into the queue, or not. *)
Lemma sender_ran_kept c mc slot sh slot' (m : incoming) :
  im_inv m -> all_alive m -> im_store m !! c = Some mc -> im_incoming m !! c = Some slot ->
  cb_items (channel_ sh) ++ option_list slot' = cb_items (channel_ (mc_incoming mc)) ++ option_list slot ->
  same_queue (mc_incoming mc) sh -> (slot' <> None -> c ∈ im_to_flush m) ->
  kept m (sender_ran c mc sh slot' m).
Proof.
  intros Hm Hal Hc Hslot Hit Hq Hf.
  apply (one_channel_kept c mc (set_mc_incoming sh mc) slot slot' (im_to_send m) (im_to_flush m)); try done.
  - proj. by rewrite !app_assoc, Hit.
  - set_solver.
  - by apply Hm.
Qed.

Lemma kept_trans m1 m2 m3 : kept m1 m2 -> kept m2 m3 -> kept m1 m3.
Proof. intros [_ _ H1 H1'] [? ? H2 H2']. split; [done..| |]; intros c; by rewrite ?H2, ?H2'. Qed.

(** The loop ends, and when it says so every slot is empty. *)
Lemma flush_loop_ok w fuel : forall (m : incoming),
  im_inv m -> all_alive m -> (size (im_to_flush m) <= fuel)%nat ->
  completes (flush_loop fuel w) m (fun m' o => kept m m' /\ im_to_send m' = im_to_send m /\
    match o with inl _ => im_to_flush m' = ∅ | inr e => e = None end).
Proof.
  induction fuel as [|fuel IH]; intros m Hm Hal Hf; cbn [flush_loop]; wp;
    pose proof (hash_first_ok (im_to_flush m)) as Hfirst; destruct (hash_first (im_to_flush m)) as [c|].
  - exfalso. assert (size (im_to_flush m) <> 0%nat) by (apply size_non_empty_iff; set_solver). lia.
  - wp. split; [by split|done].
  - destruct (ii_flush _ Hm c Hfirst) as [slot Hslot]. destruct (proj1 (ii_store _ Hm c) ltac:(by rewrite Hslot)) as [mc Hc].
    wp. eapply sender_of_ok; [done|]. wp. unfold Sender_poll_flush.
    destruct (poll_ready_run slot w (mc_incoming mc)) as (sh & slot' & r & Hrun & Hq & Hr).
    eapply on_sender_ok; [done..|]. wp.
    assert (r = Pending \/ r = Ready (inl tt)) as [-> | ->].
    { destruct r as [|[[]|e]]; [by left|by right|]. destruct Hr as [Hx _]. by rewrite (Hal _ _ Hc) in Hx. }
    + destruct Hr as (-> & _ & Hi & _). unfold not_ready. wp. split; [|done].
      eapply sender_ran_kept; try done. by rewrite Hi.
    + destruct Hr as (-> & Hi & _). wp. set (m1 := sender_ran c mc sh None m).
      assert (kept m m1) as Hk1 by (eapply sender_ran_kept; try done; by rewrite Hi, app_nil_r).
      assert (kept m (set_im_to_flush (im_to_flush m1 ∖ {[c]}) m1)) as Hk.
      { destruct Hk1 as [[Hst Hfl Hsl Hse] ? ? ?]. split; [split; proj|done..]; [done|set_solver| |done].
        intros c' p Hp. apply elem_of_difference. split; [by eapply Hsl|]. intros ->%elem_of_singleton.
        unfold m1, sender_ran in Hp. cbn [im_incoming set_im_incoming set_im_to_flush] in Hp.
        by rewrite lookup_insert_eq in Hp. }
      eapply completes_mono; [apply (IH _ (kp_inv _ _ Hk) (kp_alive _ _ Hk))|].
      * proj. change (im_to_flush m1) with (im_to_flush m). rewrite size_difference by set_solver.
        rewrite size_singleton. lia.
      * intros m' o (Hk' & Hs & Ho). split; [by eapply kept_trans|]. by split; [rewrite Hs|].
  - wp. split; [by split|]. split; [done|]. set_solver.
Qed.

(** The packet that waits goes to its sender, when that has room. *)
Lemma poll_ready_ok w (m : incoming) :
  im_inv m -> all_alive m ->
  completes (Incoming_poll_ready w) m (fun m' o => kept m m' /\
    match o with
    | inl _ => im_to_send m' = None
    | inr None => True
    | inr (Some e) => e = UnknownPacketChannel /\ im_to_send m' = None
    end).
Proof.
  intros Hm Hal. unfold Incoming_poll_ready. wp. destruct (im_to_send m) as [packet|] eqn:Hsend.
  2: { wp. split; [|done]. destruct m. cbn in *. subst. by split. }
  pose proof (ii_send _ Hm _ Hsend) as Hlen. destruct (deref packet) as [|c bytes] eqn:Hd; [rewrite zlen_nil in Hlen; lia|].
  wp. apply completes_lift. rewrite (index_ok _ 0 c) by done. cbn [returns]. wp.
  assert (forall c', waiting_for m c' = if bool_decide (c = c') then [mkMuxPacket packet] else []) as Hwait.
  { intros c'. unfold waiting_for. rewrite Hsend, Hd. cbn. repeat case_bool_decide; simplify_eq/=; done. }
  destruct (im_incoming m !! c) as [slot|] eqn:Hslot.
  2: { eapply sender_of_none; [done|]. cbn. split; [|done]. destruct Hm as [Hst Hfl Hsl Hse]. split; [by split|done| |done].
       intros c'. unfold packets_for. proj. destruct (im_store m !! c'); [|done].
       destruct (im_incoming m !! c') eqn:Hc'; [|done]. rewrite Hwait, bool_decide_false; [done|]. intros ->. by rewrite Hslot in Hc'. }
  eapply sender_of_ok; [done|]. wp. destruct (proj1 (ii_store _ Hm c) ltac:(by rewrite Hslot)) as [mc Hc].
  destruct (poll_ready_run slot w (mc_incoming mc)) as (sh & slot' & r & Hrun & Hq & Hr).
  eapply on_sender_ok; [done..|]. wp. destruct r as [|[[]|e]]; unfold not_ready; wp.
  - destruct Hr as (-> & _ & Hi & _). split; [|done].
    apply (one_channel_kept c mc (set_mc_incoming sh mc) slot slot (Some packet) (im_to_flush m)); try done.
    + proj. rewrite Hi. unfold waiting_for. proj. by rewrite Hsend.
    + intros c' _. unfold waiting_for. proj. by rewrite Hsend.
    + intros Hs. destruct slot as [p|]; [by eapply ii_slot|done].
    + set_solver.
    + intros p [= <-]. by rewrite Hd.
  - destruct Hr as (-> & Hi & _). apply completes_lift.
    rewrite usize_sub_ok by lia. cbn [returns]. wp.
    eapply sender_of_ok; [unfold sender_ran; proj; apply lookup_insert_eq|]. wp.
    apply completes_lift. cbn [Sender_start_send returns]. wp.
    unfold mark_incoming. wp. unfold sender_ran. proj. rewrite lookup_insert_eq. cbn [unwrap]. wp.
    split; [|done]. rewrite !insert_insert_eq.
    apply (one_channel_kept c mc _ slot (Some (mkMuxPacket packet)) None ({[c]} ∪ im_to_flush m)); try done.
    + proj. rewrite Hi, Hwait, bool_decide_true by done. cbn. by rewrite <- app_assoc.
    + intros c' Hne. rewrite Hwait, bool_decide_false by congruence. done.
    + set_solver.
    + set_solver.
  - destruct Hr as [Hx _]. by rewrite (Hal _ _ Hc) in Hx.
Qed.

(** A packet that is pushed with [try_send] joins the ones of its channel, or it comes
    back. *)
Lemma try_send_ok packet (m : incoming) :
  im_inv m -> all_alive m -> 1 <= zlen (deref packet) < usize_modulus ->
  completes (Incoming_try_send packet) m (fun m' _ => im_inv m' /\ all_alive m' /\
    (forall c, mc_outgoing <$> im_store m' !! c = mc_outgoing <$> im_store m !! c) /\
    forall c p, p ∈ packets_for m' c -> p ∈ packets_for m c \/ p = mkMuxPacket packet /\ zlookup 0 (deref packet) = Some c).
Proof.
  intros Hm Hal Hlen. unfold Incoming_try_send. wp. destruct (deref packet) as [|c bytes] eqn:Hd; [rewrite zlen_nil in Hlen; lia|].
  apply completes_lift. rewrite (index_ok _ 0 c) by done. cbn [returns]. wp.
  destruct (im_incoming m !! c) as [slot|] eqn:Hslot; [|eapply sender_of_none; [done|]; by auto].
  eapply sender_of_ok; [done|]. wp. destruct (proj1 (ii_store _ Hm c) ltac:(by rewrite Hslot)) as [mc Hc].
  apply completes_lift. rewrite usize_sub_ok by lia. cbn [returns]. wp.
  destruct (try_send_slot_run slot (mkMuxPacket packet) (mc_incoming mc)) as (sh & slot' & r & Hrun & Hq & Hit & _ & _ & Hnone).
  eapply on_sender_ok; [done..|]. wp.
  assert (slot' <> None -> c ∈ im_to_flush m) as Hflush.
  { intros Hs. destruct slot as [p|]; [by eapply ii_slot|by destruct Hs; apply Hnone]. }
  assert (forall mc', mc_incoming mc' = sh -> mc_outgoing mc' = mc_outgoing mc ->
    let m' := set_im_store (<[c := mc']> (im_store m)) (set_im_incoming (<[c := slot']> (im_incoming m)) m) in
    im_inv m' /\ all_alive m' /\ (forall c, mc_outgoing <$> im_store m' !! c = mc_outgoing <$> im_store m !! c) /\
    forall c' p, p ∈ packets_for m' c' -> p ∈ packets_for m c' \/ p = mkMuxPacket packet /\ zlookup 0 (c :: bytes) = Some c') as H.
  { intros mc' <- Hout m'.
    destruct (one_channel_inv c mc mc' slot slot' (im_to_send m) (im_to_flush m) m) as (Hm' & Hal' & Hout'); try done;
      [set_solver|apply Hm|]. split_and!; try done.
    intros c' p. unfold packets_for, m'. proj. destruct (decide (c' = c)) as [->|Hne];
      rewrite ?lookup_insert_eq, ?lookup_insert_ne by done; [|by left].
    rewrite Hc, Hslot, app_assoc, Hit. change (waiting_for _ c) with (waiting_for m c). rewrite !elem_of_app. destruct r; set_solver. }
  destruct r as [[]|[p|p]]; wp.
  - unfold mark_incoming. wp. unfold sender_ran. proj. rewrite lookup_insert_eq. cbn [unwrap]. wp. rewrite insert_insert_eq. by apply H.
  - by apply H.
  - by apply H.
Qed.

Lemma mux_poll_flush_ok w (m : incoming) :
  im_inv m -> all_alive m ->
  completes (Incoming_poll_flush w) m (fun m' o => kept m m' /\
    match o with
    | inl _ => im_to_send m' = None /\ im_to_flush m' = ∅
    | inr None => True
    | inr (Some e) => e = UnknownPacketChannel /\ im_to_send m' = None
    end).
Proof.
  intros Hm Hal. unfold Incoming_poll_flush. apply completes_bind.
  eapply completes_mono; [by apply poll_ready_ok|]. intros m1 o [Hk Ho]. destruct o as [[]|e]; [|done].
  wp. eapply completes_mono; [apply flush_loop_ok; [apply Hk..|done]|].
  intros m2 o (Hk2 & Hs & Hfl). split; [by eapply kept_trans|]. destruct o as [[]|[e|]]; [|done..]. by rewrite Hs.
Qed.

(** C31. The sink of incoming packets loses nothing: however often [poll_flush] has to
    wait, every packet that was accepted for an open channel is still in the queue
    of that channel, in the slot of its sender or waiting, in the same order; the
    loop over the channels to flush ends; and when the sink says that it is flushed
    they are all in the queues. *)
Theorem mux_flush_delivers w (m : incoming) :
  im_inv m -> all_alive m ->
  completes (Incoming_poll_flush w) m (fun m' o => kept m m' /\
    match o with
    | inl _ => im_to_send m' = None /\ forall c slot, im_incoming m' !! c = Some slot -> slot = None
    | inr None => True
    | inr (Some e) => e = UnknownPacketChannel /\ im_to_send m' = None
    end).
Proof.
  intros Hm Hal. eapply completes_mono; [by apply mux_poll_flush_ok|]. intros m' o (Hk & Ho). split; [done|].
  destruct o as [[]|e]; [|done]. destruct Ho as [Hs Hfl]. split; [done|]. intros c [p|] Hc; [|done].
  apply (ii_slot _ (kp_inv _ _ Hk)) in Hc. rewrite Hfl in Hc. set_solver.
Qed.

(** A packet without a single byte, which is for no channel, makes both ways of
    pushing it into the multiplexer panic. *)
Theorem mux_empty_packet_panics w (m : incoming) packet :
  deref packet = [] -> Incoming_try_send packet m = Fault IndexOutOfRange /\
  (im_to_send m = Some packet -> Incoming_poll_ready w m = Fault IndexOutOfRange).
Proof.
  intros Hd. split; [|intros Hs]; unfold Incoming_try_send, Incoming_poll_ready, mbind, handler_bind, lift, get, modify.
  - by rewrite Hd.
  - by rewrite Hs, Hd.
Qed.
End incoming.

(** * From one multiplexer to another *)

Section routing.
Context {P Q W K : Type} {PI : Packet P} {PL : PacketLaws P}.
Context {CB : Crossbeam Q (MuxPacket P)} {CL : CrossbeamLaws Q (MuxPacket P)} {AW : AtomicWaker W K} {HO : HashOrder}.

(** A packet taken from the outgoing queue of a channel. *)
Definition sent_on (c : Z) (mc mc' : MuxChannel Q W K) (p : MuxPacket P) (q : P) : Prop :=
  cb_items (channel_ (mc_outgoing mc)) = p :: cb_items (channel_ (mc_outgoing mc')) /\
  mc_incoming mc' = mc_incoming mc /\
  mc_statistics mc' = mark_outgoing_packet (zlen (deref p)) (mc_statistics mc) /\
  deref q = c :: deref p.

Lemma outgoing_ok c w (store : gmap Z (MuxChannel Q W K)) mc p rest :
  store !! c = Some mc -> cb_items (channel_ (mc_outgoing mc)) = p :: rest -> mux_packet_wf p ->
  exists mc' q, ChannelReceiver_poll_next c w store = Val (<[c := mc']> store, Ready (Some q)) /\
    sent_on c mc mc' p q /\ packet_wf q /\ packet_capacity q = packet_capacity (mux_inner p).
Proof.
  intros Hc Hitems Hp. pose proof (MuxPacket_len p Hp) as Hl. destruct Hp as (Hwf & Hl1 & Hcap). zlen_facts.
  unfold ChannelReceiver_poll_next. rewrite Hc. cbn [unwrap mbind res_bind].
  pose proof (poll_next_run w (mc_outgoing mc)) as (sh & r & -> & _ & Hr). rewrite Hitems in Hr. destruct Hr as [-> Hi].
  destruct (put_bytes_ok (mux_inner p) 0 [c] Hwf) as (q & -> & Hq & Hd & Hqc);
    [lia|change (zlen [c]) with 1; lia|].
  cbn [mbind res_bind].
  assert (deref q = c :: MuxPacket_deref p) as Hdq.
  { rewrite Hd. unfold splice. rewrite ztake_0 by lia. done. }
  pose proof (deref_len _ Hq). rewrite Hdq, zlen_cons in *. rewrite usize_sub_ok by lia. cbn [mbind res_bind].
  replace (1 + zlen (MuxPacket_deref p) - 1) with (zlen (MuxPacket_deref p)) by lia.
  eexists _, q. split; [done|]. split; [|by split]. unfold sent_on. cbn. by rewrite Hi.
Qed.

Lemma incoming_ok c (m : IncomingMultiplexedPackets P Q W K) mc q :
  im_store m !! c = Some mc -> im_incoming m !! c = Some None ->
  cb_receiver (channel_ (mc_incoming mc)) = true ->
  zlen (cb_items (channel_ (mc_incoming mc))) < cb_cap (channel_ (mc_incoming mc)) ->
  zlookup 0 (deref q) = Some c -> zlen (deref q) < usize_modulus ->
  completes (Incoming_try_send q) m (fun m' o => o = inl tt /\ exists mc',
    im_store m' = <[c := mc']> (im_store m) /\ im_incoming m' = im_incoming m /\
    cb_items (channel_ (mc_incoming mc')) = cb_items (channel_ (mc_incoming mc)) ++ [mkMuxPacket q] /\
    mc_outgoing mc' = mc_outgoing mc /\
    mc_statistics mc' = mark_incoming_packet (zlen (deref q) - 1) (mc_statistics mc)).
Proof.
  intros Hc Hslot Hal Hroom Hd Hlen. pose proof (zlookup_Some_lt _ _ _ Hd). unfold Incoming_try_send.
  wp_step. apply completes_lift. rewrite (index_ok _ _ _ Hd). cbn [returns]. wp_step. eapply sender_of_ok; [done|]. cbn beta iota.
  wp_step. apply completes_lift. rewrite usize_sub_ok by lia. cbn [returns]. wp_step.
  destruct (try_send_run (mkMuxPacket q) (mc_incoming mc)) as (sh & Hrun & Hsh).
  pose proof (cb_try_send_ok (channel_ (mc_incoming mc)) (mkMuxPacket q)) as (_ & _ & _ & Hs).
  rewrite Hal, (proj2 (Z.ltb_lt _ _)) in Hs by done. destruct Hs as [Hres Hit].
  eapply on_sender_ok; [done..|]. rewrite Hres. cbn beta iota.
  unfold mark_incoming. wp_step. wp_step. wp_step. unfold sender_ran at 1.
  cbn [im_store set_im_incoming set_im_store]. rewrite lookup_insert_eq. cbn [unwrap]. wp_step. wp_step. cbn.
  split; [done|]. eexists. split; [by rewrite insert_insert_eq|]. cbn. rewrite Hsh. split_and!; try done.
  apply map_eq. intros c'. destruct (decide (c' = c)) as [->|Hne].
  - by rewrite lookup_insert_eq, Hslot.
  - by rewrite lookup_insert_ne.
Qed.

(** C29. Routing: a packet that waits in the outgoing queue of a channel is taken out
    with the number of that channel as its first byte, and, given to any multiplexer
    on which this channel is open and has room, it arrives as the last one in the
    incoming queue of that channel, with the same bytes. No other channel is
    affected, and both sides count one packet and its bytes. *)
Theorem mux_routing c w (store : gmap Z (MuxChannel Q W K)) mc p rest (m : IncomingMultiplexedPackets P Q W K) mi :
  store !! c = Some mc -> cb_items (channel_ (mc_outgoing mc)) = p :: rest -> mux_packet_wf p ->
  im_store m !! c = Some mi -> im_incoming m !! c = Some None ->
  cb_receiver (channel_ (mc_incoming mi)) = true ->
  zlen (cb_items (channel_ (mc_incoming mi))) < cb_cap (channel_ (mc_incoming mi)) ->
  exists mc' q, ChannelReceiver_poll_next c w store = Val (<[c := mc']> store, Ready (Some q)) /\
    sent_on c mc mc' p q /\
    completes (Incoming_try_send q) m (fun m' o => o = inl tt /\ exists mi' p',
      im_store m' = <[c := mi']> (im_store m) /\ im_incoming m' = im_incoming m /\
      cb_items (channel_ (mc_incoming mi')) = cb_items (channel_ (mc_incoming mi)) ++ [p'] /\
      mux_packet_wf p' /\ deref p' = deref p /\
      mc_statistics mi' = mark_incoming_packet (zlen (deref p)) (mc_statistics mi)).
Proof.
  intros Hc Hitems Hp Hci Hslot Hal Hroom. pose proof (MuxPacket_len p Hp) as Hl.
  destruct (outgoing_ok c w store mc p rest Hc Hitems Hp) as (mc' & q & Hrun & Hsent & Hq & Hqc).
  exists mc', q. split; [exact Hrun|]. split; [exact Hsent|]. destruct Hsent as (_ & _ & _ & Hd).
  destruct Hp as (Hwf & Hl1 & Hcap). pose proof (deref_len _ Hq) as Hlen.
  eapply completes_mono; [apply (incoming_ok c m mi q Hci Hslot Hal Hroom)|].
  - by rewrite Hd.
  - lia.
  - intros m' o (-> & mi' & Hst & Hinc & Hit & _ & Hstat). split; [done|]. exists mi', (mkMuxPacket q).
    split; [done|]. split; [done|]. split; [done|]. unfold mux_packet_wf. cbn [mux_inner deref MuxPacket_packet].
    unfold MuxPacket_deref at 1. cbn [mux_inner]. rewrite Hd in *. rewrite zlen_cons in *.
    zlen_facts. rewrite Hqc, Hstat. split_and!; try done; try lia. change (MuxPacket_deref p) with (deref p). f_equal; lia.
Qed.

(** The packets that wait on a channel to go out, and whether more can come. *)
Definition outgoing_items (store : gmap Z (MuxChannel Q W K)) (c : Z) : list (MuxPacket P) :=
  match store !! c with Some mc => cb_items (channel_ (mc_outgoing mc)) | None => [] end.
Definition outgoing_open (store : gmap Z (MuxChannel Q W K)) (c : Z) : bool :=
  match store !! c with Some mc => cb_sender (channel_ (mc_outgoing mc)) | None => false end.

Lemma outgoing_insert store c (mc : MuxChannel Q W K) c' :
  outgoing_items (<[c := mc]> store) c' = (if decide (c' = c) then cb_items (channel_ (mc_outgoing mc)) else outgoing_items store c') /\
  outgoing_open (<[c := mc]> store) c' = (if decide (c' = c) then cb_sender (channel_ (mc_outgoing mc)) else outgoing_open store c').
Proof.
  unfold outgoing_items, outgoing_open. destruct (decide (c' = c)) as [->|]; [by rewrite lookup_insert_eq|by rewrite lookup_insert_ne].
Qed.

(** A poll of a channel that has nothing to send changes no queue. *)
Lemma outgoing_idle c w (store : gmap Z (MuxChannel Q W K)) : is_Some (store !! c) -> outgoing_items store c = [] ->
  exists store', ChannelReceiver_poll_next c w store = Val (store', if outgoing_open store c then Pending else Ready None) /\
    (forall c', outgoing_items store' c' = outgoing_items store c' /\ outgoing_open store' c' = outgoing_open store c') /\
    forall c', is_Some (store !! c') -> is_Some (store' !! c').
Proof.
  intros [mc Hc] Hi. unfold ChannelReceiver_poll_next, outgoing_items, outgoing_open in *. rewrite Hc in *. cbn [unwrap mbind res_bind].
  destruct (poll_next_run w (mc_outgoing mc)) as (sh & r & -> & (_ & Hs & _) & Hr). rewrite Hi in Hr. destruct Hr as [-> Hsh].
  assert (forall c', outgoing_items (<[c := set_mc_outgoing sh mc]> store) c' = outgoing_items store c' /\
    outgoing_open (<[c := set_mc_outgoing sh mc]> store) c' = outgoing_open store c') as Hsame.
  { intros c'. destruct (outgoing_insert store c (set_mc_outgoing sh mc) c') as [-> ->]. destruct (decide (c' = c)) as [->|]; [|done].
    unfold outgoing_items, outgoing_open. rewrite Hc. cbn. by rewrite Hsh, Hs, Hi. }
  exists (<[c := set_mc_outgoing sh mc]> store). split; [by destruct (cb_sender (channel_ (mc_outgoing mc)))|].
  split; [exact Hsame|]. intros c' Hc'. destruct (decide (c' = c)) as [->|]; [by rewrite lookup_insert_eq|by rewrite lookup_insert_ne].
Qed.

(** What a poll of the channels [order] does: it gives a packet from the front of a queue,
    under the number of its channel, or changes no queue. *)
Record outgoing_polled (order outgoing : list Z) (store store' : gmap Z (MuxChannel Q W K)) (outgoing' : list Z)
    (r : Poll (option P)) : Prop := {
  op_subset c : c ∈ outgoing' -> c ∈ outgoing;
  op_ended c : c ∈ outgoing -> c ∈ outgoing' \/ (outgoing_items store c = [] /\ outgoing_open store c = false);
  op_result : match r with
    | Ready (Some q) => exists c p, c ∈ order /\ c ∈ outgoing /\ deref q = c :: deref p /\ packet_wf q /\
        outgoing_items store c = p :: outgoing_items store' c /\ forall c', c' <> c -> outgoing_items store' c' = outgoing_items store c'
    | Ready None => outgoing' = [] /\ forall c, outgoing_items store' c = outgoing_items store c
    | Pending => outgoing' <> [] /\ (forall c, outgoing_items store' c = outgoing_items store c) /\
        forall c, c ∈ order -> c ∈ outgoing -> outgoing_items store c = []
    end;
}.

(** A channel that has nothing to send is polled before others. *)
Lemma outgoing_polled_idle c order outgoing outgoing1 store store1 store' outgoing' r :
  (forall c', outgoing_items store1 c' = outgoing_items store c' /\ outgoing_open store1 c' = outgoing_open store c') ->
  (c ∈ outgoing -> outgoing_items store c = []) -> (forall c', c' ∈ outgoing1 -> c' ∈ outgoing) ->
  (forall c', c' ∈ outgoing -> c' ∈ outgoing1 \/ (outgoing_items store c' = [] /\ outgoing_open store c' = false)) ->
  outgoing_polled order outgoing1 store1 store' outgoing' r -> outgoing_polled (c :: order) outgoing store store' outgoing' r.
Proof.
  intros Hsame Hi Hsub1 Hend1 [Hsub Hend Hr]. split.
  - intros c' Hc'. by apply Hsub1, Hsub.
  - intros c' [Hc'|Hc']%Hend1; [|by right]. destruct (Hsame c') as [<- <-]. by apply Hend.
  - destruct r as [|[q|]].
    + destruct Hr as (Hne & Hit & He). split; [done|]. split; [intros c'; rewrite Hit; apply Hsame|].
      intros c' [->|Hc']%elem_of_cons Hco; [by apply Hi|]. destruct (Hend1 c' Hco) as [H1|[H1 _]]; [|done].
      destruct (Hsame c') as [<- _]. by apply He.
    + destruct Hr as (c' & p & Hc' & Hco & Hd & Hq & Hit & Hother). exists c', p. destruct (Hsame c') as [<- _].
      split_and!; try done; [by right|by apply Hsub1|]. intros c2 Hc2. rewrite Hother by done. apply Hsame.
    + destruct Hr as [-> Hit]. split; [done|]. intros c'. rewrite Hit. apply Hsame.
Qed.

(** C30. The packets that go out: whichever channels are polled, in whatever order, the
    stream does not panic; it gives the first packet that waits on one of them, under
    the number of its channel, or waits only when none of those polled has a packet, and
    it ends only when every channel is empty and has no sender. *)
Theorem mux_outgoing_poll w order : forall (outgoing : list Z) (store : gmap Z (MuxChannel Q W K)),
  (forall c, c ∈ outgoing -> is_Some (store !! c)) -> (forall c p, p ∈ outgoing_items store c -> mux_packet_wf p) ->
  exists store' outgoing' r, Outgoing_poll_next order w outgoing store = Val (store', outgoing', r) /\
    outgoing_polled order outgoing store store' outgoing' r.
Proof.
  induction order as [|c order IH]; intros outgoing store Hst Hwf; cbn [Outgoing_poll_next].
  { eexists _, _, _. split; [done|]. split; [done|by left|]. destruct outgoing; [done|]. split_and!; try done.
    by intros c Hc%not_elem_of_nil. }
  destruct (decide (c ∈ outgoing)) as [Hin|Hnin]; cycle 1.
  { destruct (IH outgoing store Hst Hwf) as (store' & outgoing' & r & -> & Hr). eexists _, _, _. split; [done|].
    eapply outgoing_polled_idle, Hr; auto; done. }
  destruct (outgoing_items store c) as [|p rest] eqn:Hi.
  - destruct (outgoing_idle c w store (Hst c Hin) Hi) as (store1 & -> & Hsame & Hsome). cbn [mbind res_bind].
    assert (forall outgoing1, (forall c', c' ∈ outgoing1 -> c' ∈ outgoing) -> exists store' outgoing' r,
      Outgoing_poll_next order w outgoing1 store1 = Val (store', outgoing', r) /\
      outgoing_polled order outgoing1 store1 store' outgoing' r) as Hrest.
    { intros outgoing1 Hsub1. apply IH; [intros c' Hc'; by apply Hsome, Hst, Hsub1|].
      intros c' p. destruct (Hsame c') as [-> _]. apply Hwf. }
    destruct (outgoing_open store c) eqn:Ho.
    + destruct (Hrest outgoing) as (store' & outgoing' & r & -> & Hr); [done|]. eexists _, _, _. split; [done|].
      eapply outgoing_polled_idle, Hr; auto.
    + destruct (Hrest (filter (fun c' => c' <> c) outgoing)) as (store' & outgoing' & r & -> & Hr); [by intros c' [_ Hc']%list_elem_of_filter|].
      eexists _, _, _. split; [done|]. eapply outgoing_polled_idle, Hr; auto; [by intros c' [_ Hc']%list_elem_of_filter|].
      intros c' Hc'. destruct (decide (c' = c)) as [->|Hne]; [by right|]. left. by apply list_elem_of_filter.
  - destruct (Hst c Hin) as [mc Hc]. assert (mux_packet_wf p) as Hp by (apply (Hwf c); rewrite Hi; apply list_elem_of_here).
    pose proof Hi as Hit. unfold outgoing_items in Hit. rewrite Hc in Hit.
    destruct (outgoing_ok c w store mc p rest Hc Hit Hp) as (mc' & q & -> & (Hit' & _ & _ & Hd) & Hq & _). cbn [mbind res_bind].
    eexists _, _, _. split; [done|]. split; [done|by left|]. exists c, p. split; [apply list_elem_of_here|]. split_and!; try done.
    + destruct (outgoing_insert store c mc' c) as [-> _]. rewrite decide_True by done. rewrite Hi. rewrite Hit in Hit'. exact Hit'.
    + intros c' Hne. destruct (outgoing_insert store c mc' c') as [-> _]. by rewrite decide_False.
Qed.
End routing.


(** * Examples *)

Module MuxExample.
#[export] Instance first_element : HashOrder.
Proof.
  refine {| hash_first s := head (elements s) |}. intros s.
  destruct (elements s) as [|x l] eqn:E; cbn; [by apply leibniz_equiv, elements_empty_inv|].
  apply elem_of_elements. rewrite E. apply list_elem_of_here.
Defined.

Abbreviation example_mux := (PacketMultiplexer BufferPacket (list_queue (MuxPacket BufferPacket)) (option Z) Z).
Abbreviation example_incoming := (IncomingMultiplexedPackets BufferPacket (list_queue (MuxPacket BufferPacket)) (option Z) Z).

(** Two channels with queues of one packet. *)
Definition multiplexer : example_mux := (open_channel 32 1 (open_channel 4 1 PacketMultiplexer_new).1).1.
Definition payload : MuxPacket BufferPacket := mkMuxPacket (mkBufferPacket [0; 17; 18; 0] 3).
Definition packet_for (c : Z) : BufferPacket := mkBufferPacket [c; 17; 18; 0] 3.

(** The shared part of a channel whose outgoing queue holds the payload. *)
Definition sending : MuxChannel (list_queue (MuxPacket BufferPacket)) (option Z) Z :=
  let c := mkMuxChannel (Spsc.channel 1).1 (Spsc.channel 1).1 (mkChannelStatisticsData 0 0 0 0) in
  set_mc_outgoing (snd_run (Sender_try_send None payload) (mc_outgoing c)).1 c.

(** The handle, with a packet that waits. *)
Definition incoming_with (p : option BufferPacket) : example_incoming := set_im_to_send p (start multiplexer).1.
Definition empty_shared : Shared (list_queue (MuxPacket BufferPacket)) (option Z) Z := (Spsc.channel 1).1.
End MuxExample.

Import MuxExample.

Lemma payload_wf : mux_packet_wf payload.
Proof. split_and!; vm_compute; (by split) || discriminate || reflexivity. Qed.

Lemma incoming_with_lookup p c :
  im_store (incoming_with p) !! c = Some (mkMuxChannel empty_shared empty_shared (mkChannelStatisticsData 0 0 0 0)) /\
    im_incoming (incoming_with p) !! c = Some None /\ (c = 4 \/ c = 32) \/
  im_store (incoming_with p) !! c = None /\ im_incoming (incoming_with p) !! c = None /\ c <> 4 /\ c <> 32.
Proof.
  destruct (decide (c = 4)) as [->|]; [left; by split_and!; auto|].
  destruct (decide (c = 32)) as [->|]; [left; by split_and!; auto|]. right.
  unfold incoming_with, multiplexer, open_channel. cbn [pm_incoming PacketMultiplexer_new].
  cbn -[lookup insert]. rewrite lookup_empty. cbn -[lookup insert]. rewrite lookup_insert_ne, lookup_empty by done.
  cbn -[lookup insert]. by rewrite !lookup_insert_ne, !lookup_empty by done.
Qed.

Lemma incoming_with_inv p :
  1 <= zlen (deref p) < usize_modulus ->
  im_inv (incoming_with (Some p)) /\ all_alive (incoming_with (Some p)).
Proof.
  intros Hp. split; [split|].
  - intros c. destruct (incoming_with_lookup (Some p) c) as [(-> & -> & _)|(-> & -> & _)]; by eauto.
  - intros c Hin. by apply elem_of_empty in Hin.
  - intros c q. destruct (incoming_with_lookup (Some p) c) as [(_ & -> & _)|(_ & -> & _)]; done.
  - intros q [= <-]. exact Hp.
  - intros c mc. destruct (incoming_with_lookup (Some p) c) as [(-> & _)|(-> & _)]; [by intros [= <-]|done].
Qed.


(** A packet for channel 4 is flushed into the queue of that channel. *)
Lemma mux_flush_delivers_witness : exists m',
  Incoming_poll_flush 9 (incoming_with (Some (packet_for 4))) = Val (m', inl tt) /\
  packets_for m' 4 = [mkMuxPacket (packet_for 4)].
Proof.
  destruct (incoming_with_inv (packet_for 4)) as [Hm Hal]; [split; vm_compute; discriminate || reflexivity|].
  pose proof (mux_flush_delivers 9 (incoming_with (Some (packet_for 4))) Hm Hal) as H.
  apply completes_inv in H as (m' & o & Hrun & Hk & _). exists m'.
  assert (match Incoming_poll_flush 9 (incoming_with (Some (packet_for 4))) with
          | Val (_, o) => o = inl tt | Fault _ => False end) as Ho by (vm_compute; reflexivity).
  rewrite Hrun in Ho. rewrite Ho in Hrun. split; [exact Hrun|].
  rewrite (kp_packets _ _ Hk). vm_compute. reflexivity.
Defined.

Lemma mux_empty_packet_panics_witness :
  Incoming_poll_ready 9 (incoming_with (Some (mkBufferPacket [0; 0] 0))) = Fault IndexOutOfRange.
Proof. apply (mux_empty_packet_panics 9 _ (mkBufferPacket [0; 0] 0)); vm_compute; reflexivity. Defined.

(** A packet of channel 4 arrives on channel 4. *)
Lemma mux_routing_witness : exists store' q m' mi',
  ChannelReceiver_poll_next 4 9 {[4 := sending]} = Val (store', Ready (Some q)) /\
  Incoming_try_send q (incoming_with None) = Val (m', inl tt) /\
  im_store m' !! 4 = Some mi' /\ deref <$> cb_items (channel_ (mc_incoming mi')) = [[17; 18]].
Proof.
  destruct (incoming_with_lookup None 4) as [(Hc & Hslot & _)|(_ & _ & Hne & _)]; [|destruct (Hne eq_refl)].
  assert (({[4 := sending]} : gmap Z _) !! 4 = Some sending) as Hs by reflexivity.
  assert (cb_items (channel_ (mc_outgoing sending)) = [payload]) as Hq by reflexivity.
  destruct (mux_routing 4 9 {[4 := sending]} sending payload [] (incoming_with None) _ Hs Hq payload_wf Hc Hslot eq_refl
    eq_refl) as (mc' & q & Hrun & _ & H).
  apply completes_inv in H as (m' & o & Htry & -> & mi' & p' & Hst & _ & Hit & _ & Hd & _).
  exists (<[4 := mc']> {[4 := sending]}), q, m', mi'. split; [exact Hrun|]. split; [exact Htry|].
  split; [rewrite Hst; apply lookup_insert_eq|]. rewrite Hit, fmap_app. apply (f_equal (fun x => [x])). exact Hd.
Defined.

(** Of two channels the one with a packet is found, whichever is polled first. *)
Abbreviation two_channels := (<[32 := mkMuxChannel empty_shared empty_shared (mkChannelStatisticsData 0 0 0 0)]>
  ({[4 := sending]} : gmap Z (MuxChannel (list_queue (MuxPacket BufferPacket)) (option Z) Z))).
Definition polled_bytes {S : Type} (r : res (S * list Z * Poll (option BufferPacket))) : option (list Z) :=
  match r with Val (_, _, Ready (Some q)) => Some (deref q) | _ => None end.
Lemma two_channels_polled : polled_bytes (Outgoing_poll_next [32; 4] 9 [4; 32] two_channels) = Some [4; 17; 18].
Proof. vm_compute. reflexivity. Qed.

Lemma mux_outgoing_poll_witness : exists store' outgoing' q,
  Outgoing_poll_next [32; 4] 9 [4; 32] two_channels = Val (store', outgoing', Ready (Some q)) /\ deref q = [4; 17; 18] /\
  outgoing_polled [32; 4] [4; 32] two_channels store' outgoing' (Ready (Some q)).
Proof.
  destruct (mux_outgoing_poll 9 [32; 4] [4; 32] two_channels) as (store' & outgoing' & r & Hrun & Hp).
  - intros c [->|[->|Hc]%elem_of_cons]%elem_of_cons; [by eexists|by eexists|by apply not_elem_of_nil in Hc].
  - intros c p Hin. unfold outgoing_items in Hin. destruct (decide (c = 32)) as [->|Hne]; [by apply not_elem_of_nil in Hin|].
    rewrite lookup_insert_ne in Hin by done. destruct (decide (c = 4)) as [->|Hne4].
    + apply list_elem_of_singleton in Hin as ->. exact payload_wf.
    + rewrite lookup_singleton_ne in Hin by done. by apply not_elem_of_nil in Hin.
  - pose proof two_channels_polled as Hb. rewrite Hrun in Hb. destruct r as [|[q|]]; try discriminate Hb. injection Hb as Hb.
    exists store', outgoing', q. split; [exact Hrun|]. split; [exact Hb|exact Hp].
Defined.
