(* ===== verification/Bincode.v ===== *)
(** The typed channels over a reliable stream of bytes: [ReliableBincodeChannel] of
    reliable_bincode_channel.rs, which sends each message with its length before
    it. The stream and bincode are type classes: what the channel asks of a
    [ReliableChannel], and what it asks of the third-party serializer. *)

From S2P Require Import Prelude Packet Wire Async.

(** * Interfaces *)

(** A stream of bytes that is polled: [bs_read] returns the buffer with the bytes
    read at its front, and their number. *)
Class ByteStream (C K E : Type) := {
  bs_write : K -> list Z -> polling C E Z;
  bs_read : K -> list Z -> polling C E (list Z * Z);
  bs_flush : polling C E unit;
}.

(** What a client of the stream relies on, for the streams of [bs_inv]: the bytes
    written and read so far are extended by those a call reports, a call that is
    ready has moved at least one if there were any to move, one that is not
    ready has moved none, and errors are fatal. A read that is not ready leaves the
    stream idle: it has nothing that could be read now. *)
Class ByteStreamLaws (C K E : Type) `{ByteStream C K E} := {
  bs_inv : C -> Prop;
  bs_dead : C -> Prop;
  bs_written : C -> list Z;
  bs_got : C -> list Z;
  bs_idle : C -> Prop;
  bs_write_ok w data c : bs_inv c -> completes (bs_write w data) c (fun c' o =>
    bs_got c' = bs_got c /\
    match o with
    | inl n => bs_inv c' /\ 0 <= n <= zlen data /\ (data <> [] -> 0 < n) /\
        bs_written c' = bs_written c ++ ztake n data
    | inr None => bs_inv c' /\ bs_written c' = bs_written c
    | inr (Some _) => bs_dead c'
    end);
  bs_read_ok w buf c : bs_inv c -> completes (bs_read w buf) c (fun c' o =>
    bs_written c' = bs_written c /\
    match o with
    | inl (buf', n) => bs_inv c' /\ zlen buf' = zlen buf /\ 0 <= n <= zlen buf /\ (buf <> [] -> 0 < n) /\
        bs_got c' = bs_got c ++ ztake n buf'
    | inr None => bs_inv c' /\ bs_got c' = bs_got c /\ bs_idle c'
    | inr (Some _) => bs_dead c'
    end);
  bs_flush_ok c : bs_inv c -> completes bs_flush c (fun c' o =>
    bs_written c' = bs_written c /\ bs_got c' = bs_got c /\
    match o with inl _ | inr None => bs_inv c' | inr (Some _) => bs_dead c' end);
}.

(** bincode's [options().with_limit(limit)]: the bytes [serialize_into] appends and
    whether it succeeds, [serialized_size], [deserialize] of a whole slice, and
    [deserialize_from] a reader, with what is left of it. *)
Class Bincode (M BE : Type) := {
  serialize_into : Z -> M -> list Z * (unit + BE);
  serialized_size : Z -> M -> Z + BE;
  deserialize : Z -> list Z -> M + BE;
  deserialize_from : Z -> list Z -> M * list Z + BE;
}.

(** bincode's documentation: with a limit, a message that would exceed it is an
    error and nothing is written; what was serialized can be deserialized. *)
Class BincodeLaws (M BE : Type) `{Bincode M BE} : Prop := {
  serialize_ok limit m bs : serialize_into limit m = (bs, inl tt) ->
    zlen bs <= limit /\ deserialize limit bs = inl m /\
    forall rest, deserialize_from limit (bs ++ rest) = inl (m, rest);
  serialize_err limit m bs e : serialize_into limit m = (bs, inr e) -> bs = [];
  serialized_size_ok limit m : serialized_size limit m =
    match serialize_into limit m with (bs, inl _) => inl (zlen bs) | (_, inr e) => inr e end;
}.

(** [reliable_bincode_channel::MAX_MESSAGE_LEN] *)
Definition MAX_MESSAGE_LEN : Z := u16_max.

(** [SendError] and [RecvError], over the errors of the stream and of bincode. *)
Inductive SendError (E BE : Type) :=
| SendError_ReliableChannelError (e : E)
| SendError_BincodeError (e : BE).
Arguments SendError_ReliableChannelError {E BE} _.
Arguments SendError_BincodeError {E BE} _.
Inductive RecvError (E BE : Type) :=
| RecvError_ReliableChannelError (e : E)
| RecvError_BincodeError (e : BE).
Arguments RecvError_ReliableChannelError {E BE} _.
Arguments RecvError_BincodeError {E BE} _.

(** * The channel *)

Record ReliableBincodeChannel (C : Type) := mkReliableBincodeChannel {
  rb_channel : C;
  rb_write_buffer : list Z;
  rb_write_pos : Z;
  rb_read_buffer : list Z;
  rb_read_pos : Z;
}.
Arguments mkReliableBincodeChannel {C} _ _ _ _ _.
Arguments rb_channel {C} _.
Arguments rb_write_buffer {C} _.
Arguments rb_write_pos {C} _.
Arguments rb_read_buffer {C} _.
Arguments rb_read_pos {C} _.

Section reliable_bincode.
Context {C K E M BE : Type} {BS : ByteStream C K E} {BC : Bincode M BE} {BO : ByteOrder}.

Abbreviation chan := (ReliableBincodeChannel C).

Definition set_rb_channel (v : C) (c : chan) :=
  mkReliableBincodeChannel v (rb_write_buffer c) (rb_write_pos c) (rb_read_buffer c) (rb_read_pos c).
Definition set_rb_write (v : list Z) (p : Z) (c : chan) : chan :=
  mkReliableBincodeChannel (rb_channel c) v p (rb_read_buffer c) (rb_read_pos c).
Definition set_rb_read (v : list Z) (p : Z) (c : chan) : chan :=
  mkReliableBincodeChannel (rb_channel c) (rb_write_buffer c) (rb_write_pos c) v p.

Definition ReliableBincodeChannel_new (channel : C) : chan := mkReliableBincodeChannel channel [] 0 [] 0.
Definition into_inner (c : chan) : C := rb_channel c.

(** A call on the inner channel. *)
Definition on_channel {A} (m : polling C E A) : polling chan E A := zoom rb_channel set_rb_channel m.

(** The loop of [poll_send_ready]; [fuel] bounds its iterations, each of which
    writes at least one byte. *)
Fixpoint send_loop (fuel : nat) (w : K) : polling chan E unit :=
  c ← get;
  match rb_write_buffer c with
  | [] => mret tt
  | _ =>
    match fuel with
    | O => lift (Fault OutOfFuel)
    | S fuel =>
      data ← lift (slice_from (rb_write_buffer c) (rb_write_pos c));
      len ← on_channel (bs_write w data);
      write_pos ← lift (usize_add (rb_write_pos c) len);
      _ ← (if write_pos =? zlen (rb_write_buffer c)
           then modify (set_rb_write [] 0)
           else modify (set_rb_write (rb_write_buffer c) write_pos));
      send_loop fuel w
    end
  end.

Definition rb_poll_send_ready (w : K) : polling chan E unit :=
  c ← get; send_loop (length (rb_write_buffer c)) w.

Definition rb_start_send (msg : M) : polling chan BE unit :=
  c ← get;
  _ ← lift (assert (match rb_write_buffer c with [] => true | _ => false end));
  let (bytes, r) := serialize_into MAX_MESSAGE_LEN msg in
  let write_buffer := resized (rb_write_buffer c) 2 0 ++ bytes in
  _ ← modify (set_rb_write write_buffer (rb_write_pos c));
  match r with
  | inr e => fail e
  | inl _ =>
    message_len ← lift (usize_sub (zlen write_buffer) 2);
    message_len ← lift (unwrap (if message_len <=? u16_max then Some message_len else None));
    _ ← lift (slice write_buffer 0 2);
    modify (set_rb_write (splice 0 (write_u16 message_len) write_buffer) (rb_write_pos c))
  end.

Definition rb_poll_flush (w : K) : polling chan E unit :=
  _ ← rb_poll_send_ready w;
  on_channel bs_flush.

(** The loop of [poll_finish_read]. *)
Fixpoint finish_read_loop (fuel : nat) (w : K) : polling chan E unit :=
  c ← get;
  if rb_read_pos c <? zlen (rb_read_buffer c) then
    match fuel with
    | O => lift (Fault OutOfFuel)
    | S fuel =>
      buf ← lift (slice_from (rb_read_buffer c) (rb_read_pos c));
      '(buf, len) ← on_channel (bs_read w buf);
      read_pos ← lift (usize_add (rb_read_pos c) len);
      _ ← modify (set_rb_read (splice (rb_read_pos c) buf (rb_read_buffer c)) read_pos);
      finish_read_loop fuel w
    end
  else mret tt.

Definition rb_poll_finish_read (w : K) : polling chan E unit :=
  c ← get; finish_read_loop (length (rb_read_buffer c)) w.

(** The next frame, with a header of [h] bytes the last two of which are its length:
    first the header is read, then the rest. *)
Definition read_frame (h : Z) (w : K) : polling chan E unit :=
  c ← get;
  _ ← (if rb_read_pos c <? h then
         _ ← modify (set_rb_read (resized (rb_read_buffer c) h 0) (rb_read_pos c));
         rb_poll_finish_read w
       else mret tt);
  c ← get;
  header ← lift (slice (rb_read_buffer c) (h - 2) h);
  let message_len := read_u16 header in
  _ ← modify (set_rb_read (resized (rb_read_buffer c) (message_len + h) 0) (rb_read_pos c));
  rb_poll_finish_read w.

Definition rb_poll_recv_ready (w : K) : polling chan E unit := read_frame 2 w.

Definition rb_recv_next : polling chan BE M :=
  c ← get;
  bytes ← lift (slice_from (rb_read_buffer c) 2);
  _ ← modify (set_rb_read (rb_read_buffer c) 0);
  match deserialize MAX_MESSAGE_LEN bytes with inl m => mret m | inr e => fail e end.

Definition rb_poll_recv (w : K) : polling chan (RecvError E BE) M :=
  _ ← map_err RecvError_ReliableChannelError (rb_poll_recv_ready w);
  map_err RecvError_BincodeError rb_recv_next.

(** * The methods built on these *)

(** The polls of the futures of the [async] methods, and the methods that do not
    wait, which poll with a waker that does nothing. *)
Definition rb_send (msg : M) (w : K) : polling chan (SendError E BE) unit :=
  _ ← map_err SendError_ReliableChannelError (rb_poll_send_ready w);
  map_err SendError_BincodeError (rb_start_send msg).
Definition rb_flush (w : K) : polling chan E unit := rb_poll_flush w.
Definition rb_recv (w : K) : polling chan (RecvError E BE) M :=
  _ ← map_err RecvError_ReliableChannelError (rb_poll_recv_ready w);
  map_err RecvError_BincodeError rb_recv_next.

Definition rb_try_send_ready (noop : K) : handler chan E bool := try_ready (rb_poll_send_ready noop).
Definition rb_try_send (noop : K) (msg : M) : handler chan (SendError E BE) bool :=
  try_then SendError_ReliableChannelError SendError_BincodeError (rb_try_send_ready noop) (rb_start_send msg).
Definition rb_try_flush (noop : K) : handler chan E bool := try_ready (rb_poll_flush noop).
Definition rb_try_recv (noop : K) : handler chan (RecvError E BE) (option M) := try_poll (rb_poll_recv noop).
End reliable_bincode.

(** * The channel of one type *)

(** [ReliableTypedChannel] is a [ReliableBincodeChannel] whose messages are all of the
    type [M]; its methods are those of the channel inside. *)
Definition ReliableTypedChannel (C M : Type) : Type := ReliableBincodeChannel C.

Section reliable_typed.
Context {C K E M BE : Type} {BS : ByteStream C K E} {BC : Bincode M BE} {BO : ByteOrder}.

Abbreviation typed := (ReliableTypedChannel C M).

Definition rt_new (channel : C) : typed := ReliableBincodeChannel_new channel.
Definition rt_into_inner (c : typed) : C := into_inner c.
Definition rt_flush (w : K) : polling typed E unit := rb_flush w.
Definition rt_try_flush (noop : K) : handler typed E bool := rb_try_flush noop.
Definition rt_poll_flush (w : K) : polling typed E unit := rb_poll_flush w.
Definition rt_poll_send_ready (w : K) : polling typed E unit := rb_poll_send_ready w.
Definition rt_try_send_ready (noop : K) : handler typed E bool := rb_try_send_ready noop.
Definition rt_send (msg : M) (w : K) : polling typed (SendError E BE) unit := rb_send msg w.
Definition rt_try_send (noop : K) (msg : M) : handler typed (SendError E BE) bool := rb_try_send noop msg.
Definition rt_start_send (msg : M) : polling typed BE unit := rb_start_send msg.
Definition rt_recv (w : K) : polling typed (RecvError E BE) M := rb_recv w.
Definition rt_try_recv (noop : K) : handler typed (RecvError E BE) (option M) := rb_try_recv noop.
Definition rt_poll_recv (w : K) : polling typed (RecvError E BE) M := rb_poll_recv w.
End reliable_typed.
