(* ===== verification/BincodeSafety.v ===== *)
(** What the channel of messages with their lengths guarantees over any stream of
    bytes: what it has written and still holds is the sequence of the frames of
    the messages sent, and what it has read is a sequence of frames and a part
    of the next. *)

From S2P Require Import Prelude Packet Wire Async Bincode.

Section streams.
Context {C K E : Type} {BS : ByteStream C K E} {BL : ByteStreamLaws C K E}.
Context {BO : ByteOrder} {BOL : ByteOrderLaws}.

Abbreviation chan := (ReliableBincodeChannel C).

(** The length of a frame's header, and whether a buffer that is written is emptied. *)
Context (h : Z) (emptied : bool) (Hheader : 2 <= h <= 3).

Local Ltac proj := cbn [rb_channel rb_write_buffer rb_write_pos rb_read_buffer rb_read_pos
  set_rb_channel set_rb_write set_rb_read].
Local Ltac wp := repeat (wp_step; proj).

(** The bytes of the frames sent are written, except for those in the buffer. *)
Record writing (sent : list (list Z)) (written buffer : list Z) (pos : Z) : Prop := {
  wr_frames : Forall (is_frame h) sent;
  wr_written : written ++ zdrop pos buffer = concat sent;
  wr_pos : 0 <= pos <= zlen buffer;
  wr_left : emptied = true -> buffer <> [] -> pos < zlen buffer;
  wr_len : zlen buffer < usize_modulus;
}.

(** The bytes read are frames that were received, and the buffer's so far. *)
Record reading (rcvd : list (list Z)) (got buffer : list Z) (pos : Z) : Prop := {
  rd_frames : Forall (is_frame h) rcvd;
  rd_got : got = concat rcvd ++ ztake pos buffer;
  rd_pos : 0 <= pos <= zlen buffer;
  rd_len : zlen buffer < usize_modulus;
}.

(** Once the header is read the buffer has the length of the frame. *)
Definition header_read (buffer : list Z) (pos : Z) : Prop :=
  h <= pos -> zlen buffer = h + read_u16 (ztake 2 (zdrop (h - 2) buffer)).

(** A channel, with the frames it has sent and received. *)
Record rb_rep (sent rcvd : list (list Z)) (c : chan) : Prop := {
  rr_inv : bs_inv (rb_channel c);
  rr_write : writing sent (bs_written (rb_channel c)) (rb_write_buffer c) (rb_write_pos c);
  rr_read : reading rcvd (bs_got (rb_channel c)) (rb_read_buffer c) (rb_read_pos c);
  rr_header : header_read (rb_read_buffer c) (rb_read_pos c);
}.

(** * Receiving *)

(** What reading leaves alone. *)
Definition same_writing (c c' : chan) : Prop :=
  bs_written (rb_channel c') = bs_written (rb_channel c) /\
  rb_write_buffer c' = rb_write_buffer c /\ rb_write_pos c' = rb_write_pos c.

Lemma same_writing_trans c1 c2 c3 : same_writing c1 c2 -> same_writing c2 c3 -> same_writing c1 c3.
Proof. unfold same_writing. intuition congruence. Qed.

(** Bytes are read into the buffer, behind those that it has. *)
Record read_on (rcvd : list (list Z)) (c c' : chan) : Prop := {
  ro_inv : bs_inv (rb_channel c');
  ro_writing : same_writing c c';
  ro_reading : reading rcvd (bs_got (rb_channel c')) (rb_read_buffer c') (rb_read_pos c');
  ro_len : zlen (rb_read_buffer c') = zlen (rb_read_buffer c);
  ro_pos : rb_read_pos c <= rb_read_pos c';
  ro_bytes : ztake (rb_read_pos c) (rb_read_buffer c') = ztake (rb_read_pos c) (rb_read_buffer c);
}.

Lemma read_on_trans rcvd c1 c2 c3 :
  0 <= rb_read_pos c1 -> read_on rcvd c1 c2 -> read_on rcvd c2 c3 -> read_on rcvd c1 c3.
Proof.
  intros ? [_ Hw1 _ Hl1 Hp1 Hb1] [Hi Hw2 Hr Hl2 Hp2 Hb2]. split; [done|by eapply same_writing_trans|done|congruence|lia|].
  rewrite <- Hb1. apply (f_equal (ztake (rb_read_pos c1))) in Hb2. by rewrite !ztake_ztake, !Z.min_l in Hb2 by lia.
Qed.

Lemma finish_read_ok w rcvd fuel : forall (c : chan),
  bs_inv (rb_channel c) -> reading rcvd (bs_got (rb_channel c)) (rb_read_buffer c) (rb_read_pos c) ->
  zlen (rb_read_buffer c) - rb_read_pos c <= Z.of_nat fuel ->
  completes (finish_read_loop fuel w) c (fun c' o =>
    match o with
    | inl _ => read_on rcvd c c' /\ rb_read_pos c' = zlen (rb_read_buffer c')
    | inr None => read_on rcvd c c' /\ rb_read_pos c' < zlen (rb_read_buffer c') /\ bs_idle (rb_channel c')
    | inr (Some _) => bs_dead (rb_channel c')
    end).
Proof.
  induction fuel as [|fuel IH]; intros c Hi Hr Hf; pose proof Hr as [Hfr Hgot Hpos Hlen]; cbn [finish_read_loop]; wp;
    destruct (Z.ltb_spec (rb_read_pos c) (zlen (rb_read_buffer c)));
    try (wp; split; [split; try done; lia|lia]); [lia|].
  wp. apply completes_lift. rewrite slice_from_ok by lia. cbn [returns]. wp.
  set (buf := zdrop (rb_read_pos c) (rb_read_buffer c)).
  assert (zlen buf = zlen (rb_read_buffer c) - rb_read_pos c) as Hb by (unfold buf; rewrite zlen_zdrop; lia).
  apply completes_zoom. eapply completes_mono; [by apply bs_read_ok|].
  intros ch o (Hwr & Ho). destruct o as [[buf' n]|[e|]]; [|done|].
  2: { destruct Ho as (Hi' & Hg & Hidle). split; [|split; [proj; lia|done]]. split; proj; try done; try lia. by rewrite Hg. }
  destruct Ho as (Hi' & Hb' & Hn & Hn0 & Hg).
  assert (buf <> []) as Hne by (intros Hnil; rewrite Hnil, zlen_nil in Hb; lia). specialize (Hn0 Hne).
  unfold u16_max in *. wp. apply completes_lift. rewrite usize_add_ok by lia. cbn [returns]. wp.
  set (pre := ztake (rb_read_pos c) (rb_read_buffer c)).
  assert (zlen pre = rb_read_pos c) as Hpre by (unfold pre; rewrite zlen_ztake; lia).
  assert (splice (rb_read_pos c) buf' (rb_read_buffer c) = pre ++ buf') as ->.
  { unfold splice. rewrite (zdrop_ge _ (rb_read_buffer c)) by lia. by rewrite app_nil_r. }
  set (c1 := set_rb_read (pre ++ buf') (rb_read_pos c + n) (set_rb_channel ch c)).
  assert (read_on rcvd c c1) as H1.
  { split; unfold c1; proj; try done; try lia; [|rewrite zlen_app; lia|by rewrite ztake_app_le, ztake_ge by lia].
    split; [done| |rewrite zlen_app; lia|rewrite zlen_app; unfold u16_max; lia].
    rewrite Hg, Hgot, <- app_assoc. f_equal. rewrite ztake_app_ge by lia. fold pre. f_equal. f_equal. lia. }
  eapply completes_mono; [apply (IH c1 (ro_inv _ _ _ H1) (ro_reading _ _ _ H1))|].
  - unfold c1. proj. rewrite zlen_app. lia.
  - intros c2 [[]|[e|]] Ho; [|done|]; (split; [|by destruct Ho]); (eapply read_on_trans; [lia|done|by destruct Ho]).
Qed.

(** Resizing the buffer keeps the bytes that are there. *)
Lemma resized_reading rcvd got buffer pos n :
  reading rcvd got buffer pos -> pos <= n < usize_modulus -> reading rcvd got (resized buffer n 0) pos.
Proof.
  intros [Hfr Hgot Hpos Hlen] Hn. split; rewrite ?zlen_resized by lia; try done; try lia.
  rewrite Hgot. f_equal. unfold resized. rewrite ztake_app_le by (rewrite zlen_ztake; lia).
  rewrite ztake_ztake. f_equal. lia.
Qed.

(** The length in a header. *)
Definition len_of (buffer : list Z) : Z := read_u16 (ztake 2 (zdrop (h - 2) buffer)).

Lemma len_of_u16 (buffer : list Z) : h <= zlen buffer -> 0 <= len_of buffer <= u16_max.
Proof. intros. apply read_u16_range. rewrite zlen_ztake, zlen_zdrop. lia. Qed.

Lemma len_of_ext (b b' : list Z) n : h <= n -> ztake n b = ztake n b' -> len_of b = len_of b'.
Proof.
  intros Hn H. unfold len_of. f_equal. apply (f_equal (fun l => zdrop (h - 2) (ztake h l))) in H.
  rewrite !ztake_ztake, !Z.min_l, !zdrop_ztake in H by lia. by replace (h - (h - 2)) with 2 in H by lia.
Qed.

(** The buffer holds a header, and no more than its frame was read. *)
Record header_known (rcvd : list (list Z)) (c c' : chan) : Prop := {
  hk_inv : bs_inv (rb_channel c');
  hk_writing : same_writing c c';
  hk_reading : reading rcvd (bs_got (rb_channel c')) (rb_read_buffer c') (rb_read_pos c');
  hk_len : h <= zlen (rb_read_buffer c');
  hk_pos : h <= rb_read_pos c' <= h + len_of (rb_read_buffer c');
}.

Lemma rb_rep_read sent rcvd (c c' : chan) :
  rb_rep sent rcvd c -> bs_inv (rb_channel c') -> same_writing c c' ->
  reading rcvd (bs_got (rb_channel c')) (rb_read_buffer c') (rb_read_pos c') ->
  header_read (rb_read_buffer c') (rb_read_pos c') -> rb_rep sent rcvd c'.
Proof. intros [_ Hw _ _] ? (H1 & H2 & H3) ? ?. split; try done. by rewrite H1, H2, H3. Qed.

(** More of the frame is needed than is there, and nothing more can be read now. *)
Definition starved (c : chan) : Prop := rb_read_pos c < zlen (rb_read_buffer c) /\ bs_idle (rb_channel c).

Lemma read_header_ok w sent rcvd (c : chan) :
  rb_rep sent rcvd c ->
  completes (if rb_read_pos c <? h then
       _ ← modify (set_rb_read (resized (rb_read_buffer c) h 0) (rb_read_pos c)); rb_poll_finish_read w
     else mret tt) c (fun c' o =>
    match o with
    | inl _ => header_known rcvd c c'
    | inr None => rb_rep sent rcvd c' /\ same_writing c c' /\ starved c'
    | inr (Some _) => bs_dead (rb_channel c')
    end).
Proof.
  intros Hc. pose proof Hc as [Hi Hw Hr Hh]. pose proof Hr as [_ _ Hpos Hlen].
  destruct (Z.ltb_spec (rb_read_pos c) h) as [Hlt|Hge].
  2: { wp. specialize (Hh Hge). fold (len_of (rb_read_buffer c)) in Hh. by split; try done; lia. }
  wp. unfold rb_poll_finish_read. wp. set (c1 := set_rb_read (resized (rb_read_buffer c) h 0) (rb_read_pos c) c).
  assert (zlen (rb_read_buffer c1) = h) as Hl1 by (unfold c1; proj; rewrite zlen_resized; lia).
  eapply completes_mono; [apply (finish_read_ok w rcvd _ c1)|].
  - done.
  - unfold c1. proj. apply resized_reading; [done|lia].
  - change (Z.of_nat (length _)) with (zlen (rb_read_buffer c1)). unfold c1. proj. lia.
  - intros c2 [[]|[e|]] Ho; [|done|]; destruct Ho as [[Hi2 Hsw2 Hr2 Hl2 Hp2 _] Hp].
    + pose proof (len_of_u16 (rb_read_buffer c2) ltac:(lia)) as Hu.
      split; [done|exact Hsw2|done|lia..].
    + split; [|split; [exact Hsw2|exact Hp]]. apply (rb_rep_read _ _ c); [done|done|exact Hsw2|done|]. intros ?. lia.
Qed.

(** The header first, and then the rest of its frame. *)
Lemma read_frame_ok w sent rcvd (c : chan) :
  rb_rep sent rcvd c -> completes (read_frame h w) c (fun c' o =>
    match o with
    | inl _ => rb_rep sent rcvd c' /\ same_writing c c' /\ is_frame h (rb_read_buffer c') /\
        rb_read_pos c' = zlen (rb_read_buffer c')
    | inr None => rb_rep sent rcvd c' /\ same_writing c c' /\ starved c'
    | inr (Some _) => bs_dead (rb_channel c')
    end).
Proof.
  intros Hc. unfold read_frame. wp. eapply completes_mono; [by eapply read_header_ok|].
  intros c1 [[]|e] H1; [|done]. destruct H1 as [Hi1 Hsw1 Hr1 Hl1 Hp1].
  pose proof (len_of_u16 _ Hl1) as Hu. unfold u16_max in Hu. wp. apply completes_lift. rewrite slice_ok by lia.
  cbn [returns]. replace (h - (h - 2)) with 2 by lia. fold (len_of (rb_read_buffer c1)). set (n := len_of (rb_read_buffer c1)) in *.
  wp. unfold rb_poll_finish_read. wp. set (c2 := set_rb_read (resized (rb_read_buffer c1) (n + h) 0) (rb_read_pos c1) c1).
  assert (zlen (rb_read_buffer c2) = n + h) as Hl2 by (unfold c2; proj; rewrite zlen_resized; lia).
  assert (ztake h (rb_read_buffer c2) = ztake h (rb_read_buffer c1)) as Hh2.
  { unfold c2, resized. proj. rewrite ztake_app_le by (rewrite zlen_ztake; lia). rewrite ztake_ztake. f_equal. lia. }
  eapply completes_mono; [apply (finish_read_ok w rcvd _ c2)|].
  - done.
  - unfold c2. proj. apply resized_reading; [done|lia].
  - change (Z.of_nat (length _)) with (zlen (rb_read_buffer c2)). unfold c2. proj. lia.
  - intros c3 o Ho.
    assert (read_on rcvd c2 c3 -> rb_rep sent rcvd c3 /\ same_writing c c3 /\
      zlen (rb_read_buffer c3) = h + len_of (rb_read_buffer c3)) as Hrep.
    { intros [Hi3 Hsw3 Hr3 Hl3 Hp3 Hb3]. change (rb_read_pos c2) with (rb_read_pos c1) in Hb3.
      pose proof (len_of_ext _ _ _ (proj1 Hp1) Hb3) as Hn3. rewrite (len_of_ext _ _ h ltac:(lia) Hh2) in Hn3. fold n in Hn3.
      assert (same_writing c c3) as Hsw by (by eapply same_writing_trans).
      split; [|split; [done|lia]]. apply (rb_rep_read _ _ c); try done. intros _. fold (len_of (rb_read_buffer c3)). lia. }
    destruct o as [[]|[e|]]; [|done|by destruct Ho as [Hro Hs]; destruct (Hrep Hro) as (? & ? & _)].
    destruct Ho as [Hro Hp3]. destruct (Hrep Hro) as (H3 & Hsw & Hl3). split; [done|]. split; [done|]. split; [|done].
    pose proof (ro_len _ _ _ Hro). split; [lia|exact Hl3].
Qed.

(** A channel that waits for more bytes has none of the frames that follow. *)
Lemma starved_frames sent rcvd (c : chan) rest :
  rb_rep sent rcvd c -> starved c -> Forall (is_frame h) rest ->
  bs_got (rb_channel c) = concat (rcvd ++ rest) -> rest = [].
Proof.
  intros [_ _ [_ Hgot Hpos _] Hh] [Hlt _] Hrest Hall. destruct rest as [|f rest]; [done|exfalso].
  apply Forall_cons in Hrest as [[Hf Hlen] _]. rewrite Hgot, concat_app in Hall. apply app_inv_head in Hall. cbn in Hall.
  pose proof (f_equal zlen Hall) as Hl. rewrite zlen_app, zlen_ztake in Hl. zlen_facts.
  specialize (Hh ltac:(lia)). fold (len_of (rb_read_buffer c)) in Hh. fold (len_of f) in Hlen.
  assert (ztake h (rb_read_buffer c) = ztake h f) as Heq.
  { apply (f_equal (ztake h)) in Hall. rewrite ztake_ztake, Z.min_l, ztake_app_le in Hall by lia. done. }
  rewrite (len_of_ext _ _ h ltac:(lia) Heq) in Hh. lia.
Qed.

(** A frame that was read is received: the buffer is free for the next one. *)
Lemma frame_received sent rcvd (c : chan) :
  rb_rep sent rcvd c -> is_frame h (rb_read_buffer c) -> rb_read_pos c = zlen (rb_read_buffer c) ->
  rb_rep sent (rcvd ++ [rb_read_buffer c]) (set_rb_read (rb_read_buffer c) 0 c).
Proof.
  intros [Hi Hw [Hfr Hgot Hpos Hlen] Hh] Hf Hp. zlen_facts. split; try done; proj; [|intros ?; lia].
  split; [apply Forall_app; by split; [|constructor]| |lia|done].
  rewrite Hgot, concat_app. cbn. rewrite (ztake_0 0) by lia. by rewrite !app_nil_r, ztake_ge by lia.
Qed.
End streams.

(** * The channel of messages *)

Section reliable_bincode.
Context {C K E M BE : Type} {BS : ByteStream C K E} {BL : ByteStreamLaws C K E}.
Context {BC : Bincode M BE} {BCL : BincodeLaws M BE} {BO : ByteOrder} {BOL : ByteOrderLaws}.

Abbreviation chan := (ReliableBincodeChannel C).
Abbreviation rb_rep := (rb_rep 2 true).

Local Ltac proj := cbn [rb_channel rb_write_buffer rb_write_pos rb_read_buffer rb_read_pos
  set_rb_channel set_rb_write set_rb_read].
Local Ltac wp := repeat (wp_step; proj).

Lemma send_loop_ok w sent rcvd fuel : forall (c : chan),
  rb_rep sent rcvd c -> zlen (rb_write_buffer c) - rb_write_pos c <= Z.of_nat fuel ->
  completes (send_loop fuel w) c (fun c' o =>
    match o with
    | inl _ => rb_rep sent rcvd c' /\ rb_write_buffer c' = []
    | inr None => rb_rep sent rcvd c'
    | inr (Some _) => bs_dead (rb_channel c')
    end).
Proof.
  induction fuel as [|fuel IH]; intros c Hc Hf; cbn [send_loop]; wp; pose proof (rr_write _ _ _ _ _ Hc) as [Hfr Hw Hpos Hleft Hlen];
    destruct (rb_write_buffer c) as [|b buf] eqn:Hbuf; try (by wp); set (bs := b :: buf) in *.
  { specialize (Hleft eq_refl ltac:(done)). lia. }
  specialize (Hleft eq_refl ltac:(done)). wp. apply completes_lift. rewrite slice_from_ok by lia. cbn [returns]. wp.
  apply completes_zoom. eapply completes_mono; [apply bs_write_ok, Hc|].
  intros ch o (Hgot & Ho). destruct o as [n|[e|]]; [|done|].
  2: { destruct Ho as [Hi Hwr]. destruct Hc as [_ Hcw Hcr Hch]. split; proj; rewrite ?Hwr, ?Hgot; by rewrite ?Hbuf in *. }
  destruct Ho as (Hi & Hn & Hn0 & Hwr). rewrite zlen_zdrop in Hn.
  assert (zdrop (rb_write_pos c) bs <> []) as Hne.
  { pose proof (zlen_zdrop (rb_write_pos c) bs) as Hz. intros Hnil. rewrite Hnil, zlen_nil in Hz. lia. }
  specialize (Hn0 Hne). unfold u16_max in *. wp. apply completes_lift. rewrite usize_add_ok by lia. cbn [returns]. wp.
  assert (bs_written ch ++ zdrop (rb_write_pos c + n) bs = concat sent) as Hw'.
  { rewrite Hwr, <- app_assoc, <- Hw. f_equal. rewrite <- zdrop_zdrop by lia. apply ztake_zdrop. }
  destruct Hc as [_ _ Hcr Hch]. destruct (Z.eqb_spec (rb_write_pos c + n) (zlen bs)) as [Heq|Hneq]; wp.
  - rewrite zdrop_ge in Hw' by lia. eapply completes_mono; [apply IH|].
    + split; proj; [done| |by rewrite Hgot|done]. by split.
    + proj. change (zlen []) with 0. lia.
    + done.
  - eapply completes_mono; [apply IH|].
    + split; proj; [done| |by rewrite Hgot|done]. split; try done; try lia.
    + proj. lia.
    + done.
Qed.

Lemma rb_poll_send_ready_ok w sent rcvd (c : chan) :
  rb_rep sent rcvd c -> completes (rb_poll_send_ready w) c (fun c' o =>
    match o with
    | inl _ => rb_rep sent rcvd c' /\ rb_write_buffer c' = []
    | inr None => rb_rep sent rcvd c'
    | inr (Some _) => bs_dead (rb_channel c')
    end).
Proof.
  intros Hc. unfold rb_poll_send_ready. wp. apply send_loop_ok; [done|].
  pose proof (wr_pos _ _ _ _ _ _ (rr_write _ _ _ _ _ Hc)). unfold zlen. lia.
Qed.

(** What is left in an empty buffer: a header of zero for what comes next. *)
Lemma rb_start_send_ok sent rcvd (c : chan) msg :
  rb_rep sent rcvd c -> rb_write_buffer c = [] ->
  completes (rb_start_send msg) c (fun c' o =>
    match serialize_into MAX_MESSAGE_LEN msg with
    | (bs, inl _) => o = inl tt /\ rb_rep (sent ++ [frame bs]) rcvd c'
    | (_, inr e) => o = inr (Some e) /\
        c' = set_rb_write [0; 0] (rb_write_pos c) c
    end).
Proof.
  intros Hc Hbuf. unfold rb_start_send. wp. rewrite Hbuf. cbn [assert]. wp.
  destruct (serialize_into MAX_MESSAGE_LEN msg) as [bs [[]|e]] eqn:Hser; wp.
  - destruct (serialize_ok _ _ _ Hser) as (Hlen & _ & _). unfold MAX_MESSAGE_LEN, u16_max in Hlen. zlen_facts.
    change (resized [] 2 0) with [0; 0]. assert (zlen ([0; 0] ++ bs) = 2 + zlen bs) as Hl by (by rewrite zlen_app).
    apply completes_lift. rewrite Hl, usize_sub_ok by lia. cbn [returns]. wp. replace (2 + zlen bs - 2) with (zlen bs) by lia.
    unfold u16_max. rewrite (proj2 (Z.leb_le _ _)) by lia. cbn [unwrap]. wp.
    apply completes_lift. rewrite slice_ok by lia. cbn [returns]. wp. split; [done|].
    destruct (frame_is_frame bs Hlen) as [Hfr _].
    assert (zlen (write_u16 (zlen bs)) = 2) as H2 by (apply write_u16_len; unfold is_u16, u16_max; lia).
    pose proof (splice_mid [] (write_u16 (zlen bs)) [0; 0] bs) as Hsp. cbn [app] in Hsp. change (zlen []) with 0 in Hsp.
    cbn [app]. rewrite Hsp by (by rewrite H2). clear Hsp.
    destruct Hc as [Hi [Hf Hw Hp Hlf Hln] Hr Hh]. rewrite Hbuf in *.
    assert (rb_write_pos c = 0) as Hp0 by (rewrite zlen_nil in *; lia). rewrite Hp0 in *.
    split; proj; try done. split.
    + apply Forall_app. by split; [|constructor].
    + rewrite zdrop_0 by lia. rewrite zdrop_0, app_nil_r in Hw by lia. rewrite concat_app, Hw. cbn. by rewrite app_nil_r.
    + rewrite zlen_app. lia.
    + rewrite zlen_app. lia.
    + rewrite zlen_app. unfold u16_max. lia.
  - apply serialize_err in Hser as ->. unfold fail. wp. by rewrite app_nil_r.
Qed.

(** The frame in the buffer is received. *)
Lemma rb_poll_recv_ok w sent rcvd (c : chan) :
  rb_rep sent rcvd c -> completes (rb_poll_recv w) c (fun c' o =>
    match o with
    | inl msg => exists f, rb_rep sent (rcvd ++ [f]) c' /\ same_writing c c' /\
        deserialize MAX_MESSAGE_LEN (zdrop 2 f) = inl msg
    | inr None => rb_rep sent rcvd c' /\ same_writing c c' /\ starved c'
    | inr (Some (RecvError_BincodeError e)) =>
      exists f, rb_rep sent (rcvd ++ [f]) c' /\ deserialize MAX_MESSAGE_LEN (zdrop 2 f) = inr e
    | inr (Some (RecvError_ReliableChannelError _)) => bs_dead (rb_channel c')
    end).
Proof.
  intros Hc. unfold rb_poll_recv, rb_poll_recv_ready. wp. apply completes_map_err.
  eapply completes_mono; [apply (read_frame_ok 2 true); [lia|exact Hc]|]. intros c1 [[]|[e|]] Ho; [|exact Ho|exact Ho].
  destruct Ho as (H1 & Hsw & Hf & Hp). apply completes_map_err. unfold rb_recv_next. wp.
  pose proof (frame_received 2 true ltac:(lia) _ _ _ H1 Hf Hp) as H2. destruct Hf as [Hl _].
  apply completes_lift. rewrite slice_from_ok by lia. cbn [returns]. wp.
  destruct (deserialize MAX_MESSAGE_LEN (zdrop 2 (rb_read_buffer c1))) as [msg|e] eqn:Hd; unfold fail; wp; by eexists.
Qed.

(** * What the user calls *)

Lemma rb_poll_flush_ok w sent rcvd (c : chan) :
  rb_rep sent rcvd c -> completes (rb_poll_flush w) c (fun c' o =>
    match o with
    | inl _ => rb_rep sent rcvd c' /\ rb_write_buffer c' = []
    | inr None => rb_rep sent rcvd c'
    | inr (Some _) => bs_dead (rb_channel c')
    end).
Proof.
  intros Hc. unfold rb_poll_flush. wp. eapply completes_mono; [by apply rb_poll_send_ready_ok|].
  intros c1 [[]|[e|]] Ho; [|done|done]. destruct Ho as [[Hi Hw Hr Hh] Hb].
  apply completes_zoom. eapply completes_mono; [by apply bs_flush_ok|].
  intros ch [[]|[e|]] (Hwr & Hg & Ho); [split; [|done]|done|]; (split; proj; rewrite ?Hwr, ?Hg; done).
Qed.

(** A message that bincode serializes is sent or has to wait. *)
Lemma rb_try_send_ok noop sent rcvd (c : chan) msg bs :
  rb_rep sent rcvd c -> serialize_into MAX_MESSAGE_LEN msg = (bs, inl tt) ->
  completes (rb_try_send noop msg) c (fun c' o =>
    match o with
    | inl true => rb_rep (sent ++ [frame bs]) rcvd c'
    | inl false => rb_rep sent rcvd c'
    | inr (SendError_ReliableChannelError _) => bs_dead (rb_channel c')
    | inr (SendError_BincodeError _) => False
    end).
Proof.
  intros Hc Hser. apply completes_try_then, completes_try_ready.
  eapply completes_mono; [by apply rb_poll_send_ready_ok|]. intros c1 [[]|[e|]] H1; [|exact H1|exact H1].
  destruct H1 as [H1 Hbuf]. cbn [tried_ready]. eapply completes_mono; [by apply rb_start_send_ok|].
  rewrite Hser. by intros c2 o [-> H2].
Qed.
End reliable_bincode.

(** * A message that cannot be serialized *)

Section failed.
Context {C K E M BE : Type} {BS : ByteStream C K E} {BL : ByteStreamLaws C K E}.
Context {BC : Bincode M BE} {BCL : BincodeLaws M BE}.

(** A message that bincode refuses is reported as not sent, yet the header that
    was put in the buffer for it stays there, and is sent as an empty message: the
    peer receives one message more than was sent. *)
Theorem failed_send_sends_empty sent rcvd (c : ReliableBincodeChannel C) (msg : M) (e : BE) :
  rb_rep 2 true sent rcvd c -> rb_write_buffer c = [] -> (serialize_into MAX_MESSAGE_LEN msg).2 = inr e ->
  completes (rb_start_send msg) c (fun c' o =>
    o = inr (Some e) /\ rb_rep 2 true (sent ++ [frame []]) rcvd c').
Proof.
  intros Hc Hbuf Hser. eapply completes_mono; [by apply rb_start_send_ok|]. intros c' o Ho.
  destruct (serialize_into MAX_MESSAGE_LEN msg) as [bs r]. cbn in Hser. subst r. destruct Ho as [-> ->]. split; [done|].
  destruct Hc as [Hi [Hf Hw Hp Hl Hn] Hr Hh]. rewrite Hbuf in *.
  assert (rb_write_pos c = 0) as Hp0 by (rewrite zlen_nil in *; lia). rewrite Hp0 in *.
  split; cbn [rb_channel rb_write_buffer rb_write_pos rb_read_buffer rb_read_pos set_rb_write]; try done.
  split; try (unfold zlen, u16_max; cbn; lia).
  - apply Forall_app. split; [done|]. constructor; [|done]. apply frame_is_frame. unfold zlen, u16_max. cbn. lia.
  - rewrite zdrop_0, app_nil_r in Hw by lia. by rewrite concat_app, Hw.
Qed.
End failed.

(** * Examples *)

Module BincodeExample.
(** A stream that takes every byte, and gives those it holds. *)
Record pipe := mkPipe { p_out : list Z; p_in : list Z; p_taken : list Z }.

Definition pipe_read (buf : list Z) (p : pipe) : pipe * (list Z * Z + option unit) :=
  let n := Z.min (zlen buf) (zlen (p_in p)) in
  if (n =? 0) && negb (zlen buf =? 0) then (p, inr None)
  else (mkPipe (p_out p) (zdrop n (p_in p)) (p_taken p ++ ztake n (p_in p)),
        inl (ztake n (p_in p) ++ zdrop n buf, n)).

#[export] Instance pipe_stream : ByteStream pipe unit unit := {|
  bs_write _ data := fun p => Val (mkPipe (p_out p ++ data) (p_in p) (p_taken p), inl (zlen data));
  bs_read _ buf := fun p => Val (pipe_read buf p);
  bs_flush := fun p => Val (p, inl tt);
|}.

#[export] Instance pipe_laws : ByteStreamLaws pipe unit unit.
Proof.
  refine {| bs_inv _ := True; bs_dead _ := False; bs_written := p_out; bs_got := p_taken; bs_idle p := p_in p = [] |}.
  - intros [] data p _. cbn. zlen_facts. split_and!; try done; try lia.
    + destruct data; [done|]. intros _. rewrite zlen_cons. zlen_facts. lia.
    + by rewrite ztake_ge by lia.
  - intros [] buf p _. unfold completes, bs_read, pipe_stream, pipe_read. cbn [returns]. zlen_facts.
    destruct (Z.eqb_spec (Z.min (zlen buf) (zlen (p_in p))) 0) as [Hz|Hz]; cbn [andb negb].
    + destruct (Z.eqb_spec (zlen buf) 0) as [Hb|Hb]; cbn [negb]; [|split_and!; try done; apply zlen_zero_nil; lia]. cbn.
      rewrite Hz, (ztake_0 0), (zdrop_0 0) by lia. apply zlen_zero_nil in Hb. subst buf. cbn. by split_and!.
    + cbn. split; [done|]. split; [done|]. rewrite zlen_app, zlen_ztake, zlen_zdrop. split; [lia|]. split; [lia|].
      split; [lia|]. by rewrite ztake_app_le, ztake_ztake, Z.min_id by (rewrite zlen_ztake; lia).
  - intros p _. cbn. by split_and!.
Defined.

(** Messages of one byte, and one that cannot be serialized. *)
#[export] Instance byte_bincode : Bincode (option Z) unit := {|
  serialize_into limit m :=
    match m with
    | Some b => if 1 <=? limit then ([b], inl tt) else ([], inr tt)
    | None => ([], inr tt)
    end;
  serialized_size limit m :=
    match m with Some b => if 1 <=? limit then inl 1 else inr tt | None => inr tt end;
  deserialize limit bs := match bs with [b] => inl (Some b) | _ => inr tt end;
  deserialize_from limit bs := match bs with b :: rest => inl (Some b, rest) | [] => inr tt end;
|}.

#[export] Instance byte_bincode_laws : BincodeLaws (option Z) unit.
Proof.
  constructor; cbn; intros limit [b|]; intros; repeat case_match; simplify_eq; try done.
  rewrite Z.leb_le in *. by split_and!.
Qed.
End BincodeExample.

Import BincodeExample.

Lemma failed_send_sends_empty_witness : exists c',
  rb_start_send (None : option Z) (ReliableBincodeChannel_new (mkPipe [] [] [])) = Val (c', inr (Some tt)) /\
  exists sent, rb_rep 2 true sent [] c' /\ sent = [frame []].
Proof.
  assert (rb_rep 2 true [] [] (ReliableBincodeChannel_new (mkPipe [] [] []))) as Hc.
  { split; cbn; [exact I|split; cbn|split; cbn|]; try done; try (unfold zlen, u16_max; cbn; lia). intros ?. lia. }
  pose proof (failed_send_sends_empty [] [] _ (None : option Z) tt Hc eq_refl eq_refl) as H.
  apply completes_inv in H as (c' & o & Hrun & -> & Hr). exists c'. split; [exact Hrun|].
  exists [frame []]. split; [exact Hr|reflexivity].
Defined.
