(* ===== verification/MessageChannel.v ===== *)
(** The interface [MessageBincodeChannel] of message_channels.rs, through which the
    tasks use a typed channel, with what they rely on when the channel runs over a
    reliable stream; and its implementation by [ReliableBincodeChannel]. *)

From S2P Require Import Prelude Packet Wire Async Bincode BincodeSafety.

(** * Interface *)

Class MessageChannel (Ch K M E : Type) := {
  mc_poll_recv : K -> polling Ch E M;
  mc_poll_send : K -> M -> polling Ch E unit;
  mc_poll_flush : K -> polling Ch E unit;
}.

(** A channel, with the messages that it has taken, and those that it has given out:
    a history that no call looks at. *)
Record logged (Ch M : Type) := mkLogged {
  lg_channel : Ch;
  lg_sent : list M;
  lg_received : list M;
}.
Arguments mkLogged {Ch M} _ _ _.
Arguments lg_channel {Ch M} _.
Arguments lg_sent {Ch M} _.
Arguments lg_received {Ch M} _.

Definition ready_msg {M E} (r : M + E) : list M := match r with inl msg => [msg] | inr _ => [] end.

#[export] Instance logged_channel {Ch K M E} {MC : MessageChannel Ch K M E} : MessageChannel (logged Ch M) K M E := {|
  mc_poll_recv w c :=
    '(ch, r) ← mc_poll_recv w (lg_channel c); Val (mkLogged ch (lg_sent c) (lg_received c ++ ready_msg r), r);
  mc_poll_send w msg c :=
    '(ch, r) ← mc_poll_send w msg (lg_channel c);
    Val (mkLogged ch (lg_sent c ++ match r with inl _ => [msg] | inr _ => [] end) (lg_received c), r);
  mc_poll_flush w c :=
    '(ch, r) ← mc_poll_flush w (lg_channel c); Val (mkLogged ch (lg_sent c) (lg_received c), r);
|}.

(** [TaskError], a box that holds an error of any of the channels: of the channel
    below, of bincode, or of the compressor. *)
Inductive TaskError (E BE SE : Type) :=
| TaskError_Channel (e : E)
| TaskError_Bincode (e : BE)
| TaskError_Snap (e : SE).
Arguments TaskError_Channel {E BE SE} _.
Arguments TaskError_Bincode {E BE SE} _.
Arguments TaskError_Snap {E BE SE} _.

(** A channel over a stream: how it is made, and the stream in it. *)
Class OverStream (Ch C : Type) := {
  mc_new : C -> Ch;
  mc_stream : Ch -> C;
  mc_set_stream : C -> Ch -> Ch;
}.

(** What goes over the stream: blocks of messages, each with its bytes. *)
Abbreviation blocks M := (list (list M * list Z)).
Definition blocks_msgs {M} (b : blocks M) : list M := concat (fst <$> b).
Definition blocks_bytes {M} (b : blocks M) : list Z := concat (snd <$> b).

(** Whatever is read from the stream is the start of the peer's blocks. *)
Definition reads_blocks {C K E M} {BS : ByteStream C K E} (BL : ByteStreamLaws C K E) (peer : blocks M) : Prop :=
  forall c, bs_inv c -> exists rest, blocks_bytes peer = bs_got c ++ rest.

(** A channel waits for a message only when nothing more can be read from the stream
    now, and then it keeps back none of those that were read as a whole. *)
Definition waits {C K E M} {BS : ByteStream C K E} {BL : ByteStreamLaws C K E} (peer : blocks M) (rcvd : list M) (c : C) : Prop :=
  bs_idle c /\ (bs_got c = blocks_bytes peer -> rcvd = blocks_msgs peer).

(** [mc_rep BL sent out peer rcvd ch]: [ch] has accepted the messages [sent], whose
    bytes, as far as they are encoded, are those of the blocks [out]; of the blocks
    [peer], which its peer has put on the stream, it has handed out the messages
    [rcvd]. Errors are fatal: they come from a dead stream. *)
Class MessageChannelLaws (Ch C K M E E' : Type)
    {BS : ByteStream C K E} {MC : MessageChannel Ch K M E'} {OS : OverStream Ch C} := {
  mc_sendable : M -> Prop;
  mc_block : list M * list Z -> Prop;
  mc_rep : ByteStreamLaws C K E -> list M -> blocks M -> blocks M -> list M -> Ch -> Prop;

  mc_rep_sent BL sent out peer rcvd ch : mc_rep BL sent out peer rcvd ch ->
    bs_inv (mc_stream ch) /\ Forall mc_block out /\ (exists open, sent = blocks_msgs out ++ open) /\
    (exists rest, blocks_bytes out = bs_written (mc_stream ch) ++ rest);
  mc_rep_rcvd BL sent out peer rcvd ch : mc_rep BL sent out peer rcvd ch ->
    exists rest, blocks_msgs peer = rcvd ++ rest;
  mc_rep_peer BL sent out peer peer' rcvd ch : mc_rep BL sent out peer rcvd ch -> Forall mc_block peer' ->
    mc_rep BL sent out (peer ++ peer') rcvd ch;
  mc_rep_stream BL BL' sent out peer rcvd ch c : mc_rep BL sent out peer rcvd ch ->
    bs_inv (ByteStreamLaws := BL') c -> bs_written (ByteStreamLaws := BL') c = bs_written (ByteStreamLaws := BL) (mc_stream ch) ->
    bs_got (ByteStreamLaws := BL') c = bs_got (ByteStreamLaws := BL) (mc_stream ch) ->
    mc_rep BL' sent out peer rcvd (mc_set_stream c ch);
  mc_set_stream_id ch : mc_set_stream (mc_stream ch) ch = ch;
  mc_stream_set c ch : mc_stream (mc_set_stream c ch) = c;
  mc_stream_new c : mc_stream (mc_new c) = c;
  mc_rep_new (BL : ByteStreamLaws C K E) c : bs_inv c -> bs_written c = [] -> bs_got c = [] ->
    mc_rep BL [] [] [] [] (mc_new c);

  mc_send_ok BL w msg sent out peer rcvd ch : mc_rep BL sent out peer rcvd ch -> mc_sendable msg ->
    completes (mc_poll_send w msg) ch (fun ch' o =>
      match o with
      | inl _ => exists out', mc_rep BL (sent ++ [msg]) (out ++ out') peer rcvd ch'
      | inr None => exists out', mc_rep BL sent (out ++ out') peer rcvd ch'
      | inr (Some _) => bs_dead (mc_stream ch')
      end);
  mc_flush_ok BL w sent out peer rcvd ch : mc_rep BL sent out peer rcvd ch ->
    completes (mc_poll_flush w) ch (fun ch' o =>
      match o with
      | inl _ => exists out', mc_rep BL sent (out ++ out') peer rcvd ch' /\
          blocks_msgs (out ++ out') = sent /\ bs_written (mc_stream ch') = blocks_bytes (out ++ out')
      | inr None => exists out', mc_rep BL sent (out ++ out') peer rcvd ch'
      | inr (Some _) => bs_dead (mc_stream ch')
      end);
  mc_recv_ok BL w sent out peer rcvd ch : mc_rep BL sent out peer rcvd ch -> reads_blocks BL peer ->
    completes (mc_poll_recv w) ch (fun ch' o =>
      match o with
      | inl msg => mc_rep BL sent out peer (rcvd ++ [msg]) ch' /\ bs_written (mc_stream ch') = bs_written (mc_stream ch)
      | inr None => mc_rep BL sent out peer rcvd ch' /\ bs_written (mc_stream ch') = bs_written (mc_stream ch) /\
          waits peer rcvd (mc_stream ch')
      | inr (Some _) => bs_dead (mc_stream ch')
      end);

  (** what the calls on the stream preserve, the calls on the channel preserve *)
  mc_preserves (R : C -> C -> Prop) : PreOrder R ->
    (forall w data, preserves R (bs_write w data)) -> (forall w buf, preserves R (bs_read w buf)) ->
    preserves R bs_flush ->
    let R' := fun ch ch' => R (mc_stream ch) (mc_stream ch') in
    (forall w msg, preserves R' (mc_poll_send w msg)) /\ (forall w, preserves R' (mc_poll_flush w)) /\
    (forall w, preserves R' (mc_poll_recv w));
}.

(** * Blocks *)

Lemma blocks_msgs_app {M} (a b : blocks M) : blocks_msgs (a ++ b) = blocks_msgs a ++ blocks_msgs b.
Proof. unfold blocks_msgs. by rewrite fmap_app, concat_app. Qed.
Lemma blocks_bytes_app {M} (a b : blocks M) : blocks_bytes (a ++ b) = blocks_bytes a ++ blocks_bytes b.
Proof. unfold blocks_bytes. by rewrite fmap_app, concat_app. Qed.

(** A frame that was read after some of the peer's blocks is that of its next one. *)
Lemma next_block {BO : ByteOrder} {M} h (q p : blocks M) f rest :
  2 <= h -> Forall (is_frame h) (snd <$> p) -> is_frame h f -> (exists p', p = q ++ p') ->
  blocks_bytes p = concat ((snd <$> q) ++ [f]) ++ rest -> exists g p', p = q ++ (g, f) :: p'.
Proof.
  intros Hh Hp Hf [p' ->] H. rewrite fmap_app in Hp. apply Forall_app in Hp as [Hq Hp'].
  rewrite blocks_bytes_app, concat_app in H. cbn in H. rewrite app_nil_r, <- app_assoc in H. apply app_inv_head in H.
  destruct p' as [|[g f'] p'].
  - destruct Hf as [Hf _]. apply (f_equal zlen) in H. rewrite zlen_app in H. change (zlen (blocks_bytes (M:=M) [])) with 0 in H.
    zlen_facts. lia.
  - apply Forall_cons in Hp' as [Hf' _]. cbn in H. assert (f' = f) as ->; [|by exists g, p'].
    eapply is_frame_free; [exact Hh|exact Hf'|exact Hf|exact H].
Qed.

(** A channel that waits for more bytes, though all was read, has all the blocks. *)
Lemma starved_blocks {C K E M} {BS : ByteStream C K E} {BL : ByteStreamLaws C K E} {BO : ByteOrder}
    h emptied (Hh : 2 <= h <= 3) sent (q rest : blocks M) (c : ReliableBincodeChannel C) :
  rb_rep h emptied sent (snd <$> q) c -> starved c -> Forall (is_frame h) (snd <$> (q ++ rest)) ->
  bs_got (rb_channel c) = blocks_bytes (q ++ rest) -> rest = [].
Proof.
  intros Hc Hst Hp Hgot. rewrite fmap_app in Hp. apply Forall_app in Hp as [_ Hp].
  unfold blocks_bytes in Hgot. rewrite fmap_app in Hgot.
  pose proof (starved_frames h emptied Hh _ _ _ _ Hc Hst Hp Hgot) as H. by apply fmap_nil_inv in H.
Qed.

(** * The reliable channel of messages *)

Section reliable.
Context {C K E M BE SE : Type} {BS : ByteStream C K E}.
Context {BC : Bincode M BE} {BO : ByteOrder}.

Abbreviation chan := (ReliableBincodeChannel C).
Abbreviation task_error := (TaskError E BE SE).

(** [impl MessageBincodeChannel for ReliableTypedChannel] *)
#[export] Instance reliable_message_channel : MessageChannel chan K M task_error := {|
  mc_poll_recv w := map_err (fun e => match e with
      | RecvError_ReliableChannelError e => TaskError_Channel e
      | RecvError_BincodeError e => TaskError_Bincode e
      end) (rt_poll_recv w);
  mc_poll_send w msg :=
    _ ← map_err TaskError_Channel (rt_poll_send_ready w);
    map_err TaskError_Bincode (rt_start_send msg);
  mc_poll_flush w := map_err TaskError_Channel (rt_poll_flush w);
|}.

#[export] Instance reliable_over_stream : OverStream chan C := {|
  mc_new := ReliableBincodeChannel_new;
  mc_stream := rb_channel;
  mc_set_stream := set_rb_channel;
|}.
End reliable.

Section reliable_laws.
Context {C K E M BE SE : Type} {BS : ByteStream C K E}.
Context {BC : Bincode M BE} {BCL : BincodeLaws M BE} {BO : ByteOrder} {BOL : ByteOrderLaws}.

Abbreviation chan := (ReliableBincodeChannel C).
Abbreviation task_error := (TaskError E BE SE).

(** The frame of a message. *)
Definition frame_of (msg : M) : list Z := Wire.frame (serialize_into (BE := BE) MAX_MESSAGE_LEN msg).1.
Definition sendable (msg : M) : Prop := exists bs, serialize_into (BE := BE) MAX_MESSAGE_LEN msg = (bs, inl tt).
Definition message_block (b : list M * list Z) : Prop := exists msg, b = ([msg], frame_of msg) /\ sendable msg.

Lemma message_block_frame b : message_block b -> is_frame 2 b.2.
Proof.
  intros (msg & -> & bs & Hser). cbn. unfold frame_of. rewrite Hser. apply frame_is_frame.
  by apply serialize_ok in Hser as [? _].
Qed.

Lemma message_block_frames bs : Forall message_block bs -> Forall (is_frame 2) (snd <$> bs).
Proof. intros H. apply Forall_fmap. eapply Forall_impl; [exact H|apply message_block_frame]. Qed.

Lemma message_block_received g f : message_block (g, f) ->
  exists msg, g = [msg] /\ deserialize (BE := BE) MAX_MESSAGE_LEN (zdrop 2 f) = inl msg.
Proof.
  intros (msg & [= -> ->] & bs & Hser). exists msg. split; [done|]. unfold frame_of. rewrite Hser. cbn [fst].
  destruct (serialize_ok _ _ _ Hser) as (Hlen & Hd & _). by destruct (frame_is_frame bs Hlen) as [_ ->].
Qed.

Record reliable_rep (BL : ByteStreamLaws C K E) (sent : list M) (out peer : blocks M) (rcvd : list M) (c : chan) : Prop := {
  rl_sent : blocks_msgs out = sent;
  rl_out : Forall message_block out;
  rl_peer : Forall message_block peer;
  rl_rep : exists q, (exists rest, peer = q ++ rest) /\ rcvd = blocks_msgs q /\ rb_rep 2 true (snd <$> out) (snd <$> q) c;
}.

Lemma reliable_rep_recv BL sent out peer rcvd (c : chan) f w q :
  blocks_msgs out = sent -> Forall message_block out -> Forall message_block peer ->
  reads_blocks BL peer -> (exists rest, peer = q ++ rest) -> rcvd = blocks_msgs q ->
  rb_rep 2 true (snd <$> out) ((snd <$> q) ++ [f]) c -> w = deserialize (BE := BE) MAX_MESSAGE_LEN (zdrop 2 f) ->
  exists msg, w = inl msg /\ reliable_rep BL sent out peer (rcvd ++ [msg]) c.
Proof.
  intros Hs Ho Hp Hpeer Hq Hr Hc Hd. pose proof (rr_read _ _ _ _ _ Hc) as [Hfr Hgot _ _].
  destruct (Hpeer _ (rr_inv _ _ _ _ _ Hc)) as [rest Hrest]. rewrite Hgot, <- app_assoc in Hrest.
  pose proof (message_block_frames _ Hp) as Hpf.
  assert (is_frame 2 f) as Hf by (apply Forall_app in Hfr as [_ Hfr]; by inversion Hfr).
  destruct (next_block 2 q peer f _ ltac:(lia) Hpf Hf Hq Hrest) as (g & p' & ->).
  pose proof Hp as Hp2. apply Forall_app in Hp2 as [_ Hp2]. apply Forall_cons in Hp2 as [Hg _].
  destruct (message_block_received _ _ Hg) as (msg & -> & Hm). exists msg. split; [by rewrite Hd|].
  split; try done. exists (q ++ [([msg], f)]). split; [exists p'; by rewrite <- app_assoc|].
  split; [by rewrite blocks_msgs_app, Hr|]. by rewrite fmap_app.
Qed.

(** A relation between streams, on the channels over them. *)
Definition on_stream (R : C -> C -> Prop) (c c' : chan) : Prop := R (rb_channel c) (rb_channel c').

#[export] Instance on_stream_preorder R : PreOrder R -> PreOrder (on_stream R).
Proof. intros HR. split; unfold on_stream; [intros c; done|intros c1 c2 c3; apply HR]. Qed.

Section preserves.
Context (R : C -> C -> Prop) {HR : PreOrder R}.
Context (Hwrite : forall w data, preserves R (bs_write w data)) (Hread : forall w buf, preserves R (bs_read w buf)).
Context (Hflush : preserves R bs_flush).

Lemma on_channel_preserves {A} (m : polling C E A) : preserves R m -> preserves (on_stream R) (on_channel m).
Proof. intros Hm. eapply preserves_zoom; [exact Hm|]. done. Qed.

Lemma modify_preserves {E' : Type} (f : chan -> chan) :
  (forall c, rb_channel (f c) = rb_channel c) -> preserves (on_stream R) (modify (E := E') f).
Proof. intros Hf. apply preserves_modify. intros c. unfold on_stream. by rewrite Hf. Qed.

Lemma send_ready_preserves w : preserves (on_stream R) (rb_poll_send_ready w).
Proof.
  unfold rb_poll_send_ready. apply preserves_bind; [apply preserves_get|]. intros c.
  generalize (length (rb_write_buffer c)) as fuel. clear c. induction fuel as [|fuel IH]; cbn [send_loop];
    preserves_tac; try (by apply modify_preserves); try exact IH; by apply on_channel_preserves.
Qed.

Lemma start_send_preserves (msg : M) : preserves (on_stream R) (rb_start_send (BE := BE) msg).
Proof. unfold rb_start_send. preserves_tac; by apply modify_preserves. Qed.

Lemma finish_read_preserves fuel w : preserves (on_stream R) (finish_read_loop fuel w).
Proof.
  induction fuel as [|fuel IH]; cbn [finish_read_loop];
    preserves_tac; try (by apply modify_preserves); try exact IH; by apply on_channel_preserves.
Qed.

Lemma read_frame_preserves h w : preserves (on_stream R) (read_frame h w).
Proof. unfold read_frame, rb_poll_finish_read. preserves_tac; first [by apply modify_preserves|apply finish_read_preserves]. Qed.

Lemma poll_recv_preserves w : preserves (on_stream R) (rb_poll_recv (M := M) (BE := BE) w).
Proof.
  unfold rb_poll_recv, rb_recv_next. apply preserves_bind; [apply preserves_map_err, read_frame_preserves|intros ?].
  preserves_tac; by apply modify_preserves.
Qed.

Lemma poll_flush_preserves w : preserves (on_stream R) (rb_poll_flush w).
Proof.
  unfold rb_poll_flush. apply preserves_bind; [apply send_ready_preserves|intros ?]. by apply on_channel_preserves.
Qed.
End preserves.

(** The channel keeps the promises of the interface. *)
#[export] Instance reliable_message_laws : MessageChannelLaws chan C K M E task_error.
Proof.
  refine {| mc_sendable := sendable; mc_block := message_block; mc_rep := reliable_rep |}.
  - intros BL sent out peer rcvd c [Hs Ho Hp (q & _ & _ & [Hi [_ Hw _ _ _] _ _])]. split; [exact Hi|]. split; [done|].
    split; [exists []; by rewrite app_nil_r|]. eexists. symmetry. exact Hw.
  - intros BL sent out peer rcvd c [_ _ _ (q & [rest ->] & -> & _)]. exists (blocks_msgs rest). apply blocks_msgs_app.
  - intros BL sent out peer peer' rcvd c [Hs Ho Hp (q & [rest ->] & Hr & Hc)] Hp'. split; try done; [by apply Forall_app|].
    exists q. split; [|done]. exists (rest ++ peer'). by rewrite app_assoc.
  - intros BL BL' sent out peer rcvd c ch [Hs Ho Hp (q & Hq & Hr & [Hi Hw Hrd Hh])] Hi' Hw' Hg'. split; try done.
    exists q. split_and!; try done. split; cbn; [done|by rewrite Hw'|by rewrite Hg'|done].
  - by intros [].
  - done.
  - done.
  - intros BL c Hi Hw Hg. split; try done. exists []. split; [by exists []|]. split; [done|].
    split; cbn; [done|rewrite Hw|rewrite Hg|]; try (split; try done; unfold zlen, u16_max; cbn; lia). intros ?. lia.
  - intros BL w msg sent out peer rcvd c Hc Hmsg. destruct Hc as [Hs Ho Hp (q & Hq & Hr & Hc)]. cbn [mc_poll_send].
    apply completes_bind, completes_map_err. eapply completes_mono; [by apply rb_poll_send_ready_ok|].
    intros c1 [[]|[e|]] H1; [|done|exists []; rewrite app_nil_r; split; try done; by exists q].
    destruct H1 as [H1 Hb]. apply completes_map_err. eapply completes_mono; [by apply rb_start_send_ok|].
    pose proof Hmsg as [bs Hser]. rewrite Hser. intros c2 o [-> H2]. exists [([msg], frame_of msg)].
    split; [by rewrite blocks_msgs_app, Hs|apply Forall_app; split; [done|]; constructor; [by exists msg|done]|done|].
    exists q. split_and!; try done. rewrite fmap_app. cbn. unfold frame_of. by rewrite Hser.
  - intros BL w sent out peer rcvd c Hc. cbn [mc_poll_flush]. apply completes_map_err.
    destruct Hc as [Hs Ho Hp (q & Hq & Hr & Hc)]. eapply completes_mono; [by apply rb_poll_flush_ok|].
    intros c1 [[]|[e|]] H1; [|done|]; exists []; rewrite app_nil_r; [|split; try done; by exists q].
    destruct H1 as [H1 Hb]. split; [split; try done; by exists q|]. split; [done|].
    destruct (rr_write _ _ _ _ _ H1) as [_ Hw _ _ _]. rewrite Hb in Hw. unfold zdrop in Hw. by rewrite drop_nil, app_nil_r in Hw.
  - intros BL w sent out peer rcvd c Hc Hpeer. cbn [mc_poll_recv]. apply completes_map_err.
    pose proof Hc as [_ _ _ (q & Hq & Hr & Hrep)]. eapply completes_mono; [by apply rb_poll_recv_ok|].
    assert (forall c1 f, rb_rep 2 true (snd <$> out) ((snd <$> q) ++ [f]) c1 ->
      exists msg, deserialize (BE := BE) MAX_MESSAGE_LEN (zdrop 2 f) = inl msg /\
        reliable_rep BL sent out peer (rcvd ++ [msg]) c1) as Hrecv.
    { intros c1 f H1. eapply (reliable_rep_recv BL sent out peer rcvd c1 f _ q); try done.
      all: apply Hc. }
    intros c1 [msg|[[e|e]|]] H1; [|done| |].
    + destruct H1 as (f & H1 & [Hw _] & Hd). destruct (Hrecv _ _ H1) as (m & Hm & H2). rewrite Hd in Hm. by injection Hm as ->.
    + destruct H1 as (f & H1 & Hd). destruct (Hrecv _ _ H1) as (m & Hm & H2). by rewrite Hd in Hm.
    + destruct Hc as [Hs Ho Hp _]. destruct H1 as (H1 & [Hw _] & Hst). split; [split; try done; by exists q|].
      split; [exact Hw|]. split; [apply Hst|]. intros Hall. destruct Hq as [rest ->].
      rewrite (starved_blocks 2 true ltac:(lia) _ _ _ _ H1 Hst (message_block_frames _ Hp) Hall), app_nil_r. exact Hr.
  - intros R HR Hw Hr Hf. cbn zeta. split_and!; intros; cbn [mc_poll_send mc_poll_recv mc_poll_flush].
    + apply preserves_bind; [apply preserves_map_err; by apply send_ready_preserves|].
      intros _. apply preserves_map_err. by apply start_send_preserves.
    + apply preserves_map_err. by apply poll_flush_preserves.
    + apply preserves_map_err. by apply poll_recv_preserves.
Defined.
End reliable_laws.
