(* ===== verification/Compressed.v ===== *)
(** [CompressedBincodeChannel] of compressed_bincode_channel.rs: messages are
    serialized one behind the other into chunks, which are compressed, if that
    makes them shorter, and sent with their length over a reliable stream. *)

From S2P Require Import Prelude Packet Wire Async Bincode.

(** snap's raw format: [compress] and [decompress] into a buffer, which is returned
    with the number of bytes written to its front. *)
Class Snap (SE : Type) := {
  max_compress_len : Z -> Z;
  compress : list Z -> list Z -> list Z * (Z + SE);
  decompress_len : list Z -> Z + SE;
  decompress : list Z -> list Z -> list Z * (Z + SE);
}.

(** snap's documentation: into a buffer of [max_compress_len] bytes compression does
    not fail, and what was compressed decompresses, into a buffer of its length, to
    the same bytes. *)
Class SnapLaws (SE : Type) `{Snap SE} : Prop := {
  max_compress_len_range n : 0 <= n <= u16_max -> 0 <= max_compress_len n <= 100000;
  compress_ok input output : zlen input <= u16_max -> zlen output = max_compress_len (zlen input) ->
    exists output' n, compress input output = (output', inl n) /\ zlen output' = zlen output /\
      0 <= n <= zlen output /\ decompress_len (ztake n output') = inl (zlen input) /\
      forall buffer, zlen buffer = zlen input -> decompress (ztake n output') buffer = (input, inl (zlen input));
}.

(** [compressed_bincode_channel::RecvError]; its [SendError] and [MAX_MESSAGE_LEN]
    are those of the reliable channel of messages. *)
Inductive CompressedRecvError (E SE BE : Type) :=
| Compressed_ReliableChannelError (e : E)
| Compressed_SnapError (e : SE)
| Compressed_BincodeError (e : BE).
Arguments Compressed_ReliableChannelError {E SE BE} _.
Arguments Compressed_SnapError {E SE BE} _.
Arguments Compressed_BincodeError {E SE BE} _.

(** The stream and the buffers of what is written and read are those of a
    [ReliableBincodeChannel]: [channel], [write_buffer], [write_pos], [read_buffer]
    and [read_pos]. The encoder and the decoder have no state between calls. *)
Record CompressedBincodeChannel (C : Type) := mkCompressed {
  cc_io : ReliableBincodeChannel C;
  cc_send_chunk : list Z;
  cc_recv_chunk : list Z;
  cc_recv_pos : Z;
}.
Arguments mkCompressed {C} _ _ _ _.
Arguments cc_io {C} _.
Arguments cc_send_chunk {C} _.
Arguments cc_recv_chunk {C} _.
Arguments cc_recv_pos {C} _.

Section compressed.
Context {C K E SE M BE : Type} {BS : ByteStream C K E} {SN : Snap SE} {BC : Bincode M BE} {BO : ByteOrder}.

Abbreviation io := (ReliableBincodeChannel C).
Abbreviation chan := (CompressedBincodeChannel C).

Definition set_cc_io v (c : chan) : chan := mkCompressed v (cc_send_chunk c) (cc_recv_chunk c) (cc_recv_pos c).
Definition set_cc_send v (c : chan) : chan := mkCompressed (cc_io c) v (cc_recv_chunk c) (cc_recv_pos c).
Definition set_cc_recv v p (c : chan) : chan := mkCompressed (cc_io c) (cc_send_chunk c) v p.

Definition CompressedBincodeChannel_new (channel : C) : chan :=
  mkCompressed (ReliableBincodeChannel_new channel) [] [] 0.

Definition cc_into_inner (c : chan) : C := rb_channel (cc_io c).

Definition on_io {A E'} (m : polling io E' A) : polling chan E' A := zoom cc_io set_cc_io m.

(** The loop of [poll_finish_write]; [fuel] bounds its iterations. *)
Fixpoint finish_write_loop (fuel : nat) (w : K) : polling io E unit :=
  c ← get;
  if rb_write_pos c <? zlen (rb_write_buffer c) then
    match fuel with
    | O => lift (Fault OutOfFuel)
    | S fuel =>
      data ← lift (slice_from (rb_write_buffer c) (rb_write_pos c));
      len ← on_channel (bs_write w data);
      write_pos ← lift (usize_add (rb_write_pos c) len);
      _ ← modify (set_rb_write (rb_write_buffer c) write_pos);
      finish_write_loop fuel w
    end
  else mret tt.

Definition poll_finish_write (w : K) : polling io E unit :=
  c ← get; finish_write_loop (length (rb_write_buffer c)) w.

(** The chunk as it goes into the write buffer: whether it is compressed, its length,
    and its bytes. *)
Definition encode_chunk (chunk write_buffer : list Z) : res (list Z) :=
  max_len ← usize_add (max_compress_len (zlen chunk)) 3;
  let write_buffer := resized write_buffer max_len 0 in
  out ← slice_from write_buffer 3;
  let (out, r) := compress chunk out in
  let write_buffer := splice 3 out write_buffer in
  compressed_len ← unwrap (match r with inl n => Some n | inr _ => None end);
  let write_buffer := ztake (compressed_len + 3) write_buffer in
  if zlen chunk <=? compressed_len then
    let write_buffer := ztake (zlen chunk + 3) write_buffer in
    dst ← slice_from write_buffer 3;
    _ ← assert (zlen dst =? zlen chunk);
    let write_buffer := splice 3 chunk write_buffer in
    write_buffer ← set_index write_buffer 0 0;
    len ← unwrap (if zlen chunk <=? u16_max then Some (zlen chunk) else None);
    _ ← slice write_buffer 1 3;
    Val (splice 1 (write_u16 len) write_buffer)
  else
    write_buffer ← set_index write_buffer 0 1;
    len ← unwrap (if compressed_len <=? u16_max then Some compressed_len else None);
    _ ← slice write_buffer 1 3;
    Val (splice 1 (write_u16 len) write_buffer).

Definition poll_write_send_chunk (w : K) : polling chan E unit :=
  c ← get;
  match cc_send_chunk c with
  | [] => mret tt
  | chunk =>
    _ ← on_io (poll_finish_write w);
    c ← get;
    write_buffer ← lift (encode_chunk chunk (rb_write_buffer (cc_io c)));
    _ ← modify (fun c => set_cc_io (set_rb_write write_buffer 0 (cc_io c)) c);
    modify (set_cc_send [])
  end.

Definition cc_poll_send (w : K) (msg : M) : polling chan (SendError E BE) unit :=
  serialized_len ← (match serialized_size MAX_MESSAGE_LEN msg with
                    | inl n => mret n
                    | inr e => fail (SendError_BincodeError e)
                    end);
  c ← get;
  _ ← (if MAX_MESSAGE_LEN <? zlen (cc_send_chunk c) + serialized_len
       then map_err SendError_ReliableChannelError (poll_write_send_chunk w)
       else mret tt);
  c ← get;
  let (bytes, r) := serialize_into MAX_MESSAGE_LEN msg in
  _ ← modify (set_cc_send (cc_send_chunk c ++ bytes));
  match r with inl _ => mret tt | inr e => fail (SendError_BincodeError e) end.

Definition cc_poll_flush (w : K) : polling chan E unit :=
  _ ← poll_write_send_chunk w;
  _ ← on_io (poll_finish_write w);
  on_io (on_channel bs_flush).

(** What is taken out of a chunk that was read. *)
Definition open_chunk (bytes recv_chunk : list Z) : res (list Z * (unit + SE)) :=
  compressed ← index bytes 0;
  data ← slice_from bytes 3;
  if negb (compressed =? 0) then
    match decompress_len data with
    | inr e => Val (recv_chunk, inr e)
    | inl decompressed_len =>
      let recv_chunk := resized recv_chunk (Z.min decompressed_len MAX_MESSAGE_LEN) 0 in
      let (recv_chunk, r) := decompress data recv_chunk in
      Val (recv_chunk, match r with inl _ => inl tt | inr e => inr e end)
    end
  else
    chunk_len ← slice bytes 1 3;
    let recv_chunk := resized recv_chunk (read_u16 chunk_len) 0 in
    _ ← assert (zlen recv_chunk =? zlen data);
    Val (data, inl tt).

(** [poll_finish_read], which is that of the reliable channel of messages. *)
Definition poll_finish_read (w : K) : polling io E unit := rb_poll_finish_read w.

(** The loop of [poll_recv_ready]: [fuel] bounds the chunks that are read, which is
    more than one only when they are empty. *)
Fixpoint cc_poll_recv_ready (fuel : nat) (w : K) : polling chan (CompressedRecvError E SE BE) unit :=
  c ← get;
  if cc_recv_pos c <? zlen (cc_recv_chunk c) then mret tt
  else
    match fuel with
    | O => lift (Fault OutOfFuel)
    | S fuel =>
      _ ← map_err Compressed_ReliableChannelError (on_io (read_frame 3 w));
      c ← get;
      '(recv_chunk, r) ← lift (open_chunk (rb_read_buffer (cc_io c)) (cc_recv_chunk c));
      _ ← modify (set_cc_recv recv_chunk (cc_recv_pos c));
      match r with
      | inr e => fail (Compressed_SnapError e)
      | inl _ =>
        _ ← modify (set_cc_recv recv_chunk 0);
        _ ← modify (fun c => set_cc_io (set_rb_read (rb_read_buffer (cc_io c)) 0 (cc_io c)) c);
        cc_poll_recv_ready fuel w
      end
    end.

Definition cc_recv_next : polling chan BE M :=
  c ← get;
  reader ← lift (slice_from (cc_recv_chunk c) (cc_recv_pos c));
  match deserialize_from MAX_MESSAGE_LEN reader with
  | inr e => fail e
  | inl (msg, reader) =>
    recv_pos ← lift (usize_sub (zlen (cc_recv_chunk c)) (zlen reader));
    _ ← modify (set_cc_recv (cc_recv_chunk c) recv_pos);
    mret msg
  end.

Definition cc_poll_recv (fuel : nat) (w : K) : polling chan (CompressedRecvError E SE BE) M :=
  _ ← cc_poll_recv_ready fuel w;
  map_err Compressed_BincodeError cc_recv_next.

(** * The methods built on these *)

(** The polls of the futures of the [async] methods, and the methods that do not
    wait, which poll with a waker that does nothing. *)
Definition cc_send (msg : M) (w : K) : polling chan (SendError E BE) unit := cc_poll_send w msg.
Definition cc_try_send (noop : K) (msg : M) : handler chan (SendError E BE) bool := try_ready (cc_poll_send noop msg).
Definition cc_flush (w : K) : polling chan E unit := cc_poll_flush w.
Definition cc_try_flush (noop : K) : handler chan E bool := try_ready (cc_poll_flush noop).
Definition cc_recv (fuel : nat) (w : K) : polling chan (CompressedRecvError E SE BE) M :=
  _ ← cc_poll_recv_ready fuel w;
  map_err Compressed_BincodeError cc_recv_next.
Definition cc_try_recv (fuel : nat) (noop : K) : handler chan (CompressedRecvError E SE BE) (option M) :=
  try_poll (cc_poll_recv fuel noop).
End compressed.

(** * The channel of one type *)

(** [CompressedTypedChannel] is a [CompressedBincodeChannel] whose messages are all of
    the type [M]; its methods are those of the channel inside. *)
Definition CompressedTypedChannel (C M : Type) : Type := CompressedBincodeChannel C.

Section compressed_typed.
Context {C K E SE M BE : Type} {BS : ByteStream C K E} {SN : Snap SE} {BC : Bincode M BE} {BO : ByteOrder}.

Abbreviation typed := (CompressedTypedChannel C M).

Definition ct_new (channel : C) : typed := CompressedBincodeChannel_new channel.
Definition ct_into_inner (c : typed) : C := cc_into_inner c.
Definition ct_flush (w : K) : polling typed E unit := cc_flush w.
Definition ct_try_flush (noop : K) : handler typed E bool := cc_try_flush noop.
Definition ct_poll_flush (w : K) : polling typed E unit := cc_poll_flush w.
Definition ct_send (msg : M) (w : K) : polling typed (SendError E BE) unit := cc_send msg w.
Definition ct_try_send (noop : K) (msg : M) : handler typed (SendError E BE) bool := cc_try_send noop msg.
Definition ct_poll_send (w : K) (msg : M) : polling typed (SendError E BE) unit := cc_poll_send w msg.
Definition ct_recv (fuel : nat) (w : K) : polling typed (CompressedRecvError E SE BE) M := cc_recv fuel w.
Definition ct_try_recv (fuel : nat) (noop : K) : handler typed (CompressedRecvError E SE BE) (option M) := cc_try_recv fuel noop.
Definition ct_poll_recv (fuel : nat) (w : K) : polling typed (CompressedRecvError E SE BE) M := cc_poll_recv fuel w.
End compressed_typed.
