(* ===== verification/CompressedSafety.v ===== *)
(** What the compressed channel guarantees over any stream of bytes: a chunk that
    was written opens to the messages that were put in it, whatever way it was
    encoded, and messages come out of the chunks in the order they went in. *)

From S2P Require Import Prelude Packet Wire Async Bincode BincodeSafety Compressed.

(** * Chunks *)

Section chunks.
Context {SE : Type} {SN : Snap SE} {SNL : SnapLaws SE} {BO : ByteOrder} {BOL : ByteOrderLaws}.

(** A chunk on the stream: a byte that says whether it is compressed, the length
    of the data, and the data. *)
Definition chunk_bytes (flag : Z) (data : list Z) : list Z := flag :: write_u16 (zlen data) ++ data.

Section chunk.
Context (flag : Z) (data : list Z) (Hdata : zlen data <= u16_max).

Lemma chunk_header_len : zlen (write_u16 (zlen data)) = 2.
Proof. apply write_u16_len. unfold is_u16. zlen_facts. lia. Qed.

Lemma chunk_len : zlen (chunk_bytes flag data) = 3 + zlen data.
Proof. unfold chunk_bytes. rewrite zlen_cons, zlen_app, chunk_header_len. lia. Qed.

Lemma chunk_data : zdrop 3 (chunk_bytes flag data) = data.
Proof.
  unfold chunk_bytes. change (flag :: ?l) with ([flag] ++ l).
  rewrite zdrop_app_ge by (change (zlen [flag]) with 1; lia). change (3 - zlen [flag]) with 2.
  by rewrite zdrop_app_ge, zdrop_0 by (rewrite chunk_header_len; lia).
Qed.

Lemma chunk_header : ztake 2 (zdrop 1 (chunk_bytes flag data)) = write_u16 (zlen data).
Proof.
  change (zdrop 1 (chunk_bytes flag data)) with (write_u16 (zlen data) ++ data).
  by rewrite ztake_app_le, ztake_ge by (rewrite chunk_header_len; lia).
Qed.

Lemma chunk_is_frame : is_frame 3 (chunk_bytes flag data).
Proof.
  unfold is_frame. change (3 - 2) with 1. rewrite chunk_header, chunk_len. zlen_facts.
  rewrite read_write_u16 by (unfold is_u16; lia). split; [lia|done].
Qed.

(** The header and the flag written into a buffer that has room for them. *)
Lemma write_header (h : list Z) :
  zlen h = 3 -> (wb ← set_index (h ++ data) 0 flag; _ ← slice wb 1 3; Val (splice 1 (write_u16 (zlen data)) wb)) =
    Val (chunk_bytes flag data).
Proof.
  intros Hh. destruct h as [|a [|b [|c [|d h]]]]; try (unfold zlen in Hh; cbn in Hh; lia). clear Hh.
  pose proof (set_index_mid [] a flag ([b; c] ++ data)) as Hs. change (zlen []) with 0 in Hs.
  cbn [app] in *. rewrite Hs. cbn [mbind res_bind]. zlen_facts. rewrite slice_ok by (rewrite ?zlen_cons; lia).
  cbn [mbind res_bind]. pose proof (splice_mid [flag] (write_u16 (zlen data)) [b; c] data) as Hsp.
  rewrite chunk_header_len in Hsp. change (zlen [flag]) with 1 in Hsp. cbn [app] in Hsp. by rewrite Hsp.
Qed.
End chunk.

Lemma open_stored (chunk recv_chunk : list Z) :
  zlen chunk <= u16_max -> open_chunk (chunk_bytes 0 chunk) recv_chunk = Val (chunk, inl tt).
Proof.
  intros Hl. zlen_facts. pose proof (chunk_len 0 chunk Hl) as Hlen. unfold open_chunk.
  rewrite (index_ok _ 0 0) by done. cbn [mbind res_bind]. rewrite slice_from_ok by lia. cbn [mbind res_bind].
  rewrite chunk_data by done. cbn [negb Z.eqb]. rewrite slice_ok by lia. cbn [mbind res_bind]. change (3 - 1) with 2.
  rewrite chunk_header, read_write_u16 by (done || unfold is_u16; lia).
  by rewrite zlen_resized, Z.eqb_refl by lia.
Qed.

Lemma open_compressed (data chunk recv_chunk : list Z) :
  zlen data <= u16_max -> zlen chunk <= u16_max -> decompress_len data = inl (zlen chunk) ->
  (forall buffer, zlen buffer = zlen chunk -> decompress data buffer = (chunk, inl (zlen chunk))) ->
  open_chunk (chunk_bytes 1 data) recv_chunk = Val (chunk, inl tt).
Proof.
  intros Hl Hc Hdl Hd. zlen_facts. pose proof (chunk_len 1 data Hl) as Hlen. unfold open_chunk.
  rewrite (index_ok _ 0 1) by done. cbn [mbind res_bind]. rewrite slice_from_ok by lia. cbn [mbind res_bind].
  rewrite chunk_data by done. cbn [negb Z.eqb]. rewrite Hdl, Hd; [done|]. unfold MAX_MESSAGE_LEN.
  rewrite zlen_resized by lia. lia.
Qed.

(** Any chunk that fits a length field is encoded, whatever is left in the buffer. *)
Lemma encode_chunk_ok (chunk write_buffer : list Z) :
  zlen chunk <= u16_max -> exists flag data, encode_chunk chunk write_buffer = Val (chunk_bytes flag data) /\
    zlen data <= u16_max /\ zlen data <= zlen chunk /\
    forall recv_chunk, open_chunk (chunk_bytes flag data) recv_chunk = Val (chunk, inl tt).
Proof.
  intros Hl. zlen_facts. pose proof (max_compress_len_range (zlen chunk) ltac:(lia)) as Hmax.
  unfold u16_max in *. unfold encode_chunk. rewrite usize_add_ok by lia. cbn [mbind res_bind].
  set (wb := resized write_buffer (max_compress_len (zlen chunk) + 3) 0).
  assert (zlen wb = max_compress_len (zlen chunk) + 3) as Hwb by (unfold wb; rewrite zlen_resized; lia).
  rewrite slice_from_ok by lia. cbn [mbind res_bind].
  destruct (compress_ok chunk (zdrop 3 wb)) as (out & n & -> & Hout & Hn & Hdl & Hd);
    [unfold u16_max; lia|rewrite zlen_zdrop; lia|].
  rewrite zlen_zdrop in Hout, Hn. cbn [unwrap mbind res_bind]. unfold u16_max.
  assert (splice 3 out wb = ztake 3 wb ++ out) as ->.
  { unfold splice. by rewrite (zdrop_ge _ wb), app_nil_r by lia. }
  set (hd := ztake 3 wb). assert (zlen hd = 3) as Hhd by (unfold hd; rewrite zlen_ztake; lia).
  assert (ztake (n + 3) (hd ++ out) = hd ++ ztake n out) as ->.
  { rewrite ztake_app, (ztake_ge _ hd), Hhd by lia. f_equal. f_equal. lia. }
  assert (forall flag data, zlen data <= u16_max ->
    (x ← set_index (hd ++ data) 0 flag; len ← unwrap (if zlen data <=? 65535 then Some (zlen data) else None);
     _ ← slice x 1 3; Val (splice 1 (write_u16 len) x)) = Val (chunk_bytes flag data)) as Hwrite.
  { intros flag data Hd'. rewrite <- (write_header flag data Hd' hd Hhd). unfold u16_max in *.
    by rewrite (proj2 (Z.leb_le _ _) Hd'). }
  assert (zlen (ztake n out) = n) as Hn' by (rewrite zlen_ztake; lia).
  destruct (Z.leb_spec (zlen chunk) n) as [Hge|Hlt].
  - assert (ztake (zlen chunk + 3) (hd ++ ztake n out) = hd ++ ztake (zlen chunk) out) as ->.
    { rewrite ztake_app, (ztake_ge _ hd), Hhd, ztake_ztake by lia. f_equal. f_equal. lia. }
    assert (zlen (ztake (zlen chunk) out) = zlen chunk) as Hz by (rewrite zlen_ztake; lia).
    rewrite slice_from_ok by (rewrite zlen_app; lia). cbn [mbind res_bind].
    rewrite zdrop_app_ge, Hhd, zdrop_0, Hz, Z.eqb_refl by lia. cbn [assert mbind res_bind].
    assert (splice 3 chunk (hd ++ ztake (zlen chunk) out) = hd ++ chunk) as ->.
    { rewrite <- Hhd, <- (app_nil_r (ztake _ out)). rewrite splice_mid by lia. by rewrite app_nil_r. }
    exists 0, chunk. rewrite Hwrite by (unfold u16_max; lia). split; [done|]. unfold u16_max. split; [lia|]. split; [lia|]. intros rc.
    apply open_stored. unfold u16_max. lia.
  - exists 1, (ztake n out). pose proof (Hwrite 1 (ztake n out)) as Hw. rewrite Hn' in Hw.
    unfold u16_max in *. rewrite Hw by lia. split; [done|]. split; [lia|]. split; [lia|]. intros rc.
    apply open_compressed; unfold u16_max; try done; lia.
Qed.

(** C33. Chunks round-trip: whatever is left in the write buffer and whether or not
    compression makes the chunk shorter, encoding any chunk that fits a length field
    does not panic, gives a well-formed frame, and the frame opens to the chunk. *)
Theorem chunk_roundtrip (chunk write_buffer recv_chunk : list Z) :
  zlen chunk <= u16_max ->
  exists bytes, encode_chunk chunk write_buffer = Val bytes /\ is_frame 3 bytes /\ zlen bytes <= 3 + u16_max /\
    open_chunk bytes recv_chunk = Val (chunk, inl tt).
Proof.
  intros Hl. destruct (encode_chunk_ok chunk write_buffer Hl) as (flag & data & He & Hd & _ & Ho).
  exists (chunk_bytes flag data). split; [done|]. split; [by apply chunk_is_frame|]. split; [|done].
  rewrite chunk_len by done. lia.
Qed.
End chunks.

(** * A compressor

    The length of the data, and either a byte that is repeated or the data. *)

Module RunLength.
Definition run_encode (input : list Z) : list Z :=
  write_u16 (zlen input) ++
  match input with
  | b :: rest => if forallb (Z.eqb b) rest then [1; b] else 0 :: input
  | [] => [0]
  end.

Definition run_length (data : list Z) : Z := read_u16 (ztake 2 data).
Definition run_decode (data : list Z) : option (list Z) :=
  match zdrop 2 data with
  | 0 :: bytes => Some bytes
  | 1 :: b :: _ => Some (replicate (Z.to_nat (run_length data)) b)
  | _ => None
  end.

#[export] Instance run_snap : Snap unit := {|
  max_compress_len n := n + 4;
  compress input output :=
    let enc := run_encode input in (enc ++ zdrop (zlen enc) output, inl (zlen enc));
  decompress_len data := inl (run_length data);
  decompress data buffer :=
    match run_decode data with Some bytes => (bytes, inl (zlen bytes)) | None => (buffer, inr tt) end;
|}.

Lemma run_encode_ok input : zlen input <= u16_max ->
  zlen (run_encode input) <= zlen input + 4 /\ run_length (run_encode input) = zlen input /\
  run_decode (run_encode input) = Some input.
Proof.
  intros Hl. zlen_facts. assert (is_u16 (zlen input)) as Hu by (unfold is_u16; lia).
  pose proof (write_u16_len _ Hu) as Hw.
  assert (forall tail, run_length (write_u16 (zlen input) ++ tail) = zlen input) as Hlen.
  { intros tail. unfold run_length. by rewrite ztake_app_le, ztake_ge, read_write_u16 by (done || lia). }
  split_and!; [|apply Hlen|].
  - unfold run_encode. rewrite zlen_app, Hw. repeat case_match; rewrite ?zlen_cons, ?zlen_nil; zlen_facts; lia.
  - unfold run_decode, run_encode. rewrite Hlen, zdrop_app_ge, zdrop_0 by lia. destruct input as [|b rest]; [done|].
    destruct (forallb (Z.eqb b) rest) eqn:Hall; [|done]. f_equal. unfold zlen. rewrite Nat2Z.id. cbn. f_equal.
    clear -Hall. induction rest as [|c rest IH]; [done|]. cbn in *. apply andb_prop in Hall as [->%Z.eqb_eq H].
    cbn. by rewrite IH.
Qed.

#[export] Instance run_snap_laws : SnapLaws unit.
Proof.
  constructor; cbn [max_compress_len compress decompress_len decompress run_snap].
  - unfold u16_max. lia.
  - intros input output Hi Ho. destruct (run_encode_ok input Hi) as (Hl & Hlen & Hdec). zlen_facts.
    eexists _, _. split; [done|]. rewrite ztake_app_le, ztake_ge, zlen_app, zlen_zdrop, Hlen, Hdec by lia.
    split_and!; done || lia.
Qed.
End RunLength.

Import RunLength.

(** Twenty equal bytes are compressed, three different ones are stored. *)
Lemma chunk_roundtrip_witness :
  (exists bytes, encode_chunk (replicate 20 7) [9] = Val bytes /\ zlen bytes = 7 /\
    open_chunk (SE := unit) bytes [] = Val (replicate 20 7, inl tt)) /\
  (exists bytes, encode_chunk [1; 2; 3] [9] = Val bytes /\ zlen bytes = 6 /\
    open_chunk (SE := unit) bytes [] = Val ([1; 2; 3], inl tt)).
Proof.
  split.
  - destruct (chunk_roundtrip (replicate 20 7) [9] []) as (bytes & He & _ & _ & Ho); [vm_compute; discriminate|].
    exists bytes. split; [exact He|]. split; [|exact Ho]. vm_compute in He. injection He as <-. reflexivity.
  - destruct (chunk_roundtrip [1; 2; 3] [9] []) as (bytes & He & _ & _ & Ho); [vm_compute; discriminate|].
    exists bytes. split; [exact He|]. split; [|exact Ho]. vm_compute in He. injection He as <-. reflexivity.
Defined.
