(* ===== verification/CompressedMessages.v ===== *)
(** The compressed channel as a channel of messages over a stream: every message is
    handed to the peer once, in order, whatever chunks the messages end up in. *)

From S2P Require Import Prelude Packet Wire Async Bincode BincodeSafety MessageChannel Compressed CompressedSafety.

(** [impl MessageBincodeChannel for CompressedTypedChannel]; [fuel] bounds the chunks
    that a call reads. *)
Section channel.
Context {C K E SE M BE : Type} {BS : ByteStream C K E} {SN : Snap SE} {BC : Bincode M BE} {BO : ByteOrder}.

Abbreviation chan := (CompressedBincodeChannel C).

Definition compressed_message_channel (fuel : nat) : MessageChannel chan K M (TaskError E BE SE) := {|
  mc_poll_recv w := map_err (fun e => match e with
      | Compressed_ReliableChannelError e => TaskError_Channel e
      | Compressed_SnapError e => TaskError_Snap e
      | Compressed_BincodeError e => TaskError_Bincode e
      end) (ct_poll_recv fuel w);
  mc_poll_send w msg := map_err (fun e => match e with
      | SendError_ReliableChannelError e => TaskError_Channel e
      | SendError_BincodeError e => TaskError_Bincode e
      end) (ct_poll_send w msg);
  mc_poll_flush w := map_err TaskError_Channel (ct_poll_flush w);
|}.

#[export] Instance compressed_over_stream : OverStream chan C := {|
  mc_new := CompressedBincodeChannel_new;
  mc_stream c := rb_channel (cc_io c);
  mc_set_stream v c := set_cc_io (set_rb_channel v (cc_io c)) c;
|}.
End channel.

Section laws.
Context {C K E SE M BE : Type} {BS : ByteStream C K E} {SN : Snap SE} {SNL : SnapLaws SE}.
Context {BC : Bincode M BE} {BCL : BincodeLaws M BE} {BO : ByteOrder} {BOL : ByteOrderLaws}.

Abbreviation io := (ReliableBincodeChannel C).
Abbreviation chan := (CompressedBincodeChannel C).
Abbreviation rb_rep := (rb_rep 3 false).

Local Ltac proj := cbn [rb_channel rb_write_buffer rb_write_pos rb_read_buffer rb_read_pos
  set_rb_channel set_rb_write set_rb_read cc_io cc_send_chunk cc_recv_chunk cc_recv_pos set_cc_io set_cc_send set_cc_recv].
Local Ltac wp := repeat (wp_step; proj).

(** A message's bytes: those that have none would not be seen in a chunk. *)
Definition message_bytes (msg : M) : list Z := (serialize_into (BE := BE) MAX_MESSAGE_LEN msg).1.
Definition chunkable (msg : M) : Prop :=
  exists bs, serialize_into (BE := BE) MAX_MESSAGE_LEN msg = (bs, inl tt) /\ bs <> [].
Definition messages_bytes (msgs : list M) : list Z := concat (message_bytes <$> msgs).

(** A block on the stream: a chunk that opens to the messages put into it. *)
Definition chunk_block (b : list M * list Z) : Prop :=
  Forall chunkable b.1 /\ b.1 <> [] /\ is_frame 3 b.2 /\ zlen (messages_bytes b.1) <= MAX_MESSAGE_LEN /\
  zlen b.2 <= 3 + zlen (messages_bytes b.1) /\
  forall recv_chunk, open_chunk b.2 recv_chunk = Val (messages_bytes b.1, inl tt : unit + SE).

Lemma messages_bytes_app a b : messages_bytes (a ++ b) = messages_bytes a ++ messages_bytes b.
Proof. unfold messages_bytes. by rewrite fmap_app, concat_app. Qed.

Lemma messages_bytes_nil msgs : Forall chunkable msgs -> messages_bytes msgs = [] -> msgs = [].
Proof.
  intros [|msg l (bs & Hser & Hne) _] H; [done|]. unfold messages_bytes, message_bytes in H. cbn in H. rewrite Hser in H.
  apply app_nil in H as [H _]. done.
Qed.

(** The messages that are in the buffers: [open] are not yet in a chunk, [left] are
    in the last chunk that was read. *)
Record compressed_rep (BL : ByteStreamLaws C K E) (sent : list M) (out peer : blocks M) (rcvd : list M) (c : chan) : Prop := {
  cr_out : Forall chunk_block out;
  cr_peer : Forall chunk_block peer;
  cr_send : exists open, sent = blocks_msgs out ++ open /\ Forall chunkable open /\
    cc_send_chunk c = messages_bytes open /\ zlen (cc_send_chunk c) <= MAX_MESSAGE_LEN;
  cr_recv : exists q left, (exists rest, peer = q ++ rest) /\ blocks_msgs q = rcvd ++ left /\ Forall chunkable left /\
    zdrop (cc_recv_pos c) (cc_recv_chunk c) = messages_bytes left /\
    0 <= cc_recv_pos c <= zlen (cc_recv_chunk c) /\ zlen (cc_recv_chunk c) < usize_modulus /\
    rb_rep (snd <$> out) (snd <$> q) (cc_io c);
}.

(** * Writing *)

Lemma finish_write_ok {BL : ByteStreamLaws C K E} w sent rcvd fuel : forall (c : io),
  rb_rep sent rcvd c -> zlen (rb_write_buffer c) - rb_write_pos c <= Z.of_nat fuel ->
  completes (finish_write_loop fuel w) c (fun c' o =>
    match o with
    | inl _ => rb_rep sent rcvd c' /\ rb_write_pos c' = zlen (rb_write_buffer c')
    | inr None => rb_rep sent rcvd c'
    | inr (Some _) => bs_dead (rb_channel c')
    end).
Proof.
  induction fuel as [|fuel IH]; intros c Hc Hf; cbn [finish_write_loop]; wp;
    pose proof (rr_write _ _ _ _ _ Hc) as [Hfr Hw Hpos Hleft Hlen];
    destruct (Z.ltb_spec (rb_write_pos c) (zlen (rb_write_buffer c))) as [Hlt|Hge];
    try (wp; split; [done|lia]); [lia|].
  wp. apply completes_lift. rewrite slice_from_ok by lia. cbn [returns]. wp.
  apply completes_zoom. eapply completes_mono; [apply bs_write_ok, Hc|].
  intros ch o (Hgot & Ho). destruct Hc as [_ Hcw Hcr Hch]. destruct o as [n|[e|]]; [|done|].
  2: { destruct Ho as [Hi Hwr]. split; proj; rewrite ?Hwr, ?Hgot; done. }
  destruct Ho as (Hi & Hn & Hn0 & Hwr). pose proof (zlen_zdrop (rb_write_pos c) (rb_write_buffer c)) as Hz.
  assert (zdrop (rb_write_pos c) (rb_write_buffer c) <> []) as Hne.
  { intros Hnil. rewrite Hnil, zlen_nil in Hz. lia. }
  specialize (Hn0 Hne). wp. apply completes_lift. rewrite usize_add_ok by lia. cbn [returns]. wp.
  eapply completes_mono; [apply IH|].
  - split; proj; [done| |by rewrite Hgot|done]. split; try done; try lia.
    rewrite Hwr, <- app_assoc, <- Hw. f_equal. rewrite <- zdrop_zdrop by lia. apply ztake_zdrop.
  - proj. lia.
  - done.
Qed.

Lemma poll_finish_write_ok {BL : ByteStreamLaws C K E} w sent rcvd (c : io) :
  rb_rep sent rcvd c -> completes (poll_finish_write w) c (fun c' o =>
    match o with
    | inl _ => rb_rep sent rcvd c' /\ rb_write_pos c' = zlen (rb_write_buffer c')
    | inr None => rb_rep sent rcvd c'
    | inr (Some _) => bs_dead (rb_channel c')
    end).
Proof.
  intros Hc. unfold poll_finish_write. wp. apply finish_write_ok; [done|].
  pose proof (wr_pos _ _ _ _ _ _ (rr_write _ _ _ _ _ Hc)). unfold zlen. lia.
Qed.

(** The buffers after writing has gone on. *)
Lemma compressed_rep_wrote BL sent out peer rcvd (c : chan) w :
  compressed_rep BL sent out peer rcvd c ->
  completes (on_io (poll_finish_write w)) c (fun c' o =>
    match o with
    | inl _ => compressed_rep BL sent out peer rcvd c' /\ cc_send_chunk c' = cc_send_chunk c /\
        rb_write_pos (cc_io c') = zlen (rb_write_buffer (cc_io c'))
    | inr None => compressed_rep BL sent out peer rcvd c'
    | inr (Some _) => bs_dead (rb_channel (cc_io c'))
    end).
Proof.
  intros [Ho Hp Hs (q & left & H1 & H2 & H3 & H4 & H5 & H6 & H7)]. apply completes_zoom.
  eapply completes_mono; [by apply poll_finish_write_ok|]. intros c1 [[]|[e|]] Hc1; [|done|].
  - destruct Hc1 as [Hc1 Hpos]. split; [|done]. split; try done. by exists q, left.
  - split; try done. by exists q, left.
Qed.

Lemma Forall_single {A} (P : A -> Prop) x : P x -> Forall P [x].
Proof. by constructor. Qed.

(** The chunk goes into the write buffer. *)
Lemma chunk_encoded BL sent out peer rcvd (c : chan) :
  compressed_rep BL sent out peer rcvd c -> rb_write_pos (cc_io c) = zlen (rb_write_buffer (cc_io c)) ->
  cc_send_chunk c <> [] -> exists f, encode_chunk (cc_send_chunk c) (rb_write_buffer (cc_io c)) = Val f /\
    exists block, compressed_rep BL sent (out ++ [block]) peer rcvd (set_cc_send [] (set_cc_io (set_rb_write f 0 (cc_io c)) c)).
Proof.
  intros [Ho Hp (open & Hsent & Hopen & Hchunk & Hlen) (q & left & H1 & H2 & H3 & H4 & H5 & H6 & H7)] Hpos Hne.
  destruct (encode_chunk_ok (cc_send_chunk c) (rb_write_buffer (cc_io c)) Hlen) as (flag & data & He & Hd & Hdl & Hop).
  exists (chunk_bytes flag data). split; [done|]. exists (open, chunk_bytes flag data).
  pose proof (chunk_is_frame flag data Hd) as Hf. pose proof (chunk_len flag data Hd) as Hl. unfold u16_max in Hd. zlen_facts.
  split.
  - apply Forall_app. split; [done|]. apply Forall_single. split; [done|]. cbn [fst snd]. rewrite <- Hchunk. split; [by intros ->|].
    split; [done|]. split; [done|]. split; [lia|]. intros rc. by rewrite Hop.
  - done.
  - exists []. rewrite blocks_msgs_app, Hsent. unfold blocks_msgs at 3. cbn. rewrite !app_nil_r. split_and!; try done.
  - exists q, left. proj. split_and!; try done; try lia. destruct H7 as [Hi [Hfr Hw Hps Hlf Hln] Hr Hh]. rewrite fmap_app. cbn.
    split; proj; try done. split; try done.
    + apply Forall_app. split; [done|]. by apply Forall_single.
    + rewrite Hpos, zdrop_ge, app_nil_r in Hw by lia. rewrite zdrop_0, concat_app, Hw by lia. cbn. by rewrite app_nil_r.
    + rewrite Hl. lia.
Qed.

Lemma poll_write_send_chunk_ok BL sent out peer rcvd (c : chan) w :
  compressed_rep BL sent out peer rcvd c ->
  completes (poll_write_send_chunk w) c (fun c' o =>
    match o with
    | inl _ => (exists out', compressed_rep BL sent (out ++ out') peer rcvd c') /\ cc_send_chunk c' = []
    | inr None => compressed_rep BL sent out peer rcvd c'
    | inr (Some _) => bs_dead (rb_channel (cc_io c'))
    end).
Proof.
  intros Hc. unfold poll_write_send_chunk. wp. destruct (cc_send_chunk c) as [|b chunk] eqn:Hchunk.
  { wp. split; [|done]. exists []. by rewrite app_nil_r. }
  wp. eapply completes_mono; [by eapply compressed_rep_wrote|]. intros c1 [[]|[e|]] Ho; [|done|done].
  destruct Ho as (H1 & Hs & Hpos). wp. rewrite Hchunk in Hs. rewrite <- Hs.
  destruct (chunk_encoded _ _ _ _ _ _ H1 Hpos) as (f & He & block & H2); [by rewrite Hs|]. rewrite He.
  apply completes_lift. cbn [returns]. wp. split; [|done]. by exists [block].
Qed.

(** * What the task calls *)

Lemma cc_poll_send_ok BL sent out peer rcvd (c : chan) w msg :
  compressed_rep BL sent out peer rcvd c -> chunkable msg ->
  completes (cc_poll_send w msg) c (fun c' o =>
    match o with
    | inl _ => exists out', compressed_rep BL (sent ++ [msg]) (out ++ out') peer rcvd c'
    | inr None => compressed_rep BL sent out peer rcvd c'
    | inr (Some _) => bs_dead (rb_channel (cc_io c'))
    end).
Proof.
  intros Hc Hmsg. pose proof Hmsg as (bs & Hser & Hne). pose proof (serialize_ok _ _ _ Hser) as [Hlen _].
  unfold cc_poll_send. rewrite (serialized_size_ok MAX_MESSAGE_LEN msg), Hser. wp.
  assert (forall (c1 : chan) out', compressed_rep BL sent (out ++ out') peer rcvd c1 ->
    zlen (cc_send_chunk c1) + zlen bs <= MAX_MESSAGE_LEN ->
    compressed_rep BL (sent ++ [msg]) (out ++ out') peer rcvd (set_cc_send (cc_send_chunk c1 ++ bs) c1)) as Happend.
  { intros c1 out' [Ho Hp (open & Hsent & Hopen & Hchunk & Hl) Hr] Hfits. split; try done.
    exists (open ++ [msg]). proj. rewrite app_assoc, <- Hsent, messages_bytes_app, <- Hchunk, zlen_app. split; [done|].
    split; [apply Forall_app; split; [done|by apply Forall_single]|]. split; [|done]. f_equal.
    unfold messages_bytes, message_bytes. cbn. by rewrite Hser, app_nil_r. }
  destruct (Z.ltb_spec MAX_MESSAGE_LEN (zlen (cc_send_chunk c) + zlen bs)).
  - apply completes_map_err. eapply completes_mono; [by eapply poll_write_send_chunk_ok|].
    intros c1 [[]|[e|]] Ho; [|done|done]. destruct Ho as [[out' H1] Hs]. wp. exists out'. apply Happend; [done|].
    rewrite Hs, zlen_nil. lia.
  - wp. exists []. apply Happend; [by rewrite app_nil_r|lia].
Qed.

Lemma cc_poll_flush_ok BL sent out peer rcvd (c : chan) w :
  compressed_rep BL sent out peer rcvd c ->
  completes (cc_poll_flush w) c (fun c' o =>
    match o with
    | inl _ => exists out', compressed_rep BL sent (out ++ out') peer rcvd c' /\
        blocks_msgs (out ++ out') = sent /\ bs_written (rb_channel (cc_io c')) = blocks_bytes (out ++ out')
    | inr None => exists out', compressed_rep BL sent (out ++ out') peer rcvd c'
    | inr (Some _) => bs_dead (rb_channel (cc_io c'))
    end).
Proof.
  intros Hc. unfold cc_poll_flush. wp. eapply completes_mono; [by eapply poll_write_send_chunk_ok|].
  intros c1 [[]|[e|]] Ho; [|done|exists []; by rewrite app_nil_r]. destruct Ho as [[out' H1] Hs]. wp.
  eapply completes_mono; [by eapply compressed_rep_wrote|]. intros c2 [[]|[e|]] Ho; [|done|by exists out'].
  destruct Ho as (H2 & Hs2 & Hpos). rewrite Hs in Hs2. apply completes_zoom, completes_zoom.
  destruct H2 as [Ho Hp (open & Hsent & Hopen & Hchunk & Hl) (q & left & Q1 & Q2 & Q3 & Q4 & Q5 & Q6 & [Hi Hw Hr Hh])].
  eapply completes_mono; [by apply bs_flush_ok|]. intros ch o (Hwr & Hg & Hi').
  assert (forall c3, c3 = set_cc_io (set_rb_channel ch (cc_io c2)) c2 -> bs_inv ch ->
    compressed_rep BL sent (out ++ out') peer rcvd c3) as Hrep.
  { intros c3 -> Hich. split; try done; [by exists open|]. exists q, left. proj. split_and!; try done; try lia.
    split; proj; rewrite ?Hwr, ?Hg; done. }
  destruct o as [[]|[e|]]; [|done|exists out'; by apply Hrep]. exists out'. split; [by apply Hrep|]. proj.
  destruct Hw as [_ Hw _ _ _]. rewrite Hpos, zdrop_ge, app_nil_r in Hw by lia. rewrite Hwr. split; [|done].
  rewrite Hs2 in Hchunk. symmetry in Hchunk. apply messages_bytes_nil in Hchunk as ->; [|done]. by rewrite Hsent, app_nil_r.
Qed.

(** The messages of the chunk that is open, from the next one on. *)
Lemma cc_recv_next_ok BL sent out peer rcvd (c : chan) :
  compressed_rep BL sent out peer rcvd c -> cc_recv_pos c < zlen (cc_recv_chunk c) ->
  completes (cc_recv_next (M := M) (BE := BE)) c (fun c' o =>
    exists msg, o = inl msg /\ compressed_rep BL sent out peer (rcvd ++ [msg]) c' /\ cc_io c = cc_io c').
Proof.
  intros [Ho Hp Hs (q & left & H1 & H2 & H3 & H4 & H5 & H6 & H7)] Hpos. unfold cc_recv_next. wp.
  apply completes_lift. rewrite slice_from_ok by lia. cbn [returns]. pose proof (zlen_zdrop (cc_recv_pos c) (cc_recv_chunk c)) as Hz.
  destruct left as [|msg left]; [rewrite H4 in Hz; change (zlen (messages_bytes [])) with 0 in Hz; lia|].
  apply Forall_cons in H3 as [Hm H3]. pose proof Hm as (bs & Hser & Hne). pose proof (serialize_ok _ _ _ Hser) as (_ & _ & Hd).
  assert (messages_bytes (msg :: left) = bs ++ messages_bytes left) as Hb.
  { unfold messages_bytes, message_bytes. cbn. by rewrite Hser. }
  rewrite H4, Hb, Hd. rewrite H4, Hb, zlen_app in Hz. zlen_facts. wp. apply completes_lift.
  rewrite usize_sub_ok by lia. cbn [returns]. wp. exists msg. split; [done|]. split; [|done]. split; try done.
  exists q, left. proj. rewrite <- app_assoc. split_and!; try done; try lia.
  replace (zlen (cc_recv_chunk c) - zlen (messages_bytes left)) with (cc_recv_pos c + zlen bs) by lia.
  rewrite <- zdrop_zdrop, H4, Hb by lia. by rewrite zdrop_app_ge, zdrop_0 by lia.
Qed.

Lemma compressed_rep_read BL sent out peer rcvd (c : chan) (c' : io) q left :
  compressed_rep BL sent out peer rcvd c ->
  (exists rest, peer = q ++ rest) -> blocks_msgs q = rcvd ++ left -> Forall chunkable left ->
  zdrop (cc_recv_pos c) (cc_recv_chunk c) = messages_bytes left ->
  0 <= cc_recv_pos c <= zlen (cc_recv_chunk c) -> zlen (cc_recv_chunk c) < usize_modulus ->
  rb_rep (snd <$> out) (snd <$> q) c' -> compressed_rep BL sent out peer rcvd (set_cc_io c' c).
Proof. intros [Ho Hp Hs _]. intros. split; try done. by exists q, left. Qed.

Lemma chunk_block_frames bs : Forall chunk_block bs -> Forall (is_frame 3) (snd <$> bs).
Proof. intros H. apply Forall_fmap. eapply Forall_impl; [exact H|]. by intros [g f] (_ & _ & ? & _). Qed.

(** A chunk of the peer's is never empty, so that one is enough. *)
Lemma cc_poll_recv_ready_ok BL sent out peer rcvd (c : chan) w fuel :
  compressed_rep BL sent out peer rcvd c -> reads_blocks BL peer ->
  completes (cc_poll_recv_ready (SE := SE) (BE := BE) (S fuel) w) c (fun c' o =>
    match o with
    | inl _ => compressed_rep BL sent out peer rcvd c' /\ bs_written (rb_channel (cc_io c')) = bs_written (rb_channel (cc_io c)) /\
        cc_recv_pos c' < zlen (cc_recv_chunk c')
    | inr None => compressed_rep BL sent out peer rcvd c' /\ bs_written (rb_channel (cc_io c')) = bs_written (rb_channel (cc_io c)) /\
        waits peer rcvd (rb_channel (cc_io c'))
    | inr (Some _) => bs_dead (rb_channel (cc_io c'))
    end).
Proof.
  intros Hc Hpeer. cbn [cc_poll_recv_ready]. wp. destruct (Z.ltb_spec (cc_recv_pos c) (zlen (cc_recv_chunk c))); [by wp|].
  pose proof Hc as [Ho Hp Hs (q & left & H1 & H2 & H3 & H4 & H5 & H6 & H7)].
  rewrite zdrop_ge in H4 by lia. symmetry in H4. apply messages_bytes_nil in H4 as ->; [|done]. rewrite app_nil_r in H2. wp.
  apply completes_map_err, completes_zoom. eapply completes_mono; [apply (read_frame_ok 3 false); [lia|exact H7]|].
  intros c1 [[]|[e|]] Hr; [|exact Hr|].
  2: { destruct Hr as (Hr & [Hw _] & Hst). split; [|split; [exact Hw|split; [apply Hst|]]].
       2: { intros Hall. destruct H1 as [rest ->]. rewrite <- H2.
            by rewrite (starved_blocks 3 false ltac:(lia) _ _ _ _ Hr Hst (chunk_block_frames _ Hp) Hall), app_nil_r. }
       apply (compressed_rep_read _ _ _ _ _ _ _ q []); try done; rewrite ?app_nil_r; try done.
       by rewrite zdrop_ge by lia. }
  destruct Hr as (Hr & [Hw _] & Hf & Hpos). pose proof (frame_received 3 false ltac:(lia) _ _ _ Hr Hf Hpos) as Hrec.
  pose proof (rr_read _ _ _ _ _ Hrec) as [_ Hgot _ _]. destruct (Hpeer _ (rr_inv _ _ _ _ _ Hrec)) as [rest Hrest].
  rewrite Hgot, <- app_assoc in Hrest.
  destruct (next_block 3 q peer (rb_read_buffer c1) _ ltac:(lia) (chunk_block_frames _ Hp) Hf H1 Hrest) as (g & p' & ->).
  pose proof Hp as Hp2. apply Forall_app in Hp2 as [_ Hp2]. apply Forall_cons in Hp2 as [(Hg & Hgne & _ & Hlen & _ & Hopen) _].
  cbn [fst snd] in *. wp. apply completes_lift. rewrite Hopen. cbn [returns]. wp.
  assert (zlen (messages_bytes g) <> 0) as Hz.
  { intros Hz. apply zlen_zero_nil, messages_bytes_nil in Hz; done. }
  zlen_facts. unfold MAX_MESSAGE_LEN, u16_max in Hlen. 
  destruct fuel; cbn [cc_poll_recv_ready]; wp; rewrite (proj2 (Z.ltb_lt _ _)) by lia; wp; (split; [|split; [exact Hw|lia]]);
    (split; [done|done|done|]); exists (q ++ [(g, rb_read_buffer c1)]), g; proj;
    rewrite blocks_msgs_app, H2, fmap_app, zdrop_0 by lia; (split; [exists p'; by rewrite <- app_assoc|]);
    (split; [by unfold blocks_msgs at 1; cbn; rewrite app_nil_r|]); split_and!; done || lia.
Qed.

Lemma cc_poll_recv_ok BL sent out peer rcvd (c : chan) w fuel :
  compressed_rep BL sent out peer rcvd c -> reads_blocks BL peer ->
  completes (cc_poll_recv (S fuel) w) c (fun c' o =>
    match o with
    | inl msg => compressed_rep BL sent out peer (rcvd ++ [msg]) c' /\
        bs_written (rb_channel (cc_io c')) = bs_written (rb_channel (cc_io c))
    | inr None => compressed_rep BL sent out peer rcvd c' /\ bs_written (rb_channel (cc_io c')) = bs_written (rb_channel (cc_io c)) /\
        waits peer rcvd (rb_channel (cc_io c'))
    | inr (Some _) => bs_dead (rb_channel (cc_io c'))
    end).
Proof.
  intros Hc Hpeer. unfold cc_poll_recv. wp. eapply completes_mono; [by eapply cc_poll_recv_ready_ok|].
  intros c1 [[]|[e|]] Ho; [|done|done]. destruct Ho as (H1 & Hw & Hpos). apply completes_map_err.
  eapply completes_mono; [by eapply cc_recv_next_ok|]. intros c2 o (msg & -> & H2 & <-). exact (conj H2 Hw).
Qed.
(** * The interface *)

Section preserves.
Context (R : C -> C -> Prop) {HR : PreOrder R}.
Context (Hwrite : forall w data, preserves R (bs_write w data)) (Hread : forall w buf, preserves R (bs_read w buf)).
Context (Hflush : preserves R bs_flush).

Definition on_cc_stream (c c' : chan) : Prop := on_stream R (cc_io c) (cc_io c').

Lemma on_io_preserves {A E'} (m : polling io E' A) : preserves (on_stream R) m -> preserves on_cc_stream (on_io m).
Proof. intros Hm. eapply preserves_zoom; [exact Hm|]. done. Qed.

#[local] Instance on_cc_stream_preorder : PreOrder on_cc_stream.
Proof. split; unfold on_cc_stream; [intros c; done|intros c1 c2 c3; by etrans]. Qed.

Lemma modify_cc_preserves {E' : Type} (f : chan -> chan) :
  (forall c, rb_channel (cc_io (f c)) = rb_channel (cc_io c)) -> preserves on_cc_stream (modify (E := E') f).
Proof. intros Hf. apply preserves_modify. intros c. unfold on_cc_stream, on_stream. by rewrite Hf. Qed.

Lemma finish_write_preserves fuel w : preserves (on_stream R) (finish_write_loop fuel w).
Proof.
  induction fuel as [|fuel IH]; cbn [finish_write_loop];
    preserves_tac; try (by apply modify_preserves); try exact IH; by apply on_channel_preserves.
Qed.

Lemma poll_finish_write_preserves w : preserves on_cc_stream (on_io (poll_finish_write w)).
Proof.
  apply on_io_preserves. unfold poll_finish_write. apply preserves_bind; [apply preserves_get|].
  intros c. apply finish_write_preserves.
Qed.

Lemma write_send_chunk_preserves w : preserves on_cc_stream (poll_write_send_chunk w).
Proof.
  unfold poll_write_send_chunk. apply preserves_bind; [apply preserves_get|]. intros c.
  destruct (cc_send_chunk c); [apply preserves_ret|].
  apply preserves_bind; [apply poll_finish_write_preserves|]. intros _. preserves_tac; by apply modify_cc_preserves.
Qed.

Lemma cc_poll_send_preserves w (msg : M) : preserves on_cc_stream (cc_poll_send (BE := BE) w msg).
Proof.
  unfold cc_poll_send. preserves_tac; try (by apply modify_cc_preserves); by apply write_send_chunk_preserves.
Qed.

Lemma cc_poll_flush_preserves w : preserves on_cc_stream (cc_poll_flush w).
Proof.
  unfold cc_poll_flush. apply preserves_bind; [apply write_send_chunk_preserves|]. intros _.
  apply preserves_bind; [apply poll_finish_write_preserves|]. intros _. by apply on_io_preserves, on_channel_preserves.
Qed.

Lemma cc_poll_recv_ready_preserves fuel w : preserves on_cc_stream (cc_poll_recv_ready (SE := SE) (BE := BE) fuel w).
Proof.
  induction fuel as [|fuel IH]; cbn [cc_poll_recv_ready]; (apply preserves_bind; [apply preserves_get|]); intros c;
    destruct (cc_recv_pos c <? zlen (cc_recv_chunk c)); try apply preserves_ret; [apply preserves_lift|].
  apply preserves_bind; [by apply preserves_map_err, on_io_preserves, read_frame_preserves|]. intros _.
  preserves_tac; try (by apply modify_cc_preserves); exact IH.
Qed.

Lemma cc_poll_recv_preserves fuel w : preserves on_cc_stream (cc_poll_recv (M := M) (SE := SE) (BE := BE) fuel w).
Proof.
  unfold cc_poll_recv, cc_recv_next. apply preserves_bind; [apply cc_poll_recv_ready_preserves|]. intros _.
  preserves_tac; by apply modify_cc_preserves.
Qed.
End preserves.

(** The compressed channel keeps the promises of the interface, for messages that
    have some bytes. *)
Definition compressed_message_laws (fuel : nat) :
  MessageChannelLaws (MC := compressed_message_channel (SE := SE) (BE := BE) (S fuel)) chan C K M E (TaskError E BE SE).
Proof.
  refine {| mc_sendable := chunkable; mc_block := chunk_block; mc_rep := compressed_rep |}.
  - intros BL sent out peer rcvd c [Ho Hp (open & -> & _) (q & left & _ & _ & _ & _ & _ & _ & [Hi [_ Hw _ _ _] _ _])].
    split; [exact Hi|]. split; [done|]. split; [by exists open|]. eexists. symmetry. exact Hw.
  - intros BL sent out peer rcvd c [_ _ _ (q & left & [rest ->] & Hq & _)]. exists (left ++ blocks_msgs rest).
    by rewrite blocks_msgs_app, Hq, app_assoc.
  - intros BL sent out peer peer' rcvd c [Ho Hp Hs (q & left & [rest ->] & Hr)] Hp'. split; try done; [by apply Forall_app|].
    exists q, left. split; [|done]. exists (rest ++ peer'). by rewrite app_assoc.
  - intros BL BL' sent out peer rcvd c ch [Ho Hp Hs (q & left & H1 & H2 & H3 & H4 & H5 & H6 & [Hi Hw Hrd Hh])] Hi' Hw' Hg'.
    split; try done. exists q, left. split_and!; try done; try (cbn; lia). split; cbn; [done|by rewrite Hw'|by rewrite Hg'|done].
  - by intros [[] ? ? ?].
  - done.
  - done.
  - intros BL c Hi Hw Hg. split; try done; [exists []; split_and!; try done; by vm_compute|].
    exists [], []. split; [by exists []|]. split_and!; try done.
    split; cbn; [done|rewrite Hw|rewrite Hg|]; try (split; try done; unfold zlen; cbn; lia). intros ?. lia.
  - intros BL w msg sent out peer rcvd c Hc Hmsg. cbn [mc_poll_send compressed_message_channel]. apply completes_map_err.
    eapply completes_mono; [by eapply cc_poll_send_ok|]. intros c1 [[]|[[e|e]|]] H1; try exact H1.
    exists []. by rewrite app_nil_r.
  - intros BL w sent out peer rcvd c Hc. cbn [mc_poll_flush compressed_message_channel]. apply completes_map_err.
    eapply completes_mono; [by eapply cc_poll_flush_ok|]. intros c1 [[]|[e|]] H1; exact H1.
  - intros BL w sent out peer rcvd c Hc Hpeer. cbn [mc_poll_recv compressed_message_channel]. apply completes_map_err.
    eapply completes_mono; [by eapply cc_poll_recv_ok|]. intros c1 [msg|[[e|e|e]|]] H1; exact H1.
  - intros R HR Hw Hr Hf. cbn zeta. split_and!; intros; cbn [mc_poll_send mc_poll_recv mc_poll_flush compressed_message_channel];
      apply preserves_map_err; [by apply cc_poll_send_preserves|by apply cc_poll_flush_preserves|by apply cc_poll_recv_preserves].
Defined.
End laws.

(** * Messages without bytes *)

Section empty.
Context {C K E SE M BE : Type} {BS : ByteStream C K E} {SN : Snap SE} {BC : Bincode M BE} {BCL : BincodeLaws M BE} {BO : ByteOrder}.

(** A message that bincode encodes in no bytes, such as a value of a unit type, is
    reported as sent, and leaves the channel as it was: it is never delivered. *)
Theorem empty_message_leaves_no_trace (w : K) (msg : M) (c : CompressedBincodeChannel C) :
  serialize_into (BE := BE) MAX_MESSAGE_LEN msg = ([], inl tt) -> zlen (cc_send_chunk c) <= MAX_MESSAGE_LEN ->
  cc_poll_send (BE := BE) w msg c = Val (c, inl tt).
Proof.
  intros Hser Hl. unfold cc_poll_send. rewrite (serialized_size_ok MAX_MESSAGE_LEN msg), Hser.
  unfold mbind, handler_bind, mret, handler_ret, get, modify. rewrite zlen_nil.
  destruct (Z.ltb_spec MAX_MESSAGE_LEN (zlen (cc_send_chunk c) + 0)); [lia|]. rewrite app_nil_r. by destruct c.
Qed.
End empty.

(** bincode's encoding of [()]. *)
#[export] Instance unit_bincode : Bincode unit unit := {|
  serialize_into limit _ := ([], if 0 <=? limit then inl tt else inr tt);
  serialized_size limit _ := if 0 <=? limit then inl 0 else inr tt;
  deserialize limit bs := match bs with [] => inl tt | _ => inr tt end;
  deserialize_from limit bs := inl (tt, bs);
|}.
#[export] Instance unit_bincode_laws : BincodeLaws unit unit.
Proof.
  constructor; cbn; intros limit []; intros; repeat case_match; simplify_eq; try done.
  rewrite Z.leb_le in *. by split_and!.
Qed.

Import BincodeExample RunLength.

Lemma empty_message_leaves_no_trace_witness :
  let c := CompressedBincodeChannel_new (mkPipe [] [] []) in
  cc_poll_send (SE := unit) (BE := unit) tt tt c = Val (c, inl tt).
Proof. apply (empty_message_leaves_no_trace tt tt (CompressedBincodeChannel_new (mkPipe [] [] []))); done. Defined.
