(* ===== verification/CancelSafety.v ===== *)
(** The [async] methods of the typed channels over a reliable stream: their futures
    are cancel safe, as the documentation says. However often a future is polled, and
    whatever happens on the stream in between, it has sent or received one message when
    it has resolved, and none when it was dropped. *)

From S2P Require Import Prelude Packet Wire Async Bincode BincodeSafety MessageChannel.
From S2P Require Import Compressed CompressedSafety CompressedMessages.

(** The same future, with its errors converted. *)
Lemma awaits_map_err {S K E E' A} (env : S -> S -> Prop) (f : E -> E') (m : K -> polling S E A) (m' : K -> polling S E' A) s s' r :
  (forall w s, m' w s = map_err f (m w) s) -> awaits env m s s' r ->
  awaits env m' s s' (match r with None => None | Some (inl a) => Some (inl a) | Some (inr e) => Some (inr (f e)) end).
Proof.
  intros Hm Ha. induction Ha as [s|w s s' o r Hs Hr|w s s1 s2 s' r Hs He Ha IH].
  - constructor.
  - assert (m' w s = Val (s', match o with inl a => inl a | inr e => inr (f <$> e) end)) as Hs'.
    { rewrite Hm. unfold map_err. rewrite Hs. by destruct o. }
    destruct o as [a|[e|]]; cbn in Hr; simplify_eq; by eapply awaits_resolved.
  - eapply (awaits_pending _ _ w); [|exact He|exact IH]. rewrite Hm. unfold map_err. by rewrite Hs.
Qed.

(** * Any channel of messages over a stream *)

Section futures.
Context {Ch C K E M E' : Type} {BS : ByteStream C K E} {MC : MessageChannel Ch K M E'} {OS : OverStream Ch C}.
Context {ML : MessageChannelLaws Ch C K M E E'} {BL : ByteStreamLaws C K E}.

(** The stream goes on by itself: its task runs, and packets come and go. *)
Definition stream_moves (ch ch' : Ch) : Prop := exists c,
  ch' = mc_set_stream c ch /\ bs_inv c /\ bs_written c = bs_written (mc_stream ch) /\ bs_got c = bs_got (mc_stream ch).

Lemma stream_moves_rep sent out peer rcvd ch ch' :
  mc_rep BL sent out peer rcvd ch -> stream_moves ch ch' -> mc_rep BL sent out peer rcvd ch'.
Proof. intros H (c & -> & Hi & Hw & Hg). by eapply mc_rep_stream. Qed.

(** The channel after a future that was to send the messages [sends] and to receive
    those that it has resolved to. *)
Definition future_left {A} (sent : list M) (out peer : blocks M) (rcvd : list M) (sends : list M) (receives : A -> list M)
    (ch : Ch) (r : option (A + E')) : Prop :=
  match r with
  | None => exists out', mc_rep BL sent (out ++ out') peer rcvd ch
  | Some (inl a) => exists out', mc_rep BL (sent ++ sends) (out ++ out') peer (rcvd ++ receives a) ch
  | Some (inr _) => bs_dead (mc_stream ch)
  end.

Lemma awaits_channel {A} (m : K -> polling Ch E' A) sent out peer rcvd sends receives ch ch' r :
  (forall w out ch, mc_rep BL sent out peer rcvd ch -> completes (m w) ch (fun ch' o =>
    match o with
    | inl a => exists out', mc_rep BL (sent ++ sends) (out ++ out') peer (rcvd ++ receives a) ch'
    | inr None => exists out', mc_rep BL sent (out ++ out') peer rcvd ch'
    | inr (Some _) => bs_dead (mc_stream ch')
    end)) ->
  mc_rep BL sent out peer rcvd ch -> awaits stream_moves m ch ch' r ->
  future_left sent out peer rcvd sends receives ch' r.
Proof.
  intros Hm Hc Ha.
  assert (match r with
    | None => exists out', mc_rep BL sent (out ++ out') peer rcvd ch'
    | Some r => future_left sent out peer rcvd sends receives ch' (Some r)
    end) as H; [|by destruct r].
  eapply (awaits_ok stream_moves m (fun ch => exists out', mc_rep BL sent (out ++ out') peer rcvd ch)
    (fun ch r => future_left sent out peer rcvd sends receives ch (Some r))); [| |exact Ha|exists []; by rewrite app_nil_r].
  - intros w s [out' Hs]. eapply completes_mono; [by apply Hm|]. intros s' [a|[e|]] Ho; try done;
      destruct Ho as [out2 Ho]; exists (out' ++ out2); by rewrite app_assoc.
  - intros s s' [out' Hs] He. exists out'. by eapply stream_moves_rep.
Qed.

Lemma send_future sent out peer rcvd msg ch ch' r :
  mc_rep BL sent out peer rcvd ch -> mc_sendable msg -> awaits stream_moves (fun w => mc_poll_send w msg) ch ch' r ->
  future_left sent out peer rcvd [msg] (fun _ => []) ch' r.
Proof.
  intros Hc Hmsg. apply awaits_channel; [|done]. intros w out' s Hs.
  eapply completes_mono; [by apply mc_send_ok|]. intros s' [a|[e|]] Ho; [by rewrite app_nil_r|done..].
Qed.

Lemma flush_future sent out peer rcvd ch ch' r :
  mc_rep BL sent out peer rcvd ch -> awaits stream_moves mc_poll_flush ch ch' r ->
  future_left sent out peer rcvd [] (fun _ => []) ch' r.
Proof.
  intros Hc. apply awaits_channel; [|done]. intros w out' s Hs.
  eapply completes_mono; [by apply mc_flush_ok|]. intros s' [a|[e|]] Ho; [|done..].
  destruct Ho as (out2 & Ho & _). exists out2. by rewrite !app_nil_r.
Qed.

Lemma recv_future sent out peer rcvd ch ch' r :
  mc_rep BL sent out peer rcvd ch -> reads_blocks BL peer -> awaits stream_moves mc_poll_recv ch ch' r ->
  future_left sent out peer rcvd [] (fun msg => [msg]) ch' r.
Proof.
  intros Hc Hpeer. apply awaits_channel; [|done]. intros w out' s Hs.
  eapply completes_mono; [by apply mc_recv_ok|]. intros s' [a|[e|]] Ho; [exists []|done|exists []]; rewrite ?app_nil_r; apply Ho.
Qed.
End futures.

(** * The typed channels *)

(** The errors of the methods, as those of the tasks. *)
Definition send_task_error {E BE SE} (e : SendError E BE) : TaskError E BE SE :=
  match e with SendError_ReliableChannelError e => TaskError_Channel e | SendError_BincodeError e => TaskError_Bincode e end.
Definition recv_task_error {E BE SE} (e : RecvError E BE) : TaskError E BE SE :=
  match e with RecvError_ReliableChannelError e => TaskError_Channel e | RecvError_BincodeError e => TaskError_Bincode e end.
Definition compressed_task_error {E SE BE} (e : CompressedRecvError E SE BE) : TaskError E BE SE :=
  match e with
  | Compressed_ReliableChannelError e => TaskError_Channel e
  | Compressed_SnapError e => TaskError_Snap e
  | Compressed_BincodeError e => TaskError_Bincode e
  end.

Section reliable_typed.
Context {C K E M BE : Type} {BS : ByteStream C K E} {BL : ByteStreamLaws C K E}.
Context {BC : Bincode M BE} {BCL : BincodeLaws M BE} {BO : ByteOrder} {BOL : ByteOrderLaws}.

Lemma rt_send_task (msg : M) (w : K) (c : ReliableTypedChannel C M) :
  mc_poll_send w msg c = map_err (send_task_error (SE := unit)) (rt_send msg w) c.
Proof.
  unfold mc_poll_send, reliable_message_channel, rt_send, rb_send, rt_poll_send_ready, rt_start_send.
  unfold mbind, handler_bind, map_err. destruct (rb_poll_send_ready w c) as [[c1 [[]|[e|]]]|]; try done.
  by destruct (rb_start_send msg c1) as [[c2 [[]|[e|]]]|].
Qed.

(** What a future of a channel leaves behind: the stream is dead after an error, and
    otherwise the channel has sent and received what it had, and, if the future has
    resolved, the messages [sends] and those it has resolved to. *)
Definition reliable_left {A Er} (sent : list M) (out peer : blocks M) (rcvd : list M) (sends : list M) (receives : A -> list M)
    (c : ReliableTypedChannel C M) (r : option (A + Er)) : Prop :=
  match r with
  | Some (inr _) => bs_dead (rb_channel c)
  | Some (inl a) => exists out', reliable_rep (BE := BE) BL (sent ++ sends) (out ++ out') peer (rcvd ++ receives a) c
  | None => exists out', reliable_rep (BE := BE) BL sent (out ++ out') peer rcvd c
  end.

(** C26. Cancel safety of the reliable typed channel: a future of [send], [flush] or [recv]
    that is polled any number of times, with the stream going on between the polls, and
    is then dropped, has sent and received no message, and no part of one; one that has
    resolved has sent or received exactly one. [send] is of a message that can be encoded
    within the limit. *)
Theorem reliable_cancel_safe sent out peer rcvd (c c' : ReliableTypedChannel C M) :
  reliable_rep (BE := BE) BL sent out peer rcvd c -> reads_blocks BL peer ->
  (forall msg r, sendable (BE := BE) msg -> awaits (stream_moves (Ch := ReliableTypedChannel C M)) (rt_send (BE := BE) msg) c c' r ->
    reliable_left sent out peer rcvd [msg] (fun _ => []) c' r) /\
  (forall r, awaits (stream_moves (Ch := ReliableTypedChannel C M)) rt_flush c c' r ->
    reliable_left sent out peer rcvd [] (fun _ => []) c' r) /\
  (forall r, awaits (stream_moves (Ch := ReliableTypedChannel C M)) (rt_recv (BE := BE)) c c' r ->
    reliable_left sent out peer rcvd [] (fun msg => [msg]) c' r).
Proof.
  intros Hc Hpeer. split_and!.
  - intros msg r Hmsg Ha. apply (awaits_map_err _ (send_task_error (SE := unit)) _ (fun w => mc_poll_send w msg)) in Ha; [|by intros; apply rt_send_task].
    apply (send_future sent out peer rcvd) in Ha; [|done..]. by destruct r as [[]|].
  - intros r Ha. apply (awaits_map_err _ (TaskError_Channel (BE := BE) (SE := unit)) _ (mc_poll_flush (M := M))) in Ha; [|done].
    apply (flush_future sent out peer rcvd) in Ha; [|done]. by destruct r as [[]|].
  - intros r Ha. apply (awaits_map_err _ (recv_task_error (SE := unit)) _ mc_poll_recv) in Ha; [|done].
    apply (recv_future sent out peer rcvd) in Ha; [|done..]. by destruct r as [[]|].
Qed.

End reliable_typed.

Section compressed_typed.
Context {C K E M BE SE : Type} {BS : ByteStream C K E} {BL : ByteStreamLaws C K E} {SN : Snap SE} {SNL : SnapLaws SE}.
Context {BC : Bincode M BE} {BCL : BincodeLaws M BE} {BO : ByteOrder} {BOL : ByteOrderLaws}.

Definition compressed_left {A Er} (sent : list M) (out peer : blocks M) (rcvd : list M) (sends : list M) (receives : A -> list M)
    (c : CompressedTypedChannel C M) (r : option (A + Er)) : Prop :=
  match r with
  | Some (inr _) => bs_dead (rb_channel (cc_io c))
  | Some (inl a) => exists out', compressed_rep (SE := SE) (BE := BE) BL (sent ++ sends) (out ++ out') peer (rcvd ++ receives a) c
  | None => exists out', compressed_rep (SE := SE) (BE := BE) BL sent (out ++ out') peer rcvd c
  end.

(** Cancel safety of the compressed typed channel. *)
Theorem compressed_cancel_safe fuel sent out peer rcvd (c c' : CompressedTypedChannel C M) :
  compressed_rep (SE := SE) (BE := BE) BL sent out peer rcvd c -> reads_blocks BL peer ->
  (forall msg r, chunkable (BE := BE) msg -> awaits (stream_moves (Ch := CompressedTypedChannel C M)) (ct_send (BE := BE) msg) c c' r ->
    compressed_left sent out peer rcvd [msg] (fun _ => []) c' r) /\
  (forall r, awaits (stream_moves (Ch := CompressedTypedChannel C M)) ct_flush c c' r ->
    compressed_left sent out peer rcvd [] (fun _ => []) c' r) /\
  (forall r, awaits (stream_moves (Ch := CompressedTypedChannel C M)) (ct_recv (SE := SE) (BE := BE) (S fuel)) c c' r ->
    compressed_left sent out peer rcvd [] (fun msg => [msg]) c' r).
Proof.
  intros Hc Hpeer. pose (MC := compressed_message_channel (C := C) (K := K) (E := E) (SE := SE) (BE := BE) (M := M) (S fuel)).
  pose (ML := compressed_message_laws (C := C) (K := K) (E := E) (SE := SE) (BE := BE) (M := M) fuel). split_and!.
  - intros msg r Hmsg Ha. apply (awaits_map_err _ send_task_error _ (fun w => mc_poll_send (MessageChannel := MC) w msg)) in Ha; [|done].
    apply (send_future (ML := ML) sent out peer rcvd) in Ha; [|done..]. by destruct r as [[]|].
  - intros r Ha. apply (awaits_map_err _ TaskError_Channel _ (mc_poll_flush (MessageChannel := MC))) in Ha; [|done].
    apply (flush_future (ML := ML) sent out peer rcvd) in Ha; [|done]. by destruct r as [[]|].
  - intros r Ha. apply (awaits_map_err _ compressed_task_error _ (mc_poll_recv (MessageChannel := MC))) in Ha; [|done].
    apply (recv_future (ML := ML) sent out peer rcvd) in Ha; [|done..]. by destruct r as [[]|].
Qed.
End compressed_typed.

(** * An example: a message that arrives between two polls *)

Import BincodeExample.

(** What has come and will come out of the pipe, which no call changes. *)
Definition pipe_all (p : pipe) : list Z := p_taken p ++ p_in p.

Lemma pipe_read_all w buf : preserves (fun p p' => pipe_all p' = pipe_all p) (bs_read (C := pipe) (E := unit) (w : unit) buf).
Proof.
  intros p p' o [= Hr]. unfold pipe_read in Hr. case_match; injection Hr as <- <-; [done|].
  unfold pipe_all. cbn. by rewrite <- app_assoc, ztake_zdrop.
Qed.

(** The pipe, when what comes out of it is the start of [stream]. *)
Definition pipe_of (stream : list Z) : ByteStreamLaws pipe unit unit.
Proof.
  refine {| bs_inv p := exists rest, stream = pipe_all p ++ rest; bs_dead _ := False; bs_written := p_out; bs_got := p_taken;
    bs_idle p := p_in p = [] |}.
  - intros w data p Hp. pose proof (bs_write_ok (ByteStreamLaws := pipe_laws) w data p I) as H. cbn in H |- *.
    destruct H as (Hg & _ & Hn & Hpos & Hw). split_and!; try done; lia.
  - intros w buf p Hp. pose proof (bs_read_ok (ByteStreamLaws := pipe_laws) w buf p I) as H.
    apply completes_inv in H as (p' & o & Hrun & Hw & Ho). unfold completes. rewrite Hrun. cbn [returns]. split; [exact Hw|].
    pose proof (pipe_read_all _ _ _ _ _ Hrun) as Hall. cbn beta in Hall. rewrite Hall.
    destruct o as [[buf' n]|[[]|]]; [|done|]; (split; [exact Hp|apply Ho]).
  - intros p Hp. cbn. by split_and!.
Defined.

(** A message is on its way; the pipe was empty, then the message is in it. *)
Definition arriving : list Z := [1; 0; 7].
Definition waiting_chan : ReliableTypedChannel pipe (option Z) := rt_new (mkPipe [] [] []).
Definition header_read : ReliableTypedChannel pipe (option Z) := set_rb_read [0; 0] 0 waiting_chan.
Definition arrived_chan : ReliableTypedChannel pipe (option Z) := set_rb_channel (mkPipe [] arriving []) header_read.
Definition received_chan : ReliableTypedChannel pipe (option Z) := mkReliableBincodeChannel (mkPipe [] [] arriving) [] 0 arriving 0.

Abbreviation pipe_awaits := (awaits (stream_moves (BL := pipe_of arriving) (Ch := ReliableTypedChannel pipe (option Z)))
  (rt_recv (BE := unit))).

Lemma recv_awaited : pipe_awaits waiting_chan received_chan (Some (inl (Some 7))).
Proof.
  apply (awaits_pending _ _ tt _ header_read arrived_chan); [vm_compute; reflexivity| |].
  - exists (mkPipe [] arriving []). split_and!; try reflexivity. by exists [].
  - apply (awaits_resolved _ _ tt _ _ (inl (Some 7))); vm_compute; reflexivity.
Qed.

Lemma waiting_chan_rep : reliable_rep (BE := unit) (pipe_of arriving) [] [] [([Some 7], arriving)] [] waiting_chan.
Proof.
  apply (mc_rep_peer (MessageChannelLaws := reliable_message_laws (SE := unit)) (pipe_of arriving) [] [] [] [([Some 7], arriving)]).
  - apply (mc_rep_new (MessageChannelLaws := reliable_message_laws (SE := unit)) (pipe_of arriving)); try done. by exists arriving.
  - constructor; [|done]. exists (Some 7). split; [vm_compute; reflexivity|]. exists [7]. reflexivity.
Qed.

Lemma reliable_cancel_safe_witness :
  pipe_awaits waiting_chan received_chan (Some (inl (Some 7))) /\
  reliable_left (BL := pipe_of arriving) (BE := unit) (Er := unit) [] [] [([Some 7], arriving)] [] [] (fun msg => [msg])
    received_chan (Some (inl (Some 7))).
Proof.
  split; [exact recv_awaited|].
  refine (proj2 (proj2 (reliable_cancel_safe (BL := pipe_of arriving) [] [] [([Some 7], arriving)] [] waiting_chan received_chan _ _))
    (Some (inl (Some 7))) recv_awaited).
  - exact waiting_chan_rep.
  - intros p [rest Hp]. unfold pipe_all in Hp. exists (p_in p ++ rest). rewrite app_assoc. exact Hp.
Defined.
