(* ===== verification/Messages.v ===== *)
(** Typed channels over a connection: two [ReliableBincodeChannel]s over the two
    sides of a network that loses, repeats and reorders packets. The channel's
    theorems are proved against the interface of a byte stream; here the reliable
    channel implements it, and the connection's invariant discharges its laws. *)

From stdpp Require Import relations.
From S2P Require Import Prelude StreamPos RingBuffer Segments SendWindow RecvWindow.
From S2P Require Import BandwidthLimiter Packet Wire ReliableChannel ReliableTask ReliableSafety System.
From S2P Require Import Async Bincode BincodeSafety MessageChannel Compressed CompressedSafety CompressedMessages.

(** * The reliable channel as a stream of bytes *)

Section streams.
Context {T Instant P Pool Snd K : Type}.
Context {TI : Timer T Instant} {PI : Packet P} {PPI : PacketPool Pool P}.
Context {SI : PacketSink Snd P} {BO : ByteOrder}.

(** The outcome of a polled method, to a caller that uses [ready!] and [?]. *)
Definition outcome {A E} (r : Poll (A + E)) : A + option E :=
  match r with
  | Pending => inr None
  | Ready (inl a) => inl a
  | Ready (inr e) => inr (Some e)
  end.

#[export] Instance reliable_stream : ByteStream (ReliableChannel T Instant P Pool Snd) K Error := {|
  bs_write _ data := fun c => '(c, r) ← poll_write c data; Val (c, outcome r);
  bs_read _ buf := fun c =>
    '(c, buf, r) ← poll_read c buf;
    Val (c, match outcome r with inl n => inl (buf, n) | inr e => inr e end);
  bs_flush := fun c =>
    let (c, r) := flush c in Val (c, match r with inl _ => inl tt | inr e => inr (Some e) end);
|}.

(** The polls of the futures of [write] and [read]. *)
Definition ReliableChannel_write (data : list Z) (w : K) : polling (ReliableChannel T Instant P Pool Snd) Error Z := bs_write w data.
Definition ReliableChannel_read (data : list Z) (w : K) : polling (ReliableChannel T Instant P Pool Snd) Error (list Z * Z) :=
  bs_read w data.

(** The same on a side, which keeps what was written and read. *)
#[export] Instance side_stream : ByteStream (side T Instant P Pool Snd) K Error := {|
  bs_write w data := fun a =>
    '(c, o) ← bs_write (C := ReliableChannel T Instant P Pool Snd) w data (s_chan a);
    Val (mkSide c (s_written a ++ ztake (match o with inl n => n | inr _ => 0 end) data) (s_read a), o);
  bs_read w buf := fun a =>
    '(c, o) ← bs_read (C := ReliableChannel T Instant P Pool Snd) w buf (s_chan a);
    Val (mkSide c (s_written a) (s_read a ++ match o with inl (buf, n) => ztake n buf | inr _ => [] end), o);
  bs_flush := fun a =>
    '(c, o) ← bs_flush (C := ReliableChannel T Instant P Pool Snd) (K := K) (s_chan a);
    Val (mkSide c (s_written a) (s_read a), o);
|}.
End streams.

(** * Endpoints *)

Inductive ep_op (M P : Type) :=
| EpSend (msg : M)
| EpFlush
| EpRecv
| EpIterate (reason : WakeReason P) (keys : list StreamPos).
Arguments EpSend {M P} _.
Arguments EpFlush {M P}.
Arguments EpRecv {M P}.
Arguments EpIterate {M P} _ _.

Section endpoints.
Context {T Instant P Pool Snd Ch M E' : Type}.
Context {TI : Timer T Instant} {PI : Packet P} {PPI : PacketPool Pool P}.
Context {SI : PacketSink Snd P} {BO : ByteOrder}.

Abbreviation side := (side T Instant P Pool Snd).

Context {OS : OverStream Ch side} {MC : MessageChannel Ch unit M E'}.

(** A typed channel, with the messages its user has sent, and those that the user has
    received and errors, so far. *)
Record endpoint := mkEndpoint {
  ep_chan : Ch;
  ep_sent : list M;
  ep_received : list (M + E');
}.

Definition ep_side (x : endpoint) : side := mc_stream (ep_chan x).

Definition ep_exec (o : ep_op M P) (x : endpoint) : res endpoint :=
  match o with
  | EpSend msg =>
    '(c, r) ← mc_poll_send tt msg (ep_chan x);
    Val (mkEndpoint c (ep_sent x ++ match r with inl _ => [msg] | inr _ => [] end) (ep_received x))
  | EpFlush =>
    '(c, r) ← mc_poll_flush tt (ep_chan x);
    Val (mkEndpoint c (ep_sent x) (ep_received x))
  | EpRecv =>
    '(c, r) ← mc_poll_recv tt (ep_chan x);
    Val (mkEndpoint c (ep_sent x) (ep_received x ++
      match r with inl msg => [inl msg] | inr (Some e) => [inr e] | inr None => [] end))
  | EpIterate reason keys =>
    a ← side_exec (Iterate reason keys) (ep_side x);
    Val (mkEndpoint (mc_set_stream a (ep_chan x)) (ep_sent x) (ep_received x))
  end.

(** The network delivers packets that the other side has sent; [ok] are the messages
    that the user may send. *)
Definition ep_allowed (ok : M -> Prop) (o : ep_op M P) (peer : endpoint) : Prop :=
  match o with
  | EpSend msg => ok msg
  | EpIterate reason keys => delivered (Iterate reason keys) (ep_side peer)
  | _ => True
  end.

Inductive ep_step (ok : M -> Prop) : endpoint * endpoint -> endpoint * endpoint -> Prop :=
| ep_left x y o x' :
    ep_allowed ok o y -> ep_exec o x = Val x' -> rc_status (s_chan (ep_side x')) = Running ->
    ep_step ok (x, y) (x', y)
| ep_right x y o y' :
    ep_allowed ok o x -> ep_exec o y = Val y' -> rc_status (s_chan (ep_side y')) = Running ->
    ep_step ok (x, y) (x, y').

Definition endpoint_new (a : side) : endpoint := mkEndpoint (mc_new a) [] [].

(** Two typed channels over new reliable channels, after any number of steps,
    neither stream of which has come around. *)
Definition ep_connected (ok : M -> Prop) (sa sb : Settings) (x y : endpoint) : Prop :=
  settings_ok sa /\ settings_ok sb /\ exists ta tb pa pb sa' sb' a0 b0,
    10 <= pool_capacity pa <= MAX_PACKET_LEN /\ 10 <= pool_capacity pb <= MAX_PACKET_LEN /\
    side_new ta pa sa sa' = Val a0 /\ side_new tb pb sb sb' = Val b0 /\
    rtc (ep_step ok) (endpoint_new a0, endpoint_new b0) (x, y) /\ horizons sa sb (ep_side x) (ep_side y).
End endpoints.

Arguments endpoint Ch M E' : clear implicits.

(** * The laws of the stream *)

Section laws.
Context {T Instant P Pool Snd : Type}.
Context {TI : Timer T Instant} {TL : TimerLaws T Instant}.
Context {PI : Packet P} {PL : PacketLaws P} {PPI : PacketPool Pool P} {PPL : PacketPoolLaws Pool P}.
Context {SI : PacketSink Snd P} {BO : ByteOrder} {BOL : ByteOrderLaws}.

Abbreviation side := (side T Instant P Pool Snd).

(** How much of the peer's stream has arrived: what was read, and what can be. *)
Definition received (a : side) : Z := zlen (s_read a) + zlen (contents (rw_ring (t_recv_window (s_task a)))).

Lemma half_received s (a a' : side) Wp S rs R st us acked S' rs' st' us' acked' :
  half s a Wp S rs R st us acked -> half s a' Wp S' rs' R st' us' acked' -> received a' = received a.
Proof. intros Ha Ha'. unfold received. by rewrite <- (hf_out _ _ _ _ _ _ _ _ _ Ha), <- (hf_out _ _ _ _ _ _ _ _ _ Ha'). Qed.

Lemma side_write_ok sa sb (a b : side) w data :
  sys_inv sa sb a b ->
  completes (bs_write (K := unit) w data) a (fun a' o => s_read a' = s_read a /\
    match o with
    | inl n => (sys_inv sa sb a' b /\ received a' = received a) /\ 0 <= n <= zlen data /\ (data <> [] -> 0 < n) /\
        s_written a' = s_written a ++ ztake n data
    | inr None => (sys_inv sa sb a' b /\ received a' = received a) /\ s_written a' = s_written a
    | inr (Some _) => False
    end).
Proof.
  intros (S & rs & R & st & us & S2 & rs2 & R2 & st2 & us2 & Ha & Hb).
  assert (forall a' X, half sa a' (s_written b) S rs R st us (got R2 us2) -> s_written a' = s_written a ++ X ->
    sys_inv sa sb a' b /\ received a' = received a) as Hsys.
  { intros a' X Ha' HX. split; [|by eapply half_received]. exists S, rs, R, st, us, S2, rs2, R2, st2, us2. split; [done|]. rewrite HX.
    by eapply half_peer. }
  unfold completes. cbn. unfold poll_write. rewrite (hf_running _ _ _ _ _ _ _ _ _ Ha).
  destruct data as [|x data]; [|set (bs := x :: data) in *].
  { cbn. rewrite app_nil_r. split; [done|]. split; [|split_and!; done || lia].
    apply (Hsys _ []); [by destruct a|by rewrite app_nil_r]. }
  destruct (half_write _ _ _ _ _ _ _ _ _ bs Ha) as (c & n & -> & Hc & Hn). cbn [mbind res_bind].
  destruct (Z.ltb_spec 0 n); [cbn; split; [done|]; split; [by eapply Hsys|split_and!; done || lia]|].
  rewrite ztake_0, app_nil_r in Hc by lia.
  destruct (half_write _ _ _ _ _ _ _ _ _ bs Hc) as (c2 & n2 & Hw2 & Hc2 & Hn2). cbn [s_chan s_written s_read] in *.
  rewrite Hw2. cbn [mbind res_bind].
  destruct (Z.ltb_spec 0 n2); [cbn; split; [done|]; split; [by eapply Hsys|split_and!; done || lia]|].
  rewrite ztake_0, app_nil_r in Hc2 by lia. cbn. rewrite ztake_0, app_nil_r by lia. split; [done|]. split; [|done].
  apply (Hsys _ []); [|by rewrite app_nil_r]. by apply (half_emit _ _ _ _ _ _ _ _ _ WakeSend) in Hc2.
Qed.

Lemma side_read_ok sa sb (a b : side) w buf :
  sys_inv sa sb a b ->
  completes (bs_read (K := unit) w buf) a (fun a' o => s_written a' = s_written a /\
    match o with
    | inl (buf', n) => (sys_inv sa sb a' b /\ received a' = received a) /\ zlen buf' = zlen buf /\ 0 <= n <= zlen buf /\ (buf <> [] -> 0 < n) /\
        s_read a' = s_read a ++ ztake n buf'
    | inr None => (sys_inv sa sb a' b /\ received a' = received a) /\ s_read a' = s_read a /\ received a' = zlen (s_read a')
    | inr (Some _) => False
    end).
Proof.
  intros (S & rs & R & st & us & S2 & rs2 & R2 & st2 & us2 & Ha & Hb).
  assert (forall a', half sa a' (s_written b) S rs R st us (got R2 us2) -> s_written a' = s_written a ->
    sys_inv sa sb a' b /\ received a' = received a) as Hsys.
  { intros a' Ha' HX. split; [|by eapply half_received]. exists S, rs, R, st, us, S2, rs2, R2, st2, us2. split; [done|]. by rewrite HX. }
  unfold completes. cbn. unfold poll_read. rewrite (hf_running _ _ _ _ _ _ _ _ _ Ha).
  destruct buf as [|x buf]; [|set (bs := x :: buf) in *].
  { cbn. rewrite app_nil_r. split; [done|]. split; [|split_and!; done || lia]. apply Hsys; [by destruct a|done]. }
  destruct (half_read _ _ _ _ _ _ _ _ _ bs Ha) as (c & buf' & n & -> & Hc & _ & Hl & Hn). cbn [mbind res_bind].
  destruct (Z.ltb_spec 0 n); [cbn; split; [done|]; split; [by eapply Hsys|split_and!; done || lia]|].
  rewrite ztake_0, app_nil_r in Hc by lia.
  destruct (half_read _ _ _ _ _ _ _ _ _ buf' Hc) as (c2 & buf2 & n2 & Hr2 & Hc2 & Hk2 & Hl2 & Hn2). cbn [s_chan s_written s_read] in *.
  rewrite Hr2. cbn [mbind res_bind].
  destruct (Z.ltb_spec 0 n2); [cbn; split; [done|]; split; [by eapply Hsys|split_and!; done || lia]|].
  rewrite ztake_0, app_nil_r in Hc2 by lia. cbn. rewrite app_nil_r. split; [done|]. split; [by apply Hsys|].
  split; [done|]. pose proof (hf_out _ _ _ _ _ _ _ _ _ Hc) as Ho. pose proof (hf_out _ _ _ _ _ _ _ _ _ Hc2) as Ho2.
  unfold received, s_task in *. cbn [s_chan s_read] in *.
  assert (0 < zlen bs) by (unfold bs; rewrite zlen_cons; pose proof (zlen_nonneg buf); lia). lia.
Qed.

Lemma side_flush_ok sa sb (a b : side) :
  sys_inv sa sb a b ->
  completes (bs_flush (K := unit)) a (fun a' o => s_written a' = s_written a /\ s_read a' = s_read a /\
    match o with inl _ | inr None => sys_inv sa sb a' b /\ received a' = received a | inr (Some _) => False end).
Proof.
  intros (S & rs & R & st & us & S2 & rs2 & R2 & st2 & us2 & Ha & Hb).
  unfold completes. cbn. unfold flush. rewrite (hf_running _ _ _ _ _ _ _ _ _ Ha). cbn. split; [done|]. split; [done|].
  apply (half_emit _ _ _ _ _ _ _ _ _ WakeSend) in Ha as Ha'; [|done]. split; [|by eapply half_received].
  by exists S, rs, R, st, us, S2, rs2, R2, st2, us2.
Qed.

(** The invariant of a connection, seen from one side, is all that the typed channel
    on that side relies on. *)
Definition side_stream_laws (sa sb : Settings) (b : side) : ByteStreamLaws side unit Error.
Proof.
  refine {| bs_inv a := sys_inv sa sb a b; bs_dead _ := False; bs_written := s_written; bs_got := s_read;
    bs_idle a := received a = zlen (s_read a) |}.
  - intros w data a Ha. eapply completes_mono; [by apply side_write_ok|].
    intros a' [n|[e|]] Ho; split; try apply Ho; destruct Ho as (_ & Hi & ?); split; try done; apply Hi.
  - intros w buf a Ha. eapply completes_mono; [by apply side_read_ok|].
    intros a' [[buf' n]|[e|]] Ho; split; try apply Ho; destruct Ho as (_ & Hi & ?); split; try done; apply Hi.
  - intros a Ha. eapply completes_mono; [by apply side_flush_ok|].
    intros a' [n|[e|]] Ho; split; try apply Ho; destruct Ho as (_ & ? & Hi); split; try done; apply Hi.
Defined.

(** The same, with how much has arrived, which only the task changes. *)
Definition arrived_laws (sa sb : Settings) (b : side) (r : Z) : ByteStreamLaws side unit Error.
Proof.
  refine {| bs_inv a := sys_inv sa sb a b /\ received a = r; bs_dead _ := False; bs_written := s_written; bs_got := s_read;
    bs_idle a := received a = zlen (s_read a) |}.
  - intros w data a [Ha <-]. by apply side_write_ok.
  - intros w buf a [Ha <-]. by apply side_read_ok.
  - intros a [Ha <-]. by apply side_flush_ok.
Defined.
End laws.

(** * The invariant of two endpoints *)

Section messages.
Context {T Instant P Pool Snd Ch M E' : Type}.
Context {TI : Timer T Instant} {TL : TimerLaws T Instant}.
Context {PI : Packet P} {PL : PacketLaws P} {PPI : PacketPool Pool P} {PPL : PacketPoolLaws Pool P}.
Context {SI : PacketSink Snd P} {BO : ByteOrder} {BOL : ByteOrderLaws}.

Abbreviation side := (side T Instant P Pool Snd).

Context {OS : OverStream Ch side} {MC : MessageChannel Ch unit M E'}.
Context {ML : MessageChannelLaws Ch side unit M Error E'}.

Abbreviation endpoint := (endpoint Ch M E').
Abbreviation ep_step := (ep_step (P := P) mc_sendable).

(** Two endpoints whose sides satisfy the connection's invariant, with the blocks that
    each has put on its stream. *)
Definition ep_half (sa sb : Settings) (x y : endpoint) (out peer : blocks M) : Prop :=
  exists rcvd, mc_rep (side_stream_laws sa sb (ep_side y)) (ep_sent x) out peer rcvd (ep_chan x) /\
    ep_received x = inl <$> rcvd.

Definition ep_inv (sa sb : Settings) (x y : endpoint) : Prop :=
  exists out peer, ep_half sa sb x y out peer /\ ep_half sb sa y x peer out.

Lemma ep_half_sys sa sb (x y : endpoint) out peer :
  ep_half sa sb x y out peer -> sys_inv sa sb (ep_side x) (ep_side y) /\ Forall mc_block out /\
    exists rest, blocks_bytes out = s_written (ep_side x) ++ rest.
Proof. intros (rcvd & (Hi & Hb & _ & Hw)%mc_rep_sent & _). by split_and!. Qed.

Lemma ep_inv_sym sa sb (x y : endpoint) : ep_inv sa sb x y -> ep_inv sb sa y x.
Proof. intros (out & peer & ? & ?). by exists peer, out. Qed.

(** The peer has gone on, and may have put more blocks on its stream. *)
Lemma ep_half_peer sa sb (x y y' : endpoint) out peer more :
  ep_half sa sb x y out peer -> sys_inv sa sb (ep_side x) (ep_side y') -> Forall mc_block more ->
  ep_half sa sb x y' out (peer ++ more).
Proof.
  intros (rcvd & Hrep & ?) Hi Hm. exists rcvd. split; [|done]. apply mc_rep_peer; [|done].
  rewrite <- (mc_set_stream_id (ep_chan x)). by eapply mc_rep_stream.
Qed.

(** What is read is what the peer has put on its stream. *)
Lemma ep_reads sa sb (y : endpoint) (peer : blocks M) :
  (exists rest, blocks_bytes peer = s_written (ep_side y) ++ rest) -> reads_blocks (side_stream_laws sa sb (ep_side y)) peer.
Proof.
  intros [rest Hpeer] a (S & rs & R & st & us & S2 & rs2 & R2 & st2 & us2 & Ha & _).
  destruct (half_prefix _ _ _ _ _ _ _ _ _ Ha) as [tail Htail]. cbn. exists (tail ++ rest).
  by rewrite Hpeer, Htail, <- app_assoc.
Qed.

Lemma ep_exec_inv sa sb (x y : endpoint) o x' :
  s_init_send sa <> 0 -> ep_inv sa sb x y -> horizons sa sb (ep_side x) (ep_side y) -> ep_allowed mc_sendable o y ->
  ep_exec o x = Val x' -> rc_status (s_chan (ep_side x')) = Running -> ep_inv sa sb x' y.
Proof.
  intros Hinit (out & peer & Hx & Hy) Hh Hal Hexec Hrun.
  destruct (ep_half_sys _ _ _ _ _ _ Hy) as (_ & Hpb & Hpw). pose proof (ep_reads sa sb y peer Hpw) as Hreads.
  destruct (ep_half_sys _ _ _ _ _ _ Hx) as (Hsys & _ & _).
  assert (forall more, ep_half sa sb x' y (out ++ more) peer -> ep_inv sa sb x' y) as Hgo.
  { intros more Hx'. exists (out ++ more), peer. split; [done|]. destruct (ep_half_sys _ _ _ _ _ _ Hx') as (Hs' & Hb' & _).
    apply Forall_app in Hb' as [_ Hb']. eapply ep_half_peer; [done|by apply sys_inv_sym|done]. }
  destruct Hx as (rcvd & Hrep & Hrecv). destruct o as [msg| | |reason keys]; cbn [ep_exec] in Hexec.
  - pose proof (mc_send_ok _ tt msg _ _ _ _ _ Hrep Hal) as H.
    apply completes_inv in H as (c & r & Hr & Ho). rewrite Hr in Hexec. cbn in Hexec. injection Hexec as <-.
    destruct r as [[]|[e|]]; [|done|]; destruct Ho as [more Ho]; apply (Hgo more); exists rcvd; cbn; rewrite ?app_nil_r; done.
  - pose proof (mc_flush_ok _ tt _ _ _ _ _ Hrep) as H.
    apply completes_inv in H as (c & r & Hr & Ho). rewrite Hr in Hexec. cbn in Hexec. injection Hexec as <-.
    destruct r as [[]|[e|]]; [destruct Ho as (more & Ho & _)|done|destruct Ho as [more Ho]]; apply (Hgo more); by exists rcvd.
  - pose proof (mc_recv_ok _ tt _ _ _ _ _ Hrep Hreads) as H.
    apply completes_inv in H as (c & r & Hr & Ho). rewrite Hr in Hexec. cbn in Hexec. injection Hexec as <-.
    apply (Hgo []). rewrite app_nil_r. destruct r as [msg|[e|]]; [|done|].
    + exists (rcvd ++ [msg]). cbn. destruct Ho as [Ho _]. by rewrite fmap_app, Hrecv.
    + exists rcvd. cbn. destruct Ho as [Ho _]. by rewrite app_nil_r.
  - pose proof (side_exec_inv sa sb Hinit (ep_side x) (ep_side y) (Iterate reason keys) Hsys Hh Hal) as H.
    apply returns_iff in H as (a' & Ha' & H). rewrite Ha' in Hexec. cbn in Hexec. injection Hexec as <-.
    unfold ep_side in Hrun. cbn in Hrun. rewrite mc_stream_set in Hrun. destruct H as [H|[_ Hsys']]; [congruence|].
    apply (Hgo []). rewrite app_nil_r. exists rcvd. cbn. split; [|done].
    apply bind_val in Ha' as (c & _ & [= <-]). by eapply mc_rep_stream.
Qed.

(** Nothing that was written is taken back. *)
Definition written_on (a a' : side) : Prop := zlen (s_written a) <= zlen (s_written a').

#[export] Instance written_on_preorder : PreOrder written_on.
Proof. split; unfold written_on; [intros c; lia|intros c1 c2 c3; lia]. Qed.

Lemma bs_written_on :
  (forall w data, preserves written_on (bs_write (C := side) (K := unit) w data)) /\
  (forall w buf, preserves written_on (bs_read (C := side) (K := unit) w buf)) /\
  preserves written_on (bs_flush (C := side) (K := unit)).
Proof.
  split_and!; intros; intros a a' o H; cbn in H;
    repeat match goal with H : _ ≫= _ = Val _ |- _ => apply bind_val in H as (? & ? & ?) end;
    repeat case_match; simplify_eq/=; unfold written_on; cbn; rewrite ?zlen_app; zlen_facts; lia.
Qed.

Lemma ep_exec_written (o : ep_op M P) (x x' : endpoint) :
  ep_exec o x = Val x' -> zlen (s_written (ep_side x)) <= zlen (s_written (ep_side x')).
Proof.
  destruct bs_written_on as (Hw & Hr & Hf). destruct (mc_preserves written_on _ Hw Hr Hf) as (Hsend & Hflush & Hrecv).
  destruct o as [msg| | |reason keys]; cbn [ep_exec]; intros H; apply bind_val in H as (r & Hr' & H);
    try (destruct r as [c r]; injection H as <-; first [by eapply Hsend|by eapply Hflush|by eapply Hrecv]).
  injection H as <-. apply side_exec_written in Hr' as [X Hx]. unfold ep_side in *. cbn.
  rewrite mc_stream_set, Hx, zlen_app. zlen_facts. lia.
Qed.

Lemma ep_step_inv sa sb (x y x' y' : endpoint) :
  s_init_send sa <> 0 -> s_init_send sb <> 0 ->
  ep_inv sa sb x y -> horizons sa sb (ep_side x) (ep_side y) -> ep_step (x, y) (x', y') -> ep_inv sa sb x' y'.
Proof.
  intros Hsa Hsb Hinv Hh Hstep. inversion Hstep as [? ? o ? Hal Hexec Hrun|? ? o ? Hal Hexec Hrun]; simplify_eq.
  - by eapply ep_exec_inv.
  - apply ep_inv_sym. apply ep_inv_sym in Hinv. apply horizons_sym in Hh. by eapply ep_exec_inv.
Qed.

Lemma endpoint_new_half sa sb (a b : side) :
  s_written a = [] -> s_read a = [] -> sys_inv sa sb a b -> ep_half sa sb (endpoint_new a) (endpoint_new b) [] [].
Proof.
  intros Hw Hr Hi. exists []. split; [|done]. apply mc_rep_new; cbn; [|done|done]. unfold ep_side. cbn. by rewrite mc_stream_new.
Qed.

Lemma ep_connected_inv sa sb (x y : endpoint) : ep_connected (P := P) mc_sendable sa sb x y -> ep_inv sa sb x y.
Proof.
  intros (Hsa & Hsb & ta & tb & pa & pb & xa & xb & a0 & b0 & Hpa & Hpb & Ha & Hb & Hsteps & Hh).
  destruct (side_new_half ta pa sa xa Hsa Hpa) as (a1 & Ha1 & Hwa & Hra & Hhalfa).
  destruct (side_new_half tb pb sb xb Hsb Hpb) as (b1 & Hb1 & Hwb & Hrb & Hhalfb).
  rewrite Ha in Ha1. rewrite Hb in Hb1. simplify_eq.
  pose proof (so_init _ Hsa). pose proof (so_init _ Hsb).
  assert (sys_inv sa sb a1 b1) as Hsys by (exists 0, [], 0, [], [], 0, [], 0, [], []; by rewrite Hwa, Hwb).
  revert Hh. change x with (x, y).1. change y with (x, y).2.
  apply (rtc_ind_r (R := ep_step) (fun xy : endpoint * endpoint =>
    horizons sa sb (ep_side xy.1) (ep_side xy.2) -> ep_inv sa sb xy.1 xy.2) (endpoint_new a1, endpoint_new b1)); [| |done].
  - intros _. exists [], []. split; apply endpoint_new_half; try done. by apply sys_inv_sym.
  - intros [x1 y1] [x2 y2] _ Hstep IH [HA HB]. cbn [fst snd] in *.
    assert (zlen (s_written (ep_side x1)) <= zlen (s_written (ep_side x2)) /\
            zlen (s_written (ep_side y1)) <= zlen (s_written (ep_side y2))) as [? ?].
    { inversion Hstep as [? ? o ? _ Hexec _|? ? o ? _ Hexec _]; simplify_eq;
        apply ep_exec_written in Hexec; split; done || lia. }
    assert (horizons sa sb (ep_side x1) (ep_side y1)) as Hh by (unfold horizons, horizon in *; lia).
    eapply ep_step_inv; [..|exact Hstep]; try done; try lia. by apply IH.
Qed.

(** What an endpoint has received is a prefix of what its peer has sent, and no call
    has ended in an error. *)
Lemma ep_prefix sa sb (x y : endpoint) :
  ep_inv sa sb x y -> exists rest, inl <$> ep_sent x = ep_received y ++ rest.
Proof.
  intros (out & peer & (rcvd & Hx & _) & (rcvd' & Hy & Hrecv)).
  apply mc_rep_sent in Hx as (_ & _ & [open Hs] & _). apply mc_rep_rcvd in Hy as [rest Hr].
  exists (inl <$> (rest ++ open)). by rewrite Hs, Hr, Hrecv, <- fmap_app, <- app_assoc.
Qed.

Lemma endpoints_in_order sa sb (x y : endpoint) :
  ep_connected (P := P) mc_sendable sa sb x y ->
  (exists rest, inl <$> ep_sent x = ep_received y ++ rest) /\
  (exists rest, inl <$> ep_sent y = ep_received x ++ rest).
Proof. intros H%ep_connected_inv. split; [by eapply ep_prefix|]. by eapply ep_prefix, ep_inv_sym. Qed.
End messages.

(** * The channels *)

Section channels.
Context {T Instant P Pool Snd M BE SE : Type}.
Context {TI : Timer T Instant} {TL : TimerLaws T Instant}.
Context {PI : Packet P} {PL : PacketLaws P} {PPI : PacketPool Pool P} {PPL : PacketPoolLaws Pool P}.
Context {SI : PacketSink Snd P} {BO : ByteOrder} {BOL : ByteOrderLaws}.
Context {BC : Bincode M BE} {BCL : BincodeLaws M BE} {SN : Snap SE} {SNL : SnapLaws SE}.

Abbreviation side := (side T Instant P Pool Snd).
Abbreviation reliable_endpoint := (endpoint (ReliableBincodeChannel side) M (TaskError Error BE SE)).
Abbreviation compressed_endpoint := (endpoint (CompressedBincodeChannel side) M (TaskError Error BE SE)).

(** Reliable messages: over a network that loses, repeats and reorders packets, and
    however users and tasks take turns, the messages that a typed channel has
    received are the first ones that its peer has sent: none is lost in between,
    repeated, out of order, or changed, and receiving never ends in an error. *)
Theorem reliable_messages_in_order sa sb (x y : reliable_endpoint) :
  ep_connected (P := P) (sendable (BE := BE)) sa sb x y ->
  (exists rest, inl <$> ep_sent x = ep_received y ++ rest) /\
  (exists rest, inl <$> ep_sent y = ep_received x ++ rest).
Proof. apply (endpoints_in_order (ML := reliable_message_laws)). Qed.

(** Compressed messages: the same for the compressed channel, however the messages
    are grouped into chunks and whichever chunks compression makes shorter, for
    messages that bincode gives at least one byte; one chunk read is enough for a
    message. *)
Theorem compressed_messages_in_order sa sb fuel (x y : compressed_endpoint) :
  ep_connected (MC := compressed_message_channel (S fuel)) (P := P) (chunkable (BE := BE)) sa sb x y ->
  (exists rest, inl <$> ep_sent x = ep_received y ++ rest) /\
  (exists rest, inl <$> ep_sent y = ep_received x ++ rest).
Proof. apply (endpoints_in_order (ML := compressed_message_laws fuel)). Qed.
End channels.

(** * Examples

    Messages of one byte, in packets that arrive twice. *)

Section run.
Context {T Instant P Pool Snd Ch M E' : Type}.
Context {TI : Timer T Instant} {PI : Packet P} {PPI : PacketPool Pool P}.
Context {SI : PacketSink Snd P} {BO : ByteOrder}.

Abbreviation side := (side T Instant P Pool Snd).

Context {OS : OverStream Ch side} {MC : MessageChannel Ch unit M E'}.
Context (ok : M -> Prop) (okb : M -> bool) (Hok : forall msg, okb msg = true -> ok msg).

Abbreviation endpoint := (endpoint Ch M E').

Definition ep_allowedb (o : ep_op M P) (peer : endpoint) : bool :=
  match o with
  | EpSend msg => okb msg
  | EpIterate reason keys => deliveredb (Iterate reason keys) (ep_side peer)
  | _ => true
  end.

Fixpoint ep_run (ops : list (bool * ep_op M P)) (x y : endpoint) : option (endpoint * endpoint) :=
  match ops with
  | [] => Some (x, y)
  | (is_left, o) :: ops =>
    let (z, peer) := if is_left : bool then (x, y) else (y, x) in
    if ep_allowedb o peer then
      match ep_exec o z with
      | Val z => if running (ep_side z) then if is_left then ep_run ops z y else ep_run ops x z else None
      | Fault _ => None
      end
    else None
  end.

Lemma ep_run_steps ops : forall x y x' y' : endpoint,
  ep_run ops x y = Some (x', y') -> rtc (ep_step (P := P) ok) (x, y) (x', y').
Proof.
  assert (forall o (peer : endpoint), ep_allowedb o peer = true -> ep_allowed ok o peer) as Hal.
  { intros [msg| | |reason keys] peer; cbn; try done; [apply Hok|by apply (deliveredb_ok (Iterate reason keys))]. }
  induction ops as [|[[] o] ops IH]; intros x y x' y'; cbn [ep_run]; [by intros [= -> ->]| |];
    (destruct (ep_allowedb o _) eqn:Ho; [|done]); (destruct (ep_exec o _) as [z|] eqn:Hz; [|done]);
    unfold running; (destruct (rc_status (s_chan (ep_side z))) eqn:Hr; [|done..]); intros Hrun;
    (eapply rtc_l; [|by apply IH]).
  - by apply (ep_left _ _ _ o); [apply Hal| |].
  - by apply (ep_right _ _ _ o); [apply Hal| |].
Qed.
End run.

Import Example BincodeExample RunLength.

Abbreviation example_stream := (side nat nat BufferPacket (BufferPacketPool bool) bool).
Abbreviation example_error := (TaskError Error unit unit).

Definition byte_ok (msg : option Z) : bool := match msg with Some _ => true | None => false end.

Lemma byte_ok_sendable msg : byte_ok msg = true -> sendable (BE := unit) msg.
Proof. destruct msg as [b|]; [|discriminate]. intros _. exists [b]. reflexivity. Qed.
Lemma byte_ok_chunkable msg : byte_ok msg = true -> chunkable (BE := unit) msg.
Proof. destruct msg as [b|]; [|discriminate]. intros _. exists [b]. split; [reflexivity|discriminate]. Qed.

(** The steps of an example: the left side sends, and the right side gets a packet. *)
Definition example_steps (bytes : list Z) : list (bool * ep_op (option Z) BufferPacket) :=
  let data := EpIterate (IncomingPacket (Some (example_packet bytes))) [] in
  [(true, EpSend (Some 7)); (true, EpFlush); (true, EpIterate SendAvailable []);
   (false, EpRecv); (false, data); (false, data); (false, EpRecv); (true, EpSend (Some 8))].

Section example.
Context {Ch E' : Type} {OS : OverStream Ch example_stream} {MC : MessageChannel Ch unit (option Z) E'}.

Definition example_endpoints (steps : list (bool * ep_op (option Z) BufferPacket)) : option (endpoint Ch (option Z) E' * endpoint Ch (option Z) E') :=
  match example_side with
  | Val a => ep_run byte_ok steps (endpoint_new a) (endpoint_new a)
  | Fault _ => None
  end.

Lemma example_endpoints_connected (ok : option Z -> Prop) steps x y :
  (forall msg, byte_ok msg = true -> ok msg) -> example_endpoints steps = Some (x, y) ->
  zlen (s_written (ep_side x)) < 1000 -> zlen (s_written (ep_side y)) < 1000 ->
  ep_connected (P := BufferPacket) ok Example.settings Example.settings x y.
Proof.
  unfold example_endpoints. intros Hok Hrun Hx Hy. destruct example_side as [a|] eqn:Ha; [|discriminate].
  split; [apply example_settings|]. split; [apply example_settings|].
  exists 0%nat, 0%nat, (mkBufferPacketPool true), (mkBufferPacketPool true), true, true, a, a.
  split; [vm_compute; split; discriminate|]. split; [vm_compute; split; discriminate|].
  split; [exact Ha|]. split; [exact Ha|]. split; [exact (ep_run_steps _ _ Hok _ _ _ _ _ Hrun)|].
  assert (s_recv_window_size Example.settings < 1000) as Hw by reflexivity. unfold horizons, horizon. lia.
Qed.

Definition example_view (xy : endpoint Ch (option Z) E' * endpoint Ch (option Z) E') :=
  (ep_sent xy.1, ep_received xy.2, zlen (s_written (ep_side xy.1)), zlen (s_written (ep_side xy.2))).
End example.

Lemma example_reliable : option_map example_view
    (example_endpoints (Ch := ReliableBincodeChannel example_stream) (E' := example_error) (example_steps [3; 0; 0; 0; 0; 0; 1; 0; 7])) =
  Some ([Some 7; Some 8], [inl (Some 7)], 3, 0).
Proof. vm_compute. reflexivity. Qed.

(** Two messages in one chunk, one of which is taken out. *)
Abbreviation example_compressed := (example_endpoints (Ch := CompressedBincodeChannel example_stream)
  (MC := compressed_message_channel (C := example_stream) (K := unit) (E := Error) (SE := unit) (M := option Z) (BE := unit) 1)).

Lemma example_compressed_view : option_map example_view (example_compressed (example_steps [4; 0; 0; 0; 0; 0; 0; 1; 0; 7])) =
  Some ([Some 7; Some 8], [inl (Some 7)], 4, 0).
Proof. vm_compute. reflexivity. Qed.

Lemma below (a n : Z) : a = n -> n < 1000 -> a < 1000.
Proof. lia. Qed.

Lemma reliable_messages_in_order_witness :
  exists x y, example_endpoints (Ch := ReliableBincodeChannel example_stream) (E' := example_error)
    (example_steps [3; 0; 0; 0; 0; 0; 1; 0; 7]) = Some (x, y) /\
  ep_received y = [inl (Some 7)] /\ exists rest, inl <$> ep_sent x = ep_received y ++ rest.
Proof.
  pose proof example_reliable as Hobs. destruct (example_endpoints _) as [[x y]|] eqn:E; [|discriminate Hobs].
  injection Hobs as _ Hr Hx Hy. exists x, y. split; [reflexivity|]. split; [exact Hr|].
  refine (proj1 (reliable_messages_in_order Example.settings Example.settings x y _)).
  refine (example_endpoints_connected _ _ x y byte_ok_sendable E _ _); [exact (below _ _ Hx eq_refl)|exact (below _ _ Hy eq_refl)].
Defined.

Lemma compressed_messages_in_order_witness :
  exists x y, example_compressed (example_steps [4; 0; 0; 0; 0; 0; 0; 1; 0; 7]) = Some (x, y) /\
  ep_received y = [inl (Some 7)] /\ exists rest, inl <$> ep_sent x = ep_received y ++ rest.
Proof.
  pose proof example_compressed_view as Hobs. destruct (example_compressed _) as [[x y]|] eqn:E; [|discriminate Hobs].
  injection Hobs as _ Hr Hx Hy. exists x, y. split; [reflexivity|]. split; [exact Hr|].
  refine (proj1 (compressed_messages_in_order Example.settings Example.settings 0 x y _)).
  refine (example_endpoints_connected (MC := compressed_message_channel 1) _ _ x y byte_ok_chunkable E _ _);
    [exact (below _ _ Hx eq_refl)|exact (below _ _ Hy eq_refl)].
Defined.
