(* ===== verification/UnreliableBincode.v ===== *)
(** [UnreliableBincodeChannel] of unreliable_bincode_channel.rs: messages that bincode
    encodes over the unreliable channel, one at a time in a buffer of its own; and
    what its peer gets of them. *)

From stdpp Require Import relations.
From S2P Require Import Prelude StreamPos BandwidthLimiter Packet Wire Async Spsc SpscSafety Unreliable UnreliableSafety.
From S2P Require Import Bincode BincodeSafety MessageChannel.

(** * The channel *)

Record UnreliableBincodeChannel (U : Type) := mkUnreliableBincodeChannel {
  ub_channel : U;
  ub_pending_write : list Z;
}.
Arguments mkUnreliableBincodeChannel {U} _ _.
Arguments ub_channel {U} _.
Arguments ub_pending_write {U} _.

Section unreliable_bincode.
Context {T Instant P Pool Q W K Sl M BE SE : Type}.
Context {TI : Timer T Instant} {SL : Sleeper T Sl K} {PI : Packet P} {PPI : PacketPool Pool P}.
Context {BO : ByteOrder} {CB : Crossbeam Q P} {AW : AtomicWaker W K} {BC : Bincode M BE}.

Abbreviation unreliable := (UnreliableChannel T Instant P Pool Q W K Sl).
Abbreviation chan := (UnreliableBincodeChannel unreliable).

Definition set_ub_channel (v : unreliable) (c : chan) : chan := mkUnreliableBincodeChannel v (ub_pending_write c).
Definition set_ub_pending (v : list Z) (c : chan) : chan := mkUnreliableBincodeChannel (ub_channel c) v.

Definition UnreliableBincodeChannel_new (channel : unreliable) : chan := mkUnreliableBincodeChannel channel [].

Definition ub_max_message_len (c : chan) : res Z := max_message_len (ub_channel c).

Definition on_unreliable {E A} (m : polling unreliable E A) : polling chan E A := zoom ub_channel set_ub_channel m.

Definition ub_poll_send_ready (w : K) : polling chan Unreliable.SendError unit :=
  c ← get;
  match ub_pending_write c with
  | [] => mret tt
  | pending =>
    _ ← on_unreliable (poll_send w pending);
    modify (set_ub_pending [])
  end.

Definition ub_start_send (msg : M) : polling chan BE unit :=
  c ← get;
  _ ← lift (assert (match ub_pending_write c with [] => true | _ => false end));
  limit ← lift (ub_max_message_len c);
  let (bytes, r) := serialize_into limit msg in
  _ ← modify (set_ub_pending (ub_pending_write c ++ bytes));
  match r with inl _ => mret tt | inr e => fail e end.

Definition ub_poll_flush (w : K) : polling chan Unreliable.SendError unit :=
  _ ← ub_poll_send_ready w;
  on_unreliable (poll_flush w).

Definition ub_poll_recv (w : K) : polling chan (Bincode.RecvError Unreliable.RecvError BE) M :=
  c ← get;
  limit ← lift (ub_max_message_len c);
  msg ← map_err RecvError_ReliableChannelError (on_unreliable (poll_recv w));
  match deserialize limit msg with inl m => mret m | inr e => fail (RecvError_BincodeError e) end.

(** * The methods built on these *)

Definition ub_into_inner (c : chan) : unreliable := ub_channel c.

(** The polls of the futures of the [async] methods, and the methods that do not
    wait, which poll with a waker that does nothing. [recv] has found the limit before
    it waits. *)
Definition ub_send (msg : M) (w : K) : polling chan (Bincode.SendError Unreliable.SendError BE) unit :=
  _ ← map_err SendError_ReliableChannelError (ub_poll_send_ready w);
  map_err SendError_BincodeError (ub_start_send msg).
Definition ub_flush (w : K) : polling chan Unreliable.SendError unit := ub_poll_flush w.
Definition ub_recv (w : K) : polling chan (Bincode.RecvError Unreliable.RecvError BE) M :=
  c ← get;
  limit ← lift (ub_max_message_len c);
  msg ← map_err RecvError_ReliableChannelError (on_unreliable (u_recv w));
  match deserialize limit msg with inl m => mret m | inr e => fail (RecvError_BincodeError e) end.

Definition ub_try_send_ready (noop : K) : handler chan Unreliable.SendError bool := try_ready (ub_poll_send_ready noop).
Definition ub_try_send (noop : K) (msg : M) : handler chan (Bincode.SendError Unreliable.SendError BE) bool :=
  try_then SendError_ReliableChannelError SendError_BincodeError (ub_try_send_ready noop) (ub_start_send msg).
Definition ub_try_flush (noop : K) : handler chan Unreliable.SendError bool := try_ready (ub_poll_flush noop).
Definition ub_try_recv (noop : K) : handler chan (Bincode.RecvError Unreliable.RecvError BE) (option M) :=
  try_poll (ub_poll_recv noop).

(** * The channel of one type *)

(** [UnreliableTypedChannel] is an [UnreliableBincodeChannel] whose messages are all of
    the type [M]; its methods are those of the channel inside. *)
Definition UnreliableTypedChannel : Type := chan.

Definition ut_new (channel : unreliable) : UnreliableTypedChannel := UnreliableBincodeChannel_new channel.
Definition ut_into_inner (c : UnreliableTypedChannel) : unreliable := ub_into_inner c.
Definition ut_flush (w : K) : polling UnreliableTypedChannel Unreliable.SendError unit := ub_flush w.
Definition ut_try_flush (noop : K) : handler UnreliableTypedChannel Unreliable.SendError bool := ub_try_flush noop.
Definition ut_poll_flush (w : K) : polling UnreliableTypedChannel Unreliable.SendError unit := ub_poll_flush w.
Definition ut_poll_send_ready (w : K) : polling UnreliableTypedChannel Unreliable.SendError unit := ub_poll_send_ready w.
Definition ut_try_send_ready (noop : K) : handler UnreliableTypedChannel Unreliable.SendError bool := ub_try_send_ready noop.
Definition ut_send (msg : M) (w : K) : polling UnreliableTypedChannel (Bincode.SendError Unreliable.SendError BE) unit :=
  ub_send msg w.
Definition ut_try_send (noop : K) (msg : M) : handler UnreliableTypedChannel (Bincode.SendError Unreliable.SendError BE) bool :=
  ub_try_send noop msg.
Definition ut_start_send (msg : M) : polling UnreliableTypedChannel BE unit := ub_start_send msg.
Definition ut_recv (w : K) : polling UnreliableTypedChannel (Bincode.RecvError Unreliable.RecvError BE) M := ub_recv w.
Definition ut_try_recv (noop : K)
    : handler UnreliableTypedChannel (Bincode.RecvError Unreliable.RecvError BE) (option M) := ub_try_recv noop.
Definition ut_poll_recv (w : K) : polling UnreliableTypedChannel (Bincode.RecvError Unreliable.RecvError BE) M := ub_poll_recv w.

(** [impl MessageBincodeChannel for UnreliableTypedChannel]; the errors of sending and
    of receiving are those of the channel below. *)
#[export] Instance unreliable_message_channel :
    MessageChannel UnreliableTypedChannel K M (TaskError (Unreliable.SendError + Unreliable.RecvError) BE SE) := {|
  mc_poll_recv w := map_err (fun e => match e with
      | RecvError_ReliableChannelError e => TaskError_Channel (inr e)
      | RecvError_BincodeError e => TaskError_Bincode e
      end) (ut_poll_recv w);
  mc_poll_send w msg :=
    _ ← map_err (fun e => TaskError_Channel (inl e)) (ut_poll_send_ready w);
    map_err TaskError_Bincode (ut_start_send msg);
  mc_poll_flush w := map_err (fun e => TaskError_Channel (inl e)) (ut_poll_flush w);
|}.

(** Messages sent one after another until the last is in the packet; and received one
    after another. *)
Fixpoint ub_sends (w : K) (msgs : list M) : polling chan (TaskError (Unreliable.SendError + Unreliable.RecvError) BE SE) unit :=
  match msgs with
  | [] => map_err (fun e => TaskError_Channel (inl e)) (ub_poll_send_ready w)
  | msg :: msgs => _ ← mc_poll_send w msg; ub_sends w msgs
  end.
Fixpoint ub_recvs (w : K) (n : nat) : polling chan (TaskError (Unreliable.SendError + Unreliable.RecvError) BE SE) (list M) :=
  match n with
  | O => mret []
  | S n => msg ← mc_poll_recv w; msgs ← ub_recvs w n; mret (msg :: msgs)
  end.
End unreliable_bincode.

Section safety.
Context {T Instant P Pool Q W K Sl M BE SE : Type}.
Context {TI : Timer T Instant} {SL : Sleeper T Sl K} {PI : Packet P} {PL : PacketLaws P}.
Context {PPI : PacketPool Pool P} {PPL : PacketPoolLaws Pool P}.
Context {BO : ByteOrder} {BOL : ByteOrderLaws} {CB : Crossbeam Q P} {CL : CrossbeamLaws Q P} {AW : AtomicWaker W K}.
Context {BC : Bincode M BE} {BCL : BincodeLaws M BE}.

Abbreviation unreliable := (UnreliableChannel T Instant P Pool Q W K Sl).
Abbreviation chan := (UnreliableBincodeChannel unreliable).

Local Ltac proj := cbn [ub_channel ub_pending_write set_ub_channel set_ub_pending].
Local Ltac wp := repeat (wp_step; proj).

(** The bytes of a message, of which there is at least one, within the limit. *)
Definition encoding (limit : Z) (msg : M) : list Z := (serialize_into (BE := BE) limit msg).1.
Definition encodable (limit : Z) (msg : M) : Prop :=
  exists bs, serialize_into (BE := BE) limit msg = (bs, inl tt) /\ bs <> [].

Lemma max_message_len_u16 (u : unreliable) limit : max_message_len u = Val limit -> limit <= u16_max.
Proof.
  unfold max_message_len, sub_u, as_u16, chk, u16_max. case_match; [|done]. intros [= <-].
  pose proof (Z.mod_pos_bound (Z.min (pool_capacity (u_pool u)) MAX_PACKET_LEN) 65536). lia.
Qed.

Lemma encoding_len limit msg : encodable limit msg -> limit <= u16_max -> zlen (encoding limit msg) <= u16_max.
Proof. intros (bs & Hser & _) Hl. unfold encoding. rewrite Hser. apply serialize_ok in Hser as [? _]. cbn. lia. Qed.

(** What is pending goes into the packet. *)
Lemma ub_poll_send_ready_fits w (c : chan) :
  u_inv (ub_channel c) -> zlen (ub_pending_write c) <= u16_max ->
  (ub_pending_write c <> [] -> zlen (out_bytes (ub_channel c)) + 2 + zlen (ub_pending_write c) < capacity (ub_channel c)) ->
  completes (ub_poll_send_ready w) c (fun c' o => o = inl tt /\ ub_pending_write c' = [] /\
    out_changed (ub_channel c) (out_bytes (ub_channel c) ++
      match ub_pending_write c with [] => [] | pending => frame pending end) (ub_channel c')).
Proof.
  intros Hu Hl Hroom. unfold ub_poll_send_ready. wp. destruct (ub_pending_write c) as [|b pending] eqn:Hp.
  - wp. split; [done|]. split; [done|]. rewrite app_nil_r. exists (u_out_packet (ub_channel c)). destruct Hu.
    split_and!; try done. by destruct (ub_channel c).
  - wp. apply completes_zoom. eapply completes_mono; [apply poll_send_ok; [done|done|by apply Hroom]|].
    intros u' o [-> Ho]. wp. by split_and!.
Qed.

Definition framed (limit : Z) (msgs : list M) : list Z := concat (frame <$> (encoding limit <$> msgs)).

Lemma out_changed_limit (u u' : unreliable) bytes limit :
  out_changed u bytes u' -> max_message_len u = Val limit -> max_message_len u' = Val limit.
Proof. by intros (p & -> & _). Qed.

Lemma ub_sends_ok w limit msgs : Forall (encodable limit) msgs -> forall c : chan,
  u_inv (ub_channel c) -> max_message_len (ub_channel c) = Val limit -> zlen (ub_pending_write c) <= u16_max ->
  let pending := match ub_pending_write c with [] => [] | pending => frame pending end in
  zlen (out_bytes (ub_channel c) ++ pending ++ framed limit msgs) < capacity (ub_channel c) ->
  completes (ub_sends (SE := SE) w msgs) c (fun c' o => o = inl tt /\ ub_pending_write c' = [] /\
    out_changed (ub_channel c) (out_bytes (ub_channel c) ++ pending ++ framed limit msgs) (ub_channel c')).
Proof.
  induction 1 as [|msg msgs Hm Hms IH]; intros c Hu Hmax Hl pending Hroom.
  - cbn [ub_sends]. unfold framed in *. cbn [fmap list_fmap concat] in *. rewrite app_nil_r in *.
    apply completes_map_err. eapply completes_mono; [apply ub_poll_send_ready_fits; [done..|]|by intros c' o (-> & ? & ?)].
    intros Hne. rewrite zlen_app in Hroom. subst pending. destruct (ub_pending_write c); [done|].
    rewrite zlen_frame in Hroom by done. lia.
  - cbn [ub_sends mc_poll_send unreliable_message_channel]. apply completes_bind, completes_bind, completes_map_err.
    pose proof (max_message_len_u16 _ _ Hmax) as Hlim. pose proof (encoding_len _ _ Hm Hlim) as Hel.
    assert (framed limit (msg :: msgs) = frame (encoding limit msg) ++ framed limit msgs) as Hf by done.
    rewrite Hf in *. zlen_facts.
    eapply completes_mono; [apply ub_poll_send_ready_fits; [done..|]|].
    { intros Hne. rewrite !zlen_app in Hroom. subst pending. destruct (ub_pending_write c); [done|].
      rewrite (zlen_frame (_ :: _)) in Hroom by done. zlen_facts. lia. }
    intros c1 o (-> & Hp1 & Ho1). fold pending in Ho1. apply completes_map_err. unfold ut_start_send, ub_start_send. wp.
    rewrite Hp1. cbn [assert]. wp. apply completes_lift. unfold ub_max_message_len.
    rewrite (out_changed_limit _ _ _ _ Ho1 Hmax). cbn [returns]. destruct Hm as (bs & Hser & Hne). rewrite Hser. wp.
    destruct (out_changed_inv _ _ _ Hu Ho1) as (Hu1 & Hd1 & Hc1).
    assert (encoding limit msg = bs) as Heq by (unfold encoding; by rewrite Hser). rewrite Heq in *.
    eapply completes_mono; [apply IH|]; proj; [done|by eapply out_changed_limit|cbn [app]; done| |].
    + rewrite Hd1, Hc1. cbn [app]. destruct bs; [done|]. by rewrite <- app_assoc.
    + intros c2 o (-> & Hp2 & Ho2). split; [done|]. split; [done|]. rewrite Hd1 in Ho2. cbn [app] in Ho2.
      destruct bs; [done|]. rewrite <- app_assoc in Ho2. by eapply out_changed_trans.
Qed.

Lemma mc_recv_frame w limit p (d : chan) pre msg rest :
  encodable limit msg -> max_message_len (ub_channel d) = Val limit ->
  deref p = pre ++ frame (encoding limit msg) ++ rest -> u_in_packet (ub_channel d) = Some (p, zlen pre) ->
  completes (mc_poll_recv (MessageChannel := unreliable_message_channel (SE := SE)) w) d (fun d' o =>
    o = inl msg /\ u_in_packet (ub_channel d') = Some (p, zlen (pre ++ frame (encoding limit msg))) /\
    u_receiver (ub_channel d') = u_receiver (ub_channel d) /\ max_message_len (ub_channel d') = Val limit).
Proof.
  intros Hm Hmax Hd Hin. pose proof (encoding_len _ _ Hm (max_message_len_u16 _ _ Hmax)) as Hel.
  cbn [mc_poll_recv unreliable_message_channel]. unfold ut_poll_recv, ub_poll_recv. apply completes_map_err. wp.
  apply completes_lift. unfold ub_max_message_len. rewrite Hmax. cbn [returns]. wp. apply completes_map_err, completes_zoom.
  eapply completes_mono; [by eapply poll_recv_frame|]. intros u o (-> & Hp & Hr & Hpool).
  destruct Hm as (bs & Hser & _). assert (encoding limit msg = bs) as He by (unfold encoding; by rewrite Hser). rewrite He in *.
  destruct (serialize_ok _ _ _ Hser) as (_ & -> & _). wp. split_and!; try done.
  unfold max_message_len in *. proj. by rewrite Hpool.
Qed.

Lemma ub_recvs_ok w limit p msgs : Forall (encodable limit) msgs -> forall (d : chan) pre,
  max_message_len (ub_channel d) = Val limit -> deref p = pre ++ framed limit msgs ->
  u_in_packet (ub_channel d) = Some (p, zlen pre) ->
  completes (ub_recvs (SE := SE) w (length msgs)) d (fun d' o =>
    o = inl msgs /\ u_receiver (ub_channel d') = u_receiver (ub_channel d)).
Proof.
  induction 1 as [|msg msgs Hm Hms IH]; intros d pre Hmax Hd Hin; cbn [length ub_recvs]; [by wp|].
  apply completes_bind. eapply completes_mono; [eapply mc_recv_frame; [exact Hm|exact Hmax|exact Hd|exact Hin]|]. intros d1 o (-> & Hp1 & Hr1 & Hm1).
  apply completes_bind. eapply completes_mono; [apply (IH _ (pre ++ frame (encoding limit msg))); [done| |done]|].
  - by rewrite <- app_assoc.
  - intros d2 o (-> & Hr). wp. by rewrite Hr.
Qed.

(** C34. Unreliable messages: messages that bincode encodes within the announced limit,
    each in at least one byte, and whose frames are less than a packet, are put into
    one packet when they are sent one after another, and the peer that gets that
    packet next receives exactly these messages, in order. *)
Theorem unreliable_messages_roundtrip w w' limit (c d : chan) (msgs : list M) :
  u_inv (ub_channel c) -> out_bytes (ub_channel c) = [] -> ub_pending_write c = [] -> msgs <> [] ->
  max_message_len (ub_channel c) = Val limit -> max_message_len (ub_channel d) = Val limit ->
  Forall (encodable limit) msgs -> zlen (framed limit msgs) < capacity (ub_channel c) ->
  completes (ub_sends (SE := SE) w msgs) c (fun c' o => o = inl tt /\ ub_pending_write c' = [] /\
    forall packets, u_in_packet (ub_channel d) = None ->
      cb_items (channel_ (u_receiver (ub_channel d))) = u_out_packet (ub_channel c') :: packets ->
      completes (ub_recvs (SE := SE) w' (length msgs)) d (fun d' o =>
        o = inl msgs /\ cb_items (channel_ (u_receiver (ub_channel d'))) = packets)).
Proof.
  intros Hu Hob Hpend Hne Hmax Hmax' Hms Hroom.
  pose proof (ub_sends_ok w limit msgs Hms c Hu Hmax) as H. rewrite Hob, Hpend in H. cbn [app] in H.
  eapply completes_mono; [apply H; [by vm_compute|done]|]. intros c' o (-> & Hp & p & Hc' & _ & Hd & _).
  split; [done|]. split; [done|]. intros packets Hin Hq. rewrite Hc' in Hq. cbn in Hq.
  destruct msgs as [|msg msgs]; [done|]. pose proof Hms as Hms'. apply Forall_cons in Hms' as [Hm _].
  pose proof (encoding_len _ _ Hm (max_message_len_u16 _ _ Hmax)) as Hel.
  assert (deref p <> []) as Hpne.
  { rewrite Hd. unfold framed. cbn [fmap list_fmap concat]. intros Hnil. apply app_nil in Hnil as [Hnil _].
    pose proof (zlen_frame _ Hel) as Hz. rewrite Hnil, zlen_nil in Hz. zlen_facts. lia. }
  destruct (poll_recv_packet w' (ub_channel d) p packets Hin Hq Hpne) as (v1 & Hin1 & Hq1 & Hpool & Heq).
  set (d1 := mkUnreliableBincodeChannel v1 (ub_pending_write d)).
  assert (max_message_len v1 = Val limit) as Hmax1 by (unfold max_message_len in *; by rewrite Hpool).
  assert (mc_poll_recv (Ch := chan) (MessageChannel := unreliable_message_channel (SE := SE)) w' d = mc_poll_recv (Ch := chan) w' d1) as Hsame.
  { cbn [mc_poll_recv unreliable_message_channel]. unfold ut_poll_recv, ub_poll_recv, map_err, mbind, handler_bind, get, lift, ub_max_message_len.
    subst d1. proj. rewrite Hmax', Hmax1. unfold on_unreliable, zoom. proj. rewrite Heq. by destruct d. }
  pose proof (ub_recvs_ok w' limit p (msg :: msgs) Hms d1 [] Hmax1 Hd Hin1) as Hrec.
  assert (completes (ub_recvs (SE := SE) w' (length (msg :: msgs))) d1 (fun d' o =>
    o = inl (msg :: msgs) /\ cb_items (channel_ (u_receiver (ub_channel d'))) = packets)) as Hrec'.
  { eapply completes_mono; [exact Hrec|]. intros d' o [-> Hr]. split; [done|]. rewrite Hr. exact Hq1. }
  clear Hrec. unfold completes in *. cbn [length ub_recvs] in *. unfold mbind, handler_bind in *. by rewrite Hsame.
Qed.
End safety.

(** * An example: two messages of one byte in one packet *)

Import UnreliableExample BincodeExample.

Abbreviation example_chan := (UnreliableBincodeChannel example_channel).

Definition typed_with (packets : list BufferPacket) : example_chan := UnreliableBincodeChannel_new (channel_with packets).
Definition example_packet_out : BufferPacket := mkBufferPacket [1; 0; 5; 1; 0; 6] 16.
Definition example_filled : option (list Z) :=
  match ub_sends (BE := unit) (SE := unit) 7 [Some 5; Some 6] (typed_with []) with
  | Val (c, inl _) => Some (deref (u_out_packet (ub_channel c)))
  | _ => None
  end.

Lemma example_filled_ok : example_filled = Some [1; 0; 5; 1; 0; 6].
Proof. vm_compute. reflexivity. Qed.

Lemma unreliable_messages_roundtrip_witness : exists c' p,
  ub_sends (BE := unit) (SE := unit) 7 [Some 5; Some 6] (typed_with []) = Val (c', inl tt) /\
  u_out_packet (ub_channel c') = p /\ deref p = [1; 0; 5; 1; 0; 6] /\
  completes (ub_recvs (BE := unit) (SE := unit) 8 2) (typed_with [p]) (fun d' o =>
    o = inl [Some 5; Some 6] /\ cb_items (channel_ (u_receiver (ub_channel d'))) = []).
Proof.
  assert (forall p, completes (ub_sends (BE := unit) (SE := unit) 7 [Some 5; Some 6]) (typed_with []) (fun c' o =>
    o = inl tt /\ ub_pending_write c' = [] /\
    forall packets, u_in_packet (ub_channel (typed_with [p])) = None ->
      cb_items (channel_ (u_receiver (ub_channel (typed_with [p])))) = u_out_packet (ub_channel c') :: packets ->
      completes (ub_recvs (BE := unit) (SE := unit) 8 2) (typed_with [p]) (fun d' o =>
        o = inl [Some 5; Some 6] /\ cb_items (channel_ (u_receiver (ub_channel d'))) = packets))) as H.
  { intros p. refine (unreliable_messages_roundtrip 7 8 14 (typed_with []) (typed_with [p]) [Some 5; Some 6] _ _ _ _ _ _ _ _);
      [exact (example_inv [] (or_introl eq_refl))|reflexivity|reflexivity|discriminate|reflexivity|reflexivity| |reflexivity].
    repeat constructor; [exists [5]|exists [6]]; (split; [reflexivity|discriminate]). }
  pose proof example_filled_ok as Hd. unfold example_filled in Hd.
  pose proof (H example_packet_out) as H0. apply completes_inv in H0 as (c' & o & Hrun & -> & _ & _).
  rewrite Hrun in Hd. injection Hd as Hd. exists c', (u_out_packet (ub_channel c')). split; [exact Hrun|].
  split; [reflexivity|]. split; [exact Hd|]. specialize (H (u_out_packet (ub_channel c'))).
  apply completes_inv in H as (c2 & o & Hrun2 & _ & _ & H). rewrite Hrun in Hrun2. injection Hrun2 as <- _.
  apply (H []); reflexivity.
Defined.
