(* ===== verification/Maps.v ===== *)
(** Maps between channels that commute with every call: what runs over a stream of bytes
    does the same over the image of that stream. So a channel over a stream that keeps
    its history is the channel over the stream itself. *)

From S2P Require Import Prelude Packet Wire Async Bincode MessageChannel Compressed CompressedMessages.

(** * Handlers *)

(** [m2] does to the image of a state what [m1] does to the state. *)
Definition maps_at {S1 S2 E A} (h : S1 -> S2) (s : S1) (m1 : handler S1 E A) (m2 : handler S2 E A) : Prop :=
  m2 (h s) = (fun '(s', o) => (h s', o)) <$> m1 s.
Definition maps {S1 S2 E A} (h : S1 -> S2) (m1 : handler S1 E A) (m2 : handler S2 E A) : Prop :=
  forall s, maps_at h s m1 m2.

Section maps.
Context {S1 S2 : Type} (h : S1 -> S2).

Lemma maps_ret {E A} s (a : A) : maps_at (E := E) h s (mret a) (mret a).
Proof. done. Qed.
Lemma maps_throw {E A} s (e : E) : maps_at (A := A) h s (throw e) (throw e).
Proof. done. Qed.
Lemma maps_lift {E A} s (m : res A) : maps_at (E := E) h s (lift m) (lift m).
Proof. unfold maps_at, lift. by destruct m. Qed.
Lemma maps_modify {E} s f1 f2 : h (f1 s) = f2 (h s) -> maps_at (E := E) h s (modify f1) (modify f2).
Proof. unfold maps_at, modify. cbn. by intros ->. Qed.
Lemma maps_bind {E A B} s m1 m2 (k1 : A -> handler S1 E B) k2 :
  maps_at h s m1 m2 -> (forall a s', maps_at h s' (k1 a) (k2 a)) -> maps_at h s (m1 ≫= k1) (m2 ≫= k2).
Proof.
  unfold maps_at, mbind, handler_bind. intros -> Hk. destruct (m1 s) as [[s' [a|e]]|]; [|done..]. apply Hk.
Qed.
Lemma maps_get {E B} s (k1 : S1 -> handler S1 E B) k2 :
  maps_at h s (k1 s) (k2 (h s)) -> maps_at h s (get ≫= k1) (get ≫= k2).
Proof. done. Qed.
Lemma maps_map_err {E E' A} s (f : E -> E') (m1 : polling S1 E A) m2 : maps_at h s m1 m2 -> maps_at h s (map_err f m1) (map_err f m2).
Proof. unfold maps_at, map_err. intros ->. by destruct (m1 s) as [[s' [a|e]]|]. Qed.
Lemma maps_zoom {S1' S2' E A} (h' : S1' -> S2') g1 st1 g2 st2 s (m1 : handler S1' E A) m2 :
  g2 (h s) = h' (g1 s) -> (forall x, h (st1 x s) = st2 (h' x) (h s)) -> maps_at h' (g1 s) m1 m2 ->
  maps_at h s (zoom g1 st1 m1) (zoom g2 st2 m2).
Proof. unfold maps_at, zoom. intros -> Hst ->. destruct (m1 (g1 s)) as [[x o]|]; [|done]. cbn. by rewrite Hst. Qed.
End maps.

(** Goes through two handlers; what is left are the calls. *)
Ltac maps_step :=
  lazymatch goal with
  | |- maps_at _ _ (get ≫= _) _ => apply maps_get; cbn beta
  | |- maps_at _ _ (_ ≫= _) _ => apply maps_bind; [|intros ? ?]
  | |- maps_at _ _ (mret _) _ => apply maps_ret
  | |- maps_at _ _ (throw _) _ => apply maps_throw
  | |- maps_at _ _ (fail _) _ => apply maps_throw
  | |- maps_at _ _ (lift _) _ => apply maps_lift
  | |- maps_at _ _ (modify _) _ => apply maps_modify; reflexivity
  | |- maps_at _ _ (map_err _ _) _ => apply maps_map_err
  | |- maps_at _ _ (match ?x with _ => _ end) _ => destruct x eqn:?
  end.
Ltac maps_tac := repeat maps_step.

(** * Streams *)

Class StreamMap {C1 C2 : Type} (K E : Type) {BS1 : ByteStream C1 K E} {BS2 : ByteStream C2 K E} (g : C1 -> C2) : Prop := {
  sm_write w data : maps g (bs_write w data) (bs_write w data);
  sm_read w buf : maps g (bs_read w buf) (bs_read w buf);
  sm_flush : maps g bs_flush bs_flush;
}.

Section streams.
Context {C1 C2 K E SE M BE : Type} {BS1 : ByteStream C1 K E} {BS2 : ByteStream C2 K E} (g : C1 -> C2) {SM : StreamMap K E g}.
Context {BC : Bincode M BE} {BO : ByteOrder} {SN : Snap SE}.

(** ** Messages with their length before them *)

Definition rb_map (c : ReliableBincodeChannel C1) : ReliableBincodeChannel C2 :=
  mkReliableBincodeChannel (g (rb_channel c)) (rb_write_buffer c) (rb_write_pos c) (rb_read_buffer c) (rb_read_pos c).

Lemma on_channel_maps {A} s (m1 : polling C1 E A) m2 : maps g m1 m2 -> maps_at rb_map s (on_channel m1) (on_channel m2).
Proof. intros H. apply (maps_zoom rb_map g); [done..|apply H]. Qed.

Local Ltac proj := cbn [rb_map rb_channel rb_write_buffer rb_write_pos rb_read_buffer rb_read_pos].
Local Ltac go := repeat (maps_step; proj).

Lemma send_loop_maps fuel w : maps rb_map (send_loop fuel w) (send_loop fuel w).
Proof. induction fuel as [|fuel IH]; intros s; cbn [send_loop]; go; [apply on_channel_maps, sm_write|apply IH]. Qed.
Lemma rb_poll_send_ready_maps w : maps rb_map (rb_poll_send_ready w) (rb_poll_send_ready w).
Proof. intros s. unfold rb_poll_send_ready. go. apply send_loop_maps. Qed.
Lemma rb_start_send_maps msg : maps rb_map (rb_start_send (BE := BE) (M := M) msg) (rb_start_send msg).
Proof. intros s. unfold rb_start_send. go. Qed.
Lemma rb_poll_flush_maps w : maps rb_map (rb_poll_flush w) (rb_poll_flush w).
Proof. intros s. unfold rb_poll_flush. go; [apply rb_poll_send_ready_maps|apply on_channel_maps, sm_flush]. Qed.

Lemma finish_read_loop_maps fuel w : maps rb_map (finish_read_loop fuel w) (finish_read_loop fuel w).
Proof. induction fuel as [|fuel IH]; intros s; cbn [finish_read_loop]; go; [apply on_channel_maps, sm_read|apply IH]. Qed.
Lemma rb_poll_finish_read_maps w : maps rb_map (rb_poll_finish_read w) (rb_poll_finish_read w).
Proof. intros s. unfold rb_poll_finish_read. go. apply finish_read_loop_maps. Qed.
Lemma read_frame_maps h w : maps rb_map (read_frame h w) (read_frame h w).
Proof. intros s. unfold read_frame. go; apply rb_poll_finish_read_maps. Qed.
Lemma rb_poll_recv_maps w : maps rb_map (rb_poll_recv (BE := BE) (M := M) w) (rb_poll_recv w).
Proof. intros s. unfold rb_poll_recv, rb_poll_recv_ready, rb_recv_next. go. apply read_frame_maps. Qed.

(** ** Compressed chunks *)

Definition cc_map (c : CompressedBincodeChannel C1) : CompressedBincodeChannel C2 :=
  mkCompressed (rb_map (cc_io c)) (cc_send_chunk c) (cc_recv_chunk c) (cc_recv_pos c).

Lemma on_io_maps {A E'} s (m1 : polling (ReliableBincodeChannel C1) E' A) m2 : maps rb_map m1 m2 -> maps_at cc_map s (on_io m1) (on_io m2).
Proof. intros H. apply (maps_zoom cc_map rb_map); [done..|apply H]. Qed.

Local Ltac cproj := cbn [cc_map cc_io cc_send_chunk cc_recv_chunk cc_recv_pos rb_map rb_channel rb_write_buffer rb_write_pos rb_read_buffer rb_read_pos].
Local Ltac cgo := repeat (maps_step; cproj).

Lemma finish_write_loop_maps fuel w : maps rb_map (finish_write_loop fuel w) (finish_write_loop fuel w).
Proof. induction fuel as [|fuel IH]; intros s; cbn [finish_write_loop]; go; [apply on_channel_maps, sm_write|apply IH]. Qed.
Lemma poll_finish_write_maps w : maps rb_map (poll_finish_write w) (poll_finish_write w).
Proof. intros s. unfold poll_finish_write. go. apply finish_write_loop_maps. Qed.
Lemma poll_write_send_chunk_maps w : maps cc_map (poll_write_send_chunk w) (poll_write_send_chunk w).
Proof. intros s. unfold poll_write_send_chunk. cgo. apply on_io_maps, poll_finish_write_maps. Qed.
Lemma cc_poll_send_maps w msg : maps cc_map (cc_poll_send (BE := BE) (M := M) w msg) (cc_poll_send w msg).
Proof. intros s. unfold cc_poll_send. cgo; apply poll_write_send_chunk_maps. Qed.
Lemma cc_poll_flush_maps w : maps cc_map (cc_poll_flush w) (cc_poll_flush w).
Proof.
  intros s. unfold cc_poll_flush. cgo; [apply poll_write_send_chunk_maps|apply on_io_maps, poll_finish_write_maps|].
  apply on_io_maps. intros c. apply on_channel_maps, sm_flush.
Qed.
Lemma cc_poll_recv_ready_maps fuel w :
  maps cc_map (cc_poll_recv_ready (SE := SE) (BE := BE) fuel w) (cc_poll_recv_ready fuel w).
Proof.
  induction fuel as [|fuel IH]; intros s; cbn [cc_poll_recv_ready]; cgo; [apply on_io_maps, read_frame_maps|apply IH].
Qed.
Lemma cc_poll_recv_maps fuel w : maps cc_map (cc_poll_recv (SE := SE) (BE := BE) (M := M) fuel w) (cc_poll_recv fuel w).
Proof. intros s. unfold cc_poll_recv, cc_recv_next. cgo. apply cc_poll_recv_ready_maps. Qed.
End streams.

(** * Channels of messages *)

(** [f] maps the errors of the one to those of the other. *)
Class ChannelMap {Ch1 Ch2 K M E1 E2 : Type} {MC1 : MessageChannel Ch1 K M E1} {MC2 : MessageChannel Ch2 K M E2}
    (h : Ch1 -> Ch2) (f : E1 -> E2) : Prop := {
  cm_recv w : maps h (map_err f (mc_poll_recv w)) (mc_poll_recv w);
  cm_send w msg : maps h (map_err f (mc_poll_send w msg)) (mc_poll_send w msg);
  cm_flush w : maps h (map_err f (mc_poll_flush w)) (mc_poll_flush w);
}.

Section channels.
Context {C1 C2 K E SE M BE : Type} {BS1 : ByteStream C1 K E} {BS2 : ByteStream C2 K E} (g : C1 -> C2) {SM : StreamMap K E g}.
Context {BC : Bincode M BE} {BO : ByteOrder} {SN : Snap SE}.

Lemma reliable_maps (w : K) :
  maps (rb_map g) (mc_poll_recv (M := M) (MessageChannel := reliable_message_channel (SE := SE)) w) (mc_poll_recv (MessageChannel := reliable_message_channel) w) /\
  (forall msg : M, maps (rb_map g) (mc_poll_send (MessageChannel := reliable_message_channel (SE := SE)) w msg) (mc_poll_send (MessageChannel := reliable_message_channel) w msg)) /\
  maps (rb_map g) (mc_poll_flush (M := M) (MessageChannel := reliable_message_channel (SE := SE)) w)
    (mc_poll_flush (M := M) (MessageChannel := reliable_message_channel) w).
Proof.
  split_and!; intros; intros s; cbn [mc_poll_recv mc_poll_send mc_poll_flush reliable_message_channel]; maps_tac;
    [apply rb_poll_recv_maps|apply rb_poll_send_ready_maps|apply rb_start_send_maps|apply rb_poll_flush_maps]; exact SM.
Qed.

Lemma compressed_maps fuel (w : K) :
  maps (cc_map g) (mc_poll_recv (M := M) (MessageChannel := compressed_message_channel (SE := SE) fuel) w) (mc_poll_recv (MessageChannel := compressed_message_channel fuel) w) /\
  (forall msg : M, maps (cc_map g) (mc_poll_send (MessageChannel := compressed_message_channel (SE := SE) fuel) w msg) (mc_poll_send (MessageChannel := compressed_message_channel fuel) w msg)) /\
  maps (cc_map g) (mc_poll_flush (M := M) (MessageChannel := compressed_message_channel (SE := SE) fuel) w)
    (mc_poll_flush (M := M) (MessageChannel := compressed_message_channel fuel) w).
Proof.
  split_and!; intros; intros s; cbn [mc_poll_recv mc_poll_send mc_poll_flush compressed_message_channel]; maps_tac;
    [apply cc_poll_recv_maps|apply cc_poll_send_maps|apply cc_poll_flush_maps]; exact SM.
Qed.
End channels.

#[export] Instance channel_map_id {Ch K M E} {MC : MessageChannel Ch K M E} : ChannelMap (Ch1 := Ch) (fun c => c) (fun e : E => e).
Proof.
  assert (forall A (m : polling Ch E A), maps (fun c => c) (map_err (fun e => e) m) m) as H; [|split; intros; apply H].
  intros A m s. unfold maps_at, map_err. by destruct (m s) as [[c [a|[e|]]]|].
Qed.

(** The history of a channel changes nothing that it does. *)
#[export] Instance logged_map {Ch K M E} {MC : MessageChannel Ch K M E} : ChannelMap (Ch1 := logged Ch M) lg_channel (fun e : E => e).
Proof.
  split; intros; intros s; unfold maps_at, map_err; cbn [mc_poll_recv mc_poll_send mc_poll_flush logged_channel].
  - by destruct (mc_poll_recv w (lg_channel s)) as [[c [a|[e|]]]|].
  - by destruct (mc_poll_send w msg (lg_channel s)) as [[c [a|[e|]]]|].
  - by destruct (mc_poll_flush w (lg_channel s)) as [[c [a|[e|]]]|].
Qed.
