(* ===== verification/OrderedChannel.v ===== *)
(** The two kinds of typed channels that run over a reliable channel, as one: what
    [MessageChannels] may register for a type whose messages are to come in order. *)

From S2P Require Import Prelude Packet Wire Async Bincode BincodeSafety MessageChannel Compressed CompressedSafety CompressedMessages.

Inductive OrderedChannel (C : Type) :=
| OrderedReliable (c : ReliableBincodeChannel C)
| OrderedCompressed (c : CompressedBincodeChannel C).
Arguments OrderedReliable {C} _.
Arguments OrderedCompressed {C} _.

(** A call on the channel inside. *)
Definition in_kind {Ch Ch' E A} (kind : Ch -> Ch') (m : polling Ch E A) (c : Ch) : res (Ch' * (A + option E)) :=
  '(c, r) ← m c; Val (kind c, r).

Section channel.
Context {C K E SE M BE : Type} {BS : ByteStream C K E} {SN : Snap SE} {BC : Bincode M BE} {BO : ByteOrder}.

Definition ordered_message_channel (fuel : nat) : MessageChannel (OrderedChannel C) K M (TaskError E BE SE) :=
  let reliable := reliable_message_channel in
  let compressed := compressed_message_channel fuel in {|
  mc_poll_recv w c :=
    match c with
    | OrderedReliable c => in_kind OrderedReliable (mc_poll_recv (MessageChannel := reliable) w) c
    | OrderedCompressed c => in_kind OrderedCompressed (mc_poll_recv (MessageChannel := compressed) w) c
    end;
  mc_poll_send w msg c :=
    match c with
    | OrderedReliable c => in_kind OrderedReliable (mc_poll_send (MessageChannel := reliable) w msg) c
    | OrderedCompressed c => in_kind OrderedCompressed (mc_poll_send (MessageChannel := compressed) w msg) c
    end;
  mc_poll_flush w c :=
    match c with
    | OrderedReliable c => in_kind OrderedReliable (mc_poll_flush (M := M) (MessageChannel := reliable) w) c
    | OrderedCompressed c => in_kind OrderedCompressed (mc_poll_flush (M := M) (MessageChannel := compressed) w) c
    end;
|}.

(** [compressed] says of which kind a new channel is. *)
Definition ordered_over_stream (compressed : bool) : OverStream (OrderedChannel C) C := {|
  mc_new c := if compressed then OrderedCompressed (mc_new c) else OrderedReliable (mc_new c);
  mc_stream ch := match ch with OrderedReliable ch => mc_stream ch | OrderedCompressed ch => mc_stream ch end;
  mc_set_stream c ch :=
    match ch with
    | OrderedReliable ch => OrderedReliable (mc_set_stream c ch)
    | OrderedCompressed ch => OrderedCompressed (mc_set_stream c ch)
    end;
|}.
End channel.

(** * Its laws *)

Section laws.
Context {C K E SE M BE : Type} {BS : ByteStream C K E} {SN : Snap SE} {SNL : SnapLaws SE}.
Context {BC : Bincode M BE} {BCL : BincodeLaws M BE} {BO : ByteOrder} {BOL : ByteOrderLaws}.

Lemma completes_in_kind {Ch Ch' E' A} (kind : Ch -> Ch') (m : polling Ch E' A) (m' : polling Ch' E' A) (c : Ch) (Q : Ch' -> A + option E' -> Prop) :
  m' (kind c) = in_kind kind m c -> completes m c (fun c' o => Q (kind c') o) -> completes m' (kind c) Q.
Proof. unfold completes, in_kind. intros ->. by destruct (m c) as [[c' o]|]. Qed.

Context (compressed : bool) (fuel : nat).

Definition ordered_sendable (msg : M) : Prop := if compressed then chunkable (BE := BE) msg else sendable (BE := BE) msg.
Definition ordered_block (b : list M * list Z) : Prop := if compressed then chunk_block (BE := BE) b else message_block (BE := BE) b.

Definition ordered_rep (BL : ByteStreamLaws C K E) (sent : list M) (out peer : blocks M) (rcvd : list M) (ch : OrderedChannel C) : Prop :=
  match ch, compressed with
  | OrderedReliable ch, false => reliable_rep (BE := BE) BL sent out peer rcvd ch
  | OrderedCompressed ch, true => compressed_rep (BE := BE) BL sent out peer rcvd ch
  | _, _ => False
  end.

#[local] Instance ordered_over : OverStream (OrderedChannel C) C := ordered_over_stream compressed.
#[local] Instance ordered_channel : MessageChannel (OrderedChannel C) K M (TaskError E BE SE) := ordered_message_channel (S fuel).
#[local] Instance compressed_channel : MessageChannel (CompressedBincodeChannel C) K M (TaskError E BE SE) := compressed_message_channel (S fuel).
#[local] Instance compressed_laws : MessageChannelLaws (CompressedBincodeChannel C) C K M E (TaskError E BE SE) := compressed_message_laws fuel.

#[local] Instance reliable_laws : MessageChannelLaws (ReliableBincodeChannel C) C K M E (TaskError E BE SE) := reliable_message_laws.

(** What a stream keeps over a call of the channel inside, it keeps over the call. *)
Lemma in_kind_preserves {Ch E' A} (R : C -> C -> Prop) (kind : Ch -> OrderedChannel C) (m : polling Ch E' A) {OS : OverStream Ch C} c c' o :
  (forall c, mc_stream (kind c) = mc_stream c) -> preserves (fun ch ch' => R (mc_stream ch) (mc_stream ch')) m ->
  in_kind kind m c = Val (c', o) -> R (mc_stream (kind c)) (mc_stream c').
Proof. intros Hk Hm ([c1 o1] & H & [= <- <-])%bind_val. rewrite !Hk. by apply Hm in H. Qed.

#[local] Ltac by_kind := intros ch; unfold ordered_rep; destruct ch, compressed; try done.

Definition ordered_message_laws : MessageChannelLaws (OrderedChannel C) C K M E (TaskError E BE SE).
Proof.
  refine {| mc_sendable := ordered_sendable; mc_block := ordered_block; mc_rep := ordered_rep |};
    unfold ordered_sendable, ordered_block.
  - intros BL sent out peer rcvd. by_kind; [apply (mc_rep_sent (MessageChannelLaws := reliable_laws))|apply (mc_rep_sent (MessageChannelLaws := compressed_laws))].
  - intros BL sent out peer rcvd. by_kind; [apply (mc_rep_rcvd (MessageChannelLaws := reliable_laws))|apply (mc_rep_rcvd (MessageChannelLaws := compressed_laws))].
  - intros BL sent out peer peer' rcvd. by_kind; [apply (mc_rep_peer (MessageChannelLaws := reliable_laws))|apply (mc_rep_peer (MessageChannelLaws := compressed_laws))].
  - intros BL BL' sent out peer rcvd. by_kind; intros c'; [apply (mc_rep_stream (MessageChannelLaws := reliable_laws))|apply (mc_rep_stream (MessageChannelLaws := compressed_laws))].
  - by intros [[]|[[] ? ? ?]].
  - by intros c [].
  - intros c. cbn. by destruct compressed.
  - intros BL c. unfold ordered_rep. cbn [mc_new ordered_over ordered_over_stream]. destruct compressed; [apply (mc_rep_new (MessageChannelLaws := compressed_laws))|apply (mc_rep_new (MessageChannelLaws := reliable_laws))].
  - intros BL w msg sent out peer rcvd. by_kind; intros Hc Hmsg; (eapply completes_in_kind; [reflexivity|]); [by apply (mc_send_ok (MessageChannelLaws := reliable_laws))|by apply (mc_send_ok (MessageChannelLaws := compressed_laws))].
  - intros BL w sent out peer rcvd. by_kind; intros Hc; (eapply completes_in_kind; [reflexivity|]); [by apply (mc_flush_ok (MessageChannelLaws := reliable_laws))|by apply (mc_flush_ok (MessageChannelLaws := compressed_laws))].
  - intros BL w sent out peer rcvd. by_kind; intros Hc Hp; (eapply completes_in_kind; [reflexivity|]); [by apply (mc_recv_ok (MessageChannelLaws := reliable_laws))|by apply (mc_recv_ok (MessageChannelLaws := compressed_laws))].
  - intros R HR Hw Hr Hf. cbn zeta.
    destruct (mc_preserves (MessageChannelLaws := reliable_laws) R HR Hw Hr Hf) as (H1 & H2 & H3).
    destruct (mc_preserves (MessageChannelLaws := compressed_laws) R HR Hw Hr Hf) as (H4 & H5 & H6).
    split_and!; intros; intros [] c' o H; (eapply in_kind_preserves; [| |exact H]); done.
Defined.

(** What a message costs on the stream, at most: its bytes and the header of its frame
    or chunk. *)
Definition message_cost (msg : M) : Z := 3 + zlen (message_bytes (BE := BE) msg).
Definition messages_cost (msgs : list M) : Z := foldr (fun msg n => message_cost msg + n) 0 msgs.

Lemma messages_cost_app a b : messages_cost (a ++ b) = messages_cost a + messages_cost b.
Proof. induction a as [|m a IH]; [done|]. cbn [messages_cost foldr app] in *. unfold messages_cost in *. lia. Qed.
Lemma messages_cost_bytes msgs : zlen (messages_bytes (BE := BE) msgs) + 3 * zlen msgs = messages_cost msgs.
Proof.
  induction msgs as [|m msgs IH]; [done|]. change (messages_cost (m :: msgs)) with (message_cost m + messages_cost msgs).
  rewrite <- IH. unfold messages_bytes, message_cost. cbn [fmap list_fmap concat]. rewrite zlen_app, zlen_cons. lia.
Qed.
Lemma messages_cost_nonneg msgs : 0 <= messages_cost msgs.
Proof. rewrite <- messages_cost_bytes. zlen_facts. lia. Qed.

Lemma block_cost b : ordered_block b -> zlen b.2 <= messages_cost b.1.
Proof.
  unfold ordered_block. destruct compressed.
  - intros (_ & Hne & _ & _ & Hl & _). rewrite <- messages_cost_bytes. destruct b.1 as [|m ms]; [done|]. rewrite zlen_cons in *. zlen_facts. lia.
  - intros (msg & -> & bs & Hser). cbn [fst snd messages_cost foldr]. unfold message_cost, message_bytes, frame_of, Wire.frame.
    rewrite Hser. cbn [fst]. destruct (serialize_ok _ _ _ Hser) as [Hlen _]. unfold MAX_MESSAGE_LEN, u16_max in Hlen. zlen_facts.
    rewrite zlen_app, write_u16_len by (unfold is_u16, u16_max; lia). lia.
Qed.

Lemma blocks_cost (bs : blocks M) : Forall ordered_block bs -> zlen (blocks_bytes bs) <= messages_cost (blocks_msgs bs).
Proof.
  induction 1 as [|b bs Hb Hbs IH]; [done|]. unfold blocks_bytes, blocks_msgs in *. cbn [fmap list_fmap concat].
  rewrite zlen_app, messages_cost_app. pose proof (block_cost b Hb). lia.
Qed.
End laws.
