(* ===== verification/MessageDelivery.v ===== *)
(** What was sent can always still be received: the messages of a typed channel that was
    flushed, and whose bytes were sent, can all be received by the peer, whatever the
    network lost, repeated or reordered before. *)

From stdpp Require Import relations.
From S2P Require Import Prelude StreamPos RingBuffer Segments SendWindow RecvWindow.
From S2P Require Import BandwidthLimiter Packet Wire ReliableChannel ReliableTask ReliableSafety System Delivery.
From S2P Require Import Async Bincode BincodeSafety MessageChannel Compressed CompressedSafety CompressedMessages Messages.
From S2P Require Import OrderedChannel.

Section delivery.
Context {T Instant P Pool Snd Ch M E' : Type}.
Context {TI : Timer T Instant} {TL : TimerLaws T Instant}.
Context {PI : Packet P} {PL : PacketLaws P} {PPI : PacketPool Pool P} {PPL : PacketPoolLaws Pool P}.
Context {SI : PacketSink Snd P} {BO : ByteOrder} {BOL : ByteOrderLaws}.

Abbreviation side := (side T Instant P Pool Snd).

Context {OS : OverStream Ch side} {MC : MessageChannel Ch unit M E'}.
Context {ML : MessageChannelLaws Ch side unit M Error E'}.

Abbreviation endpoint := (endpoint Ch M E').
Abbreviation ep_step := (ep_step (P := P) mc_sendable).

(** * What the calls on the stream leave alone *)

Definition same_sender (a a' : side) : Prop := t_sender (s_task a') = t_sender (s_task a).

#[export] Instance same_sender_preorder : PreOrder same_sender.
Proof. split; unfold same_sender; [by intros c|intros c1 c2 c3; congruence]. Qed.

Lemma rc_write_sender (c c' : ReliableChannel T Instant P Pool Snd) data n :
  rc_write c data = Val (c', n) -> t_sender (rc_task c') = t_sender (rc_task c).
Proof. unfold rc_write. intros H. apply bind_val in H as ([w k] & _ & H). by simplify_eq. Qed.

Lemma bs_same_sender :
  (forall w data, preserves same_sender (bs_write (C := side) (K := unit) w data)) /\
  (forall w buf, preserves same_sender (bs_read (C := side) (K := unit) w buf)) /\
  preserves same_sender (bs_flush (C := side) (K := unit)).
Proof.
  split_and!; intros; intros a a' o H; cbn in H; unfold poll_write, poll_read, flush in H;
    repeat (case_match || match goal with H : _ ≫= _ = Val _ |- _ => apply bind_val in H as (? & ? & ?) end; simplify_eq/=);
    repeat match goal with
    | H : rc_write _ _ = Val _ |- _ => apply rc_write_sender in H
    | H : rc_read _ _ = Val _ |- _ => apply rc_read_sender in H
    end; unfold same_sender, s_task in *; cbn in *; congruence.
Qed.

Lemma recv_same_sender w ch ch' o :
  mc_poll_recv w ch = Val (ch', o) -> same_sender (mc_stream ch) (mc_stream ch').
Proof.
  destruct bs_same_sender as (Hw & Hr & Hf). destruct (mc_preserves same_sender _ Hw Hr Hf) as (_ & _ & Hrecv). apply Hrecv.
Qed.

Lemma iterate_same (a a' : side) reason keys :
  side_exec (Iterate reason keys) a = Val a' -> s_written a' = s_written a /\ s_read a' = s_read a.
Proof. intros (c & _ & [= <-])%bind_val. done. Qed.

(** * Receiving *)

(** The channel's invariant does not depend on how its stream's is put. *)
Lemma rep_arrived sb sa (b : side) r sent out peer rcvd ch :
  mc_rep (side_stream_laws sb sa b) sent out peer rcvd ch -> received (mc_stream ch) = r ->
  mc_rep (arrived_laws sb sa b r) sent out peer rcvd ch.
Proof.
  intros Hrep Hr. rewrite <- (mc_set_stream_id ch). eapply mc_rep_stream; [exact Hrep| |done..].
  split; [|done]. by apply mc_rep_sent in Hrep as [? _].
Qed.
Lemma arrived_rep sb sa (b : side) r sent out peer rcvd ch :
  mc_rep (arrived_laws sb sa b r) sent out peer rcvd ch ->
  mc_rep (side_stream_laws sb sa b) sent out peer rcvd ch /\ received (mc_stream ch) = r.
Proof.
  intros Hrep. pose proof (mc_rep_sent _ _ _ _ _ _ Hrep) as ([Hi Hr] & _). split; [|done].
  rewrite <- (mc_set_stream_id ch). eapply mc_rep_stream; [exact Hrep|exact Hi|done..].
Qed.

(** A call of [poll_recv] takes nothing from the network: it gives the next message, or
    has read all that is there, and then it keeps back no message that is complete. *)
Record received_one (y y' : endpoint) (peer : blocks M) : Prop := {
  ro_exec : ep_exec (P := P) EpRecv y = Val y';
  ro_same : s_written (ep_side y') = s_written (ep_side y);
  ro_sender : same_sender (ep_side y) (ep_side y');
  ro_arrived : received (ep_side y') = received (ep_side y);
  ro_received :
    (exists msg, ep_received y' = ep_received y ++ [inl msg]) \/
    (ep_received y' = ep_received y /\ received (ep_side y') = zlen (s_read (ep_side y')) /\
     (s_read (ep_side y') = blocks_bytes peer -> ep_received y' = inl <$> blocks_msgs peer));
}.

Lemma receive_one sa sb (x y : endpoint) out peer :
  ep_half sb sa y x out peer -> (exists rest, blocks_bytes peer = s_written (ep_side x) ++ rest) ->
  exists y', received_one y y' peer /\ ep_half sb sa y' x out peer.
Proof.
  intros (rcvd & Hrep & Hrcvd) Hpw. pose proof (ep_reads sb sa x peer Hpw) as Hreads.
  apply (rep_arrived _ _ _ (received (ep_side y))) in Hrep; [|done].
  assert (reads_blocks (arrived_laws sb sa (ep_side x) (received (ep_side y))) peer) as Hreads' by (intros a [Ha _]; by apply Hreads).
  pose proof (mc_recv_ok _ tt _ _ _ _ _ Hrep Hreads') as H. apply completes_inv in H as (c & r & Hr & Ho).
  pose proof (recv_same_sender _ _ _ _ Hr) as Hsend.
  assert (forall l, ep_exec (P := P) EpRecv y = Val (mkEndpoint c (ep_sent y) (ep_received y ++ l)) <->
    match r with inl msg => [inl msg] | inr (Some e) => [inr e] | inr None => [] end = l) as Hexec.
  { intros l. cbn [ep_exec]. rewrite Hr. cbn. split; [|by intros ->]. intros [= H]. by apply app_inv_head in H. }
  destruct r as [msg|[e|]]; [|done|].
  - destruct Ho as [Ho Hw]. apply arrived_rep in Ho as [Ho Ha].
    exists (mkEndpoint c (ep_sent y) (ep_received y ++ [inl msg])).
    split; [|exists (rcvd ++ [msg]); cbn; by rewrite fmap_app, Hrcvd].
    split; try done; [by apply Hexec|]. left. by exists msg.
  - destruct Ho as (Ho & Hw & Hidle & Hall). apply arrived_rep in Ho as [Ho Ha].
    exists (mkEndpoint c (ep_sent y) (ep_received y ++ [])).
    split; [|exists rcvd; cbn; by rewrite app_nil_r].
    split; try done; [by apply Hexec|]. right. split; [by cbn; rewrite app_nil_r|]. split; [exact Hidle|]. intros Hgot. cbn. by rewrite app_nil_r, Hrcvd, (Hall Hgot).
Qed.

(** All that was written was sent. *)
Definition all_sent (a : side) : Prop := send_available (t_send_window (s_task a)) = Val 0.

Lemma half_all_sent s (a : side) Wp S rs R st us acked :
  half s a Wp S rs R st us acked -> all_sent a -> S = zlen (s_written a).
Proof.
  intros Ha. unfold all_sent. pose proof (si_window _ _ _ _ _ (sd_send _ _ _ _ _ _ _ _ (hf_inv _ _ _ _ _ _ _ _ _ Ha))) as Hw.
  rewrite (send_available_rep _ _ _ _ _ Hw). intros [= Hs]. lia.
Qed.

(** An iteration of the task gets a packet of the network with more of the stream. *)
Record delivered_one (x y y' : endpoint) (o : ep_op M P) : Prop := {
  do_allowed : ep_allowed mc_sendable o x;
  do_exec : ep_exec o y = Val y';
  do_same : s_written (ep_side y') = s_written (ep_side y);
  do_open : task_open (s_task (ep_side y'));
  do_arrived : received (ep_side y) < received (ep_side y');
  do_received : ep_received y' = ep_received y;
}.

Lemma deliver_one sa sb (x y : endpoint) out peer :
  ep_half sb sa y x out peer -> horizons sa sb (ep_side x) (ep_side y) -> s_init_send sb <> 0 ->
  task_open (s_task (ep_side y)) -> all_sent (ep_side x) ->
  received (ep_side y) = zlen (s_read (ep_side y)) -> received (ep_side y) < zlen (s_written (ep_side x)) ->
  exists o y', delivered_one x y y' o /\ ep_half sb sa y' x out peer.
Proof.
  intros (rcvd & Hrep & Hrcvd) Hh Hinit Hopen Hsent Hidle Hmore.
  pose proof (mc_rep_sent _ _ _ _ _ _ Hrep) as ((S2 & rs2 & R2 & st2 & us2 & S & rs & R & st & us & Hy & Hx) & _).
  fold (ep_side y) in Hy, Hx. pose proof (half_all_sent _ _ _ _ _ _ _ _ _ Hx Hsent) as HS.
  pose proof (hf_out _ _ _ _ _ _ _ _ _ Hy) as HR. fold (received (ep_side y)) in HR.
  pose proof (rw_lens _ _ _ _ _ (sd_recv _ _ _ _ _ _ _ _ (hf_inv _ _ _ _ _ _ _ _ _ Hy))) as Hl. cbn zeta in Hl.
  destruct (deliver_next sa sb (ep_side x) (ep_side y) S rs R st us S2 rs2 R2 st2 us2)
    as (q & b & S2' & rs2' & R2' & st2' & us2' & Hdel & Hexec & Hw & Hopen' & Hx' & Hy' & HR'); try done; try lia.
  { unfold received in Hidle. lia. }
  destruct (iterate_same _ _ _ _ Hexec) as [_ Hr].
  pose proof (hf_out _ _ _ _ _ _ _ _ _ Hy') as HR2. fold (received b) in HR2.
  exists (EpIterate (IncomingPacket (Some q)) []), (mkEndpoint (mc_set_stream b (ep_chan y)) (ep_sent y) (ep_received y)).
  assert (ep_side (mkEndpoint (mc_set_stream b (ep_chan y)) (ep_sent y) (ep_received y)) = b) as Hb by apply mc_stream_set.
  split; [split; rewrite ?Hb; try done; [|lia]|].
  - cbn [ep_exec]. by rewrite Hexec.
  - exists rcvd. split; [|done]. eapply mc_rep_stream; [exact Hrep| |exact Hw|exact Hr].
    by exists S2', rs2', R2', st2', us2', S, rs, R, st, us.
Qed.

(** * Receiving all that was sent *)

Section drain.
Context (sa sb : Settings) (x : endpoint) (out peer : blocks M) (Hinit : s_init_send sb <> 0).
Context (Hsent : all_sent (ep_side x)) (Hwritten : s_written (ep_side x) = blocks_bytes peer).

(** What is left: the bytes that have not arrived, and the messages not received. *)
Definition left_over (y : endpoint) : Z :=
  (zlen (s_written (ep_side x)) - received (ep_side y)) + (zlen (blocks_msgs peer) - zlen (ep_received y)).

Lemma half_left_over (y : endpoint) : ep_half sb sa y x out peer ->
  received (ep_side y) <= zlen (s_written (ep_side x)) /\ rc_status (s_chan (ep_side y)) = Running /\
  s_read (ep_side y) = ztake (zlen (s_read (ep_side y))) (s_written (ep_side x)) /\
  zlen (ep_received y) <= zlen (blocks_msgs peer) /\
  (zlen (ep_received y) = zlen (blocks_msgs peer) -> ep_received y = inl <$> blocks_msgs peer).
Proof.
  intros (rcvd & Hrep & ->).
  pose proof (mc_rep_sent _ _ _ _ _ _ Hrep) as ((S2 & rs2 & R2 & st2 & us2 & S & rs & R & st & us & Hy & Hx) & _).
  pose proof (mc_rep_rcvd _ _ _ _ _ _ Hrep) as [rest Hrest]. fold (ep_side y) in Hy, Hx.
  pose proof (hf_out _ _ _ _ _ _ _ _ _ Hy) as HR. fold (received (ep_side y)) in HR.
  pose proof (side_lens _ _ _ _ _ _ _ _ (hf_inv _ _ _ _ _ _ _ _ _ Hy)) as Hl. cbn zeta in Hl.
  split; [lia|]. split; [by eapply hf_running|]. split; [by eapply hf_read|].
  assert (zlen (inl <$> rcvd : list (M + E')) = zlen rcvd) as -> by (unfold zlen; by rewrite length_fmap).
  rewrite Hrest, zlen_app. zlen_facts. split; [lia|]. intros Hz. assert (zlen rest = 0) as ->%zlen_zero_nil by lia.
  by rewrite app_nil_r.
Qed.

Lemma drain (k : nat) : forall y : endpoint,
  ep_half sb sa y x out peer -> horizons sa sb (ep_side x) (ep_side y) -> task_open (s_task (ep_side y)) ->
  left_over y <= Z.of_nat k ->
  exists y', rtc ep_step (x, y) (x, y') /\ ep_received y' = inl <$> blocks_msgs peer.
Proof.
  induction k as [|k IH]; intros y Hy Hh Hopen Hk; unfold left_over in Hk;
    destruct (half_left_over y Hy) as (Hle & Hrun & Hread & Hmsgs & Hdone); [exists y; split; [done|apply Hdone; lia]|].
  destruct (Z.eq_dec (zlen (ep_received y)) (zlen (blocks_msgs peer))) as [|Hmore]; [exists y; split; [done|by apply Hdone]|].
  destruct (receive_one sa sb x y out peer Hy) as (y1 & [Hexec1 Hw1 Hs1 Ha1 Hr1] & Hy1); [exists []; by rewrite app_nil_r|].
  destruct (half_left_over y1 Hy1) as (Hle1 & Hrun1 & Hread1 & Hmsgs1 & Hdone1).
  assert (ep_step (x, y) (x, y1)) as Hstep1 by (by apply (ep_right _ _ _ EpRecv)).
  assert (horizons sa sb (ep_side x) (ep_side y1)) as Hh1 by (unfold horizons, horizon in *; by rewrite Hw1).
  assert (task_open (s_task (ep_side y1))) as Hopen1 by (unfold task_open; by rewrite Hs1).
  destruct Hr1 as [[msg Hmsg]|(Hsame & Hidle & Hall)].
  { destruct (IH y1) as (y' & Hsteps & Hy'); try done; [|exists y'; split; [by eapply rtc_l|done]].
    unfold left_over. rewrite Ha1, Hmsg, zlen_app. change (zlen [inl msg]) with 1. lia. }
  destruct (Z.eq_dec (received (ep_side y1)) (zlen (s_written (ep_side x)))) as [Hend|Hnext].
  { exists y1. split; [by apply rtc_once|]. apply Hall. by rewrite <- Hwritten, Hread1, ztake_ge by lia. }
  destruct (deliver_one sa sb x y1 out peer) as (o & y2 & [Hal Hexec2 Hw2 Hopen2 Ha2 Hr2] & Hy2); try done; [lia|].
  destruct (half_left_over y2 Hy2) as (_ & Hrun2 & _).
  destruct (IH y2) as (y' & Hsteps & Hy'); try done.
  - unfold horizons, horizon in *. by rewrite Hw2.
  - unfold left_over. rewrite Hr2, Hsame. lia.
  - exists y'. split; [|done]. eapply rtc_l; [exact Hstep1|]. eapply rtc_l; [|exact Hsteps]. by apply (ep_right _ _ _ o).
Qed.
End drain.

Lemma endpoints_complete sa sb (x y : endpoint) c :
  ep_connected (P := P) mc_sendable sa sb x y -> mc_poll_flush tt (ep_chan x) = Val (c, inl tt) ->
  let x' := mkEndpoint c (ep_sent x) (ep_received x) in
  horizons sa sb (ep_side x') (ep_side y) -> all_sent (ep_side x') -> task_open (s_task (ep_side y)) ->
  exists y', rtc ep_step (x', y) (x', y') /\ ep_received y' = inl <$> ep_sent x.
Proof.
  intros Hc Hflush x' Hh Hsent Hopen.
  pose proof (ep_connected_inv _ _ _ _ Hc) as (out & peer & (rcvd & Hx & Hrcvd) & Hy). destruct Hc as (_ & Hsb & _).
  pose proof (mc_flush_ok _ tt _ _ _ _ _ Hx) as H. unfold completes in H. rewrite Hflush in H. cbn in H.
  destruct H as (more & Hx' & Hmsgs & Hbytes). pose proof (mc_rep_sent _ _ _ _ _ _ Hx') as (Hsys & Hb & _).
  apply Forall_app in Hb as [_ Hb].
  assert (ep_half sb sa y x' peer (out ++ more)) as Hy'.
  { eapply ep_half_peer; [exact Hy|by apply sys_inv_sym|exact Hb]. }
  pose proof (so_init _ Hsb). rewrite <- Hmsgs.
  eapply (drain sa sb x' peer (out ++ more) ltac:(lia) Hsent Hbytes (Z.to_nat (left_over x' (out ++ more) y))); try done. lia.
Qed.
End delivery.

(** * The channels *)

Section channels.
Context {T Instant P Pool Snd M BE SE : Type}.
Context {TI : Timer T Instant} {TL : TimerLaws T Instant}.
Context {PI : Packet P} {PL : PacketLaws P} {PPI : PacketPool Pool P} {PPL : PacketPoolLaws Pool P}.
Context {SI : PacketSink Snd P} {BO : ByteOrder} {BOL : ByteOrderLaws}.
Context {BC : Bincode M BE} {BCL : BincodeLaws M BE} {SN : Snap SE} {SNL : SnapLaws SE}.

Abbreviation side := (side T Instant P Pool Snd).
Abbreviation ordered_endpoint := (endpoint (OrderedChannel side) M (TaskError Error BE SE)).

(** The typed channel of the kind that a setting asks for. *)
#[local] Instance channel_over (compressed : bool) : OverStream (OrderedChannel side) side := ordered_over_stream compressed.
#[local] Instance channel_of (fuel : nat) : MessageChannel (OrderedChannel side) unit M (TaskError Error BE SE) := ordered_message_channel (S fuel).

(** C6. What was sent and flushed can always still be received: in every state that two
    typed channels can reach over a network that loses, repeats and reorders packets,
    once a call of the sender's [poll_flush] is ready and the bytes under it were sent,
    there are packets in the network and calls of [poll_recv] after which the peer has
    received every message that was sent, in order and without an error. It holds for
    reliable and for compressed channels, and the sender has nothing more to do. Every
    message sent is one that the channel can encode ([ordered_sendable]): within the
    limit of a length field and, on a compressed channel, in at least one byte, for one
    that is encoded in none is accepted there and may never arrive
    ([empty_message_leaves_no_trace]). The sink of the peer's stream is open, and
    the bytes of each stream, with the window of its receiver, are fewer than [2^31]. *)
Theorem messages_complete (compressed : bool) (fuel : nat) sa sb (x y : ordered_endpoint) c :
  ep_connected (OS := channel_over compressed) (MC := channel_of fuel) (P := P) (ordered_sendable (BE := BE) compressed) sa sb x y ->
  mc_poll_flush (MessageChannel := channel_of fuel) tt (ep_chan x) = Val (c, inl tt) ->
  let x' := mkEndpoint c (ep_sent x) (ep_received x) in
  horizons sa sb (ep_side (OS := channel_over compressed) x') (ep_side (OS := channel_over compressed) y) ->
  all_sent (ep_side (OS := channel_over compressed) x') -> task_open (s_task (ep_side (OS := channel_over compressed) y)) ->
  exists y', rtc (ep_step (OS := channel_over compressed) (MC := channel_of fuel) (P := P) (ordered_sendable (BE := BE) compressed))
      (x', y) (x', y') /\
    ep_received y' = inl <$> ep_sent x.
Proof. exact (endpoints_complete (OS := channel_over compressed) (ML := ordered_message_laws compressed fuel) sa sb x y c). Qed.
End channels.

(** ** An example

    Two messages, each in a packet of its own, the first of which is lost. *)
Import Example BincodeExample RunLength.

Abbreviation example_ordered := (OrderedChannel example_stream).
#[local] Instance example_over : OverStream example_ordered example_stream := channel_over true.
#[local] Instance example_channel : MessageChannel example_ordered unit (option Z) example_error :=
  channel_of 0.

Definition lost_steps : list (bool * ep_op (option Z) BufferPacket) :=
  let data := EpIterate (IncomingPacket (Some (example_packet [4; 0; 4; 0; 0; 0; 0; 1; 0; 8]))) [] in
  [(true, EpSend (Some 7)); (true, EpFlush); (true, EpIterate SendAvailable []);
   (true, EpSend (Some 8)); (true, EpFlush); (true, EpIterate SendAvailable []); (false, EpRecv); (false, data); (false, EpRecv)].

Abbreviation lost_net := (example_endpoints (Ch := example_ordered) (E' := example_error) lost_steps).

Definition flushed (x : endpoint example_ordered (option Z) example_error) :=
  match mc_poll_flush (M := option Z) tt (ep_chan x) with
  | Val (c, inl tt) => Some (mkEndpoint c (ep_sent x) (ep_received x))
  | _ => None
  end.

Lemma flushed_inv x x' : flushed x = Some x' -> exists c,
  mc_poll_flush (M := option Z) tt (ep_chan x) = Val (c, inl tt) /\ x' = mkEndpoint c (ep_sent x) (ep_received x).
Proof.
  unfold flushed. destruct (mc_poll_flush _ _) as [[c [[]|?]]|]; [|discriminate..]. intros [= <-]. by exists c.
Qed.

Definition lost_view (xy : endpoint example_ordered (option Z) example_error * endpoint example_ordered (option Z) example_error) :=
  (example_view xy, t_sender (s_task (ep_side xy.2)),
    option_map (fun x => (send_available (t_send_window (s_task (ep_side x))), zlen (s_written (ep_side x)))) (flushed xy.1)).

Lemma lost_observed : option_map lost_view lost_net = Some (([Some 7; Some 8], [], 8, 0), true, Some (Val 0, 8)).
Proof. vm_compute. reflexivity. Qed.

Lemma short (a n w : Z) : a = n -> n + w < u32_half -> a + w < u32_half.
Proof. lia. Qed.

Lemma lost_connected : exists x y c, lost_net = Some (x, y) /\ ep_received y = [] /\
  ep_sent x = [Some 7; Some 8] /\ t_sender (s_task (ep_side y)) = true /\
  ep_connected (P := BufferPacket) (ordered_sendable (BE := unit) true) Example.settings Example.settings x y /\
  mc_poll_flush (M := option Z) tt (ep_chan x) = Val (c, inl tt) /\
  let x' := mkEndpoint c (ep_sent x) (ep_received x) in
  horizons Example.settings Example.settings (ep_side x') (ep_side y) /\ all_sent (ep_side x').
Proof.
  pose proof lost_observed as Hobs. destruct lost_net as [[x y]|] eqn:E; [|discriminate Hobs].
  unfold lost_view in Hobs. cbn [option_map fst snd] in Hobs.
  destruct (flushed x) as [x'|] eqn:Hf; [|discriminate Hobs]. injection Hobs as Hs Hr Hx Hy Hopen Hsent Hx'.
  apply flushed_inv in Hf as (c & Hflush & ->). exists x, y, c. split; [reflexivity|]. split; [exact Hr|].
  split; [exact Hs|]. split; [exact Hopen|]. split.
  - refine (example_endpoints_connected _ _ x y byte_ok_chunkable E _ _); [exact (below _ _ Hx eq_refl)|exact (below _ _ Hy eq_refl)].
  - split; [exact Hflush|]. split; [|exact Hsent]. split; [exact (short _ 8 (s_recv_window_size Example.settings) Hx' eq_refl)|
      exact (short _ 0 (s_recv_window_size Example.settings) Hy eq_refl)].
Qed.

Lemma messages_complete_witness : exists x y c y', lost_net = Some (x, y) /\ ep_received y = [] /\
  rtc (ep_step (P := BufferPacket) (ordered_sendable (BE := unit) true)) (mkEndpoint c (ep_sent x) (ep_received x), y)
    (mkEndpoint c (ep_sent x) (ep_received x), y') /\
  ep_received y' = [inl (Some 7); inl (Some 8)].
Proof.
  destruct lost_connected as (x & y & c & E & Hr & Hs & Hopen & Hc & Hflush & Hh & Hsent).
  assert (task_open (s_task (ep_side y))) as Ho.
  { unfold task_open. rewrite Hopen. exact example_open. }
  destruct (messages_complete true 0 _ _ x y c Hc Hflush Hh Hsent Ho) as (y' & Hsteps & Hy').
  exists x, y, c, y'. split; [exact E|]. split; [exact Hr|]. split; [exact Hsteps|].
  rewrite Hy', Hs. reflexivity.
Defined.
