(* ===== verification/ChannelTask.v ===== *)
(** [channel_task] of message_channels.rs: the task of a message type, between the
    queues that it shares with the user of [MessageChannels] and a channel of
    messages. Whatever the two do in whatever order, no message is lost, repeated or
    overtaken on its way through the task. *)

From stdpp Require Import relations.
From S2P Require Import Prelude Wire Async Spsc SpscSafety EventWatch MessageChannel Maps.

(** * The task *)

(** What the user and the task share: the queue of outgoing messages, with the slot
    of the user's sender, that of incoming messages, with the slot of the task's,
    and the flag that asks for a flush. *)
Record link (Q W K M : Type) := mkLink {
  l_outgoing : Shared Q W K;
  l_outgoing_slot : option M;
  l_incoming : Shared Q W K;
  l_incoming_slot : option M;
  l_flush : State W K;
}.
Arguments mkLink {Q W K M} _ _ _ _ _.
Arguments l_outgoing {Q W K M} _.
Arguments l_outgoing_slot {Q W K M} _.
Arguments l_incoming {Q W K M} _.
Arguments l_incoming_slot {Q W K M} _.
Arguments l_flush {Q W K M} _.

(** The errors that end the task: of the channel, [ChannelDisconnected], and of the
    sender of incoming messages. *)
Inductive TaskFailure (E : Type) :=
| Failure_Channel (e : E)
| ChannelDisconnected
| Failure_Sender (e : Disconnected).
Arguments Failure_Channel {E} _.
Arguments ChannelDisconnected {E}.
Arguments Failure_Sender {E} _.

(** What the task waits for: the [select!]; [incoming_message_sender.send], which
    still has the item or only flushes; [poll_send] of a message; in the loop after
    a flush was asked for, the next [try_recv], [poll_send] and [poll_flush]. *)
Inductive phase (M E : Type) :=
| Selecting
| SendingIncoming (item : option M)
| SendingOutgoing (msg : M)
| FlushReceiving
| FlushSending (msg : M)
| Flushing
| Failed (e : TaskFailure E).
Arguments Selecting {M E}.
Arguments SendingIncoming {M E} _.
Arguments SendingOutgoing {M E} _.
Arguments FlushReceiving {M E}.
Arguments FlushSending {M E} _.
Arguments Flushing {M E}.
Arguments Failed {M E} _.

(** The branches of the [select!]. *)
Inductive branch := Branch_Incoming | Branch_Outgoing | Branch_Flush.

Record task (Ch Q W K M E : Type) := mkTask {
  t_channel : Ch;
  t_link : link Q W K M;
  t_phase : phase M E;
}.
Arguments mkTask {Ch Q W K M E} _ _ _.
Arguments t_channel {Ch Q W K M E} _.
Arguments t_link {Ch Q W K M E} _.
Arguments t_phase {Ch Q W K M E} _.

Section channel_task.
Context {Ch Q W K M E : Type} {CB : Crossbeam Q M} {AW : AtomicWaker W K} {MC : MessageChannel Ch K M E}.

Abbreviation link := (link Q W K M).
Abbreviation phase := (phase M E).
Abbreviation task := (task Ch Q W K M E).

Definition set_outgoing sh slot (l : link) : link := mkLink sh slot (l_incoming l) (l_incoming_slot l) (l_flush l).
Definition set_incoming sh slot (l : link) : link := mkLink (l_outgoing l) (l_outgoing_slot l) sh slot (l_flush l).
Definition set_flush ev (l : link) : link :=
  mkLink (l_outgoing l) (l_outgoing_slot l) (l_incoming l) (l_incoming_slot l) ev.

(** The queues of [register_message_type], and the task at its start. *)
Definition link_new (message_buffer_size : Z) : link :=
  let (incoming, incoming_slot) := Spsc.channel message_buffer_size in
  let (outgoing, outgoing_slot) := Spsc.channel message_buffer_size in
  mkLink outgoing outgoing_slot incoming incoming_slot ew_channel.

Definition channel_task_new (channel : Ch) (l : link) : task := mkTask channel l Selecting.

(** The queue's outcome of [poll_fn(poll)]: the phase after it was ready, or the
    same one. *)
Definition after {A} (p : phase) (k : A -> phase) (r : A + option E) : phase :=
  match r with
  | inl a => k a
  | inr None => p
  | inr (Some e) => Failed (Failure_Channel e)
  end.

(** One poll of the [select!], in the branch that is polled. *)
Definition poll_select (b : branch) (w : K) (t : task) : res task :=
  let l := t_link t in
  match b with
  | Branch_Incoming =>
    '(ch, r) ← mc_poll_recv w (t_channel t);
    Val (mkTask ch l (after Selecting (fun incoming => SendingIncoming (Some incoming)) r))
  | Branch_Outgoing =>
    let (sh, r) := rcv_run (Receiver_poll_next w) (l_outgoing l) in
    Val (mkTask (t_channel t) (set_outgoing sh (l_outgoing_slot l) l)
      match r with
      | Ready (Some outgoing) => SendingOutgoing outgoing
      | Ready None => Failed ChannelDisconnected
      | Pending => Selecting
      end)
  | Branch_Flush =>
    let (ev, r) := ew_run (poll_wait w) (l_flush l) in
    Val (mkTask (t_channel t) (set_flush ev l) match r with Ready _ => FlushReceiving | Pending => Selecting end)
  end.

(** [poll_flush] of the sender, after which the message is sent. *)
Definition poll_sender_flush (w : K) (t : task) : task :=
  let l := t_link t in
  let '(sh, (slot, r)) := snd_run (Sender_poll_flush (l_incoming_slot l) w) (l_incoming l) in
  mkTask (t_channel t) (set_incoming sh slot l)
    match r with
    | Pending => SendingIncoming None
    | Ready (inl _) => Selecting
    | Ready (inr e) => Failed (Failure_Sender e)
    end.

(** [SinkExt::send]: the item is handed to the sender as soon as it is ready, and the
    sender flushed. *)
Definition poll_sender_send (item : option M) (w : K) (t : task) : res task :=
  match item with
  | None => Val (poll_sender_flush w t)
  | Some m =>
    let l := t_link t in
    let '(sh, (slot, r)) := snd_run (Sender_poll_ready (l_incoming_slot l) w) (l_incoming l) in
    match r with
    | Pending => Val (mkTask (t_channel t) (set_incoming sh slot l) (SendingIncoming (Some m)))
    | Ready (inr e) => Val (mkTask (t_channel t) (set_incoming sh slot l) (Failed (Failure_Sender e)))
    | Ready (inl _) =>
      slot ← Sender_start_send slot m;
      Val (poll_sender_flush w (mkTask (t_channel t) (set_incoming sh slot l) (SendingIncoming None)))
    end
  end.

(** One poll of what the task waits for. *)
Definition task_poll (b : branch) (w : K) (t : task) : res task :=
  let l := t_link t in
  match t_phase t with
  | Selecting => poll_select b w t
  | SendingIncoming item => poll_sender_send item w t
  | SendingOutgoing outgoing =>
    '(ch, r) ← mc_poll_send w outgoing (t_channel t);
    Val (mkTask ch l (after (t_phase t) (fun _ => Selecting) r))
  | FlushReceiving =>
    let (sh, r) := rcv_run Receiver_try_recv (l_outgoing l) in
    Val (mkTask (t_channel t) (set_outgoing sh (l_outgoing_slot l) l)
      match r with
      | inl outgoing => FlushSending outgoing
      | inr TryRecvError_Disconnected => Failed ChannelDisconnected
      | inr TryRecvError_Empty => Flushing
      end)
  | FlushSending outgoing =>
    '(ch, r) ← mc_poll_send w outgoing (t_channel t);
    Val (mkTask ch l (after (t_phase t) (fun _ => FlushReceiving) r))
  | Flushing =>
    '(ch, r) ← mc_poll_flush w (t_channel t);
    Val (mkTask ch l (after (t_phase t) (fun _ => Selecting) r))
  | Failed _ => Val t
  end.

(** What the user's handle does with the queues. *)
Definition link_try_send (msg : M) (l : link) : link * (unit + TrySendError M) :=
  let '(sh, (slot, r)) := snd_run (Sender_try_send (l_outgoing_slot l) msg) (l_outgoing l) in
  (set_outgoing sh slot l, r).
Definition link_try_recv (l : link) : link * (M + TryRecvError) :=
  let (sh, r) := rcv_run Receiver_try_recv (l_incoming l) in (set_incoming sh (l_incoming_slot l) l, r).
Definition link_signal (l : link) : link := set_flush (ew_run signal (l_flush l)).1 l.

(** A poll of [SinkExt::send] on the sender of outgoing messages: the future has the
    message until the sender takes it, and then flushes. *)
Definition link_poll_send (item : option M) (w : K) (l : link) : res (link * option M * Poll (unit + Disconnected)) :=
  let flush slot sh :=
    let '(sh, (slot, r)) := snd_run (Sender_poll_flush slot w) sh in Val (set_outgoing sh slot l, None, r) in
  match item with
  | None => flush (l_outgoing_slot l) (l_outgoing l)
  | Some message =>
    let '(sh, (slot, r)) := snd_run (Sender_poll_ready (l_outgoing_slot l) w) (l_outgoing l) in
    match r with
    | Pending => Val (set_outgoing sh slot l, Some message, Pending)
    | Ready (inr e) => Val (set_outgoing sh slot l, Some message, Ready (inr e))
    | Ready (inl _) => slot ← Sender_start_send slot message; flush slot sh
    end
  end.

(** A poll of [next] of the receiver of incoming messages. *)
Definition link_poll_recv (w : K) (l : link) : link * Poll (option M) :=
  let (sh, r) := rcv_run (Receiver_poll_next w) (l_incoming l) in (set_incoming sh (l_incoming_slot l) l, r).

End channel_task.

(** * Tasks over the image of a channel *)

Definition failure_map {E1 E2} (f : E1 -> E2) (e : TaskFailure E1) : TaskFailure E2 :=
  match e with
  | Failure_Channel e => Failure_Channel (f e)
  | ChannelDisconnected => ChannelDisconnected
  | Failure_Sender e => Failure_Sender e
  end.
Definition phase_map {M E1 E2} (f : E1 -> E2) (p : phase M E1) : phase M E2 :=
  match p with
  | Selecting => Selecting
  | SendingIncoming item => SendingIncoming item
  | SendingOutgoing msg => SendingOutgoing msg
  | FlushReceiving => FlushReceiving
  | FlushSending msg => FlushSending msg
  | Flushing => Flushing
  | Failed e => Failed (failure_map f e)
  end.

Lemma phase_map_id {M E} (p : phase M E) : phase_map (fun e => e) p = p.
Proof. by destruct p as [| | | | | |[]]. Qed.

Section tasks.
Context {Ch1 Ch2 Q W K M E1 E2 : Type} {CB : Crossbeam Q M} {AW : AtomicWaker W K}.
Context {MC1 : MessageChannel Ch1 K M E1} {MC2 : MessageChannel Ch2 K M E2} (h : Ch1 -> Ch2) (f : E1 -> E2) {CM : ChannelMap h f}.

Definition task_map (t : task Ch1 Q W K M E1) : task Ch2 Q W K M E2 := mkTask (h (t_channel t)) (t_link t) (phase_map f (t_phase t)).

Lemma after_map {A} (p : phase M E1) (k : A -> phase M E1) (r : A + option E1) :
  phase_map f (after p k r) = after (phase_map f p) (fun a => phase_map f (k a)) match r with inl a => inl a | inr e => inr (f <$> e) end.
Proof. by destruct r as [a|[e|]]. Qed.

Lemma task_call_map {A} (call : polling Ch1 E1 A) (call' : polling Ch2 E2 A) c l p k : maps h (map_err f call) call' ->
  ('(ch, r) ← call' (h c); Val (mkTask ch l (after (phase_map f p) (fun a => phase_map f (k a)) r))) =
  task_map <$> ('(ch, r) ← call c; Val (mkTask ch l (after p k r))).
Proof.
  intros ->. unfold map_err. destruct (call c) as [[c' r]|]; [|done]. unfold task_map. destruct r as [a|[e|]]; cbn; [done|done|done].
Qed.

(** A task over the image of a channel does what the task over the channel does. *)
Lemma task_poll_map b w (t : task Ch1 Q W K M E1) : task_poll b w (task_map t) = task_map <$> task_poll b w t.
Proof.
  unfold task_poll, poll_select. cbn [task_map t_phase t_link t_channel].
  destruct (t_phase t) as [|item|msg| |msg| |e]; [destruct b| | | | | |]; cbn [phase_map].
  - exact (task_call_map _ _ _ (t_link t) Selecting (fun incoming => SendingIncoming (Some incoming)) (cm_recv w)).
  - by destruct (rcv_run _ _) as [sh [|[m|]]].
  - by destruct (ew_run _ _) as [ev []].
  - unfold poll_sender_send, poll_sender_flush. cbn [task_map t_link t_channel t_phase].
    destruct item as [m|]; destruct (snd_run _ _) as [sh [slot r]]; [|by destruct r as [|[]]].
    destruct r as [|[[]|e]]; [done| |done]. destruct slot; [done|]. cbn. by repeat case_match.
  - exact (task_call_map _ _ _ (t_link t) (SendingOutgoing msg) (fun _ => Selecting) (cm_send w msg)).
  - by destruct (rcv_run _ _) as [sh [m|[]]].
  - exact (task_call_map _ _ _ (t_link t) (FlushSending msg) (fun _ => FlushReceiving) (cm_send w msg)).
  - exact (task_call_map _ _ _ (t_link t) Flushing (fun _ => Selecting) (cm_flush w)).
  - unfold task_map. cbn. done.
Qed.
End tasks.

(** * Runs of the task and its user *)

Inductive node_op (K M : Type) :=
| NodeSend (msg : M)
| NodePollSend (item : option M) (w : K)
| NodeRecv
| NodePollRecv (w : K)
| NodeFlush
| NodeTask (b : branch) (w : K).
Arguments NodeSend {K M} _.
Arguments NodePollSend {K M} _ _.
Arguments NodeRecv {K M}.
Arguments NodePollRecv {K M} _.
Arguments NodeFlush {K M}.
Arguments NodeTask {K M} _ _.

(** The messages that a step may send. *)
Definition node_messages {K M} (o : node_op K M) : list M :=
  match o with NodeSend msg => [msg] | NodePollSend item _ => option_list item | _ => [] end.

Lemma node_messages_ok {K M} (ok : M -> Prop) (okb : M -> bool) (o : node_op K M) : (forall msg, okb msg = true -> ok msg) ->
  forallb okb (node_messages o) = true -> Forall ok (node_messages o).
Proof. rewrite forallb_forall, Forall_forall. intros Hok Ho m Hm. by apply Hok, Ho, list_elem_of_In. Qed.

(** The message that a future has given to its sender in a poll. *)
Definition taken {M} (item item' : option M) : list M := match item' with None => option_list item | Some _ => [] end.

Lemma taken_same {M} (item : option M) : taken item item = [].
Proof. by destruct item. Qed.
Lemma taken_Forall {M} (ok : M -> Prop) (item item' : option M) : Forall ok (option_list item) -> Forall ok (taken item item').
Proof. by destruct item'. Qed.

Section node.
Context {Ch Q W K M E : Type} {CB : Crossbeam Q M} {AW : AtomicWaker W K} {MC : MessageChannel Ch K M E}.

(** The task, with the messages its user has sent and received; its channel keeps the
    history of those that went into it and came out of it. *)
Record node := mkNode {
  n_task : task (logged Ch M) Q W K M E;
  n_accepted : list M;
  n_delivered : list M;
}.

Definition n_sent (x : node) : list M := lg_sent (t_channel (n_task x)).
Definition n_received (x : node) : list M := lg_received (t_channel (n_task x)).

Definition on_link (l : link Q W K M) (t : task (logged Ch M) Q W K M E) : task (logged Ch M) Q W K M E :=
  mkTask (t_channel t) l (t_phase t).

Definition node_exec (o : node_op K M) (x : node) : res node :=
  let t := n_task x in
  match o with
  | NodeSend msg =>
    let (l, r) := link_try_send msg (t_link t) in
    Val (mkNode (on_link l t) (n_accepted x ++ match r with inl _ => [msg] | inr _ => [] end) (n_delivered x))
  | NodePollSend item w =>
    '(l, item', _) ← link_poll_send item w (t_link t);
    Val (mkNode (on_link l t) (n_accepted x ++ taken item item') (n_delivered x))
  | NodeRecv =>
    let (l, r) := link_try_recv (t_link t) in
    Val (mkNode (on_link l t) (n_accepted x) (n_delivered x ++ ready_msg r))
  | NodePollRecv w =>
    let (l, r) := link_poll_recv w (t_link t) in
    Val (mkNode (on_link l t) (n_accepted x) (n_delivered x ++ match r with Ready (Some msg) => [msg] | _ => [] end))
  | NodeFlush => Val (mkNode (on_link (link_signal (t_link t)) t) (n_accepted x) (n_delivered x))
  | NodeTask b w => t' ← task_poll b w t; Val (mkNode t' (n_accepted x) (n_delivered x))
  end.

Definition node_new (channel : Ch) (message_buffer_size : Z) : node :=
  mkNode (channel_task_new (mkLogged channel [] []) (link_new message_buffer_size)) [] [].

Fixpoint node_run (ops : list (node_op K M)) (x : node) : res node :=
  match ops with
  | [] => Val x
  | o :: ops => x ← node_exec o x; node_run ops x
  end.
End node.

Arguments node Ch Q W K M E : clear implicits.

(** * The invariant *)

Section invariant.
Context {Ch Q W K M E : Type} {CB : Crossbeam Q M} {CL : CrossbeamLaws Q M} {AW : AtomicWaker W K} {MC : MessageChannel Ch K M E}.

Abbreviation node := (node Ch Q W K M E).
Abbreviation phase := (phase M E).
Abbreviation task := (task (logged Ch M) Q W K M E).
Abbreviation sent t := (lg_sent (t_channel t)).
Abbreviation received t := (lg_received (t_channel t)).

(** The message that the task has in its hands, on its way out and on its way in. *)
Definition held_out (p : phase) : list M := match p with SendingOutgoing msg | FlushSending msg => [msg] | _ => [] end.
Definition held_in (p : phase) : list M := match p with SendingIncoming (Some msg) => [msg] | _ => [] end.
Definition failed (p : phase) : bool := match p with Failed _ => true | _ => false end.

(** The messages between the user and the channel. *)
Definition going_out (t : task) : list M :=
  held_out (t_phase t) ++ cb_items (channel_ (l_outgoing (t_link t))) ++ option_list (l_outgoing_slot (t_link t)).
Definition going_in (t : task) : list M :=
  cb_items (channel_ (l_incoming (t_link t))) ++ option_list (l_incoming_slot (t_link t)) ++ held_in (t_phase t).

(** Every message that the user has sent is in the channel, or on its way to it, and
    every message out of the channel is delivered or on its way, in order; a task
    that has failed may have dropped what it had in its hands. *)
Record node_inv (x : node) : Prop := {
  ni_sent : exists out, n_accepted x = n_sent x ++ out /\ (failed (t_phase (n_task x)) = false -> out = going_out (n_task x));
  ni_received : exists inc, n_received x = n_delivered x ++ inc /\
    (if failed (t_phase (n_task x)) then exists lost, inc = going_in (n_task x) ++ lost else inc = going_in (n_task x));
  ni_receiver : cb_receiver (channel_ (l_outgoing (t_link (n_task x)))) = true;
}.

Lemma node_new_inv (ch : Ch) size : node_inv (node_new ch size).
Proof.
  unfold node_new, channel_task_new, link_new, Spsc.channel.
  destruct (cb_bounded_ok size) as (_ & Hi & _ & Hr). split; cbn; [exists []|exists []|exact Hr]; unfold going_out, going_in; cbn; by rewrite Hi.
Qed.

(** ** What a poll does *)

Record poll_ok (t t' : task) : Prop := {
  po_receiver : cb_receiver (channel_ (l_outgoing (t_link t'))) = cb_receiver (channel_ (l_outgoing (t_link t)));
  po_out : exists rest, sent t ++ going_out t = sent t' ++ rest /\ (failed (t_phase t') = false -> rest = going_out t');
  po_in : exists inc lost, received t' = received t ++ inc /\ going_in t ++ inc = going_in t' ++ lost /\
    (failed (t_phase t') = false -> lost = []);
}.

Local Ltac proj := cbn [t_channel t_link t_phase l_outgoing l_outgoing_slot l_incoming l_incoming_slot l_flush
  set_outgoing set_incoming set_flush on_link].

Lemma poll_ok_trans (t1 t2 t3 : task) : failed (t_phase t2) = false -> poll_ok t1 t2 -> poll_ok t2 t3 -> poll_ok t1 t3.
Proof.
  intros Hf [Hsl1 (r1 & Ho1 & Hr1) (i1 & l1 & Hi1 & Hg1 & Hl1)] [Hsl2 (r2 & Ho2 & Hr2) (i2 & l2 & Hi2 & Hg2 & Hl2)].
  rewrite (Hr1 Hf) in Ho1. rewrite (Hl1 Hf), app_nil_r in Hg1. split; [congruence| |].
  - exists r2. by rewrite Ho1, Ho2.
  - exists (i1 ++ i2), l2. by rewrite Hi2, Hi1, !(assoc_L (++)), Hg1, Hg2.
Qed.

(** The channel was polled: the message in the task's hands went in, or one came out. *)
Lemma poll_ok_channel (t : task) ch p out inc :
  lg_sent ch = sent t ++ out -> lg_received ch = received t ++ inc ->
  (failed p = false -> held_out (t_phase t) = out ++ held_out p) -> (failed p = false -> held_in (t_phase t) ++ inc = held_in p) ->
  (failed p = true -> out = [] /\ inc = []) -> poll_ok t (mkTask ch (t_link t) p).
Proof.
  intros Hs Hr Ho Hi Hn. destruct (failed p) eqn:Hp.
  - destruct Hn as [-> ->]; [done|]. rewrite app_nil_r in Hs, Hr.
    split; proj; [done|exists (going_out t); rewrite Hs, Hp; done|exists [], (held_in (t_phase t))].
    rewrite app_nil_r. unfold going_in. proj. rewrite Hp. destruct p; try done. cbn. by rewrite !app_nil_r, <- app_assoc.
  - split; proj; [done|eexists|exists inc, []].
    + split; [|done]. unfold going_out. proj. by rewrite Hs, Ho, <- !app_assoc.
    + unfold going_in. proj. by rewrite app_nil_r, <- !app_assoc, Hi.
Qed.

(** A queue was polled. *)
Lemma poll_ok_outgoing (t : task) sh p ts held :
  same_queue (l_outgoing (t_link t)) sh -> t_phase t = Selecting \/ t_phase t = FlushReceiving -> held_in p = [] ->
  held_out p = held -> cb_items (channel_ (l_outgoing (t_link t))) = held ++ ts ->
  cb_items (channel_ sh) = ts -> poll_ok t (mkTask (t_channel t) (set_outgoing sh (l_outgoing_slot (t_link t)) (t_link t)) p).
Proof.
  intros Hq Hp Hin Hh Hts Hsh. split; proj; [apply Hq|eexists|exists [], []].
  - split; [|done]. f_equal. unfold going_out. proj. rewrite Hh, Hts, Hsh. by destruct Hp as [-> | ->]; cbn; rewrite <- app_assoc.
  - unfold going_in. proj. rewrite Hin. by destruct Hp as [-> | ->]; cbn; rewrite !app_nil_r.
Qed.

Lemma poll_ok_incoming (t : task) sh slot p lost :
  held_out (t_phase t) = [] -> held_out p = [] ->
  cb_items (channel_ (l_incoming (t_link t))) ++ option_list (l_incoming_slot (t_link t)) ++ held_in (t_phase t) =
    (cb_items (channel_ sh) ++ option_list slot ++ held_in p) ++ lost ->
  (failed p = false -> lost = []) -> poll_ok t (mkTask (t_channel t) (set_incoming sh slot (t_link t)) p).
Proof.
  intros Hp Hp' Hi Hl. split; proj; [done|eexists|exists [], lost].
  - split; [|done]. unfold going_out. proj. by rewrite Hp, Hp'.
  - unfold going_in. proj. by rewrite !app_nil_r.
Qed.

(** ** The calls of the channel, in its history *)

Lemma logged_recv w (c c' : logged Ch M) r :
  mc_poll_recv w c = Val (c', r) -> lg_sent c' = lg_sent c /\ lg_received c' = lg_received c ++ ready_msg r.
Proof. intros H. apply bind_val in H as ([ch r'] & _ & [= <- <-]). done. Qed.
Lemma logged_send w msg (c c' : logged Ch M) (r : unit + option E) :
  mc_poll_send w msg c = Val (c', r) ->
  lg_sent c' = lg_sent c ++ match r with inl _ => [msg] | inr _ => [] end /\ lg_received c' = lg_received c.
Proof. intros H. apply bind_val in H as ([ch r'] & _ & [= <- <-]). done. Qed.
Lemma logged_flush w (c c' : logged Ch M) (r : unit + option E) :
  mc_poll_flush w c = Val (c', r) -> lg_sent c' = lg_sent c /\ lg_received c' = lg_received c.
Proof. intros H. apply bind_val in H as ([ch r'] & _ & [= <- <-]). done. Qed.

Lemma poll_select_ok b w (t t' : task) :
  t_phase t = Selecting -> poll_select b w t = Val t' -> poll_ok t t'.
Proof.
  intros Hp. destruct b; cbn [poll_select]; intros H.
  - apply bind_val in H as ([ch r] & [Hs Hr]%logged_recv & [= <-]).
    eapply (poll_ok_channel _ _ _ [] (ready_msg r)); rewrite ?app_nil_r; [done..| | |]; rewrite ?Hp; by destruct r as [|[]].
  - destruct (poll_next_run w (l_outgoing (t_link t))) as (sh & r & Hrun & Hq & Hr). rewrite Hrun in H. injection H as <-.
    destruct (cb_items (channel_ (l_outgoing (t_link t)))) as [|m ts] eqn:Hi; destruct Hr as [-> Hr].
    + destruct (cb_sender _); eapply (poll_ok_outgoing _ _ _ [] []); by auto.
    + eapply (poll_ok_outgoing _ _ _ ts [m]); by auto.
  - destruct (ew_run (poll_wait w) (l_flush (t_link t))) as [ev r]. injection H as <-.
    split; proj; [done|eexists|exists [], []]; unfold going_out, going_in; proj; rewrite Hp; [by destruct r|].
    destruct r; cbn; by rewrite !app_nil_r.
Qed.

Lemma poll_sender_flush_ok w (t : task) :
  t_phase t = SendingIncoming None -> poll_ok t (poll_sender_flush w t).
Proof.
  intros Hp. unfold poll_sender_flush, Sender_poll_flush.
  destruct (poll_ready_run (l_incoming_slot (t_link t)) w (l_incoming (t_link t))) as (sh & slot & r & -> & _ & Hr).
  destruct r as [|[[]|e]].
  - destruct Hr as (-> & _ & Hi & _). apply (poll_ok_incoming _ _ _ _ []); rewrite ?Hp, ?Hi; cbn; by rewrite ?app_nil_r.
  - destruct Hr as (-> & Hi & _). apply (poll_ok_incoming _ _ _ _ []); rewrite ?Hp, ?Hi; cbn; by rewrite ?app_nil_r.
  - destruct Hr as (_ & _ & -> & Hi).
    apply (poll_ok_incoming _ _ _ _ (option_list (l_incoming_slot (t_link t)))); rewrite ?Hp, ?Hi; cbn; by rewrite ?app_nil_r.
Qed.

Lemma poll_sender_send_ok item w (t t' : task) :
  t_phase t = SendingIncoming item -> poll_sender_send item w t = Val t' -> poll_ok t t'.
Proof.
  intros Hp H. destruct item as [m|]; cbn [poll_sender_send] in H; [|injection H as <-; by apply poll_sender_flush_ok].
  destruct (poll_ready_run (l_incoming_slot (t_link t)) w (l_incoming (t_link t))) as (sh & slot & r & Hrun & _ & Hr).
  rewrite Hrun in H. destruct r as [|[[]|e]].
  - injection H as <-. destruct Hr as (-> & _ & Hi & _).
    apply (poll_ok_incoming _ _ _ _ []); rewrite ?Hp, ?Hi; cbn; by rewrite ?app_nil_r.
  - destruct Hr as (-> & Hi & _). cbn [Sender_start_send mbind res_bind] in H. injection H as <-.
    eapply poll_ok_trans; [|apply (poll_ok_incoming _ sh (Some m) (SendingIncoming None) [])|by apply poll_sender_flush_ok];
      rewrite ?Hp, ?Hi; cbn; rewrite ?app_nil_r, <- ?app_assoc; done.
  - injection H as <-. destruct Hr as (_ & _ & -> & Hi).
    apply (poll_ok_incoming _ _ _ _ (option_list (l_incoming_slot (t_link t)) ++ [m])); rewrite ?Hp, ?Hi; cbn; by rewrite ?app_nil_r.
Qed.

Lemma task_poll_ok b w (t t' : task) : failed (t_phase t) = false -> task_poll b w t = Val t' -> poll_ok t t'.
Proof.
  intros Hf. unfold task_poll. destruct (t_phase t) eqn:Hp; intros H; try done.
  - by eapply poll_select_ok.
  - by eapply poll_sender_send_ok.
  - apply bind_val in H as ([ch r] & [Hs Hr]%logged_send & [= <-]).
    eapply (poll_ok_channel _ _ _ (match r with inl _ => [msg] | inr _ => [] end) []); rewrite ?app_nil_r; [done..| | |]; rewrite ?Hp; by destruct r as [[]|[]].
  - destruct (try_recv_run (l_outgoing (t_link t))) as (sh & r & Hrun & Hq & Hr). rewrite Hrun in H. injection H as <-.
    destruct (cb_items (channel_ (l_outgoing (t_link t)))) as [|m ts] eqn:Hi; destruct Hr as [-> Hr].
    + destruct (cb_sender _); eapply (poll_ok_outgoing _ _ _ [] []); by auto.
    + eapply (poll_ok_outgoing _ _ _ ts [m]); by auto.
  - apply bind_val in H as ([ch r] & [Hs Hr]%logged_send & [= <-]).
    eapply (poll_ok_channel _ _ _ (match r with inl _ => [msg] | inr _ => [] end) []); rewrite ?app_nil_r; [done..| | |]; rewrite ?Hp; by destruct r as [[]|[]].
  - apply bind_val in H as ([ch r] & [Hs Hr]%logged_flush & [= <-]).
    eapply (poll_ok_channel _ _ _ [] []); rewrite ?app_nil_r; [done..| | |]; rewrite ?Hp; by destruct r as [[]|[]].
Qed.

(** The history does not change what the task does. *)
Definition unlog (t : task) : ChannelTask.task Ch Q W K M E := mkTask (lg_channel (t_channel t)) (t_link t) (t_phase t).

Lemma unlog_map (t : task) : unlog t = task_map lg_channel (fun e => e) t.
Proof. unfold unlog, task_map. by rewrite phase_map_id. Qed.

Lemma task_poll_unlog b w (t : task) : task_poll b w (unlog t) = unlog <$> task_poll b w t.
Proof. rewrite unlog_map, (task_poll_map lg_channel (fun e : E => e)). destruct (task_poll b w t) as [t'|]; [|done]. cbn. by rewrite unlog_map. Qed.

Lemma task_poll_failed b w (t t' : task) : failed (t_phase t) = true -> task_poll b w t = Val t' -> t' = t.
Proof. unfold task_poll. by destruct (t_phase t); try done; intros _ [= <-]. Qed.

(** ** What the user does *)

(** The queue of outgoing messages and the slot, together, got the messages [a]. *)
Definition link_sent (l l' : link Q W K M) (a : list M) : Prop :=
  exists sh slot, l' = set_outgoing sh slot l /\ same_queue (l_outgoing l) sh /\
    cb_items (channel_ sh) ++ option_list slot = (cb_items (channel_ (l_outgoing l)) ++ option_list (l_outgoing_slot l)) ++ a.

(** ... and of incoming ones, which gave the messages [d]. *)
Definition link_received (l l' : link Q W K M) (d : list M) : Prop :=
  exists sh, l' = set_incoming sh (l_incoming_slot l) l /\ same_queue (l_incoming l) sh /\
    cb_items (channel_ (l_incoming l)) = d ++ cb_items (channel_ sh).

Lemma link_try_send_sent msg (l l' : link Q W K M) r :
  link_try_send msg l = (l', r) -> link_sent l l' match r with inl _ => [msg] | inr _ => [] end.
Proof.
  unfold link_try_send. destruct (try_send_slot_run (l_outgoing_slot l) msg (l_outgoing l)) as (sh & slot & r' & -> & Hq & Hi & _).
  intros [= <- <-]. by exists sh, slot.
Qed.

Lemma poll_flush_sent slot w (sh : Shared Q W K) : cb_receiver (channel_ sh) = true ->
  exists sh' slot' r, snd_run (Sender_poll_flush slot w) sh = (sh', (slot', r)) /\ same_queue sh sh' /\
    cb_items (channel_ sh') ++ option_list slot' = cb_items (channel_ sh) ++ option_list slot.
Proof.
  intros Hal. unfold Sender_poll_flush. destruct (poll_ready_run slot w sh) as (sh' & slot' & r & Hrun & Hq & Hr).
  exists sh', slot', r. split; [done|]. split; [done|]. destruct r as [|[[]|e]].
  - destruct Hr as (-> & _ & -> & _). done.
  - destruct Hr as (-> & -> & _). by rewrite app_nil_r.
  - destruct Hr as [Hr _]. congruence.
Qed.

Lemma link_poll_send_sent item w (l l' : link Q W K M) item' r : cb_receiver (channel_ (l_outgoing l)) = true ->
  link_poll_send item w l = Val (l', item', r) -> link_sent l l' (taken item item').
Proof.
  intros Hal H. destruct item as [m|]; cbn [link_poll_send] in H.
  - destruct (poll_ready_run (l_outgoing_slot l) w (l_outgoing l)) as (sh & slot & r1 & Hrun & Hq & Hr). rewrite Hrun in H.
    destruct r1 as [|[[]|e]]; [|destruct Hr as (-> & Hi & _)|destruct Hr; congruence].
    + injection H as <- <- _. destruct Hr as (-> & _ & Hi & _). exists sh, (l_outgoing_slot l). cbn. by rewrite Hi, app_nil_r.
    + cbn [Sender_start_send mbind res_bind] in H.
      destruct (poll_flush_sent (Some m) w sh) as (sh2 & slot2 & r2 & Hrun2 & Hq2 & Hi2); [destruct Hq as (_ & _ & ->); done|].
      rewrite Hrun2 in H. injection H as <- <- _. exists sh2, slot2. split; [done|]. split; [by eapply same_queue_trans|].
      rewrite Hi2, Hi. done.
  - destruct (poll_flush_sent (l_outgoing_slot l) w (l_outgoing l) Hal) as (sh & slot & r1 & Hrun & Hq & Hi).
    rewrite Hrun in H. injection H as <- <- _. exists sh, slot. cbn. by rewrite app_nil_r.
Qed.

Lemma link_try_recv_received (l l' : link Q W K M) r : link_try_recv l = (l', r) -> link_received l l' (ready_msg r).
Proof.
  unfold link_try_recv. destruct (try_recv_run (l_incoming l)) as (sh & r' & -> & Hq & Hr). intros [= <- <-]. exists sh.
  split; [done|]. split; [done|]. by destruct (cb_items (channel_ (l_incoming l))); destruct Hr as [-> ->].
Qed.
Lemma link_poll_recv_received w (l l' : link Q W K M) r : link_poll_recv w l = (l', r) ->
  link_received l l' match r with Ready (Some msg) => [msg] | _ => [] end.
Proof.
  unfold link_poll_recv. destruct (poll_next_run w (l_incoming l)) as (sh & r' & -> & Hq & Hr). intros [= <- <-]. exists sh.
  split; [done|]. split; [done|]. by destruct (cb_items (channel_ (l_incoming l))); destruct Hr as [-> ->]; [destruct (cb_sender _)|].
Qed.

Lemma node_sends_inv (x : node) l a : node_inv x -> link_sent (t_link (n_task x)) l a ->
  node_inv (mkNode (on_link l (n_task x)) (n_accepted x ++ a) (n_delivered x)).
Proof.
  intros [(out & Ho & Hout) Hi Hrecv] (sh & slot & -> & Hq & Hitems).
  split; unfold n_sent, n_received in *; cbn [n_task n_accepted n_delivered]; proj; [|exact Hi|destruct Hq as (_ & _ & ->); done].
  exists (out ++ a). rewrite Ho, <- app_assoc. split; [done|]. intros Hf. rewrite (Hout Hf). unfold going_out. proj.
  by rewrite Hitems, <- !app_assoc.
Qed.

Lemma node_receives_inv (x : node) l d : node_inv x -> link_received (t_link (n_task x)) l d ->
  node_inv (mkNode (on_link l (n_task x)) (n_accepted x) (n_delivered x ++ d)).
Proof.
  intros [Ho (inc & Hi & Hinc) Hrecv] (sh & -> & Hq & Hitems).
  split; unfold n_sent, n_received in *; cbn [n_task n_accepted n_delivered]; proj; [exact Ho| |done].
  unfold going_in in *. proj. rewrite Hitems in Hinc.
  destruct (failed (t_phase (n_task x))); [destruct Hinc as [lost ->]|subst inc]; eexists;
    (split; [rewrite Hi, <- !app_assoc; reflexivity|]); [exists lost; by rewrite <- !app_assoc|done].
Qed.

Lemma node_exec_inv o (x x' : node) : node_inv x -> node_exec o x = Val x' -> node_inv x'.
Proof.
  intros Hx H. pose proof Hx as [(out & Ho & Hout) (inc & Hi & Hinc) Hrecv].
  destruct o as [msg|item w| |w| |b w]; cbn [node_exec] in H.
  - destruct (link_try_send msg (t_link (n_task x))) as [l r] eqn:Hl. injection H as <-.
    apply node_sends_inv; [done|]. by apply link_try_send_sent.
  - apply bind_val in H as ([[l item'] r] & Hl & [= <-]). apply node_sends_inv; [done|]. by eapply link_poll_send_sent.
  - destruct (link_try_recv (t_link (n_task x))) as [l r] eqn:Hl. injection H as <-.
    apply node_receives_inv; [done|]. by apply link_try_recv_received.
  - destruct (link_poll_recv w (t_link (n_task x))) as [l r] eqn:Hl. injection H as <-.
    apply node_receives_inv; [done|]. by eapply link_poll_recv_received.
  - injection H as <-. split; [by exists out|by exists inc|done].
  - apply bind_val in H as (t' & Ht' & [= <-]). destruct (failed (t_phase (n_task x))) eqn:Hf.
    + apply task_poll_failed in Ht' as ->; [|done].
      split; unfold n_sent, n_received in *; cbn [n_task n_accepted n_delivered]; [exists out|exists inc|done]; rewrite ?Hf; done.
    + destruct (task_poll_ok _ _ _ _ Hf Ht') as [Hrc (rest & Hs & Hrest) (inc' & lost & Hr & Hg & Hlost)].
      specialize (Hout eq_refl). subst out inc. unfold n_sent, n_received in *.
      split; unfold n_sent, n_received; cbn [n_task n_accepted n_delivered]; [exists rest; by rewrite Ho, Hs| |congruence].
      exists (going_in t' ++ lost). rewrite Hr, Hi, <- app_assoc, Hg. split; [done|].
      destruct (failed (t_phase t')); [by exists lost|]. by rewrite Hlost, app_nil_r.
Qed.

Lemma node_run_inv ops : forall x x' : node, node_inv x -> node_run ops x = Val x' -> node_inv x'.
Proof.
  induction ops as [|o ops IH]; intros x x' Hx; cbn [node_run]; [by intros [= <-]|].
  intros H. apply bind_val in H as (x1 & H1 & H). by eapply IH, H; eapply node_exec_inv.
Qed.

(** C27. Nothing is lost on its way through a task: however the user and the task take
    turns, the messages put into the channel are the first ones that the user has
    sent, the rest are, in order, in the task's hands, in the queue and in the slot of
    the user's sender; and those taken out of the channel are the ones delivered and, in
    order, the ones in the queue, in the sender's slot and in the task's hands. A task
    that has failed may have dropped what it had in its hands; the messages are still in
    order then. *)
Theorem channel_task_lossless ops (channel : Ch) message_buffer_size (x : node) :
  node_run ops (node_new channel message_buffer_size) = Val x ->
  (exists out, n_accepted x = n_sent x ++ out /\ (failed (t_phase (n_task x)) = false -> out = going_out (n_task x))) /\
  (exists inc, n_received x = n_delivered x ++ inc /\ (failed (t_phase (n_task x)) = false -> inc = going_in (n_task x))).
Proof.
  intros Hrun. destruct (node_run_inv _ _ _ (node_new_inv channel message_buffer_size) Hrun) as [Ho (inc & Hi & Hinc) _].
  split; [exact Ho|]. exists inc. split; [done|]. intros Hf. by rewrite Hf in Hinc.
Qed.

(** The task goes on to flush the channel only from the loop, once its queue is empty. *)
Lemma task_poll_flushing b w (t t' : task) :
  task_poll b w t = Val t' -> t_phase t <> Flushing -> t_phase t' = Flushing ->
  t_phase t = FlushReceiving /\ cb_items (channel_ (l_outgoing (t_link t'))) = [].
Proof.
  intros H Hne Hp. unfold task_poll in H. destruct (t_phase t) as [|item|msg| |msg| |e] eqn:Ht; [exfalso..| |exfalso| |]; try done.
  - destruct b; cbn [poll_select] in H.
    + apply bind_val in H as ([ch r] & _ & [= <-]). by destruct r as [|[]].
    + destruct (rcv_run _ _) as [sh [|[]]]; injection H as <-; done.
    + destruct (ew_run _ _) as [ev []]; injection H as <-; done.
  - unfold poll_sender_send, poll_sender_flush in H. destruct item as [m|].
    + destruct (snd_run _ _) as [sh [slot [|[[]|]]]]; [by injection H as <-| |by injection H as <-].
      apply bind_val in H as (slot' & _ & H). destruct (snd_run _ _) as [sh2 [slot2 [|[]]]]; injection H as <-; done.
    + destruct (snd_run _ _) as [sh [slot [|[]]]]; injection H as <-; done.
  - apply bind_val in H as ([ch r] & _ & [= <-]). by destruct r as [|[]].
  - destruct (try_recv_run (l_outgoing (t_link t))) as (sh & r & Hr & _ & Hi). rewrite Hr in H. injection H as <-.
    destruct (cb_items (channel_ (l_outgoing (t_link t)))); destruct Hi as [-> Hi]; [by split|done].
  - apply bind_val in H as ([ch r] & _ & [= <-]). by destruct r as [|[]].
  - injection H as <-. congruence.
Qed.

(** C28. A flush covers what was sent before it. A task that waits and sees that it was
    asked to flush goes through its queue, sends each message that is there to the
    channel, then flushes the channel, and goes back to its other work only when that is
    done. Whenever it goes on to flush the channel, from wherever it was, every message
    that the user has sent is in the channel, unless a future of [async_send] that has
    not returned has left one in its sender's slot. *)
Theorem flush_covers_sent ops (channel : Ch) message_buffer_size (x y : node) b w :
  node_run ops (node_new channel message_buffer_size) = Val x -> node_exec (NodeTask b w) x = Val y ->
  let l := t_link (n_task x) in let ch := t_channel (n_task x) in let ch' := t_channel (n_task y) in
  (t_phase (n_task x) <> Flushing -> t_phase (n_task y) = Flushing ->
    n_accepted y = n_sent y ++ option_list (l_outgoing_slot (t_link (n_task y)))) /\
  match t_phase (n_task x) with
  | Selecting => b = Branch_Flush -> signaled (l_flush l) = true -> t_phase (n_task y) = FlushReceiving
  | FlushReceiving =>
    t_phase (n_task y) = match cb_items (channel_ (l_outgoing l)) with
      | msg :: _ => FlushSending msg
      | [] => if cb_sender (channel_ (l_outgoing l)) then Flushing else Failed ChannelDisconnected
      end
  | FlushSending msg => exists r, mc_poll_send w msg ch = Val (ch', r) /\
      t_phase (n_task y) = match r with
        | inl _ => FlushReceiving
        | inr None => FlushSending msg
        | inr (Some e) => Failed (Failure_Channel e)
        end
  | Flushing => exists r, mc_poll_flush w ch = Val (ch', r) /\
      t_phase (n_task y) = match r with
        | inl _ => Selecting
        | inr None => Flushing
        | inr (Some e) => Failed (Failure_Channel e)
        end
  | _ => True
  end.
Proof.
  intros Hrun Hstep l ch ch'. pose proof (node_run_inv _ _ _ (node_new_inv channel message_buffer_size) Hrun) as Hinv.
  destruct (node_exec_inv _ _ _ Hinv Hstep) as [(out & Ho & Hout) _ _]. subst l ch ch'.
  cbn [node_exec] in Hstep. apply bind_val in Hstep as (t' & Ht & [= <-]). cbn [n_task n_accepted] in *. split.
  { intros Hx Hy. destruct (task_poll_flushing _ _ _ _ Ht Hx Hy) as [_ Hi]. rewrite Hy in Hout. rewrite Ho, Hout by done.
    unfold going_out. by rewrite Hy, Hi. }
  unfold task_poll in Ht. destruct (t_phase (n_task x)) as [|item|msg| |msg| |e] eqn:Hx; try done.
  - intros -> Hs. cbn [poll_select] in Ht. unfold poll_wait in Ht. cbn [ew_run] in Ht. rewrite Hs in Ht. by injection Ht as <-.
  - destruct (try_recv_run (l_outgoing (t_link (n_task x)))) as (sh & r & Hr & _ & Hi). rewrite Hr in Ht. injection Ht as <-.
    destruct (cb_items _); destruct Hi as [-> _]; [by destruct (cb_sender _)|done].
  - apply bind_val in Ht as ([c r] & Hf & [= <-]). exists r. split; [exact Hf|]. by destruct r as [|[]].
  - apply bind_val in Ht as ([c r] & Hf & [= <-]). exists r. split; [exact Hf|]. by destruct r as [|[]].
Qed.
End invariant.

(** * An example *)

Module TaskExample.
(** A channel that takes every message, and gives those it holds. *)
Record mailbox := mkMailbox { mb_out : list Z; mb_in : list Z; mb_flushed : nat }.

#[export] Instance mailbox_channel : MessageChannel mailbox Z Z unit := {|
  mc_poll_recv _ c := match mb_in c with
                      | m :: ms => Val (mkMailbox (mb_out c) ms (mb_flushed c), inl m)
                      | [] => Val (c, inr None)
                      end;
  mc_poll_send _ m c := Val (mkMailbox (mb_out c ++ [m]) (mb_in c) (mb_flushed c), inl tt);
  mc_poll_flush _ c := Val (mkMailbox (mb_out c) (mb_in c) (S (mb_flushed c)), inl tt);
|}.

Abbreviation example_node := (node mailbox (list_queue Z) (option Z) Z Z unit).

(** Two messages are sent, of which one is taken by the [select!] and one after the
    flush; one comes in. *)
Definition example_ops : list (node_op Z Z) :=
  [NodeSend 1; NodePollSend (Some 2) 0; NodeTask Branch_Outgoing 0; NodeTask Branch_Outgoing 0; NodeFlush; NodeTask Branch_Flush 0;
   NodeTask Branch_Flush 0; NodeTask Branch_Flush 0].
Definition example_in : list (node_op Z Z) :=
  [NodeTask Branch_Flush 0; NodeTask Branch_Flush 0; NodeTask Branch_Incoming 0; NodeTask Branch_Incoming 0; NodeRecv].
Definition example_new : example_node := node_new (mkMailbox [] [8; 9] 0) 2.

Definition example_view (r : res example_node) :=
  match r with
  | Val x => Some (n_accepted x, n_sent x, n_received x, n_delivered x, t_phase (n_task x))
  | Fault _ => None
  end.
End TaskExample.

Import TaskExample.

Lemma example_before : example_view (node_run example_ops example_new) = Some ([1; 2], [1; 2], [], [], FlushReceiving).
Proof. vm_compute. reflexivity. Qed.
Lemma example_after : example_view (node_run (example_ops ++ example_in) example_new) = Some ([1; 2], [1; 2], [8], [8], Selecting).
Proof. vm_compute. reflexivity. Qed.

Lemma channel_task_lossless_witness : exists x, node_run (example_ops ++ example_in) example_new = Val x /\
  n_accepted x = [1; 2] /\ n_delivered x = [8] /\ (exists inc, n_received x = n_delivered x ++ inc /\ inc = []).
Proof.
  pose proof example_after as Hv. destruct (node_run (example_ops ++ example_in) example_new) as [x|] eqn:Hrun; [|discriminate Hv].
  injection Hv as Ha _ Hr Hd Hp. exists x. split; [reflexivity|]. split; [exact Ha|]. split; [exact Hd|].
  destruct (channel_task_lossless _ _ _ x Hrun) as [_ (inc & Hi & _)]. exists inc. split; [exact Hi|].
  rewrite Hr, Hd in Hi. by injection Hi as <-.
Defined.

Abbreviation example_steps := (
  x ← node_run example_ops example_new; y ← node_exec (NodeTask Branch_Flush 0) x; Val (t_phase (n_task x), t_phase (n_task y), l_outgoing_slot (t_link (n_task y)))).
Lemma example_steps_ok : example_steps = Val (FlushReceiving, Flushing, None).
Proof. vm_compute. reflexivity. Qed.
Lemma example_not_flushing : (FlushReceiving : phase Z unit) <> Flushing.
Proof. discriminate. Qed.

Lemma flush_covers_sent_witness : exists x y, node_run example_ops example_new = Val x /\
  node_exec (NodeTask Branch_Flush 0) x = Val y /\ n_accepted y = n_sent y.
Proof.
  pose proof example_steps_ok as Hv. apply bind_val in Hv as (x & Hrun & Hv). apply bind_val in Hv as (y & Hy & Hv).
  injection Hv as Hx Hp Hs. exists x, y. split; [exact Hrun|]. split; [exact Hy|].
  pose proof (flush_covers_sent example_ops (mkMailbox [] [8; 9] 0) 2 x y Branch_Flush 0 Hrun Hy) as (H & _).
  rewrite Hx in H. specialize (H example_not_flushing Hp).
  rewrite Hs in H. cbn in H. by rewrite app_nil_r in H.
Defined.
