(* ===== verification/ChannelSystem.v ===== *)
(** Two [MessageChannels] across a network, for one message type: users, queues,
    tasks, typed channels and reliable channels together. What a user receives is
    what the other one has sent, and no task ends. *)

From stdpp Require Import relations.
From S2P Require Import Prelude StreamPos RingBuffer Segments SendWindow RecvWindow.
From S2P Require Import BandwidthLimiter Packet Wire ReliableChannel ReliableTask ReliableSafety System.
From S2P Require Import Async Spsc SpscSafety EventWatch Bincode BincodeSafety MessageChannel.
From S2P Require Import Compressed CompressedSafety CompressedMessages Messages ChannelTask.

(** * Nodes *)

(** What happens at a node: a step of its user or of its message task, or an iteration
    of its reliable channel's task. *)
Inductive sys_op (M P : Type) :=
| SysNode (o : node_op unit M)
| SysIterate (reason : WakeReason P) (keys : list StreamPos).
Arguments SysNode {M P} _.
Arguments SysIterate {M P} _ _.

Section system.
Context {T Instant P Pool Snd Ch Q W M E' : Type}.
Context {TI : Timer T Instant} {PI : Packet P} {PPI : PacketPool Pool P}.
Context {SI : PacketSink Snd P} {BO : ByteOrder} {CB : Crossbeam Q M} {AW : AtomicWaker W unit}.

Abbreviation side := (side T Instant P Pool Snd).

Context {OS : OverStream Ch side} {MC : MessageChannel Ch unit M E'}.

Abbreviation node := (node Ch Q W unit M E').

(** The node's channel, with its history, as an endpoint. *)
Definition ep_of_log (c : logged Ch M) : endpoint Ch M E' := mkEndpoint (lg_channel c) (lg_sent c) (inl <$> lg_received c).
Definition ep_of (x : node) : endpoint Ch M E' := ep_of_log (t_channel (n_task x)).

Definition set_node_channel (ch : Ch) (x : node) : node :=
  mkNode (mkTask (mkLogged ch (n_sent x) (n_received x)) (t_link (n_task x)) (t_phase (n_task x)))
    (n_accepted x) (n_delivered x).

Definition sys_exec (o : sys_op M P) (x : node) : res node :=
  match o with
  | SysNode o => node_exec o x
  | SysIterate reason keys =>
    a ← side_exec (Iterate reason keys) (ep_side (ep_of x));
    Val (set_node_channel (mc_set_stream a (lg_channel (t_channel (n_task x)))) x)
  end.

Definition sys_allowed (ok : M -> Prop) (o : sys_op M P) (peer : node) : Prop :=
  match o with
  | SysNode o => Forall ok (node_messages o)
  | SysIterate reason keys => delivered (Iterate reason keys) (ep_side (ep_of peer))
  end.

Inductive sys_step (ok : M -> Prop) : node * node -> node * node -> Prop :=
| sys_left x y o x' :
    sys_allowed ok o y -> sys_exec o x = Val x' -> rc_status (s_chan (ep_side (ep_of x'))) = Running ->
    sys_step ok (x, y) (x', y)
| sys_right x y o y' :
    sys_allowed ok o x -> sys_exec o y = Val y' -> rc_status (s_chan (ep_side (ep_of y'))) = Running ->
    sys_step ok (x, y) (x, y').

(** Two nodes over new reliable channels, after any number of steps, neither stream of
    which has come around. *)
Definition sys_connected (ok : M -> Prop) (sa sb : Settings) (x y : node) : Prop :=
  settings_ok sa /\ settings_ok sb /\ exists ta tb pa pb sa' sb' a0 b0 na nb,
    10 <= pool_capacity pa <= MAX_PACKET_LEN /\ 10 <= pool_capacity pb <= MAX_PACKET_LEN /\
    side_new ta pa sa sa' = Val a0 /\ side_new tb pb sb sb' = Val b0 /\
    rtc (sys_step ok) (node_new (mc_new a0) na, node_new (mc_new b0) nb) (x, y) /\
    horizons sa sb (ep_side (ep_of x)) (ep_side (ep_of y)).
End system.

(** * The invariant *)

Section invariant.
Context {T Instant P Pool Snd Ch Q W M E' : Type}.
Context {TI : Timer T Instant} {TL : TimerLaws T Instant}.
Context {PI : Packet P} {PL : PacketLaws P} {PPI : PacketPool Pool P} {PPL : PacketPoolLaws Pool P}.
Context {SI : PacketSink Snd P} {BO : ByteOrder} {BOL : ByteOrderLaws}.
Context {CB : Crossbeam Q M} {CL : CrossbeamLaws Q M} {AW : AtomicWaker W unit}.

Abbreviation side := (side T Instant P Pool Snd).

Context {OS : OverStream Ch side} {MC : MessageChannel Ch unit M E'}.
Context {ML : MessageChannelLaws Ch side unit M Error E'}.

Abbreviation node := (node Ch Q W unit M E').
Abbreviation task := (task (logged Ch M) Q W unit M E').
Abbreviation sys_step := (sys_step (P := P) mc_sendable).

(** A channel none of whose calls ends in an error. *)
Record quiet (ch : Ch) : Prop := {
  q_send msg ch' e : mc_sendable msg -> mc_poll_send tt msg ch <> Val (ch', inr (Some e));
  q_flush ch' e : mc_poll_flush tt ch <> Val (ch', inr (Some e));
  q_recv ch' e : mc_poll_recv tt ch <> Val (ch', inr (Some e));
}.

Lemma logged_quiet (c : logged Ch M) : quiet (lg_channel c) ->
  (forall msg c' (e : E'), mc_sendable msg -> mc_poll_send tt msg c <> Val (c', inr (Some e))) /\
  (forall c' (e : E'), mc_poll_flush tt c <> Val (c', inr (Some e))) /\
  (forall c' (e : E'), mc_poll_recv tt c <> Val (c', inr (Some e))).
Proof.
  intros [Hs Hf Hr]. split_and!; intros; intros ([ch r] & Hcall & [= _ ->])%bind_val; [by eapply Hs|by eapply Hf|by eapply Hr].
Qed.

Lemma ep_inv_quiet sa sb (x y : endpoint Ch M E') : ep_inv sa sb x y -> quiet (ep_chan x).
Proof.
  intros (out & peer & Hx & Hy). destruct (ep_half_sys _ _ _ _ _ _ Hy) as (_ & Hpb & Hpw).
  pose proof (ep_reads sa sb y peer Hpw) as Hreads. destruct Hx as (rcvd & Hrep & _). split.
  - intros msg ch' e Hok H. pose proof (mc_send_ok _ tt msg _ _ _ _ _ Hrep Hok) as Hs. unfold completes in Hs. by rewrite H in Hs.
  - intros ch' e H. pose proof (mc_flush_ok _ tt _ _ _ _ _ Hrep) as Hs. unfold completes in Hs. by rewrite H in Hs.
  - intros ch' e H. pose proof (mc_recv_ok _ tt _ _ _ _ _ Hrep Hreads) as Hs. unfold completes in Hs. by rewrite H in Hs.
Qed.

(** Neither end of the queues is dropped. *)
Definition queue_alive (s : Shared Q W unit) : Prop := cb_sender (channel_ s) = true /\ cb_receiver (channel_ s) = true.
Definition alive (t : task) : Prop := queue_alive (l_outgoing (t_link t)) /\ queue_alive (l_incoming (t_link t)).

Lemma same_queue_alive (s s' : Shared Q W unit) : same_queue s s' -> queue_alive s -> queue_alive s'.
Proof. unfold same_queue, queue_alive. intuition congruence. Qed.

Record node_ok (x : node) : Prop := {
  no_inv : node_inv x;
  no_alive : alive (n_task x);
  no_failed : failed (t_phase (n_task x)) = false;
  no_sendable : Forall mc_sendable (n_accepted x);
}.

Lemma held_sendable (x : node) : node_ok x -> Forall mc_sendable (held_out (t_phase (n_task x))).
Proof.
  intros [[(out & Ho & Hout) _ _] _ Hf Hs]. rewrite Ho, (Hout Hf) in Hs. unfold going_out in Hs.
  apply Forall_app in Hs as [_ Hs]. by apply Forall_app in Hs as [Hs _].
Qed.

Local Ltac proj := cbn [t_channel t_link t_phase l_outgoing l_outgoing_slot l_incoming l_incoming_slot l_flush
  set_outgoing set_incoming set_flush on_link].

Lemma poll_sender_flush_alive w (t : task) : alive t -> alive (poll_sender_flush w t) /\ failed (t_phase (poll_sender_flush w t)) = false.
Proof.
  intros [Ho Hi]. unfold poll_sender_flush, Sender_poll_flush.
  destruct (poll_ready_run (l_incoming_slot (t_link t)) w (l_incoming (t_link t))) as (sh & slot & r & -> & Hq & Hr).
  split; [split; proj; [done|by eapply same_queue_alive]|]. destruct r as [|[[]|e]]; try done.
  destruct Hr as (Hr & _), Hi. congruence.
Qed.

(** A task whose channel is quiet goes on. *)
Lemma task_poll_alive b (t t' : task) :
  alive t -> failed (t_phase t) = false -> quiet (lg_channel (t_channel t)) -> Forall mc_sendable (held_out (t_phase t)) ->
  task_poll b tt t = Val t' -> alive t' /\ failed (t_phase t') = false.
Proof.
  intros [Ho Hi] Hf (Hsend & Hflush & Hrecv)%logged_quiet Hs H. unfold task_poll in H. destruct (t_phase t) as [|item|msg| |msg| |] eqn:Hp; try done.
  - unfold poll_select in H. destruct b.
    + apply bind_val in H as ([ch r] & Hr & [= <-]). split; [by split|]. destruct r as [|[e|]]; try done. by apply Hrecv in Hr.
    + destruct (poll_next_run tt (l_outgoing (t_link t))) as (sh & r & Hrun & Hsq & Hr). rewrite Hrun in H. injection H as <-.
      split; [split; proj; [by eapply same_queue_alive|done]|]. proj. destruct Ho as [Hsd _]. rewrite Hsd in Hr.
      by destruct (cb_items _); destruct Hr as [-> _].
    + destruct (ew_run (poll_wait tt) (l_flush (t_link t))) as [ev r]. injection H as <-. split; [by split|]. by destruct r.
  - destruct item as [m|]; cbn [poll_sender_send] in H; [|injection H as <-; by apply poll_sender_flush_alive].
    destruct (poll_ready_run (l_incoming_slot (t_link t)) tt (l_incoming (t_link t))) as (sh & slot & r & Hrun & Hsq & Hr).
    rewrite Hrun in H. pose proof (same_queue_alive _ _ Hsq Hi) as Hi'. destruct r as [|[[]|e]].
    + injection H as <-. by split.
    + destruct Hr as (-> & _). cbn [Sender_start_send mbind res_bind] in H. injection H as <-.
      apply poll_sender_flush_alive. by split.
    + destruct Hr as (Hr & _), Hi. congruence.
  - apply bind_val in H as ([ch r] & Hr & [= <-]). split; [by split|]. destruct r as [|[e|]]; try done.
    apply Hsend in Hr; [done|by inversion Hs].
  - destruct (try_recv_run (l_outgoing (t_link t))) as (sh & r & Hrun & Hsq & Hr). rewrite Hrun in H. injection H as <-.
    split; [split; proj; [by eapply same_queue_alive|done]|]. proj. destruct Ho as [Hsd _]. rewrite Hsd in Hr.
    by destruct (cb_items _); destruct Hr as [-> _].
  - apply bind_val in H as ([ch r] & Hr & [= <-]). split; [by split|]. destruct r as [|[e|]]; try done.
    apply Hsend in Hr; [done|by inversion Hs].
  - apply bind_val in H as ([ch r] & Hr & [= <-]). split; [by split|]. destruct r as [|[e|]]; try done. by apply Hflush in Hr.
Qed.

(** The user's calls drop no end. *)
Lemma link_sent_alive (t : task) l a : alive t -> link_sent (t_link t) l a -> alive (on_link l t).
Proof. intros [Ho Hi] (sh & slot & -> & Hq & _). split; proj; [by eapply same_queue_alive|exact Hi]. Qed.
Lemma link_received_alive (t : task) l d : alive t -> link_received (t_link t) l d -> alive (on_link l t).
Proof. intros [Ho Hi] (sh & -> & Hq & _). split; proj; [exact Ho|by eapply same_queue_alive]. Qed.

(** A step of a node whose channel is quiet. *)
Lemma node_exec_ok o (x x' : node) :
  node_ok x -> quiet (lg_channel (t_channel (n_task x))) -> Forall mc_sendable (node_messages o) ->
  node_exec o x = Val x' -> node_ok x'.
Proof.
  intros Hx Hq Hal H. pose proof Hx as [Hinv Halive Hf Hs]. pose proof (node_exec_inv _ _ _ Hinv H) as Hinv'.
  destruct o as [msg|item w| |w| |b []]; cbn [node_exec node_messages] in *.
  - destruct (link_try_send msg (t_link (n_task x))) as [l r] eqn:Hl. injection H as <-.
    split; [done|by eapply link_sent_alive, link_try_send_sent|done|]. cbn [n_accepted].
    apply Forall_app. split; [done|]. by destruct r.
  - apply bind_val in H as ([[l item'] r] & Hl & [= <-]).
    split; [done|by eapply link_sent_alive, link_poll_send_sent, Hl; [|apply Halive]|done|]. cbn [n_accepted].
    apply Forall_app. split; [done|by apply taken_Forall].
  - destruct (link_try_recv (t_link (n_task x))) as [l r] eqn:Hl. injection H as <-.
    split; [done|by eapply link_received_alive, link_try_recv_received|done|done].
  - destruct (link_poll_recv w (t_link (n_task x))) as [l r] eqn:Hl. injection H as <-.
    split; [done|by eapply link_received_alive, link_poll_recv_received|done|done].
  - injection H as <-. by split.
  - apply bind_val in H as (t' & Ht & [= <-]).
    destruct (task_poll_alive b _ _ Halive Hf Hq (held_sendable x Hx) Ht) as [Ha' Hf']. by split.
Qed.

(** The channel has a part in the task's polls only. *)
Lemma node_exec_channel o (x x' : node) : node_exec o x = Val x' ->
  t_channel (n_task x') = t_channel (n_task x) \/ exists b, task_poll b tt (n_task x) = Val (n_task x').
Proof.
  destruct o as [msg|item w| |w| |b []]; cbn [node_exec]; intros H.
  - destruct (link_try_send _ _) as [l r]. injection H as <-. by left.
  - apply bind_val in H as ([[l item'] r] & _ & [= <-]). by left.
  - destruct (link_try_recv _) as [l r]. injection H as <-. by left.
  - destruct (link_poll_recv _ _) as [l r]. injection H as <-. by left.
  - injection H as <-. by left.
  - apply bind_val in H as (t' & Ht & [= <-]). right. by exists b.
Qed.

(** ... is a step of its endpoint, or none. *)
Lemma logged_ep (c c' : logged Ch M) :
  (forall r msg, mc_poll_send tt msg c = Val (c', r) -> ep_exec (P := P) (EpSend msg) (ep_of_log c) = Val (ep_of_log c')) /\
  (forall r, mc_poll_flush tt c = Val (c', r) -> ep_exec (P := P) EpFlush (ep_of_log c) = Val (ep_of_log c')) /\
  (forall r, mc_poll_recv tt c = Val (c', r) -> (forall e, r <> inr (Some e)) ->
    ep_exec (P := P) EpRecv (ep_of_log c) = Val (ep_of_log c')).
Proof.
  split_and!.
  - intros r msg ([ch r'] & H & [= <- <-])%bind_val. unfold ep_of_log. cbn. by rewrite H.
  - intros r ([ch r'] & H & [= <- <-])%bind_val. unfold ep_of_log. cbn. by rewrite H.
  - intros r ([ch r'] & H & [= <- <-])%bind_val He. unfold ep_of_log. cbn. rewrite H. cbn.
    destruct r' as [m|[e|]]; [by rewrite fmap_app|by destruct (He e)|by rewrite !app_nil_r].
Qed.

Lemma poll_sender_flush_channel w (t : task) : t_channel (poll_sender_flush w t) = t_channel t.
Proof. unfold poll_sender_flush. by destruct (snd_run _ _) as [? [? ?]]. Qed.
Lemma poll_sender_send_channel item w (t t' : task) : poll_sender_send item w t = Val t' -> t_channel t' = t_channel t.
Proof.
  destruct item as [m|]; cbn [poll_sender_send]; [|intros [= <-]; apply poll_sender_flush_channel].
  destruct (snd_run _ _) as [sh [slot [|[[]|e]]]]; [by intros [= <-]| |by intros [= <-]].
  destruct slot; [done|]. intros [= <-]. by rewrite poll_sender_flush_channel.
Qed.

Lemma task_poll_ep b (t t' : task) (peer : endpoint Ch M E') :
  quiet (lg_channel (t_channel t)) -> Forall mc_sendable (held_out (t_phase t)) -> task_poll b tt t = Val t' ->
  t_channel t' = t_channel t \/ exists eo : ep_op M P, ep_allowed mc_sendable eo peer /\
    ep_exec eo (ep_of_log (t_channel t)) = Val (ep_of_log (t_channel t')).
Proof.
  intros (_ & _ & Hq)%logged_quiet Hh H. unfold task_poll in H. pose proof (logged_ep (t_channel t) (t_channel t')) as (Hs & Hf & Hr).
  destruct (t_phase t) as [|item|msg| |msg| |]; [unfold poll_select in H; destruct b| | | | | |].
  - apply bind_val in H as ([ch r] & Hc & [= <-]). right. exists EpRecv. split; [done|].
    eapply Hr; [exact Hc|]. intros e ->. by eapply Hq.
  - destruct (rcv_run _ _) as [sh r]. injection H as <-. by left.
  - destruct (ew_run _ _) as [ev r]. injection H as <-. by left.
  - left. by eapply poll_sender_send_channel.
  - apply bind_val in H as ([ch r] & Hc & [= <-]). right. exists (EpSend msg).
    split; [by inversion Hh|by eapply Hs].
  - destruct (rcv_run _ _) as [sh r]. injection H as <-. by left.
  - apply bind_val in H as ([ch r] & Hc & [= <-]). right. exists (EpSend msg).
    split; [by inversion Hh|by eapply Hs].
  - apply bind_val in H as ([ch r] & Hc & [= <-]). right. exists EpFlush. split; [done|by eapply Hf].
  - injection H as <-. by left.
Qed.

Lemma node_exec_ep o (x x' : node) (peer : endpoint Ch M E') :
  node_ok x -> quiet (lg_channel (t_channel (n_task x))) -> node_exec o x = Val x' ->
  ep_of x' = ep_of x \/ exists eo : ep_op M P, ep_allowed mc_sendable eo peer /\ ep_exec eo (ep_of x) = Val (ep_of x').
Proof.
  intros Hx Hq H. pose proof (held_sendable x Hx) as Hh. unfold ep_of.
  destruct (node_exec_channel _ _ _ H) as [->|(b & Ht)]; [by left|].
  destruct (task_poll_ep _ _ _ peer Hq Hh Ht) as [->|?]; [by left|by right].
Qed.

Lemma sys_exec_ok sa sb (x y : node) o x' :
  s_init_send sa <> 0 -> node_ok x -> ep_inv sa sb (ep_of x) (ep_of y) ->
  horizons sa sb (ep_side (ep_of x)) (ep_side (ep_of y)) -> sys_allowed (P := P) mc_sendable o y ->
  sys_exec o x = Val x' -> rc_status (s_chan (ep_side (ep_of x'))) = Running ->
  node_ok x' /\ ep_inv sa sb (ep_of x') (ep_of y).
Proof.
  intros Hinit Hx Hinv Hh Hal Hexec Hrun. pose proof (ep_inv_quiet _ _ _ _ Hinv) as Hq. destruct o as [o|reason keys]; cbn [sys_exec] in Hexec.
  - split; [by eapply node_exec_ok|].
    destruct (node_exec_ep o x x' (ep_of y) Hx Hq Hexec) as [Heq|(eo & Hok & Heo)]; [by rewrite Heq|]. by eapply ep_exec_inv.
  - assert (ep_exec (EpIterate reason keys) (ep_of x) = Val (ep_of x')) as Hep.
    { apply bind_val in Hexec as (a & Ha & [= <-]). cbn [ep_exec]. by rewrite Ha. }
    split; [|by eapply (ep_exec_inv sa sb _ _ (EpIterate reason keys))].
    apply bind_val in Hexec as (a & _ & [= <-]). destruct Hx as [[Ho Hi Hsl] Ha Hf Hs]. by split.
Qed.

(** What every call on the stream preserves, every poll of the task preserves. *)
Definition stream_calls (R : side -> side -> Prop) : Prop :=
  (forall w data, preserves R (bs_write (C := side) (K := unit) w data)) /\
  (forall w buf, preserves R (bs_read (C := side) (K := unit) w buf)) /\ preserves R (bs_flush (C := side) (K := unit)).

Lemma task_poll_stream (R : side -> side -> Prop) {HR : PreOrder R} b (t t' : task) :
  stream_calls R -> task_poll b tt t = Val t' -> R (mc_stream (lg_channel (t_channel t))) (mc_stream (lg_channel (t_channel t'))).
Proof.
  intros (Hw & Hr & Hf). destruct (mc_preserves R HR Hw Hr Hf) as (Hsend & Hflush & Hrecv).
  unfold task_poll. destruct (t_phase t) as [|item|msg| |msg| |]; [unfold poll_select; destruct b| | | | | |]; intros H.
  - apply bind_val in H as ([c r] & ([ch r'] & Hc & [= <- <-])%bind_val & [= <-]). by eapply Hrecv.
  - destruct (rcv_run _ _) as [sh r]. by injection H as <-.
  - destruct (ew_run _ _) as [ev r]. by injection H as <-.
  - by rewrite (poll_sender_send_channel _ _ _ _ H).
  - apply bind_val in H as ([c r] & ([ch r'] & Hc & [= <- <-])%bind_val & [= <-]). by eapply Hsend.
  - destruct (rcv_run _ _) as [sh r]. by injection H as <-.
  - apply bind_val in H as ([c r] & ([ch r'] & Hc & [= <- <-])%bind_val & [= <-]). by eapply Hsend.
  - apply bind_val in H as ([c r] & ([ch r'] & Hc & [= <- <-])%bind_val & [= <-]). by eapply Hflush.
  - by injection H as <-.
Qed.

Lemma sys_exec_stream (R : side -> side -> Prop) {HR : PreOrder R} (o : sys_op M P) (x x' : node) :
  stream_calls R -> (forall reason keys (a a' : side), side_exec (Iterate reason keys) a = Val a' -> R a a') ->
  sys_exec o x = Val x' -> R (ep_side (ep_of x)) (ep_side (ep_of x')).
Proof.
  intros Hcalls Hit. destruct o as [o|reason keys]; cbn [sys_exec]; intros H.
  - destruct (node_exec_channel _ _ _ H) as [Hch|(b & Ht)]; [by unfold ep_side, ep_of; rewrite Hch|].
    by apply (task_poll_stream R _ _ _ Hcalls Ht).
  - apply bind_val in H as (a & Ha & [= <-]). unfold ep_side, ep_of, ep_of_log in *. cbn in *. rewrite mc_stream_set. by eapply Hit.
Qed.

(** Nothing that was written is taken back. *)
Lemma sys_exec_written (o : sys_op M P) (x x' : node) :
  sys_exec o x = Val x' -> zlen (s_written (ep_side (ep_of x))) <= zlen (s_written (ep_side (ep_of x'))).
Proof.
  apply (sys_exec_stream written_on); [apply bs_written_on|]. intros reason keys a a' [X H]%side_exec_written.
  unfold written_on. rewrite H, zlen_app. zlen_facts. lia.
Qed.

Definition both_ok (sa sb : Settings) (x y : node) : Prop := node_ok x /\ node_ok y /\ ep_inv sa sb (ep_of x) (ep_of y).

Lemma sys_step_ok sa sb (x y x' y' : node) :
  s_init_send sa <> 0 -> s_init_send sb <> 0 -> both_ok sa sb x y ->
  horizons sa sb (ep_side (ep_of x)) (ep_side (ep_of y)) -> sys_step (x, y) (x', y') -> both_ok sa sb x' y'.
Proof.
  intros Hsa Hsb (Hx & Hy & Hinv) Hh Hstep. inversion Hstep as [? ? o ? Hal Hexec Hrun|? ? o ? Hal Hexec Hrun]; simplify_eq.
  - destruct (sys_exec_ok sa sb x y' o x') as [Hx' Hinv']; by try done.
  - apply ep_inv_sym in Hinv. apply horizons_sym in Hh.
    destruct (sys_exec_ok sb sa y x' o y') as [Hy' Hinv']; try done. split; [done|]. split; [done|]. by apply ep_inv_sym.
Qed.

Lemma node_new_ok (ch : Ch) n : node_ok (node_new ch n).
Proof.
  split; [apply node_new_inv| |done|constructor]. unfold node_new, channel_task_new, link_new, Spsc.channel.
  destruct (cb_bounded_ok n) as (_ & _ & Hs & Hr). by split.
Qed.

Lemma sys_connected_ok sa sb (x y : node) : sys_connected (P := P) mc_sendable sa sb x y -> both_ok sa sb x y.
Proof.
  intros (Hsa & Hsb & ta & tb & pa & pb & xa & xb & a0 & b0 & na & nb & Hpa & Hpb & Ha & Hb & Hsteps & Hh).
  destruct (side_new_half ta pa sa xa Hsa Hpa) as (a1 & Ha1 & Hwa & Hra & Hhalfa).
  destruct (side_new_half tb pb sb xb Hsb Hpb) as (b1 & Hb1 & Hwb & Hrb & Hhalfb).
  rewrite Ha in Ha1. rewrite Hb in Hb1. simplify_eq.
  pose proof (so_init _ Hsa). pose proof (so_init _ Hsb).
  assert (sys_inv sa sb a1 b1) as Hsys by (exists 0, [], 0, [], [], 0, [], 0, [], []; by rewrite Hwa, Hwb).
  revert Hh. change x with (x, y).1. change y with (x, y).2.
  apply (rtc_ind_r (R := sys_step) (fun xy : node * node =>
    horizons sa sb (ep_side (ep_of xy.1)) (ep_side (ep_of xy.2)) -> both_ok sa sb xy.1 xy.2)
    (node_new (mc_new a1) na, node_new (mc_new b1) nb)); [| |done].
  - intros _. split; [apply node_new_ok|]. split; [apply node_new_ok|]. exists [], [].
    split; apply (endpoint_new_half _ _ _ _); try done. by apply sys_inv_sym.
  - intros [x1 y1] [x2 y2] _ Hstep IH [HA HB]. cbn [fst snd] in *.
    assert (zlen (s_written (ep_side (ep_of x1))) <= zlen (s_written (ep_side (ep_of x2))) /\
            zlen (s_written (ep_side (ep_of y1))) <= zlen (s_written (ep_side (ep_of y2)))) as [? ?].
    { inversion Hstep as [? ? o ? _ Hexec _|? ? o ? _ Hexec _]; simplify_eq;
        apply sys_exec_written in Hexec; split; done || lia. }
    assert (horizons sa sb (ep_side (ep_of x1)) (ep_side (ep_of y1))) as Hh by (unfold horizons, horizon in *; lia).
    eapply sys_step_ok; [..|exact Hstep]; try done; try lia. by apply IH.
Qed.

(** What was delivered is a prefix of what the peer has sent. *)
Lemma delivered_prefix sa sb (x y : node) :
  both_ok sa sb x y -> exists rest, n_accepted x = n_delivered y ++ rest.
Proof.
  intros ([[(out & Ho & _) _ _] _ _ _] & [[_ (inc & Hi & _) _] _ _ _] & Hinv).
  destruct (ep_prefix sa sb _ _ Hinv) as [rest Hr]. cbn in Hr. unfold n_received in Hi. rewrite Hi in Hr.
  assert (exists rest', n_sent x = (n_delivered y ++ inc) ++ rest') as [rest' Hs].
  { apply (fmap_app_inv (inl : M -> M + E')) in Hr as (l1 & l2 & H1 & H2 & Hs). exists l2. unfold n_sent. rewrite Hs. f_equal.
    by apply (inj (fmap (inl : M -> M + E'))) in H1. }
  exists (inc ++ rest' ++ out). by rewrite Ho, Hs, <- !app_assoc.
Qed.

Lemma channels_in_order sa sb (x y : node) :
  sys_connected (P := P) mc_sendable sa sb x y ->
  (exists rest, n_accepted x = n_delivered y ++ rest) /\ (exists rest, n_accepted y = n_delivered x ++ rest) /\
  failed (t_phase (n_task x)) = false /\ failed (t_phase (n_task y)) = false.
Proof.
  intros H%sys_connected_ok. pose proof H as (Hx & Hy & Hinv). split; [by eapply delivered_prefix|].
  split; [|split; [apply Hx|apply Hy]]. eapply (delivered_prefix sb sa). split; [done|]. split; [done|]. by apply ep_inv_sym.
Qed.
End invariant.

(** * The channels *)

Section channels.
Context {T Instant P Pool Snd Q W M BE SE : Type}.
Context {TI : Timer T Instant} {TL : TimerLaws T Instant}.
Context {PI : Packet P} {PL : PacketLaws P} {PPI : PacketPool Pool P} {PPL : PacketPoolLaws Pool P}.
Context {SI : PacketSink Snd P} {BO : ByteOrder} {BOL : ByteOrderLaws}.
Context {CB : Crossbeam Q M} {CL : CrossbeamLaws Q M} {AW : AtomicWaker W unit}.
Context {BC : Bincode M BE} {BCL : BincodeLaws M BE} {SN : Snap SE} {SNL : SnapLaws SE}.

Abbreviation side := (side T Instant P Pool Snd).
Abbreviation reliable_node := (node (ReliableBincodeChannel side) Q W unit M (TaskError Error BE SE)).
Abbreviation compressed_node := (node (CompressedBincodeChannel side) Q W unit M (TaskError Error BE SE)).

(** Message channels, reliable mode: over a network that loses, repeats and reorders
    packets, and however users, message tasks and channel tasks take turns, the
    messages that one user has received from [MessageChannels] are the first ones that
    the other has sent, in order; and the tasks go on. *)
Theorem message_channels_in_order sa sb (x y : reliable_node) :
  sys_connected (P := P) (sendable (BE := BE)) sa sb x y ->
  (exists rest, n_accepted x = n_delivered y ++ rest) /\ (exists rest, n_accepted y = n_delivered x ++ rest) /\
  failed (t_phase (n_task x)) = false /\ failed (t_phase (n_task y)) = false.
Proof. apply (channels_in_order (ML := reliable_message_laws)). Qed.

(** Message channels, compressed mode: the same over compressed channels, for
    messages that have some bytes. *)
Theorem compressed_channels_in_order sa sb fuel (x y : compressed_node) :
  sys_connected (MC := compressed_message_channel (S fuel)) (P := P) (chunkable (BE := BE)) sa sb x y ->
  (exists rest, n_accepted x = n_delivered y ++ rest) /\ (exists rest, n_accepted y = n_delivered x ++ rest) /\
  failed (t_phase (n_task x)) = false /\ failed (t_phase (n_task y)) = false.
Proof. apply (channels_in_order (ML := compressed_message_laws fuel)). Qed.
End channels.

(** * Examples: a message from one user to the other *)

Section run.
Context {T Instant P Pool Snd Ch Q W M E' : Type}.
Context {TI : Timer T Instant} {PI : Packet P} {PPI : PacketPool Pool P}.
Context {SI : PacketSink Snd P} {BO : ByteOrder} {CB : Crossbeam Q M} {AW : AtomicWaker W unit}.
Context {OS : OverStream Ch (side T Instant P Pool Snd)} {MC : MessageChannel Ch unit M E'}.
Context (ok : M -> Prop) (okb : M -> bool) (Hok : forall msg, okb msg = true -> ok msg).

Abbreviation node := (node Ch Q W unit M E').

Definition sys_allowedb (o : sys_op M P) (peer : node) : bool :=
  match o with
  | SysNode o => forallb okb (node_messages o)
  | SysIterate reason keys => deliveredb (Iterate reason keys) (ep_side (ep_of peer))
  end.

Fixpoint sys_run (ops : list (bool * sys_op M P)) (x y : node) : option (node * node) :=
  match ops with
  | [] => Some (x, y)
  | (is_left, o) :: ops =>
    let (z, peer) := if is_left : bool then (x, y) else (y, x) in
    if sys_allowedb o peer then
      match sys_exec o z with
      | Val z => if running (ep_side (ep_of z)) then if is_left then sys_run ops z y else sys_run ops x z else None
      | Fault _ => None
      end
    else None
  end.

Lemma sys_run_steps ops : forall x y x' y' : node,
  sys_run ops x y = Some (x', y') -> rtc (sys_step (P := P) ok) (x, y) (x', y').
Proof.
  assert (forall o (peer : node), sys_allowedb o peer = true -> sys_allowed ok o peer) as Hal.
  { intros [o|reason keys] peer; cbn; [by apply node_messages_ok|by apply (deliveredb_ok (Iterate reason keys))]. }
  induction ops as [|[[] o] ops IH]; intros x y x' y'; cbn [sys_run]; [by intros [= -> ->]| |];
    (destruct (sys_allowedb o _) eqn:Ho; [|done]); (destruct (sys_exec o _) as [z|] eqn:Hz; [|done]);
    unfold running; (destruct (rc_status (s_chan (ep_side (ep_of z)))) eqn:Hr; [|done..]); intros Hrun;
    (eapply rtc_l; [|by apply IH]).
  - by apply (sys_left _ _ _ o); [apply Hal| |].
  - by apply (sys_right _ _ _ o); [apply Hal| |].
Qed.
End run.

Import Example BincodeExample RunLength.

Definition example_actions (bytes : list Z) : list (bool * sys_op (option Z) BufferPacket) :=
  let task b := SysNode (NodeTask b tt) in
  let data := SysIterate (IncomingPacket (Some (example_packet bytes))) [] in
  [(true, SysNode (NodeSend (Some 7))); (true, task Branch_Outgoing); (true, task Branch_Outgoing);
   (true, SysNode NodeFlush); (true, task Branch_Flush); (true, task Branch_Flush); (true, task Branch_Flush);
   (true, SysIterate SendAvailable []); (false, task Branch_Incoming); (false, data); (false, data);
   (false, task Branch_Incoming); (false, task Branch_Incoming); (false, SysNode NodeRecv);
   (true, SysNode (NodeSend (Some 8)))].

Section example.
Context {Ch E' : Type} {OS : OverStream Ch example_stream} {MC : MessageChannel Ch unit (option Z) E'}.

Abbreviation example_node := (node Ch (list_queue (option Z)) (option unit) unit (option Z) E').

Definition example_nodes (bytes : list Z) : option (example_node * example_node) :=
  match example_side with
  | Val a => sys_run byte_ok (example_actions bytes) (node_new (mc_new a) 2) (node_new (mc_new a) 2)
  | Fault _ => None
  end.

Lemma example_nodes_connected (ok : option Z -> Prop) bytes (x y : example_node) :
  (forall msg, byte_ok msg = true -> ok msg) -> example_nodes bytes = Some (x, y) ->
  zlen (s_written (ep_side (ep_of x))) < 1000 -> zlen (s_written (ep_side (ep_of y))) < 1000 ->
  sys_connected (P := BufferPacket) ok Example.settings Example.settings x y.
Proof.
  unfold example_nodes. intros Hok Hrun Hx Hy. destruct example_side as [a|] eqn:Ha; [|discriminate].
  split; [apply example_settings|]. split; [apply example_settings|].
  exists 0%nat, 0%nat, (mkBufferPacketPool true), (mkBufferPacketPool true), true, true, a, a, 2, 2.
  split; [vm_compute; split; discriminate|]. split; [vm_compute; split; discriminate|].
  split; [exact Ha|]. split; [exact Ha|]. split; [exact (sys_run_steps _ _ Hok _ _ _ _ _ Hrun)|].
  assert (s_recv_window_size Example.settings < 1000) as Hw by reflexivity. unfold horizons, horizon. lia.
Qed.

Definition nodes_view (xy : example_node * example_node) :=
  (n_accepted xy.1, n_delivered xy.2, zlen (s_written (ep_side (ep_of xy.1))), zlen (s_written (ep_side (ep_of xy.2)))).
End example.

Abbreviation example_reliable_nodes := (example_nodes (Ch := ReliableBincodeChannel example_stream) (E' := example_error)).
Abbreviation example_compressed_nodes := (example_nodes (Ch := CompressedBincodeChannel example_stream)
  (MC := compressed_message_channel (C := example_stream) (K := unit) (E := Error) (SE := unit) (M := option Z) (BE := unit) 1)).

Lemma example_reliable_nodes_view : option_map nodes_view (example_reliable_nodes [3; 0; 0; 0; 0; 0; 1; 0; 7]) =
  Some ([Some 7; Some 8], [Some 7], 3, 0).
Proof. vm_compute. reflexivity. Qed.
Lemma example_compressed_nodes_view : option_map nodes_view (example_compressed_nodes [4; 0; 0; 0; 0; 0; 0; 1; 0; 7]) =
  Some ([Some 7; Some 8], [Some 7], 4, 0).
Proof. vm_compute. reflexivity. Qed.

Lemma message_channels_in_order_witness :
  exists x y, example_reliable_nodes [3; 0; 0; 0; 0; 0; 1; 0; 7] = Some (x, y) /\
  n_delivered y = [Some 7] /\ exists rest, n_accepted x = n_delivered y ++ rest.
Proof.
  pose proof example_reliable_nodes_view as Hobs. destruct (example_nodes _) as [[x y]|] eqn:E; [|discriminate Hobs].
  injection Hobs as _ Hr Hx Hy. exists x, y. split; [reflexivity|]. split; [exact Hr|].
  refine (proj1 (message_channels_in_order Example.settings Example.settings x y _)).
  refine (example_nodes_connected _ _ x y byte_ok_sendable E _ _); [exact (below _ _ Hx eq_refl)|exact (below _ _ Hy eq_refl)].
Defined.

Lemma compressed_channels_in_order_witness :
  exists x y, example_compressed_nodes [4; 0; 0; 0; 0; 0; 0; 1; 0; 7] = Some (x, y) /\
  n_delivered y = [Some 7] /\ exists rest, n_accepted x = n_delivered y ++ rest.
Proof.
  pose proof example_compressed_nodes_view as Hobs. destruct (example_compressed_nodes _) as [[x y]|] eqn:E; [|discriminate Hobs].
  injection Hobs as _ Hr Hx Hy. exists x, y. split; [reflexivity|]. split; [exact Hr|].
  refine (proj1 (compressed_channels_in_order Example.settings Example.settings 0 x y _)).
  refine (example_nodes_connected (MC := compressed_message_channel 1) _ _ x y byte_ok_chunkable E _ _);
    [exact (below _ _ Hx eq_refl)|exact (below _ _ Hy eq_refl)].
Defined.
