(* ===== verification/MessageChannels.v ===== *)
(** [MessageChannelsBuilder] and [MessageChannels] of message_channels.rs: message types
    are registered with a channel number each, [build] opens the channels and starts
    the tasks, and the methods look up the queues of a message type and use them. *)

From stdpp Require Import gmap strings.
From S2P Require Import Prelude BandwidthLimiter Packet Wire ReliableChannel Async Spsc SpscSafety EventWatch Unreliable Mux.
From S2P Require Import Bincode MessageChannel Compressed UnreliableBincode ChannelTask.

(** * Data *)

Inductive MessageChannelMode :=
| Unreliable (unreliable_settings : UnreliableSettings)
| Reliable (reliable_settings : ReliableChannel.Settings)
| Compressed (reliable_settings : ReliableChannel.Settings).

Record MessageChannelSettings := mkMessageChannelSettings {
  channel : Z;
  channel_mode : MessageChannelMode;
  message_buffer_size : Z;
  packet_buffer_size : Z;
}.

Inductive ChannelAlreadyRegistered := Registered_MessageType | Registered_Channel.

Record MessageTypeUnregistered := mkUnregistered { unregistered_name : string }.
Inductive MessageChannelsDisconnected := mkDisconnected.
Inductive TryAsyncMessageError :=
| Unregistered (e : MessageTypeUnregistered)
| Disconnected_ (e : MessageChannelsDisconnected).

(** The types that messages can have: each has a [TypeId] and a name, and the queues
    of crossbeam work for all of them. Hash maps are iterated over in some order. *)
Class MessageTypes := {
  TypeId : Type;
  TypeId_eq : EqDecision TypeId;
  TypeId_countable : Countable TypeId;
  Message : TypeId -> Type;
  type_name : TypeId -> string;
  into_iter {A} : gmap TypeId A -> list (TypeId * A);
  into_iter_ok {A} (m : gmap TypeId A) : into_iter m ≡ₚ map_to_list m;
}.
#[export] Existing Instance TypeId_eq.
#[export] Existing Instance TypeId_countable.

(** The sender of packets of a channel, with its slot, as the sink of a reliable
    channel's task: [sink_send] is its [SinkExt::send]. *)
Class ChannelSink (Snd P : Type) := { channel_sink : Z -> option (MuxPacket P) -> Snd }.

Section message_channels.
Context {MT : MessageTypes}.
Context {T Instant Pool Snd Sl BE SE : Type}.
Context {P Qp W K : Type} {Q : Type -> Type} {PI : Packet P} {PPI : PacketPool Pool P} {TI : Timer T Instant}.
Context {CBp : Crossbeam Qp (MuxPacket P)} {CS : ChannelSink Snd P}.
Context {CB : forall A, Crossbeam (Q A) A} {AW : AtomicWaker W K}.

(** The queues of a message type, which its task shares, and the number under which
    the multiplexer counts its packets. *)
Record ChannelSet (M : Type) := mkChannelSet {
  cs_link : link (Q M) W K M;
  cs_statistics : Z;
}.
#[local] Arguments mkChannelSet {M} _ _.
#[local] Arguments cs_link {M} _.
#[local] Arguments cs_statistics {M} _.

(** [Box<dyn Any>], and [downcast_mut]. *)
Record AnySet := mkAnySet { any_type : TypeId; any_set : ChannelSet (Message any_type) }.

Definition downcast (t : TypeId) (a : AnySet) : option (ChannelSet (Message t)) :=
  match decide (any_type a = t) with
  | left H => Some (eq_rect (any_type a) (fun t => ChannelSet (Message t)) (any_set a) t H)
  | right _ => None
  end.

Abbreviation ChannelsMap := (gmap TypeId AnySet).

Definition ChannelsMap_insert (t : TypeId) (channel_set : ChannelSet (Message t)) (m : ChannelsMap) : ChannelsMap * bool :=
  (<[t := mkAnySet t channel_set]> m, match m !! t with None => true | Some _ => false end).

(** [get] and [get_mut]: what they return is written back under the same key. *)
Definition ChannelsMap_get (t : TypeId) (m : ChannelsMap) : res (ChannelSet (Message t) + MessageTypeUnregistered) :=
  match m !! t with
  | None => Val (inr (mkUnregistered (type_name t)))
  | Some any => channel_set ← unwrap (downcast t any); Val (inl channel_set)
  end.

(** * Building *)

(** The builder, without the handle to spawn futures with. *)
Record MessageChannelsBuilder := mkBuilder {
  timer : T;
  pool : Pool;
  channels : gset Z;
  register_fns : gmap TypeId (string * MessageChannelSettings);
}.

Definition MessageChannelsBuilder_new (timer : T) (pool : Pool) : MessageChannelsBuilder := mkBuilder timer pool ∅ ∅.

Definition register (t : TypeId) (settings : MessageChannelSettings) (b : MessageChannelsBuilder)
    : MessageChannelsBuilder * (unit + ChannelAlreadyRegistered) :=
  if decide (channel settings ∈ channels b) then (b, inr Registered_Channel)
  else
    let b := mkBuilder (timer b) (pool b) ({[channel settings]} ∪ channels b) (register_fns b) in
    match register_fns b !! t with
    | Some _ => (b, inr Registered_MessageType)
    | None => (mkBuilder (timer b) (pool b) (channels b) (<[t := (type_name t, settings)]> (register_fns b)), inl tt)
    end.

(** The channels that the tasks work with. *)
Abbreviation unreliable := (UnreliableChannel T Instant (MuxPacket P) (MuxPacketPool Pool) Qp W K Sl).
Abbreviation reliable := (ReliableChannel T Instant (MuxPacket P) (MuxPacketPool Pool) Snd).

Inductive TypedChannel (M : Type) : Type :=
| UnreliableTyped (c : UnreliableBincodeChannel unreliable)
| ReliableTyped (c : ReliableTypedChannel reliable M)
| CompressedTyped (c : CompressedTypedChannel reliable M).
#[local] Arguments UnreliableTyped {M} _.
#[local] Arguments ReliableTyped {M} _.
#[local] Arguments CompressedTyped {M} _.

(** The [match] on the mode: [mux_channel] has the queues of the channel, [sender] is
    the slot of the sender of packets. *)
Definition typed_channel {M} (settings : MessageChannelSettings) (timer : T) (packet_pool : MuxPacketPool Pool)
    (sender : option (MuxPacket P)) (mux_channel : MuxChannel Qp W K) : res (TypedChannel M) :=
  match channel_mode settings with
  | Unreliable unreliable_settings =>
    Val (UnreliableTyped (ut_new (UnreliableChannel_new timer packet_pool unreliable_settings
      (mc_outgoing mux_channel, sender) (mc_incoming mux_channel))))
  | Reliable reliable_settings =>
    c ← ReliableChannel_new timer packet_pool reliable_settings (channel_sink (channel settings) sender);
    Val (ReliableTyped (rt_new c))
  | Compressed reliable_settings =>
    c ← ReliableChannel_new timer packet_pool reliable_settings (channel_sink (channel settings) sender);
    Val (CompressedTyped (ct_new c))
  end.

(** The errors of the three kinds of channels. *)
Definition TypedError : Type := TaskError (ReliableChannel.Error + (Unreliable.SendError + Unreliable.RecvError)) BE SE.

(** A future of the collection that [build] makes: [channel_task] of a message type,
    with the name that its error is reported under. Its queues are in the map. *)
Record StartedTask := mkStartedTask {
  st_type : TypeId;
  st_name : string;
  st_channel : TypedChannel (Message st_type);
  st_phase : phase (Message st_type) TypedError;
}.

Abbreviation Multiplexer := (PacketMultiplexer P Qp W K).

Definition register_message_type (t : TypeId) (settings : MessageChannelSettings) (timer : T) (packet_pool : Pool)
    (multiplexer : Multiplexer) (channels_map : ChannelsMap) : res (Multiplexer * ChannelsMap * TypedChannel (Message t)) :=
  let l : link (Q (Message t)) W K (Message t) := link_new (message_buffer_size settings) in
  let (multiplexer, r) := open_channel (channel settings) (packet_buffer_size settings) multiplexer in
  channel_sender ← unwrap (match r with inl slot => Some slot | inr _ => None end);
  mux_channel ← unwrap (pm_store multiplexer !! channel settings);
  let packet_pool := mkMuxPacketPool packet_pool in
  typed ← typed_channel settings timer packet_pool channel_sender mux_channel;
  let (channels_map, _) := ChannelsMap_insert t (mkChannelSet l (channel settings)) channels_map in
  Val (multiplexer, channels_map, typed).

(** The closure of [map], for each registered type; every one gets clones of the timer
    and of the pool. *)
Fixpoint register_all (timer : T) (pool : Pool) (fns : list (TypeId * (string * MessageChannelSettings)))
    (multiplexer : Multiplexer) (channels_map : ChannelsMap) : res (Multiplexer * ChannelsMap * list StartedTask) :=
  match fns with
  | [] => Val (multiplexer, channels_map, [])
  | (t, (name, settings)) :: fns =>
    '(multiplexer, channels_map, typed) ← register_message_type t settings timer pool multiplexer channels_map;
    '(multiplexer, channels_map, tasks) ← register_all timer pool fns multiplexer channels_map;
    Val (multiplexer, channels_map, mkStartedTask t name typed Selecting :: tasks)
  end.

Record MessageChannels := mkMessageChannels {
  disconnected : bool;
  channels_ : ChannelsMap;
}.

(** The tasks are what the spawned future joins, see JoinedTasks. *)
Definition build (b : MessageChannelsBuilder) (multiplexer : Multiplexer)
    : res (Multiplexer * MessageChannels * list StartedTask) :=
  '(multiplexer, channels_map, tasks) ← register_all (timer b) (pool b) (into_iter (register_fns b)) multiplexer ∅;
  Val (multiplexer, mkMessageChannels false channels_map, tasks).

(** * Use *)

Definition is_connected (c : MessageChannels) : bool := negb (disconnected c).

Definition set_link (t : TypeId) (l : link (Q (Message t)) W K (Message t)) (s : ChannelSet (Message t)) (c : MessageChannels)
    : MessageChannels :=
  mkMessageChannels (disconnected c) (<[t := mkAnySet t (mkChannelSet l (cs_statistics s))]> (channels_ c)).
Definition set_disconnected (c : MessageChannels) : MessageChannels := mkMessageChannels true (channels_ c).

(** [let channels = self.channels.get_mut::<M>()?] *)
Definition with_channels {A E} (err : MessageTypeUnregistered -> E) (t : TypeId) (c : MessageChannels)
    (k : ChannelSet (Message t) -> res (MessageChannels * (A + E))) : res (MessageChannels * (A + E)) :=
  r ← ChannelsMap_get t (channels_ c);
  match r with inr e => Val (c, inr (err e)) | inl channels => k channels end.

(** The message comes back if it was not sent. *)
Definition try_send (t : TypeId) (message : Message t) (c : MessageChannels)
    : res (MessageChannels * (option (Message t) + MessageTypeUnregistered)) :=
  with_channels id t c (fun channels =>
    if disconnected c then Val (c, inl (Some message))
    else
      let (l, r) := link_try_send message (cs_link channels) in
      let c := set_link t l channels c in
      match r with
      | inr (TrySendError_Disconnected m) => Val (set_disconnected c, inl (Some m))
      | inr (TrySendError_Full m) => Val (c, inl (Some m))
      | inl _ => Val (c, inl None)
      end).

Definition try_recv (t : TypeId) (c : MessageChannels)
    : res (MessageChannels * (option (Message t) + MessageTypeUnregistered)) :=
  with_channels id t c (fun channels =>
    if disconnected c then Val (c, inl None)
    else
      let (l, r) := link_try_recv (cs_link channels) in
      let c := set_link t l channels c in
      match r with
      | inl msg => Val (c, inl (Some msg))
      | inr TryRecvError_Disconnected => Val (set_disconnected c, inl None)
      | inr TryRecvError_Empty => Val (c, inl None)
      end).

Definition try_flush (t : TypeId) (c : MessageChannels) : res (MessageChannels * (unit + MessageTypeUnregistered)) :=
  with_channels id t c (fun channels => Val (set_link t (link_signal (cs_link channels)) channels c, inl tt)).

Definition try_statistics (t : TypeId) (c : MessageChannels) : res (Z + MessageTypeUnregistered) :=
  r ← ChannelsMap_get t (channels_ c);
  Val (match r with inl channels => inl (cs_statistics channels) | inr e => inr e end).

(** [send], [flush], [recv] and [statistics] unwrap these results. *)
Definition or_panic {A} (m : res (MessageChannels * (A + MessageTypeUnregistered))) : res (MessageChannels * A) :=
  '(c, r) ← m;
  a ← unwrap (match r with inl a => Some a | inr _ => None end);
  Val (c, a).

Definition msg_send (t : TypeId) (message : Message t) (c : MessageChannels) : res (MessageChannels * option (Message t)) :=
  or_panic (try_send t message c).
Definition msg_flush (t : TypeId) (c : MessageChannels) : res (MessageChannels * unit) := or_panic (try_flush t c).
Definition msg_recv (t : TypeId) (c : MessageChannels) : res (MessageChannels * option (Message t)) := or_panic (try_recv t c).
Definition msg_statistics (t : TypeId) (c : MessageChannels) : res Z :=
  r ← try_statistics t c; unwrap (match r with inl a => Some a | inr _ => None end).

(** A poll of [try_async_recv]. *)
Definition poll_async_recv (w : K) (t : TypeId) (c : MessageChannels)
    : res (MessageChannels * Poll (Message t + TryAsyncMessageError)) :=
  r ← ChannelsMap_get t (channels_ c);
  match r with
  | inr e => Val (c, Ready (inr (Unregistered e)))
  | inl channels =>
    if disconnected c then Val (c, Ready (inr (Disconnected_ mkDisconnected)))
    else
      let (l, r) := link_poll_recv w (cs_link channels) in
      let c := set_link t l channels c in
      match r with
      | Pending => Val (c, Pending)
      | Ready (Some message) => Val (c, Ready (inl message))
      | Ready None => Val (set_disconnected c, Ready (inr (Disconnected_ mkDisconnected)))
      end
  end.

(** A poll of [try_async_send]. *)
Definition poll_async_send (w : K) (t : TypeId) (item : option (Message t)) (c : MessageChannels)
    : res (MessageChannels * option (Message t) * Poll (unit + TryAsyncMessageError)) :=
  r ← ChannelsMap_get t (channels_ c);
  match r with
  | inr e => Val (c, item, Ready (inr (Unregistered e)))
  | inl channels =>
    if disconnected c then Val (c, item, Ready (inr (Disconnected_ mkDisconnected)))
    else
      '(l, item, r) ← link_poll_send item w (cs_link channels);
      let c := set_link t l channels c in
      match r with
      | Pending => Val (c, item, Pending)
      | Ready (inl _) => Val (c, item, Ready (inl tt))
      | Ready (inr _) => Val (set_disconnected c, item, Ready (inr (Disconnected_ mkDisconnected)))
      end
  end.

(** [async_send] and [async_recv] panic where these return that the type is not
    registered. *)
Definition registered {A} (r : Poll (A + TryAsyncMessageError)) : res (Poll (A + MessageChannelsDisconnected)) :=
  match r with
  | Pending => Val Pending
  | Ready (inl a) => Val (Ready (inl a))
  | Ready (inr (Disconnected_ e)) => Val (Ready (inr e))
  | Ready (inr (Unregistered _)) => Fault AssertFailed
  end.
Definition async_send (w : K) (t : TypeId) (item : option (Message t)) (c : MessageChannels)
    : res (MessageChannels * option (Message t) * Poll (unit + MessageChannelsDisconnected)) :=
  '(c, item, r) ← poll_async_send w t item c; r ← registered r; Val (c, item, r).
Definition async_recv (w : K) (t : TypeId) (c : MessageChannels)
    : res (MessageChannels * Poll (Message t + MessageChannelsDisconnected)) :=
  '(c, r) ← poll_async_recv w t c; r ← registered r; Val (c, r).
End message_channels.


Arguments mkChannelSet {W K Q M} _ _.
Arguments cs_link {W K Q M} _.
Arguments cs_statistics {W K Q M} _.
Arguments UnreliableTyped {T Instant Pool Snd Sl P Qp W K M} _.
Arguments ReliableTyped {T Instant Pool Snd Sl P Qp W K M} _.
Arguments CompressedTyped {T Instant Pool Snd Sl P Qp W K M} _.
