(* ===== verification/MessageChannelsSafety.v ===== *)
(** What [MessageChannelsBuilder] and [MessageChannels] guarantee: registered types have
    channels of their own, building them opens all of these, and no method panics
    on any message type, or forgets that the channels are disconnected. *)

From stdpp Require Import gmap strings.
From S2P Require Import Prelude StreamPos BandwidthLimiter SendWindow RecvWindow Packet Wire ReliableChannel ReliableSafety Async Spsc SpscSafety EventWatch Unreliable Mux.
From S2P Require Import MessageChannel ChannelTask MessageChannels.

(** * Registering *)

Section register.
Context {MT : MessageTypes} {T Pool : Type}.

Abbreviation MessageChannelsBuilder := (MessageChannelsBuilder (T := T) (Pool := Pool)).

(** Registered types have distinct channels, whose numbers are taken. *)
Record builder_ok (b : MessageChannelsBuilder) : Prop := {
  bo_channels t ns : register_fns b !! t = Some ns -> channel ns.2 ∈ channels b;
  bo_distinct t t' ns ns' : register_fns b !! t = Some ns -> register_fns b !! t' = Some ns' ->
    channel ns.2 = channel ns'.2 -> t = t';
}.

Lemma builder_new_ok timer pool : builder_ok (MessageChannelsBuilder_new timer pool).
Proof. by split. Qed.

Lemma register_ok t settings b : builder_ok b -> builder_ok (register t settings b).1.
Proof.
  intros [Hc Hd]. unfold register. destruct (decide (channel settings ∈ channels b)) as [|Hn]; [done|].
  cbn [register_fns channels]. destruct (register_fns b !! t) as [ns|] eqn:Ht; split; cbn.
  - intros t' ns' H. apply elem_of_union_r. by eapply Hc.
  - exact Hd.
  - intros t' ns' [[_ <-]|[_ H]]%lookup_insert_Some; [cbn; set_solver|]. apply elem_of_union_r. by eapply Hc.
  - intros t1 t2 ns1 ns2 [[<- <-]|[_ H1]]%lookup_insert_Some [[<- <-]|[_ H2]]%lookup_insert_Some; cbn; intros Heq; try done.
    + apply Hc in H2. by rewrite <- Heq in H2.
    + apply Hc in H1. by rewrite Heq in H1.
    + by eapply Hd.
Qed.

(** The registrations that were made. *)
Fixpoint register_many (rs : list (TypeId * MessageChannelSettings)) (b : MessageChannelsBuilder) : MessageChannelsBuilder :=
  match rs with [] => b | (t, s) :: rs => register_many rs (register t s b).1 end.

Lemma register_many_ok rs : forall b, builder_ok b -> builder_ok (register_many rs b).
Proof. induction rs as [|[t s] rs IH]; intros b Hb; [done|]. by apply IH, register_ok. Qed.

Lemma register_many_env rs : forall b, timer (register_many rs b) = timer b /\ pool (register_many rs b) = pool b.
Proof.
  induction rs as [|[t s] rs IH]; intros b; [done|]. destruct (IH (register t s b).1) as [Ht Hp].
  cbn [register_many]. rewrite Ht, Hp. unfold register. by repeat case_match.
Qed.

(** A second registration of a message type fails, but takes its channel number
    all the same: no type that is registered with that number later gets it, though
    none has it. *)
Theorem duplicate_type_takes_channel t s s0 b t' s' :
  builder_ok b -> register_fns b !! t = Some s0 -> channel s ∉ channels b -> channel s' = channel s ->
  exists b', register t s b = (b', inr Registered_MessageType) /\ register t' s' b' = (b', inr Registered_Channel) /\
    forall u ns, register_fns b' !! u = Some ns -> channel ns.2 <> channel s.
Proof.
  intros Hb Ht Hn Hs. unfold register. rewrite decide_False by done. cbn [register_fns channels]. rewrite Ht.
  eexists. split; [done|]. cbn [channels register_fns]. rewrite decide_True by set_solver. split; [done|].
  intros u ns Hu Heq. apply (bo_channels _ Hb) in Hu. by rewrite Heq in Hu.
Qed.
End register.

(** * Maps of channels *)

Section maps.
Context {MT : MessageTypes} {W K : Type} {Q : Type -> Type}.

Abbreviation AnySet := (AnySet (W := W) (K := K) (Q := Q)).

(** Every entry is of the type it is stored under. *)
Definition map_typed (m : gmap TypeId AnySet) : Prop := forall t a, m !! t = Some a -> any_type a = t.

Lemma downcast_same t s : downcast t (mkAnySet t s : AnySet) = Some s.
Proof. unfold downcast. cbn [any_type]. destruct (decide (t = t)) as [H|]; [|done]. by rewrite (proof_irrel H eq_refl). Qed.

Lemma typed_entry m t (a : AnySet) : map_typed m -> m !! t = Some a -> exists s, a = mkAnySet t s.
Proof. intros Hm Ha. pose proof (Hm _ _ Ha) as Heq. destruct a as [t' s]. cbn in Heq. subst t'. by exists s. Qed.

(** Looking up does not panic, and fails on the types that are not there. *)
Lemma ChannelsMap_get_ok m t : map_typed m ->
  match m !! t with
  | Some a => exists s, a = mkAnySet t s /\ ChannelsMap_get t m = Val (inl s)
  | None => ChannelsMap_get t m = Val (inr (mkUnregistered (type_name t)))
  end.
Proof.
  intros Hm. unfold ChannelsMap_get. destruct (m !! t) as [a|] eqn:Ha; [|done].
  destruct (typed_entry _ _ _ Hm Ha) as [s ->]. exists s. split; [done|]. by rewrite downcast_same.
Qed.

Lemma map_typed_insert m t s : map_typed m -> map_typed (<[t := mkAnySet t s : AnySet]> m).
Proof. intros Hm u a [[<- <-]|[_ Ha]]%lookup_insert_Some; [done|]. by apply Hm. Qed.
End maps.

(** * Building *)

Section build.
Context {MT : MessageTypes} {T Instant Pool Snd Sl BE SE P Qp W K : Type} {Q : Type -> Type}.
Context {PI : Packet P} {PPI : PacketPool Pool P} {TI : Timer T Instant} {CS : ChannelSink Snd P}.
Context {CBp : Crossbeam Qp (MuxPacket P)} {CB : forall A, Crossbeam (Q A) A} {AW : AtomicWaker W K}.

Abbreviation AnySet := (AnySet (W := W) (K := K) (Q := Q)).
Abbreviation Multiplexer := (PacketMultiplexer P Qp W K).
Abbreviation MessageChannels := (MessageChannels (W := W) (K := K) (Q := Q)).
Abbreviation fns_t := (list (TypeId * (string * MessageChannelSettings))).

(** The channel sets for exactly the types of [ts]. *)
Definition channels_ok (ts : gset TypeId) (c : MessageChannels) : Prop := map_typed (channels_ c) /\ dom (channels_ c) = ts.

Definition channel_numbers (fns : fns_t) : list Z := (fun e => channel e.2.2) <$> fns.

(** Settings with which a reliable channel can be made. *)
Definition mode_ok (s : MessageChannelSettings) : Prop :=
  match channel_mode s with MessageChannels.Unreliable _ => True | Reliable rs | Compressed rs => settings_ok rs end.

Abbreviation StartedTask := (StartedTask (T := T) (Instant := Instant) (Pool := Pool) (Snd := Snd) (Sl := Sl) (BE := BE) (SE := SE)
  (P := P) (Qp := Qp) (W := W) (K := K)).

(** The task of a registered type: it has its name, waits for what there is to do, and
    its channel is the one that its settings make. *)
Definition started (timer : T) (pool : Pool) (fn : TypeId * (string * MessageChannelSettings)) (s : StartedTask) : Prop :=
  st_type s = fn.1 /\ st_name s = fn.2.1 /\ st_phase s = Selecting /\
  exists sender mux_channel, typed_channel fn.2.2 timer (mkMuxPacketPool pool) sender mux_channel = Val (st_channel s).

Lemma reliable_new_total timer pool rs sender : settings_ok rs ->
  exists c : ReliableChannel T Instant (MuxPacket P) (MuxPacketPool Pool) Snd, ReliableChannel_new timer pool rs sender = Val c.
Proof.
  intros [Hbw Hburst Hrecv Hsend Hinit Hupd Hres]. unfold ReliableChannel_new. rewrite !(proj2 (Z.eqb_neq _ _)), Hupd, Hres by lia. cbn [negb assert mbind res_bind].
  destruct (SendWindow_new_rep (s_send_window_size rs) 0 Hsend) as (sw & Hsw & _).
  destruct (RecvWindow_new_rep (fun _ => 0) (s_recv_window_size rs) 0 Hrecv) as (rw & Hrw & _).
  change (wrap 0) with 0 in Hsw, Hrw. rewrite Hsw, Hrw. cbn [mbind res_bind].
  destruct (BandwidthLimiter_new _ _ _) as [timer' limiter]. by eexists.
Qed.

Lemma typed_channel_total {M} s timer pool sender (mux_channel : MuxChannel Qp W K) : mode_ok s ->
  exists c : TypedChannel (Sl := Sl) (Snd := Snd) (Instant := Instant) M, typed_channel s timer pool sender mux_channel = Val c.
Proof.
  unfold mode_ok, typed_channel. destruct (channel_mode s) as [us|rs|rs]; intros Hs; [by eexists|..];
    destruct (reliable_new_total timer pool rs (channel_sink (channel s) sender) Hs) as [c ->]; by eexists.
Qed.

Lemma register_all_ok timer pool (fns : fns_t) : Forall (fun fn => mode_ok fn.2.2) fns ->
  forall (m : Multiplexer) (map : gmap TypeId AnySet),
  map_typed map -> NoDup (channel_numbers fns) -> (forall n, n ∈ channel_numbers fns -> pm_incoming m !! n = None) ->
  exists m' map' (tasks : list StartedTask), register_all timer pool fns m map = Val (m', map', tasks) /\ map_typed map' /\
    dom map' = list_to_set (fns.*1) ∪ dom map /\ dom (pm_incoming m') = list_to_set (channel_numbers fns) ∪ dom (pm_incoming m) /\
    Forall2 (started timer pool) fns tasks.
Proof.
  induction 1 as [|[t [name s]] fns Hs Hfns IH]; intros m map Hmap Hnd Hfree; cbn [register_all].
  { exists m, map, []. split_and!; try done; cbn; set_solver. }
  apply NoDup_cons in Hnd as [Hn Hnd]. unfold register_message_type, open_channel.
  rewrite (Hfree (channel s)) by (cbn; set_solver). unfold Spsc.channel. cbn [unwrap mbind res_bind ChannelsMap_insert pm_store].
  rewrite lookup_insert_eq. cbn [unwrap mbind res_bind].
  destruct (typed_channel_total (M := Message t) s timer (mkMuxPacketPool pool) None (mkMuxChannel
    (mkShared (cb_bounded (packet_buffer_size s)) aw_new aw_new [] []) (mkShared (cb_bounded (packet_buffer_size s)) aw_new aw_new [] [])
    (mkChannelStatisticsData 0 0 0 0)) Hs) as [typed Htyped].
  rewrite Htyped. cbn [mbind res_bind].
  set (m1 := mkPacketMultiplexer _ _ _). set (map1 := <[t := _]> map).
  destruct (IH m1 map1) as (m' & map' & tasks & -> & Hmap' & Hdom & Hnums & Htasks).
  - by apply map_typed_insert.
  - done.
  - intros n Hin. cbn. rewrite lookup_insert_ne; [apply Hfree; cbn; set_solver|]. intros <-. by apply Hn.
  - cbn [mbind res_bind]. eexists _, _, _. split; [done|]. split; [done|].
    split; [rewrite Hdom; subst map1; rewrite dom_insert_L; cbn; set_solver|].
    split; [rewrite Hnums; subst m1; cbn [pm_incoming]; rewrite dom_insert_L; cbn; set_solver|]. constructor; [|done].
    split_and!; try done. by eexists _, _.
Qed.

Lemma channel_numbers_NoDup (b : MessageChannelsBuilder (T := T) (Pool := Pool)) : builder_ok b -> NoDup (channel_numbers (into_iter (register_fns b))).
Proof.
  intros Hb. unfold channel_numbers. apply NoDup_fmap_2_strong; [|rewrite into_iter_ok; apply NoDup_map_to_list].
  intros [t ns] [t' ns']. rewrite !into_iter_ok, !elem_of_map_to_list. cbn. intros H1 H2 Heq.
  pose proof (bo_distinct _ Hb _ _ _ _ H1 H2 Heq) as ->. by simplify_eq.
Qed.

(** C37. Building: whatever was registered, with settings that a channel can be made of,
    and however the hash map orders it, on a multiplexer that has none of the registered
    channels [build] does not panic, opens exactly these, starts one task for each
    message type, with the channel that its settings make, and gives connected
    channels for exactly these types. *)
Theorem build_opens_all timer pool rs (m : Multiplexer) :
  let b := register_many rs (MessageChannelsBuilder_new timer pool) in
  (forall t ns, register_fns b !! t = Some ns -> mode_ok ns.2 /\ pm_incoming m !! channel ns.2 = None) ->
  exists m' (c : MessageChannels) (tasks : list StartedTask), build b m = Val (m', c, tasks) /\
    is_connected c = true /\ channels_ok (dom (register_fns b)) c /\
    (exists fns, fns ≡ₚ map_to_list (register_fns b) /\ Forall2 (started timer pool) fns tasks) /\
    forall n, n ∈ dom (pm_incoming m') <-> n ∈ dom (pm_incoming m) \/ exists t ns, register_fns b !! t = Some ns /\ channel ns.2 = n.
Proof.
  intros b Hfree. pose proof (register_many_ok rs _ (builder_new_ok timer pool)) as Hb. fold b in Hb.
  assert (MessageChannels.timer b = timer /\ MessageChannels.pool b = pool) as [Htimer Hpool] by apply register_many_env.
  assert (forall n, n ∈ channel_numbers (into_iter (register_fns b)) <-> exists t ns, register_fns b !! t = Some ns /\ channel ns.2 = n) as Hnums.
  { intros n. unfold channel_numbers. rewrite list_elem_of_fmap. split.
    - intros ([t ns] & -> & H). rewrite into_iter_ok, elem_of_map_to_list in H. by exists t, ns.
    - intros (t & ns & H & <-). exists (t, ns). by rewrite into_iter_ok, elem_of_map_to_list. }
  destruct (register_all_ok timer pool (into_iter (register_fns b))) with (m := m) (map := (∅ : gmap TypeId AnySet))
    as (m' & map & tasks & Hrun & Hmap & Hdom & Hinc & Htasks).
  - apply Forall_forall. intros [t ns]. rewrite into_iter_ok, elem_of_map_to_list. intros H. by eapply Hfree.
  - done.
  - by apply channel_numbers_NoDup.
  - intros n (t & ns & H & <-)%Hnums. by eapply Hfree.
  - unfold build. rewrite Htimer, Hpool, Hrun. cbn [mbind res_bind]. eexists _, _, _. split; [done|]. split; [done|]. split; [split; [done|]|split].
    + cbn [channels_]. rewrite Hdom, dom_empty_L, (union_empty_r_L (list_to_set _)). apply set_eq. intros t.
      rewrite elem_of_list_to_set, list_elem_of_fmap, elem_of_dom. split.
      * intros ([t' ns] & -> & H). rewrite into_iter_ok, elem_of_map_to_list in H. by exists ns.
      * intros [ns H]. exists (t, ns). by rewrite into_iter_ok, elem_of_map_to_list.
    + exists (into_iter (register_fns b)). split; [apply into_iter_ok|exact Htasks].
    + intros n. rewrite Hinc, elem_of_union, elem_of_list_to_set, Hnums. tauto.
Qed.
End build.

(** * Using *)

Section handle.
Context {MT : MessageTypes} {W K : Type} {Q : Type -> Type}.
Context {CB : forall A, Crossbeam (Q A) A} {CL : forall A, CrossbeamLaws (Q A) A} {AW : AtomicWaker W K}.

Abbreviation AnySet := (AnySet (W := W) (K := K) (Q := Q)).
Abbreviation MessageChannels := (MessageChannels (W := W) (K := K) (Q := Q)).

(** The methods, on any message type; and what the task of a type does to the queues
    that it shares, which may be anything. *)
Inductive handle_op :=
| HandleSend (t : TypeId) (message : Message t)
| HandleRecv (t : TypeId)
| HandleFlush (t : TypeId)
| HandleStatistics (t : TypeId)
| HandleAsyncSend (w : K) (t : TypeId) (item : option (Message t))
| HandleAsyncRecv (w : K) (t : TypeId)
| TaskActs (t : TypeId) (l : link (Q (Message t)) W K (Message t)).

Definition handle_type (o : handle_op) : TypeId :=
  match o with
  | HandleSend t _ | HandleRecv t | HandleFlush t | HandleStatistics t | HandleAsyncSend _ t _ | HandleAsyncRecv _ t
  | TaskActs t _ => t
  end.

Definition is_unregistered {A} (r : A + MessageTypeUnregistered) : bool := match r with inl _ => false | inr _ => true end.
Definition async_unregistered {A} (r : Poll (A + TryAsyncMessageError)) : bool :=
  match r with Ready (inr (Unregistered _)) => true | _ => false end.

(** The call, and whether it says that the type is not registered. *)
Definition handle_exec (o : handle_op) (c : MessageChannels) : res (MessageChannels * bool) :=
  match o with
  | HandleSend t message => '(c, r) ← try_send t message c; Val (c, is_unregistered r)
  | HandleRecv t => '(c, r) ← try_recv t c; Val (c, is_unregistered r)
  | HandleFlush t => '(c, r) ← try_flush t c; Val (c, is_unregistered r)
  | HandleStatistics t => r ← try_statistics t c; Val (c, is_unregistered r)
  | HandleAsyncSend w t item => '(c, _, r) ← poll_async_send w t item c; Val (c, async_unregistered r)
  | HandleAsyncRecv w t => '(c, r) ← poll_async_recv w t c; Val (c, async_unregistered r)
  | TaskActs t l => with_channels id t c (fun channels => Val (set_link t l channels c, inl tt)) ≫= fun '(c, r) =>
      Val (c, is_unregistered r)
  end.

Fixpoint handle_run (ops : list handle_op) (c : MessageChannels) : res (MessageChannels * list bool) :=
  match ops with
  | [] => Val (c, [])
  | o :: ops => '(c, r) ← handle_exec o c; '(c, rs) ← handle_run ops c; Val (c, r :: rs)
  end.

Lemma set_link_ok ts t l s (c : MessageChannels) : t ∈ ts -> channels_ok ts c -> channels_ok ts (set_link t l s c).
Proof.
  intros Ht [Hm Hd]. split; cbn [channels_ set_link]; [by apply map_typed_insert|]. rewrite dom_insert_L, Hd. set_solver.
Qed.
Lemma set_disconnected_ok ts (c : MessageChannels) : channels_ok ts c -> channels_ok ts (set_disconnected c).
Proof. done. Qed.

(** Looking up the channels of a type. *)
Lemma get_registered ts t (c : MessageChannels) : channels_ok ts c -> t ∈ ts ->
  exists s, channels_ c !! t = Some (mkAnySet t s) /\ ChannelsMap_get t (channels_ c) = Val (inl s).
Proof.
  intros [Hm Hd] Ht. rewrite <- Hd in Ht. apply elem_of_dom in Ht as [a Ha].
  pose proof (ChannelsMap_get_ok _ t Hm) as H. rewrite Ha in H. destruct H as (s & -> & H). by exists s.
Qed.
Lemma get_unregistered ts t (c : MessageChannels) : channels_ok ts c -> t ∉ ts ->
  ChannelsMap_get t (channels_ c) = Val (inr (mkUnregistered (type_name t))).
Proof.
  intros [Hm Hd] Ht. rewrite <- Hd in Ht. apply not_elem_of_dom in Ht.
  pose proof (ChannelsMap_get_ok _ t Hm) as H. by rewrite Ht in H.
Qed.

Lemma link_poll_send_total {M} (item : option M) w (l : link (Q M) W K M) : exists l' item' r, link_poll_send item w l = Val (l', item', r).
Proof.
  unfold link_poll_send, Sender_poll_flush. destruct item as [m|].
  - destruct (poll_ready_run (l_outgoing_slot l) w (l_outgoing l)) as (sh & slot & r & -> & _ & Hr).
    destruct r as [|[[]|e]]; [by eexists _, _, _| |by eexists _, _, _]. destruct Hr as (-> & _).
    cbn [Sender_start_send mbind res_bind]. destruct (snd_run _ _) as [sh' [slot' r']]. by eexists _, _, _.
  - destruct (snd_run _ _) as [sh' [slot' r']]. by eexists _, _, _.
Qed.

Lemma handle_exec_ok ts o (c : MessageChannels) : channels_ok ts c ->
  exists c', handle_exec o c = Val (c', negb (bool_decide (handle_type o ∈ ts))) /\ channels_ok ts c' /\
    (disconnected c = true -> disconnected c' = true).
Proof.
  intros Hc. destruct (decide (handle_type o ∈ ts)) as [Ht|Ht].
  - rewrite bool_decide_true by done. cbn [negb]. destruct (get_registered ts (handle_type o) c Hc Ht) as (s & _ & Hg).
    destruct o as [t m|t|t|t|w t item|w t|t l]; cbn [handle_type] in *; cbn [handle_exec];
      unfold try_send, try_recv, try_flush, try_statistics, poll_async_send, poll_async_recv, with_channels; rewrite Hg;
      cbn [mbind res_bind]; try (by eexists; split; [done|]; split; [by try apply set_link_ok|]);
      try (destruct (disconnected c) eqn:Hd; [by exists c|]).
    + destruct (link_try_send m (cs_link s)) as [l [[]|[u|u]]]; (eexists; split; [done|]; split; [|done]);
        try apply set_disconnected_ok; by apply set_link_ok.
    + destruct (link_try_recv (cs_link s)) as [l [m|[]]]; (eexists; split; [done|]; split; [|done]);
        try apply set_disconnected_ok; by apply set_link_ok.
    + destruct (link_poll_send_total item w (cs_link s)) as (l & item' & r & ->). cbn [mbind res_bind].
      destruct r as [|[[]|e]]; (eexists; split; [done|]; split; [|done]); try apply set_disconnected_ok; by apply set_link_ok.
    + destruct (link_poll_recv w (cs_link s)) as [l [|[m|]]]; (eexists; split; [done|]; split; [|done]);
        try apply set_disconnected_ok; by apply set_link_ok.
  - rewrite bool_decide_false by done. exists c. split; [|done]. pose proof (get_unregistered ts (handle_type o) c Hc Ht) as Hg.
    destruct o; cbn [handle_type] in *; cbn [handle_exec];
      unfold try_send, try_recv, try_flush, try_statistics, poll_async_send, poll_async_recv, with_channels; by rewrite Hg.
Qed.

Lemma handle_run_ok ts ops : forall c : MessageChannels, channels_ok ts c ->
  exists c', handle_run ops c = Val (c', (fun o => negb (bool_decide (handle_type o ∈ ts))) <$> ops) /\ channels_ok ts c' /\
    (disconnected c = true -> disconnected c' = true).
Proof.
  induction ops as [|o ops IH]; intros c Hc; cbn [handle_run]; [by exists c|].
  destruct (handle_exec_ok ts o c Hc) as (c1 & -> & H1 & Hd1). cbn [mbind res_bind].
  destruct (IH c1 H1) as (c2 & -> & H2 & Hd2). exists c2. split; [done|]. split; [done|]. auto.
Qed.

(** C38. No method panics, whatever the types and whatever the tasks do to the queues
    in between: the channels of a type are always found as those of its type, and
    exactly the types that were not registered are reported as such. These are the
    [try_] methods and the polls of the asynchronous ones, which report such a type;
    [send], [recv], [flush] and [statistics] panic on it by design, and are apart. *)
Theorem methods_total ts ops (c : MessageChannels) : channels_ok ts c ->
  exists c', handle_run ops c = Val (c', (fun o => negb (bool_decide (handle_type o ∈ ts))) <$> ops) /\ channels_ok ts c'.
Proof. intros Hc. destruct (handle_run_ok ts ops c Hc) as (c' & Hrun & Hok & _). by exists c'. Qed.

(** [send], [recv], [flush], [async_send] and [async_recv] give the results of the methods
    above for the types that are registered, and panic for the others. *)
Lemma or_panic_registered {A} (m : res (MessageChannels * (A + MessageTypeUnregistered))) (c : MessageChannels) (r : A + MessageTypeUnregistered) :
  m = Val (c, r) -> or_panic m = match r with inl a => Val (c, a) | inr _ => Fault UnwrapNone end.
Proof. intros ->. by destruct r. Qed.

Theorem unregistered_panics ts t (c : MessageChannels) w item : channels_ok ts c -> t ∉ ts ->
  (forall message, msg_send t message c = Fault UnwrapNone) /\ msg_recv t c = Fault UnwrapNone /\ msg_flush t c = Fault UnwrapNone /\
  msg_statistics t c = Fault UnwrapNone /\ async_send w t item c = Fault AssertFailed /\ async_recv w t c = Fault AssertFailed.
Proof.
  intros Hc Ht. pose proof (get_unregistered ts t c Hc Ht) as Hg.
  unfold msg_send, msg_recv, msg_flush, msg_statistics, async_send, async_recv, or_panic, try_send, try_recv, try_flush, try_statistics,
    poll_async_send, poll_async_recv, with_channels. by rewrite Hg.
Qed.

(** A disconnected [MessageChannels] stays so: after any calls, messages that are to
    be sent come back, and none is received, whatever is in the queues. *)
Theorem disconnected_for_good ts ops (c : MessageChannels) : channels_ok ts c -> disconnected c = true ->
  exists c' rs, handle_run ops c = Val (c', rs) /\ is_connected c' = false /\
    forall t, t ∈ ts -> (forall message, try_send t message c' = Val (c', inl (Some message))) /\ try_recv t c' = Val (c', inl None).
Proof.
  intros Hc Hd. destruct (handle_run_ok ts ops c Hc) as (c' & Hrun & Hok & Hd'). specialize (Hd' Hd).
  eexists c', _. split; [exact Hrun|]. split; [unfold is_connected; by rewrite Hd'|]. intros t Ht.
  destruct (get_registered ts t c' Hok Ht) as (s & _ & Hg). unfold try_send, try_recv, with_channels. rewrite Hg. cbn [mbind res_bind].
  by rewrite Hd'.
Qed.

(** [try_send] of a registered type on connected channels: the message is taken, at
    the end of the queue, or it comes back and the queue is as it was; it comes back
    and disconnects the channels exactly when the task has dropped its end. *)
Theorem try_send_correct ts t s message (c : MessageChannels) :
  channels_ok ts c -> disconnected c = false -> channels_ c !! t = Some (mkAnySet t s) ->
  exists l r, try_send t message c = Val (mkMessageChannels (negb (cb_receiver (channel_ (l_outgoing (cs_link s)))))
      (<[t := mkAnySet t (mkChannelSet l (cs_statistics s))]> (channels_ c)), inl r) /\
    (r = None \/ r = Some message) /\
    l_incoming l = l_incoming (cs_link s) /\ l_flush l = l_flush (cs_link s) /\
    cb_items (channel_ (l_outgoing l)) ++ option_list (l_outgoing_slot l) =
      (cb_items (channel_ (l_outgoing (cs_link s))) ++ option_list (l_outgoing_slot (cs_link s))) ++
        match r with None => [message] | Some _ => [] end /\
    (r = None -> cb_receiver (channel_ (l_outgoing (cs_link s))) = true).
Proof.
  intros [Hm Hdom] Hd Ht. pose proof (ChannelsMap_get_ok _ t Hm) as Hg. rewrite Ht in Hg. destruct Hg as (s' & Heq & Hg).
  assert (s' = s) as -> by (pose proof (downcast_same t s) as H1; rewrite Heq, downcast_same in H1; congruence).
  unfold try_send, with_channels. rewrite Hg. cbn [mbind res_bind]. rewrite Hd. unfold link_try_send.
  destruct (try_send_slot_run (l_outgoing_slot (cs_link s)) message (l_outgoing (cs_link s)))
    as (sh & slot & r & -> & _ & Hitems & Halive & Hr & _).
  destruct r as [[]|[u|u]]; unfold set_link, set_disconnected; cbn [disconnected channels_]; rewrite Halive, ?Hd; cbn [negb].
  - eexists _, None. split; [done|]. split_and!; try done. by left.
  - subst u. eexists _, (Some message). split; [done|]. split_and!; try done. by right.
  - subst u. eexists _, (Some message). split; [done|]. split_and!; try done. by right.
Qed.
End handle.

(** * Examples *)

Module ChannelsExample.
Import Example.
(** Numbers and truth values as messages. *)
#[export] Instance example_types : MessageTypes := {|
  TypeId := bool;
  TypeId_eq := _;
  TypeId_countable := _;
  Message t := if t : bool then Z else bool;
  type_name t := if t : bool then "i64" else "bool";
  into_iter A m := map_to_list m;
  into_iter_ok A m := reflexivity _;
|}.

Definition example_settings (n : Z) : MessageChannelSettings :=
  mkMessageChannelSettings n (MessageChannels.Unreliable (mkUnreliableSettings 1000 1500)) 1 4.

Definition reliable_settings (n : Z) : MessageChannelSettings := mkMessageChannelSettings n (Reliable Example.settings) 1 4.

Definition number : TypeId := true.
Definition truth : TypeId := false.
Definition five : Message number := 5.
Definition six : Message number := 6.
Definition yes : Message truth := true.

Definition example_mux : PacketMultiplexer BufferPacket (list_queue (MuxPacket BufferPacket)) (option Z) Z := PacketMultiplexer_new.
Definition example_registered : list (TypeId * MessageChannelSettings) :=
  [(number, example_settings 1); (number, example_settings 2); (truth, example_settings 2); (truth, reliable_settings 3)].
Abbreviation example_channels := (MessageChannels (W := option Z) (K := Z) (Q := list_queue)).

(** The builder, with a timer and buffers. *)
#[export] Instance example_sink : ChannelSink bool BufferPacket := {| channel_sink _ _ := true |}.
Definition example_builder : MessageChannelsBuilder := MessageChannelsBuilder_new 0%nat (mkBufferPacketPool true).

(** One type is registered. *)
Definition example_handle (d : bool) : example_channels :=
  mkMessageChannels d {[ number := mkAnySet number (mkChannelSet (link_new 1) 1) ]}.
End ChannelsExample.

Import Example ChannelsExample.

Lemma example_handle_ok d : channels_ok {[ number ]} (example_handle d).
Proof.
  split; cbn [channels_ example_handle]; [|apply dom_singleton_L].
  intros t a [<- <-]%lookup_singleton_Some. reflexivity.
Qed.

Lemma duplicate_type_takes_channel_witness :
  let b := (register number (example_settings 1) example_builder).1 in
  exists b', register number (example_settings 2) b = (b', inr Registered_MessageType) /\
    register truth (example_settings 2) b' = (b', inr Registered_Channel).
Proof.
  intros b. destruct (duplicate_type_takes_channel number (example_settings 2) ("i64"%string, example_settings 1) b truth (example_settings 2))
    as (b' & H1 & H2 & _); [exact (register_ok _ _ _ (builder_new_ok _ _))|reflexivity|vm_compute; congruence|reflexivity|].
  exists b'. split; [exact H1|exact H2].
Defined.

Abbreviation example_started := (StartedTask (T := nat) (Instant := nat) (Pool := BufferPacketPool bool) (Snd := bool) (Sl := bool)
  (BE := unit) (SE := unit) (P := BufferPacket) (Qp := list_queue (MuxPacket BufferPacket)) (W := option Z) (K := Z)).

Lemma reliable_settings_ok : settings_ok Example.settings.
Proof. constructor; vm_compute; repeat split; discriminate || reflexivity. Qed.

(** Of the four registrations the first and the last are good. *)
Lemma example_register_fns : register_fns (register_many example_registered example_builder) =
  <[truth := ("bool"%string, reliable_settings 3)]> {[ number := ("i64"%string, example_settings 1) ]}.
Proof. vm_compute. reflexivity. Qed.

Lemma build_opens_all_witness : exists m' (c : example_channels) (tasks : list example_started),
  build (register_many example_registered example_builder) example_mux = Val (m', c, tasks) /\ is_connected c = true.
Proof.
  destruct (build_opens_all (Q := list_queue) (BE := unit) (SE := unit) (Sl := bool) 0%nat (mkBufferPacketPool true) example_registered example_mux)
    as (m' & c & tasks & H1 & H2 & _).
  - intros t ns Ht. split; [|reflexivity]. change (register_fns (register_many example_registered example_builder) !! t = Some ns) in Ht.
    rewrite example_register_fns in Ht. apply lookup_insert_Some in Ht as [[_ <-]|[_ Ht]]; [exact reliable_settings_ok|].
    apply lookup_singleton_Some in Ht as [_ <-]. exact I.
  - exists m', c, tasks. split; [exact H1|exact H2].
Defined.

Lemma methods_total_witness : exists c',
  handle_run [HandleSend number five; HandleSend number six; HandleSend truth yes; HandleRecv number] (example_handle false) =
    Val (c', [false; false; true; false]).
Proof.
  destruct (methods_total {[ number ]} [HandleSend number five; HandleSend number six; HandleSend truth yes; HandleRecv number] (example_handle false)
    (example_handle_ok false)) as (c' & Hrun & _). exists c'. exact Hrun.
Defined.

Lemma disconnected_for_good_witness : exists c' rs,
  handle_run [HandleRecv number; HandleSend number five] (example_handle true) = Val (c', rs) /\ is_connected c' = false.
Proof.
  destruct (disconnected_for_good {[ number ]} [HandleRecv number; HandleSend number five] (example_handle true) (example_handle_ok true) eq_refl)
    as (c' & rs & Hrun & Hd & _). exists c', rs. split; [exact Hrun|exact Hd].
Defined.

Definition try_send_result (r : res (example_channels * (option (Message number) + MessageTypeUnregistered))) :=
  match r with Val (_, r) => Some r | Fault _ => None end.
Lemma example_sent : try_send_result (try_send number five (example_handle false)) = Some (inl None).
Proof. vm_compute. reflexivity. Qed.

Lemma try_send_correct_witness : exists c', try_send number five (example_handle false) = Val (c', inl None) /\
  exists l, channels_ c' = <[number := mkAnySet number (mkChannelSet l 1)]> (channels_ (example_handle false)) /\
    cb_items (channel_ (l_outgoing l)) ++ option_list (l_outgoing_slot l) = [five].
Proof.
  destruct (try_send_correct {[ number ]} number (mkChannelSet (link_new 1) 1) five (example_handle false) (example_handle_ok false)
    eq_refl (lookup_singleton_eq _ _)) as (l & r & Hrun & _ & _ & _ & Hitems & _).
  pose proof example_sent as Hs. rewrite Hrun in Hs. injection Hs as ->.
  eexists. split; [exact Hrun|]. exists l. split; [reflexivity|exact Hitems].
Defined.
