(* ===== verification/JoinedTasks.v ===== *)
(** The future that [MessageChannelsBuilder::build] spawns: it joins the tasks of all
    message types, and ends with the error of the first one that fails; and
    [recv_err], which waits for that error. *)

From stdpp Require Import gmap strings.
From S2P Require Import Prelude BandwidthLimiter Packet Wire ReliableChannel Async Spsc SpscSafety EventWatch Unreliable Mux.
From S2P Require Import Bincode MessageChannel Compressed CompressedMessages Messages UnreliableBincode ChannelTask.
From S2P Require Import MessageChannels MessageChannelsSafety.

(** * The errors *)

Definition task_error {E E' BE SE} (f : E -> E') (e : TaskError E BE SE) : TaskError E' BE SE :=
  match e with
  | TaskError_Channel e => TaskError_Channel (f e)
  | TaskError_Bincode e => TaskError_Bincode e
  | TaskError_Snap e => TaskError_Snap e
  end.

(** What the error of a task is, in its box. *)
Inductive JoinedError (E : Type) :=
| TaskEnded (e : TaskFailure E)
| NoTasks.
Arguments TaskEnded {E} _.
Arguments NoTasks {E}.

Record ChannelTaskError (E : Type) := mkChannelTaskError {
  ce_type_name : string;
  ce_error : JoinedError E;
}.
Arguments mkChannelTaskError {E} _ _.
Arguments ce_type_name {E} _.
Arguments ce_error {E} _.

(** * Dropped ends *)

Section drop.
Context {M Q W K : Type} {CB : Crossbeam Q M} {AW : AtomicWaker W K}.

(** The ends of a task: the sender of incoming messages, with what is in its slot, and
    the receiver of outgoing ones; that of the flag does nothing when it is dropped. *)
Definition drop_task_ends (l : link Q W K M) : link Q W K M :=
  set_incoming (snd_run Sender_drop (l_incoming l)).1 None
    (set_outgoing (rcv_run Receiver_drop (l_outgoing l)).1 (l_outgoing_slot l) l).

(** The ends of the user. *)
Definition drop_user_ends (l : link Q W K M) : link Q W K M :=
  set_incoming (rcv_run Receiver_drop (l_incoming l)).1 (l_incoming_slot l)
    (set_outgoing (snd_run Sender_drop (l_outgoing l)).1 None l).
End drop.

Section joined_tasks.
Context {MT : MessageTypes}.
Context {T Instant Pool Snd Sl BE SE : Type}.
Context {P Qp W K : Type} {Q : Type -> Type} {PI : Packet P} {PPI : PacketPool Pool P} {TI : Timer T Instant}.
Context {SLP : Sleeper T Sl K} {SI : PacketSink Snd (MuxPacket P)} {BO : ByteOrder} {SN : Snap SE}.
Context {BC : forall t, Bincode (Message t) BE}.
Context {CBp : Crossbeam Qp (MuxPacket P)} {CB : forall A, Crossbeam (Q A) A} {AW : AtomicWaker W K}.

Abbreviation ChannelsMap := (gmap TypeId (AnySet (W := W) (K := K) (Q := Q))).
Abbreviation MessageChannels := (MessageChannels (W := W) (K := K) (Q := Q)).
Abbreviation TypedChannel := (TypedChannel (T := T) (Instant := Instant) (Pool := Pool) (Snd := Snd) (Sl := Sl)
  (P := P) (Qp := Qp) (W := W) (K := K)).
Abbreviation TypedError := (TypedError (BE := BE) (SE := SE)).
Abbreviation StartedTask := (StartedTask (T := T) (Instant := Instant) (Pool := Pool) (Snd := Snd) (Sl := Sl) (BE := BE) (SE := SE)
  (P := P) (Qp := Qp) (W := W) (K := K)).

(** * The tasks *)

(** A call on the channel of one mode. *)
Definition in_mode {M Ch A E E'} (mode : Ch -> TypedChannel M) (f : E -> E') (m : polling Ch E A) (c : Ch)
    : res (TypedChannel M * (A + option E')) :=
  '(c, r) ← map_err f m c; Val (mode c, r).

(** The channel of a message type, whatever its mode; [fuel] bounds the chunks that
    one call on a compressed channel reads. *)
Definition typed_message_channel (fuel : nat) (t : TypeId) : MessageChannel (TypedChannel (Message t)) K (Message t) TypedError :=
  let reliable := reliable_message_channel in
  let compressed := compressed_message_channel fuel in
  let unreliable := unreliable_message_channel in {|
  mc_poll_recv w c :=
    match c with
    | UnreliableTyped c => in_mode UnreliableTyped (task_error inr) (mc_poll_recv (MessageChannel := unreliable) w) c
    | ReliableTyped c => in_mode ReliableTyped (task_error inl) (mc_poll_recv (MessageChannel := reliable) w) c
    | CompressedTyped c => in_mode CompressedTyped (task_error inl) (mc_poll_recv (MessageChannel := compressed) w) c
    end;
  mc_poll_send w msg c :=
    match c with
    | UnreliableTyped c => in_mode UnreliableTyped (task_error inr) (mc_poll_send (MessageChannel := unreliable) w msg) c
    | ReliableTyped c => in_mode ReliableTyped (task_error inl) (mc_poll_send (MessageChannel := reliable) w msg) c
    | CompressedTyped c => in_mode CompressedTyped (task_error inl) (mc_poll_send (MessageChannel := compressed) w msg) c
    end;
  mc_poll_flush w c :=
    match c with
    | UnreliableTyped c => in_mode UnreliableTyped (task_error inr) (mc_poll_flush (M := Message t) (MessageChannel := unreliable) w) c
    | ReliableTyped c => in_mode ReliableTyped (task_error inl) (mc_poll_flush (M := Message t) (MessageChannel := reliable) w) c
    | CompressedTyped c => in_mode CompressedTyped (task_error inl) (mc_poll_flush (M := Message t) (MessageChannel := compressed) w) c
    end;
|}.

(** A poll of a task, which shares its queues with the map of the channels. *)
Definition poll_started (fuel : nat) (b : branch) (w : K) (s : StartedTask) (channels : ChannelsMap)
    : res (StartedTask * ChannelsMap) :=
  any ← unwrap (channels !! st_type s);
  set ← unwrap (downcast (st_type s) any);
  t ← task_poll (MC := typed_message_channel fuel (st_type s)) b w (ChannelTask.mkTask (st_channel s) (cs_link set) (st_phase s));
  Val (mkStartedTask (st_type s) (st_name s) (t_channel t) (t_phase t),
       <[st_type s := mkAnySet (st_type s) (mkChannelSet (t_link t) (cs_statistics set))]> channels).

(** ** What is dropped *)

Definition on_any (f : forall M, link (Q M) W K M -> link (Q M) W K M) (a : AnySet) : AnySet :=
  mkAnySet (any_type a) (mkChannelSet (f _ (cs_link (any_set a))) (cs_statistics (any_set a))).

Definition drop_tasks (tasks : list StartedTask) (channels : ChannelsMap) : ChannelsMap :=
  foldr (fun s => alter (on_any (fun M => drop_task_ends)) (st_type s)) channels tasks.

(** * The future *)

(** What the spawned future has: the tasks, until one has failed; then its result,
    which is what the remote handle gives. *)
Inductive joined :=
| Joining (tasks : list StartedTask)
| Joined (e : ChannelTaskError TypedError).

(** [FuturesUnordered] polls those of the tasks that were woken, one after another,
    until one is ready: here the tasks at the places of [polls], in its order, with the
    branch of the [select!] that each one polls. When a task has failed the others are
    dropped with it. *)
Fixpoint poll_tasks (fuel : nat) (polls : list (nat * branch)) (w : K) (tasks : list StartedTask) (channels : ChannelsMap)
    : res (joined * ChannelsMap) :=
  match polls with
  | [] => Val (Joining tasks, channels)
  | (i, b) :: polls =>
    match tasks !! i with
    | None => poll_tasks fuel polls w tasks channels
    | Some s =>
      '(s, channels) ← poll_started fuel b w s channels;
      match st_phase s with
      | Failed e => Val (Joined (mkChannelTaskError (st_name s) (TaskEnded e)), drop_tasks tasks channels)
      | _ => poll_tasks fuel polls w (<[i := s]> tasks) channels
      end
    end
  end.

(** A poll of the future, until it is ready. *)
Definition joined_poll (fuel : nat) (polls : list (nat * branch)) (w : K) (j : joined) (channels : ChannelsMap)
    : res (joined * ChannelsMap) :=
  match j with
  | Joined _ => Val (j, channels)
  | Joining [] => Val (Joined (mkChannelTaskError "none" NoTasks), channels)
  | Joining tasks => poll_tasks fuel polls w tasks channels
  end.

(** [recv_err] first drops the channels, and then waits for the handle. *)
Definition recv_err (c : MessageChannels) : MessageChannels :=
  mkMessageChannels (disconnected c) (on_any (fun M => drop_user_ends) <$> channels_ c).
Definition poll_recv_err (j : joined) : Poll (ChannelTaskError TypedError) :=
  match j with Joining _ => Pending | Joined e => Ready e end.

(** * The channels and their tasks *)

(** A [MessageChannels], until [recv_err] takes it, and the future of its tasks. *)
Record connection := mkConnection {
  cn_handle : MessageChannels;
  cn_receiving_err : bool;
  cn_joined : joined;
}.

(** The channel of a type, after the multiplexer has used its queues, and the task of a
    reliable channel its state. *)
Definition set_channel (t : TypeId) (c : TypedChannel (Message t)) (s : StartedTask) : StartedTask :=
  match decide (t = st_type s) with
  | left H => mkStartedTask (st_type s) (st_name s) (eq_rect t (fun t => TypedChannel (Message t)) c (st_type s) H) (st_phase s)
  | right _ => s
  end.
Definition channel_acts (t : TypeId) (c : TypedChannel (Message t)) (j : joined) : joined :=
  match j with Joining tasks => Joining (set_channel t c <$> tasks) | Joined _ => j end.

(** Calls of the user, polls of the future, and what others do to the channel of a
    type, which may be anything. *)
Inductive connection_op :=
| Call (o : handle_op (Q := Q) (W := W) (K := K))
| CallRecvErr
| PollJoined (polls : list (nat * branch)) (w : K)
| ChannelActs (t : TypeId) (c : TypedChannel (Message t)).

(** A call needs the handle, and is one of the user's. *)
Definition callable (o : handle_op (Q := Q) (W := W) (K := K)) (c : connection) : bool :=
  negb (cn_receiving_err c) && match o with TaskActs _ _ => false | _ => true end.

Definition connection_exec (fuel : nat) (o : connection_op) (c : connection) : res connection :=
  match o with
  | Call o =>
    if callable o c then
      '(h, _) ← handle_exec o (cn_handle c); Val (mkConnection h (cn_receiving_err c) (cn_joined c))
    else Val c
  | CallRecvErr =>
    if cn_receiving_err c then Val c else Val (mkConnection (recv_err (cn_handle c)) true (cn_joined c))
  | PollJoined polls w =>
    '(j, channels) ← joined_poll fuel polls w (cn_joined c) (channels_ (cn_handle c));
    Val (mkConnection (mkMessageChannels (disconnected (cn_handle c)) channels) (cn_receiving_err c) j)
  | ChannelActs t ch => Val (mkConnection (cn_handle c) (cn_receiving_err c) (channel_acts t ch (cn_joined c)))
  end.

Fixpoint connection_run (fuel : nat) (ops : list connection_op) (c : connection) : res connection :=
  match ops with
  | [] => Val c
  | o :: ops => c ← connection_exec fuel o c; connection_run fuel ops c
  end.
End joined_tasks.
