(* ===== verification/JoinedTasksSafety.v ===== *)
(** What the joined tasks of [MessageChannels] guarantee: the channels are disconnected
    only after a task has failed, whose error [recv_err] then gives; once a task has
    failed all of them are disconnected; and [recv_err] ends the tasks. *)

From stdpp Require Import gmap strings.
From S2P Require Import Prelude BandwidthLimiter Packet Wire ReliableChannel ReliableSafety Async Spsc SpscSafety EventWatch Unreliable Mux.
From S2P Require Import Bincode MessageChannel Compressed CompressedSafety ChannelTask MessageChannels MessageChannelsSafety JoinedTasks.

(** * The ends of the queues *)

Section ends.
Context {M Q W K : Type} {CB : Crossbeam Q M} {CL : CrossbeamLaws Q M} {AW : AtomicWaker W K}.

Abbreviation link := (link Q W K M).

(** Whether the ends of the user, and those of the task, are alive. *)
Definition user_ends (v : bool) (l : link) : Prop :=
  cb_sender (channel_ (l_outgoing l)) = v /\ cb_receiver (channel_ (l_incoming l)) = v.
Definition task_ends (v : bool) (l : link) : Prop :=
  cb_receiver (channel_ (l_outgoing l)) = v /\ cb_sender (channel_ (l_incoming l)) = v.

(** No call but a drop changes that. *)
Definition same_ends (l l' : link) : Prop :=
  same_queue (l_outgoing l) (l_outgoing l') /\ same_queue (l_incoming l) (l_incoming l').

#[export] Instance same_ends_preorder : PreOrder same_ends.
Proof.
  split; [intros l; split; apply same_queue_refl|].
  intros l1 l2 l3 [] []. split; eapply same_queue_trans; eassumption.
Qed.

Lemma same_ends_user v l l' : same_ends l l' -> user_ends v l -> user_ends v l'.
Proof. intros [(_ & H1 & _) (_ & _ & H2)] [H3 H4]. split; congruence. Qed.
Lemma same_ends_task v l l' : same_ends l l' -> task_ends v l -> task_ends v l'.
Proof. intros [(_ & _ & H1) (_ & H2 & _)] [H3 H4]. split; congruence. Qed.

Lemma same_ends_outgoing (l : link) sh slot : same_queue (l_outgoing l) sh -> same_ends l (set_outgoing sh slot l).
Proof. intros H. split; [exact H|apply same_queue_refl]. Qed.
Lemma same_ends_incoming (l : link) sh slot : same_queue (l_incoming l) sh -> same_ends l (set_incoming sh slot l).
Proof. intros H. split; [apply same_queue_refl|exact H]. Qed.

Lemma link_try_send_ends msg (l : link) : same_ends l (link_try_send msg l).1.
Proof.
  unfold link_try_send. destruct (try_send_slot_run (l_outgoing_slot l) msg (l_outgoing l)) as (sh & slot & r & -> & Hs & _).
  by apply same_ends_outgoing.
Qed.
Lemma link_try_recv_ends (l : link) : same_ends l (link_try_recv l).1.
Proof. unfold link_try_recv. destruct (try_recv_run (l_incoming l)) as (sh & r & -> & Hs & _). by apply same_ends_incoming. Qed.
Lemma link_poll_recv_ends w (l : link) : same_ends l (link_poll_recv w l).1.
Proof. unfold link_poll_recv. destruct (poll_next_run w (l_incoming l)) as (sh & r & -> & Hs & _). by apply same_ends_incoming. Qed.

(** A dropped end is gone, and the other one as it was. *)
Lemma drop_task_ends_gone v (l : link) : user_ends v l -> user_ends v (drop_task_ends l) /\ task_ends false (drop_task_ends l).
Proof.
  intros [Hs Hr]. unfold user_ends, task_ends, drop_task_ends, Sender_drop, Receiver_drop. cbn.
  rewrite wake_send_channel, wake_recv_channel.
  pose proof (cb_drop_receiver_ok (channel_ (l_outgoing l))) as (_ & -> & ->).
  pose proof (cb_drop_sender_ok (channel_ (l_incoming l))) as (_ & _ & -> & ->). done.
Qed.
Lemma drop_user_ends_gone v (l : link) : task_ends v l -> task_ends v (drop_user_ends l) /\ user_ends false (drop_user_ends l).
Proof.
  intros [Hs Hr]. unfold user_ends, task_ends, drop_user_ends, Sender_drop, Receiver_drop. cbn.
  rewrite wake_send_channel, wake_recv_channel.
  pose proof (cb_drop_sender_ok (channel_ (l_outgoing l))) as (_ & _ & -> & ->).
  pose proof (cb_drop_receiver_ok (channel_ (l_incoming l))) as (_ & -> & ->). done.
Qed.

Lemma link_new_ends n : user_ends true (link_new n : link) /\ task_ends true (link_new n : link).
Proof. unfold user_ends, task_ends, link_new, Spsc.channel. cbn. by destruct (cb_bounded_ok n) as (_ & _ & -> & ->). Qed.

(** [link_poll_send], which fails only if the task is gone: flushing. *)
Lemma flush_outgoing slot w (l l' : link) item r :
  (let '(sh, (slot, r)) := snd_run (Sender_poll_flush slot w) (l_outgoing l) in Val (set_outgoing sh slot l, None : option M, r)) = Val (l', item, r) ->
  same_ends l l' /\ match r with Ready (inr _) => cb_receiver (channel_ (l_outgoing l)) = false | _ => True end.
Proof.
  unfold Sender_poll_flush. destruct (poll_ready_run slot w (l_outgoing l)) as (sh & slot' & r' & -> & Hs & Hr).
  intros [= <- _ <-]. split; [by apply same_ends_outgoing|]. by destruct r' as [|[|]]; [..|apply Hr].
Qed.

(** ** A poll of a task *)

Context {Ch E : Type} {MC : MessageChannel Ch K M E}.

Lemma poll_sender_flush_ends w (t : task Ch Q W K M E) : same_ends (t_link t) (t_link (poll_sender_flush w t)).
Proof.
  unfold poll_sender_flush, Sender_poll_flush.
  destruct (poll_ready_run (l_incoming_slot (t_link t)) w (l_incoming (t_link t))) as (sh & slot & r & -> & Hs & _).
  by apply same_ends_incoming.
Qed.

Lemma task_poll_ends b w (t t' : task Ch Q W K M E) : task_poll b w t = Val t' -> same_ends (t_link t) (t_link t').
Proof.
  unfold task_poll. destruct (t_phase t) as [|item|msg| |msg| |]; intros H.
  - destruct b; cbn [poll_select] in H.
    + apply bind_val in H as ([ch r] & _ & [= <-]). reflexivity.
    + destruct (poll_next_run w (l_outgoing (t_link t))) as (sh & r & Hrun & Hs & _). rewrite Hrun in H. injection H as <-.
      by apply same_ends_outgoing.
    + destruct (ew_run _ _) as [ev r]. injection H as <-. split; apply same_queue_refl.
  - unfold poll_sender_send in H. destruct item as [m|]; [|injection H as <-; apply poll_sender_flush_ends].
    destruct (poll_ready_run (l_incoming_slot (t_link t)) w (l_incoming (t_link t))) as (sh & slot & r & Hrun & Hs & _).
    rewrite Hrun in H. destruct r as [|[[]|e]]; [injection H as <-; by apply same_ends_incoming| |injection H as <-; by apply same_ends_incoming].
    apply bind_val in H as (slot' & _ & [= <-]). etrans; [by apply (same_ends_incoming _ sh slot')|].
    exact (poll_sender_flush_ends w (ChannelTask.mkTask (t_channel t) (set_incoming sh slot' (t_link t)) (SendingIncoming None))).
  - apply bind_val in H as ([ch r] & _ & [= <-]). reflexivity.
  - destruct (try_recv_run (l_outgoing (t_link t))) as (sh & r & Hrun & Hs & _). rewrite Hrun in H. injection H as <-.
    by apply same_ends_outgoing.
  - apply bind_val in H as ([ch r] & _ & [= <-]). reflexivity.
  - apply bind_val in H as ([ch r] & _ & [= <-]). reflexivity.
  - injection H as <-. reflexivity.
Qed.

(** A task with nothing to send, whose user is gone, ends when it looks for messages. *)
Lemma abandoned_task_ends b w (t : task Ch Q W K M E) :
  user_ends false (t_link t) -> cb_items (channel_ (l_outgoing (t_link t))) = [] ->
  (t_phase t = Selecting /\ b = Branch_Outgoing) \/ t_phase t = FlushReceiving ->
  exists l, task_poll b w t = Val (ChannelTask.mkTask (t_channel t) l (Failed ChannelDisconnected)).
Proof.
  intros [Hs _] Hi [[Hp ->]|Hp]; unfold task_poll; rewrite Hp; cbn [poll_select].
  - destruct (poll_next_run w (l_outgoing (t_link t))) as (sh & r & -> & _ & Hr). rewrite Hi, Hs in Hr.
    destruct Hr as [-> _]. by eexists.
  - destruct (try_recv_run (l_outgoing (t_link t))) as (sh & r & -> & _ & Hr). rewrite Hi, Hs in Hr. destruct Hr as [-> _]. by eexists.
Qed.
End ends.

(** * The channels and their tasks *)

Section connection.
Context {MT : MessageTypes}.
Context {T Instant Pool Snd Sl BE SE : Type}.
Context {P Qp W K : Type} {Q : Type -> Type} {PI : Packet P} {PPI : PacketPool Pool P} {TI : Timer T Instant}.
Context {SLP : Sleeper T Sl K} {SI : PacketSink Snd (MuxPacket P)} {BO : ByteOrder} {SN : Snap SE}.
Context {BC : forall t, Bincode (Message t) BE} {CS : ChannelSink Snd P}.
Context {CBp : Crossbeam Qp (MuxPacket P)} {CB : forall A, Crossbeam (Q A) A} {CL : forall A, CrossbeamLaws (Q A) A}.
Context {AW : AtomicWaker W K}.

Abbreviation AnySet := (AnySet (W := W) (K := K) (Q := Q)).
Abbreviation ChannelsMap := (gmap TypeId AnySet).
Abbreviation MessageChannels := (MessageChannels (W := W) (K := K) (Q := Q)).
Abbreviation StartedTask := (StartedTask (T := T) (Instant := Instant) (Pool := Pool) (Snd := Snd) (Sl := Sl) (BE := BE) (SE := SE)
  (P := P) (Qp := Qp) (W := W) (K := K)).
Abbreviation joined := (joined (T := T) (Instant := Instant) (Pool := Pool) (Snd := Snd) (Sl := Sl) (BE := BE) (SE := SE)
  (P := P) (Qp := Qp) (W := W) (K := K)).
Abbreviation connection := (connection (T := T) (Instant := Instant) (Pool := Pool) (Snd := Snd) (Sl := Sl) (BE := BE) (SE := SE)
  (P := P) (Qp := Qp) (W := W) (K := K) (Q := Q)).
Abbreviation Multiplexer := (PacketMultiplexer P Qp W K).

(** The queues of an entry, and the ends of all entries. *)
Abbreviation any_link a := (cs_link (any_set (a : AnySet))).
Definition ends_are (user task : bool) (channels : ChannelsMap) : Prop :=
  forall t a, channels !! t = Some a -> user_ends user (any_link a) /\ task_ends task (any_link a).

Lemma ends_insert u v channels t s l : ends_are u v channels -> channels !! t = Some (mkAnySet t s) -> same_ends (cs_link s) l ->
  ends_are u v (<[t := mkAnySet t (mkChannelSet l (cs_statistics s))]> channels).
Proof.
  intros H Ht Hl t' a [[<- <-]|[_ Ha]]%lookup_insert_Some; [|by eapply H].
  destruct (H _ _ Ht) as [Hu Hv]. split; [by eapply same_ends_user|by eapply same_ends_task].
Qed.

(** ** A poll of a started task *)

Lemma typed_lookup (channels : ChannelsMap) t a :
  map_typed channels -> channels !! t = Some a -> exists s, channels !! t = Some (mkAnySet t s) /\ downcast t a = Some s.
Proof. intros Hm Ha. destruct (typed_entry _ _ _ Hm Ha) as [s ->]. exists s. split; [done|]. apply downcast_same. Qed.

Lemma poll_started_ok fuel b w (s s' : StartedTask) (channels channels' : ChannelsMap) u v :
  map_typed channels -> ends_are u v channels -> poll_started fuel b w s channels = Val (s', channels') ->
  map_typed channels' /\ dom channels' = dom channels /\ ends_are u v channels' /\ st_type s' = st_type s /\ st_name s' = st_name s.
Proof.
  intros Hm Hends H. unfold poll_started in H. destruct (channels !! st_type s) as [a|] eqn:Ha; [|done].
  destruct (typed_lookup _ _ _ Hm Ha) as (set & Hset & Hd). cbn [unwrap mbind res_bind] in H. rewrite Hd in H. cbn [unwrap mbind res_bind] in H.
  apply bind_val in H as (t & Ht%task_poll_ends & [= <- <-]). cbn [t_link] in Ht.
  split; [by apply map_typed_insert|]. split; [rewrite dom_insert_L; apply elem_of_dom_2 in Ha; set_solver|].
  split; [by apply ends_insert|done].
Qed.

(** ** Dropping *)

Lemma drop_tasks_ok (tasks : list StartedTask) (channels : ChannelsMap) : map_typed channels ->
  map_typed (drop_tasks tasks channels) /\ dom (drop_tasks tasks channels) = dom channels /\
  forall t a u v, drop_tasks tasks channels !! t = Some a ->
    (forall a0, channels !! t = Some a0 -> user_ends u (any_link a0) /\ task_ends v (any_link a0)) ->
    user_ends u (any_link a) /\ (t ∈ st_type <$> tasks -> task_ends false (any_link a)) /\ (t ∉ st_type <$> tasks -> task_ends v (any_link a)).
Proof.
  intros Hm. induction tasks as [|s tasks (IHm & IHd & IH)]; cbn [drop_tasks foldr].
  { split; [done|]. split; [done|]. intros t a u v Ha H0. destruct (H0 _ Ha) as [Hu Hv]. split; [done|]. split; [|done].
    intros Hin. by apply not_elem_of_nil in Hin. }
  fold (drop_tasks tasks channels). split; [|split].
  - intros t a Ha. apply lookup_alter_Some in Ha as [(<- & a0 & Ha0 & ->)|[_ Ha]]; [exact (IHm _ _ Ha0)|exact (IHm _ _ Ha)].
  - rewrite <- IHd. apply set_eq. intros t. rewrite !elem_of_dom. apply lookup_alter_is_Some.
  - intros t a u v Ha H0. rewrite fmap_cons, elem_of_cons.
    apply lookup_alter_Some in Ha as [(<- & a0 & Ha0 & ->)|[Hne Ha]].
    + destruct (IH _ _ _ _ Ha0 H0) as (Hu & _). destruct (drop_task_ends_gone _ _ Hu) as [Hu' Hv'].
      split; [exact Hu'|]. split; [intros _; exact Hv'|]. intros Hnin. destruct Hnin. by left.
    + destruct (IH _ _ _ _ Ha H0) as (Hu & Hin & Hnin). split; [done|]. split.
      * intros [->|Hi]; [done|]. by apply Hin.
      * intros Hn. apply Hnin. intros Hi. apply Hn. by right.
Qed.

(** ** The invariant *)

(** Of the message types with names [names]: as long as the tasks are joined, all of
    them are running, and both ends of all queues are alive; afterwards the tasks' ends
    are gone. *)
Record connection_inv (names : list (TypeId * string)) (c : connection) : Prop := {
  cv_typed : map_typed (channels_ (cn_handle c));
  cv_dom : dom (channels_ (cn_handle c)) = list_to_set names.*1;
  cv_ends : ends_are (negb (cn_receiving_err c)) (match cn_joined c with Joining _ => true | Joined _ => false end) (channels_ (cn_handle c));
  cv_joined : match cn_joined c with
    | Joining tasks => ((fun s => (st_type s, st_name s)) <$> tasks = names) /\ disconnected (cn_handle c) = false
    | Joined _ => True
    end;
}.

Lemma tasks_types (tasks : list StartedTask) names :
  (fun s => (st_type s, st_name s)) <$> tasks = names -> st_type <$> tasks = names.*1.
Proof. intros <-. rewrite <- list_fmap_compose. done. Qed.

Lemma poll_tasks_ok fuel polls w names : forall (tasks : list StartedTask) (channels : ChannelsMap) j channels' u,
  map_typed channels -> dom channels = list_to_set names.*1 -> ends_are u true channels ->
  (fun s => (st_type s, st_name s)) <$> tasks = names ->
  poll_tasks fuel polls w tasks channels = Val (j, channels') ->
  map_typed channels' /\ dom channels' = list_to_set names.*1 /\
  match j with
  | Joining tasks => ends_are u true channels' /\ (fun s => (st_type s, st_name s)) <$> tasks = names
  | Joined _ => ends_are u false channels'
  end.
Proof.
  induction polls as [|[i b] polls IH]; intros tasks channels j channels' u Hm Hd Hends Hn; cbn [poll_tasks].
  { by intros [= <- <-]. }
  destruct (tasks !! i) as [s|] eqn:Hi; [|by apply IH]. intros H.
  apply bind_val in H as ([s1 channels1] & H1 & H).
  destruct (poll_started_ok _ _ _ _ _ _ _ _ _ Hm Hends H1) as (Hm1 & Hd1 & Hends1 & Hty & Hname).
  assert ((fun s => (st_type s, st_name s)) <$> <[i:=s1]> tasks = names) as Hn1.
  { rewrite list_fmap_insert, Hty, Hname. rewrite list_insert_id; [done|]. by rewrite list_lookup_fmap, Hi. }
  destruct (st_phase s1) as [|item|msg| |msg| |e] eqn:Hp; try (eapply IH; [exact Hm1|by rewrite Hd1|exact Hends1|exact Hn1|exact H]).
  injection H as <- <-. destruct (drop_tasks_ok tasks channels1 Hm1) as (Hm2 & Hd2 & Hends2).
  split; [done|]. split; [by rewrite Hd2, Hd1|].
  intros t a Ha. destruct (Hends2 t a u true Ha) as (Hu & Hin & _); [intros a0 Ha0; by apply (Hends1 t)|]. split; [done|].
  apply Hin. rewrite (tasks_types _ _ Hn). apply elem_of_dom_2 in Ha. rewrite Hd2, Hd1, Hd in Ha. by apply elem_of_list_to_set in Ha.
Qed.

(** ** What the user calls *)

Lemma link_poll_send_ends {M} (item : option M) w (l l' : link (Q M) W K M) item' r : link_poll_send item w l = Val (l', item', r) ->
  same_ends l l' /\ match r with Ready (inr _) => cb_receiver (channel_ (l_outgoing l)) = false | _ => True end.
Proof.
  unfold link_poll_send. destruct item as [m|]; [|apply flush_outgoing].
  destruct (poll_ready_run (l_outgoing_slot l) w (l_outgoing l)) as (sh & slot & r1 & -> & Hs & Hr).
  destruct r1 as [|[[]|e]]; [intros [= <- _ <-]; by split; [apply same_ends_outgoing|]| |intros [= <- _ <-]; by split; [apply same_ends_outgoing|apply Hr]].
  intros H. apply bind_val in H as (slot' & _ & H).
  assert (same_ends l (set_outgoing sh slot' l)) as Hl by by apply same_ends_outgoing.
  destruct (flush_outgoing slot' w (set_outgoing sh slot' l) l' item' r H) as [Hf Hd].
  split; [etrans; [exact Hl|exact Hf]|]. destruct r as [|[|]]; try done. destruct Hs as (_ & _ & Hs). cbn in Hd. by rewrite Hs in Hd.
Qed.

Lemma handle_exec_ends ts o (c c' : MessageChannels) r u v :
  channels_ok ts c -> ends_are u v (channels_ c) -> match o with TaskActs _ _ => False | _ => True end ->
  handle_exec o c = Val (c', r) ->
  ends_are u v (channels_ c') /\ (v = true -> disconnected c' = disconnected c).
Proof.
  intros Hc Hends Ho H. destruct (decide (handle_type o ∈ ts)) as [Ht|Ht].
  - destruct (get_registered ts (handle_type o) c Hc Ht) as (s & Hs & Hg). destruct (Hends _ _ Hs) as [_ [Hv1 Hv2]]. cbn [any_set any_type] in *.
    destruct o as [t m|t|t|t|w t item|w t|t l]; cbn [handle_type] in *; cbn [handle_exec] in H; [..|done];
      unfold try_send, try_recv, try_flush, try_statistics, poll_async_send, poll_async_recv, with_channels in H; rewrite Hg in H;
      cbn [mbind res_bind] in H; try (destruct (disconnected c) eqn:Hd; [by injection H as <- _; rewrite Hd|]).
    + pose proof (link_try_send_ends m (cs_link s)) as Hl. unfold link_try_send in *.
      destruct (try_send_slot_run (l_outgoing_slot (cs_link s)) m (l_outgoing (cs_link s))) as (sh & slot & q & Hrun & _ & _ & Hq & _).
      rewrite Hrun in *. destruct q as [[]|[u'|u']]; injection H as <- _; (split; [by apply ends_insert|]); intros ->; cbn; congruence.
    + pose proof (link_try_recv_ends (cs_link s)) as Hl. unfold link_try_recv in *.
      destruct (try_recv_run (l_incoming (cs_link s))) as (sh & q & Hrun & _ & Hq). rewrite Hrun in *.
      assert (v = true -> q <> inr TryRecvError_Disconnected) as Hne.
      { intros ->. rewrite Hv2 in Hq. by destruct (cb_items _); destruct Hq as [-> _]. }
      destruct q as [m|[]]; injection H as <- _; (split; [by apply ends_insert|]); intros Hv; cbn; try done. by destruct (Hne Hv).
    + injection H as <- _. split; [|done]. by apply ends_insert.
    + injection H as <- _. done.
    + apply bind_val in H as ([[c1 item1] q1] & H & H1). apply bind_val in H as ([[l item'] q] & Hl & H).
      injection H1 as <- _. apply link_poll_send_ends in Hl as [Hl Hq].
      destruct q as [|[[]|e]]; injection H as <- _ _; (split; [by apply ends_insert|]); intros ->; cbn; congruence.
    + pose proof (link_poll_recv_ends w (cs_link s)) as Hl. unfold link_poll_recv in *.
      destruct (poll_next_run w (l_incoming (cs_link s))) as (sh & q & Hrun & _ & Hq). rewrite Hrun in *.
      assert (v = true -> q <> Ready None) as Hne.
      { intros ->. rewrite Hv2 in Hq. by destruct (cb_items _); destruct Hq as [-> _]. }
      destruct q as [|[m|]]; injection H as <- _; (split; [by apply ends_insert|]); intros Hv; cbn; try done. by destruct (Hne Hv).
  - pose proof (get_unregistered ts (handle_type o) c Hc Ht) as Hg.
    destruct o; cbn [handle_type] in *; cbn [handle_exec] in H; [..|done];
      unfold try_send, try_recv, try_flush, try_statistics, poll_async_send, poll_async_recv, with_channels in H; rewrite Hg in H;
      by injection H as <- _.
Qed.
(** ** Runs *)

Lemma recv_err_ok (c : MessageChannels) u v : map_typed (channels_ c) -> ends_are u v (channels_ c) ->
  map_typed (channels_ (recv_err c)) /\ dom (channels_ (recv_err c)) = dom (channels_ c) /\ ends_are false v (channels_ (recv_err c)).
Proof.
  intros Hm Hends. cbn [recv_err channels_]. split; [|split].
  - intros t a (a0 & <- & Ha)%lookup_fmap_Some. exact (Hm _ _ Ha).
  - apply dom_fmap_L.
  - intros t a (a0 & <- & Ha)%lookup_fmap_Some. destruct (Hends _ _ Ha) as [_ Hv].
    by destruct (drop_user_ends_gone _ _ Hv).
Qed.

Lemma joined_poll_ok fuel polls w names (c : connection) j channels' : connection_inv names c ->
  joined_poll fuel polls w (cn_joined c) (channels_ (cn_handle c)) = Val (j, channels') ->
  connection_inv names (mkConnection (mkMessageChannels (disconnected (cn_handle c)) channels') (cn_receiving_err c) j).
Proof.
  intros [Hm Hd Hends Hj] H. destruct (cn_joined c) as [tasks|e] eqn:Hc; cbn [joined_poll] in H.
  - destruct Hj as [Hn Hdis]. destruct tasks as [|s tasks].
    + injection H as <- <-. cbn in Hn. subst names. split; cbn; [done|done| |done].
      intros t a Ha. apply elem_of_dom_2 in Ha. rewrite Hd in Ha. by apply elem_of_empty in Ha.
    + destruct (poll_tasks_ok _ _ _ _ _ _ _ _ _ Hm Hd Hends Hn H) as (Hm' & Hd' & Hr).
      destruct j as [tasks'|e]; [destruct Hr as [He Hr]|]; (split; cbn; [done|done|assumption|done]).
  - injection H as <- <-. split; cbn; try done.
Qed.

Lemma set_channel_id t ch (s : StartedTask) : st_type (set_channel t ch s) = st_type s /\ st_name (set_channel t ch s) = st_name s.
Proof. unfold set_channel. by destruct (decide _). Qed.

Lemma connection_exec_ok fuel o names (c c' : connection) :
  connection_inv names c -> connection_exec fuel o c = Val c' -> connection_inv names c'.
Proof.
  intros Hc H. destruct o as [o| |polls w|t ch]; cbn [connection_exec] in H.
  - unfold callable in H. destruct (cn_receiving_err c) eqn:Hr; [by injection H as <-|]. cbn [negb andb] in H.
    destruct Hc as [Hm Hd Hends Hj]. rewrite Hr in Hends.
    assert (match o with TaskActs _ _ => False | _ => True end \/ c = c') as [Ho|<-]; [destruct o; auto; right; by injection H| |by split; rewrite ?Hr].
    assert (('(h, _) ← handle_exec o (cn_handle c); Val (mkConnection h false (cn_joined c))) = Val c') as H1 by (by destruct o).
    apply bind_val in H1 as ([h r] & Hh & [= <-]).
    destruct (handle_exec_ok (list_to_set names.*1) o (cn_handle c)) as (h' & Hh' & [Hm' Hd'] & _); [by split|].
    rewrite Hh in Hh'. injection Hh' as <- _.
    destruct (handle_exec_ends (list_to_set names.*1) o (cn_handle c) h r _ _ (conj Hm Hd) Hends Ho Hh) as [He' Hdis].
    split; cbn; [done..|]. destruct (cn_joined c); [|done]. destruct Hj as [Hn Hj]. split; [done|]. by rewrite Hdis.
  - destruct (cn_receiving_err c) eqn:Hr; injection H as <-; [done|]. destruct Hc as [Hm Hd Hends Hj].
    destruct (recv_err_ok _ _ _ Hm Hends) as (Hm' & Hd' & He'). split; cbn [cn_handle cn_receiving_err cn_joined negb]; [done|by rewrite Hd'|exact He'|exact Hj].
  - apply bind_val in H as ([j channels'] & Hj & [= <-]). by eapply joined_poll_ok.
  - injection H as <-. destruct Hc as [Hm Hd Hends Hj]. unfold channel_acts.
    destruct (cn_joined c) as [tasks|e]; (split; cbn [cn_handle cn_receiving_err cn_joined]; [done..|]); [|done].
    destruct Hj as [<- Hj]. split; [|done]. rewrite <- list_fmap_compose. apply list_fmap_ext. intros i s _. cbn.
    by destruct (set_channel_id t ch s) as [-> ->].
Qed.

Lemma connection_run_ok fuel ops names : forall c c' : connection,
  connection_inv names c -> connection_run fuel ops c = Val c' -> connection_inv names c'.
Proof.
  induction ops as [|o ops IH]; intros c c' Hc; cbn [connection_run]; [by intros [= <-]|].
  intros H. apply bind_val in H as (c1 & H1 & H). eapply IH, H. by eapply connection_exec_ok.
Qed.

(** What [build] gives. *)
Lemma register_all_fresh timer pool (fns : list (TypeId * (string * MessageChannelSettings))) :
  forall (m m' : Multiplexer) (map map' : ChannelsMap) (tasks : list StartedTask),
  register_all timer pool fns m map = Val (m', map', tasks) -> map_typed map -> ends_are true true map ->
  map_typed map' /\ dom map' = list_to_set fns.*1 ∪ dom map /\ ends_are true true map' /\
  (fun s => (st_type s, st_name s)) <$> tasks = (fun fn => (fn.1, fn.2.1)) <$> fns.
Proof.
  induction fns as [|[t [name s]] fns IH]; intros m m' map map' tasks H Hm Hends; cbn [register_all] in H.
  { injection H as <- <- <-. split_and!; try done. cbn. set_solver. }
  apply bind_val in H as ([[m1 map1] typed] & H1 & H). apply bind_val in H as ([[m2 map2] tasks2] & H2 & [= <- <- <-]).
  unfold register_message_type in H1. destruct (open_channel _ _ _) as [m0 r]. apply bind_val in H1 as (slot & _ & H1).
  apply bind_val in H1 as (mux_channel & _ & H1). apply bind_val in H1 as (typed' & _ & H1). injection H1 as <- <- <-.
  destruct (IH _ _ _ _ _ H2) as (Hm' & Hd' & He' & Hn').
  - by apply map_typed_insert.
  - intros t' a [[<- <-]|[_ Ha]]%lookup_insert_Some; [|by eapply Hends]. cbn [any_set]. apply link_new_ends.
  - split; [done|]. split; [rewrite Hd', dom_insert_L; cbn; set_solver|]. split; [done|]. cbn. by rewrite Hn'.
Qed.

Definition registered_names (b : MessageChannelsBuilder (T := T) (Pool := Pool)) : list (TypeId * string) :=
  (fun fn => (fn.1, fn.2.1)) <$> into_iter (register_fns b).

Lemma registered_names_elem b t name :
  (t, name) ∈ registered_names b <-> exists settings, register_fns b !! t = Some (name, settings).
Proof.
  unfold registered_names. rewrite list_elem_of_fmap. split.
  - intros ([t' [n s]] & [= -> ->] & H). rewrite into_iter_ok, elem_of_map_to_list in H. by exists s.
  - intros [s H]. exists (t, (name, s)). by rewrite into_iter_ok, elem_of_map_to_list.
Qed.

Lemma built_inv b (m m' : Multiplexer) (c : MessageChannels) (tasks : list StartedTask) : build b m = Val (m', c, tasks) ->
  connection_inv (registered_names b) (mkConnection c false (Joining tasks)).
Proof.
  intros H. unfold build in H. apply bind_val in H as ([[m1 map] tasks1] & H1 & [= <- <- <-]).
  apply register_all_fresh in H1 as (Hm & Hd & He & Hn); [|done|by intros t a Ha]. split; cbn; [done| |done|done].
  rewrite Hd, dom_empty_L, (union_empty_r_L (list_to_set _)). unfold registered_names. by rewrite <- list_fmap_compose.
Qed.

(** ** The task that failed *)

(** The poll of the branch [br] of the task at place [i], with the channels at that
    moment, makes it fail with [f]. *)
Definition poll_fails (fuel : nat) (br : branch) (w : K) (i : nat) (tasks : list StartedTask) (channels : ChannelsMap)
    (s : StartedTask) (f : TaskFailure TypedError) : Prop :=
  tasks !! i = Some s /\
  exists s' channels', poll_started fuel br w s channels = Val (s', channels') /\ st_phase s' = Failed f.

(** In the run [ops] from [c], the task of type [t] is polled and fails with [f]: the run
    is cut before that poll, which may be in the middle of a poll of the joined tasks. *)
Definition task_failed (fuel : nat) (ops : list connection_op) (c : connection) (t : TypeId) (f : TaskFailure TypedError) : Prop :=
  exists ops1 polls1 i br polls2 w ops2 cn tasks s,
    ops = ops1 ++ PollJoined (polls1 ++ (i, br) :: polls2) w :: ops2 /\
    connection_run fuel (ops1 ++ [PollJoined polls1 w]) c = Val cn /\ cn_joined cn = Joining tasks /\
    poll_fails fuel br w i tasks (channels_ (cn_handle cn)) s f /\ st_type s = t.

Lemma poll_tasks_failed fuel polls w : forall (tasks : list StartedTask) (channels channels' : ChannelsMap) e,
  poll_tasks fuel polls w tasks channels = Val (Joined e, channels') ->
  exists polls1 i br polls2 tasks1 channels1 s f, polls = polls1 ++ (i, br) :: polls2 /\
    poll_tasks fuel polls1 w tasks channels = Val (Joining tasks1, channels1) /\
    poll_fails fuel br w i tasks1 channels1 s f /\ e = mkChannelTaskError (st_name s) (TaskEnded f).
Proof.
  induction polls as [|[i b] polls IH]; intros tasks channels channels' e; cbn [poll_tasks]; [done|].
  destruct (tasks !! i) as [s|] eqn:Hi; cycle 1.
  { intros (p1 & j & br & p2 & tasks1 & ch1 & s & f & -> & H1 & H)%IH.
    exists ((i, b) :: p1), j, br, p2, tasks1, ch1, s, f. cbn [poll_tasks]. by rewrite Hi. }
  intros H. apply bind_val in H as ([s1 channels1] & H1 & H).
  assert ((exists f, st_phase s1 = Failed f) \/ match st_phase s1 with Failed _ => False | _ => True end) as [[f Hf]|Hp]
    by (destruct (st_phase s1); eauto).
  - rewrite Hf in H. injection H as <- <-. exists [], i, b, polls, tasks, channels, s, f. split; [done|]. split; [done|].
    split; [split; [done|]; by exists s1, channels1|]. f_equal. unfold poll_started in H1.
    apply bind_val in H1 as (? & _ & H1). apply bind_val in H1 as (? & _ & H1). by apply bind_val in H1 as (? & _ & [= <- _]).
  - assert (poll_tasks fuel polls w (<[i:=s1]> tasks) channels1 = Val (Joined e, channels')) as (p1 & j & br & p2 & tasks1 & ch1 & s2 & f & -> & H2 & H3)%IH
      by (by destruct (st_phase s1)).
    exists ((i, b) :: p1), j, br, p2, tasks1, ch1, s2, f. split; [done|]. split; [|done]. cbn [poll_tasks].
    rewrite Hi, H1. cbn [mbind res_bind]. by destruct (st_phase s1).
Qed.

(** A result stays; and it is that of the first task that fails. *)
Lemma connection_run_joined fuel ops : forall (c cn : connection) e,
  connection_run fuel ops c = Val cn -> cn_joined c = Joined e -> cn_joined cn = Joined e.
Proof.
  induction ops as [|o ops IH]; intros c cn e; cbn [connection_run]; [by intros [= ->]|].
  intros H Hc. apply bind_val in H as (c1 & H1 & H). apply (IH _ _ _ H). destruct o as [o| |polls w|t ch]; cbn [connection_exec] in H1.
  - destruct (callable o c); [|by injection H1 as <-]. by apply bind_val in H1 as ([h r] & _ & [= <-]).
  - destruct (cn_receiving_err c); by injection H1 as <-.
  - rewrite Hc in H1. by injection H1 as <-.
  - injection H1 as <-. cbn. by rewrite Hc.
Qed.

Lemma joined_poll_failed fuel polls w (c c' : connection) tasks e :
  cn_joined c = Joining tasks -> connection_exec fuel (PollJoined polls w) c = Val c' -> cn_joined c' = Joined e ->
  (tasks = [] /\ e = mkChannelTaskError "none" NoTasks) \/
  exists polls1 i br polls2 c1 tasks1 s f, polls = polls1 ++ (i, br) :: polls2 /\
    connection_exec fuel (PollJoined polls1 w) c = Val c1 /\ cn_joined c1 = Joining tasks1 /\
    poll_fails fuel br w i tasks1 (channels_ (cn_handle c1)) s f /\ e = mkChannelTaskError (st_name s) (TaskEnded f).
Proof.
  intros Hc H He. cbn [connection_exec] in *. rewrite Hc in *. apply bind_val in H as ([j ch] & Hj & [= <-]). cbn in He. subst j.
  destruct tasks as [|s0 tasks]; cbn [joined_poll] in *; [injection Hj as <- _; by left|right].
  apply poll_tasks_failed in Hj as (p1 & i & br & p2 & tasks1 & ch1 & s & f & -> & H1 & H2 & ->).
  eexists p1, i, br, p2, _, tasks1, s, f. split; [done|]. rewrite H1. cbn [mbind res_bind]. split; [done|]. by split.
Qed.

Lemma connection_exec_joining fuel o (c c' : connection) tasks e :
  cn_joined c = Joining tasks -> connection_exec fuel o c = Val c' -> cn_joined c' = Joined e ->
  exists polls w, o = PollJoined polls w.
Proof.
  intros Hc H He. destruct o as [o| |polls w|t ch]; cbn [connection_exec] in H; [exfalso..|by eauto|exfalso].
  - destruct (callable o c); [apply bind_val in H as ([h r] & _ & [= <-])|injection H as <-]; cbn in He; congruence.
  - destruct (cn_receiving_err c); injection H as <-; cbn in He; congruence.
  - injection H as <-. cbn in He. by rewrite Hc in He.
Qed.

Lemma connection_run_failed fuel names ops : forall (c cn : connection) tasks e,
  connection_inv names c -> cn_joined c = Joining tasks -> connection_run fuel ops c = Val cn -> cn_joined cn = Joined e ->
  (names = [] /\ e = mkChannelTaskError "none" NoTasks) \/
  exists t name f, task_failed fuel ops c t f /\ (t, name) ∈ names /\ e = mkChannelTaskError name (TaskEnded f).
Proof.
  induction ops as [|o ops IH]; intros c cn tasks e Hinv Hc; cbn [connection_run]; [intros [= ->]; congruence|].
  intros H He. apply bind_val in H as (c1 & H1 & H). pose proof (connection_exec_ok _ _ _ _ _ Hinv H1) as Hinv1.
  destruct (cn_joined c1) as [tasks1|e1] eqn:Hc1.
  - destruct (IH _ _ _ _ Hinv1 Hc1 H He) as [?|(t & name & f & Hf & Hin & ->)]; [by left|right]. exists t, name, f. split; [|done].
    destruct Hf as (ops1 & p1 & i & br & p2 & w & ops2 & c2 & tasks2 & s & -> & H2 & H3).
    exists (o :: ops1), p1, i, br, p2, w, ops2, c2, tasks2, s. split; [done|]. split; [|done].
    cbn [connection_run app]. by rewrite H1.
  - pose proof (connection_run_joined _ _ _ _ _ H Hc1) as Heq. rewrite He in Heq. injection Heq as <-.
    destruct (connection_exec_joining _ _ _ _ _ _ Hc H1 Hc1) as (polls & w & ->).
    destruct (joined_poll_failed _ _ _ _ _ _ _ Hc H1 Hc1)
      as [[-> ->]|(p1 & i & br & p2 & c2 & tasks2 & s & f & -> & H2 & Hc2 & Hf & ->)].
    { left. split; [|done]. pose proof (cv_joined _ _ Hinv) as Hj. rewrite Hc in Hj. by destruct Hj as [<- _]. }
    right. exists (st_type s), (st_name s), f. split; [|split; [|done]].
    + exists [], p1, i, br, p2, w, ops, c2, tasks2, s. split; [done|]. split; [|done]. cbn [connection_run app]. by rewrite H2.
    + pose proof (cv_joined _ _ (connection_exec_ok _ _ _ _ _ Hinv H2)) as Hj. rewrite Hc2 in Hj. destruct Hj as [<- _].
      apply list_elem_of_fmap. exists s. split; [done|]. destruct Hf as [Hi _]. by eapply list_elem_of_lookup_2.
Qed.

(** ** Properties *)

(** C23. The error of the tasks. However the user's calls and the polls of the joined tasks
    follow each other, and whatever happens to the channels: the channels are disconnected only when [recv_err] has its
    result; unless no type was registered at all, that is the error with which the first
    task to fail did so when it was polled, under the name its own message type was
    registered with; and once there is a result, every message type is disconnected:
    messages to be sent come back, and what is still in the queue of incoming messages is
    received first. *)
Theorem disconnected_by_error fuel ops b (m m' : Multiplexer) (c : MessageChannels) (tasks : list StartedTask) (cn : connection) :
  build b m = Val (m', c, tasks) -> connection_run fuel ops (mkConnection c false (Joining tasks)) = Val cn ->
  (is_connected (cn_handle cn) = false -> exists e, poll_recv_err (cn_joined cn) = Ready e) /\
  forall e, poll_recv_err (cn_joined cn) = Ready e ->
    ((register_fns b = ∅ /\ e = mkChannelTaskError "none" NoTasks) \/
     exists t name settings f, task_failed fuel ops (mkConnection c false (Joining tasks)) t f /\
       register_fns b !! t = Some (name, settings) /\ e = mkChannelTaskError name (TaskEnded f)) /\
    (cn_receiving_err cn = false -> forall t, t ∈ dom (register_fns b) ->
      (forall message, exists c', try_send t message (cn_handle cn) = Val (c', inl (Some message)) /\ is_connected c' = false) /\
      exists s c' r, channels_ (cn_handle cn) !! t = Some (mkAnySet t s) /\ try_recv t (cn_handle cn) = Val (c', inl r) /\
        match cb_items (channel_ (l_incoming (cs_link s))) with
        | message :: _ => r = if disconnected (cn_handle cn) then None else Some message
        | [] => r = None /\ is_connected c' = false
        end).
Proof.
  intros Hb Hrun. pose proof (built_inv _ _ _ _ _ Hb) as Hinv.
  destruct (connection_run_ok _ _ _ _ _ Hinv Hrun) as [Hm Hd Hends Hj].
  destruct (cn_joined cn) as [tasks'|e] eqn:Hjoin; cbn [poll_recv_err].
  { split; [|done]. destruct Hj as [_ Hj]. unfold is_connected. by rewrite Hj. }
  split; [by exists e|]. intros e' [= <-]. split.
  - destruct (connection_run_failed _ _ _ _ _ tasks _ Hinv eq_refl Hrun Hjoin) as [[Hn ->]|(t & name & f & Hf & Hin & ->)]; [left|right].
    + split; [|done]. apply map_eq. intros t. rewrite lookup_empty. destruct (register_fns b !! t) as [[name s]|] eqn:Ht; [|done].
      assert ((t, name) ∈ registered_names b) as Hin by (apply registered_names_elem; by exists s).
      rewrite Hn in Hin. by apply elem_of_nil in Hin.
    + apply registered_names_elem in Hin as [s Ht]. by exists t, name, s, f.
  - intros Hr t Ht. rewrite Hr in Hends.
    assert (t ∈ (list_to_set (registered_names b).*1 : gset TypeId)) as Hin.
    { apply elem_of_list_to_set, list_elem_of_fmap. apply elem_of_dom in Ht as [[name s] Ht]. exists (t, name). split; [done|].
      apply registered_names_elem. by exists s. }
    destruct (get_registered _ t (cn_handle cn) (conj Hm Hd) Hin) as (s & Hs & Hg).
    destruct (Hends _ _ Hs) as [_ [Hv1 Hv2]]. cbn [any_set any_type] in Hv1, Hv2. unfold try_send, try_recv, with_channels. rewrite Hg.
    cbn [mbind res_bind]. unfold is_connected. split.
    + intros message. destruct (disconnected (cn_handle cn)) eqn:Hdis; [eexists; split; [done|]; by rewrite Hdis|].
      unfold link_try_send. destruct (try_send_slot_run (l_outgoing_slot (cs_link s)) message (l_outgoing (cs_link s)))
        as (sh & slot & q & -> & _ & _ & Hq & Hu & _). rewrite Hv1 in Hq. destruct q as [|[|u]]; try done. subst u. by eexists.
    + exists s. destruct (disconnected (cn_handle cn)) eqn:Hdis.
      { eexists _, None. split; [done|]. split; [done|]. rewrite Hdis. by destruct (cb_items _). }
      unfold link_try_recv. destruct (try_recv_run (l_incoming (cs_link s))) as (sh & q & -> & _ & Hq). rewrite Hv2 in Hq.
      destruct (cb_items _) as [|message ms]; destruct Hq as [-> _]; (eexists _, _; split; [done|]; by split).
Qed.

(** C24. [recv_err] ends the tasks: after it was called, at once when there are none, and
    otherwise as soon as a task that has no message left to send looks for one; the
    error is that its channel was disconnected. *)
Theorem recv_err_ends_tasks fuel ops b (m m' : Multiplexer) (c : MessageChannels) (tasks tasks' : list StartedTask) (cn : connection) :
  build b m = Val (m', c, tasks) -> connection_run fuel ops (mkConnection c false (Joining tasks)) = Val cn ->
  cn_receiving_err cn = true -> cn_joined cn = Joining tasks' ->
  forall polls w,
  (tasks' = [] -> exists cn', connection_exec fuel (PollJoined polls w) cn = Val cn' /\
    poll_recv_err (cn_joined cn') = Ready (mkChannelTaskError "none" NoTasks)) /\
  (forall i br s set, tasks' !! i = Some s -> channels_ (cn_handle cn) !! st_type s = Some (mkAnySet (st_type s) set) ->
    cb_items (channel_ (l_outgoing (cs_link set))) = [] ->
    (st_phase s = Selecting /\ br = Branch_Outgoing) \/ st_phase s = FlushReceiving ->
    exists cn', connection_exec fuel (PollJoined ((i, br) :: polls) w) cn = Val cn' /\
      poll_recv_err (cn_joined cn') = Ready (mkChannelTaskError (st_name s) (TaskEnded ChannelDisconnected))).
Proof.
  intros Hb Hrun Hr Hj polls w. destruct (connection_run_ok _ _ _ _ _ (built_inv _ _ _ _ _ Hb) Hrun) as [Hm Hd Hends _].
  rewrite Hr in Hends. unfold connection_exec, joined_poll. rewrite Hj. split; [intros ->; by eexists|].
  intros i br s set Hs Hset Hi Hp. destruct tasks' as [|s0 tasks']; [done|]. cbn [poll_tasks]. rewrite Hs.
  unfold poll_started. rewrite Hset. cbn [unwrap mbind res_bind]. rewrite downcast_same. cbn [unwrap mbind res_bind].
  destruct (Hends _ _ Hset) as [Hu _]. cbn [any_set any_type] in Hu.
  destruct (abandoned_task_ends (MC := typed_message_channel fuel (st_type s)) br w
    (ChannelTask.mkTask (st_channel s) (cs_link set) (st_phase s)) Hu Hi Hp) as [l ->]. by eexists.
Qed.
End connection.

(** * An example: a message that cannot be encoded, and an early [recv_err] *)

Module JoinedExample.
Import Example RunLength ChannelsExample.

#[export] Instance example_sleeper : Sleeper nat unit Z := {| sleep t _ := (t, tt); poll_sleep t s _ := (t, s, true) |}.
#[export] Instance example_mux_sink : PacketSink bool (MuxPacket BufferPacket) := {| sink_send connected _ := (connected, connected) |}.

(** Numbers of a byte, and truth values. *)
Definition number_bincode : Bincode Z unit := {|
  serialize_into limit m := if (0 <=? m) && (m <? 256) && (1 <=? limit) then ([m], inl tt) else ([], inr tt);
  serialized_size limit m := if (0 <=? m) && (m <? 256) && (1 <=? limit) then inl 1 else inr tt;
  deserialize limit bs := match bs with [b] => inl b | _ => inr tt end;
  deserialize_from limit bs := match bs with b :: rest => inl (b, rest) | [] => inr tt end;
|}.
Definition truth_bincode : Bincode bool unit := {|
  serialize_into limit m := ([if m : bool then 1 else 0], inl tt);
  serialized_size limit m := inl 1;
  deserialize limit bs := match bs with [b] => inl (b =? 1) | _ => inr tt end;
  deserialize_from limit bs := match bs with b :: rest => inl (b =? 1, rest) | [] => inr tt end;
|}.
#[export] Instance example_bincode : forall t, Bincode (Message t) unit :=
  fun t => match t with true => number_bincode | false => truth_bincode end.

Definition big : Message number := 300.

Abbreviation example_connection := (connection (T := nat) (Instant := nat) (Pool := BufferPacketPool bool) (Snd := bool) (Sl := unit)
  (BE := unit) (SE := unit) (P := BufferPacket) (Qp := list_queue (MuxPacket BufferPacket)) (W := option Z) (K := Z) (Q := list_queue)).
Abbreviation example_task := (StartedTask (T := nat) (Instant := nat) (Pool := BufferPacketPool bool) (Snd := bool) (Sl := unit)
  (BE := unit) (SE := unit) (P := BufferPacket) (Qp := list_queue (MuxPacket BufferPacket)) (W := option Z) (K := Z)).
Abbreviation example_op := (connection_op (T := nat) (Instant := nat) (Pool := BufferPacketPool bool) (Snd := bool) (Sl := unit)
  (P := BufferPacket) (Qp := list_queue (MuxPacket BufferPacket)) (W := option Z) (K := Z) (Q := list_queue)).

Definition example_registrations : MessageChannelsBuilder := register_many example_registered example_builder.
Definition example_built : res (PacketMultiplexer BufferPacket (list_queue (MuxPacket BufferPacket)) (option Z) Z * example_channels * list example_task) :=
  build example_registrations example_mux.

Definition example_run (ops : list example_op) : res example_connection :=
  '(_, c, tasks) ← example_built; connection_run 1 ops (mkConnection c false (Joining tasks)).

(** Every task looks for a message to send. *)
Definition look : example_op := PollJoined [(0%nat, Branch_Outgoing); (1%nat, Branch_Outgoing)] 7.
Definition failing : list example_op := [Call (HandleSend number big); look; look].
End JoinedExample.

Import Example RunLength ChannelsExample JoinedExample.

Definition example_result (c : example_connection) := poll_recv_err (cn_joined c).
Lemma failing_result : (example_result <$> example_run failing) =
  Val (Ready (mkChannelTaskError "i64" (TaskEnded (Failure_Channel (TaskError_Bincode tt))))).
Proof. vm_compute. reflexivity. Qed.
Lemma failing_handle : (cn_receiving_err <$> example_run failing) = Val false.
Proof. vm_compute. reflexivity. Qed.

Lemma example_run_inv ops (cn : example_connection) : example_run ops = Val cn ->
  exists m' c tasks, example_built = Val (m', c, tasks) /\ connection_run 1 ops (mkConnection c false (Joining tasks)) = Val cn.
Proof. intros H. apply bind_val in H as ([[m' c] tasks] & Hb & H). by exists m', c, tasks. Qed.

Lemma number_registered : number ∈ dom (register_fns example_registrations).
Proof.
  apply elem_of_dom. exists ("i64"%string, example_settings 1). unfold example_registrations.
  rewrite example_register_fns. reflexivity.
Qed.

Lemma disconnected_by_error_witness : exists cn : example_connection, example_run failing = Val cn /\
  example_result cn = Ready (mkChannelTaskError "i64" (TaskEnded (Failure_Channel (TaskError_Bincode tt)))) /\
  exists c', try_send number five (cn_handle cn) = Val (c', inl (Some five)) /\ is_connected c' = false.
Proof.
  pose proof failing_result as Hr. destruct (example_run failing) as [cn|] eqn:Hrun; [|discriminate Hr]. injection Hr as Hr.
  exists cn. split; [reflexivity|]. split; [exact Hr|].
  destruct (example_run_inv _ _ Hrun) as (m' & c & tasks & Hb & Hc).
  assert (cn_receiving_err cn = false) as Hf.
  { pose proof failing_handle as Hh. rewrite Hrun in Hh. injection Hh as Hh. exact Hh. }
  exact (proj1 (proj2 (proj2 (disconnected_by_error 1 failing example_registrations example_mux m' c tasks cn Hb Hc) _ Hr)
    Hf number number_registered) five).
Defined.

(** [recv_err] at once: no task has anything to send. *)
Definition at_rest (cn : example_connection) : bool :=
  cn_receiving_err cn && match cn_joined cn with
    | Joining (s :: _) =>
      match st_phase s, channels_ (cn_handle cn) !! st_type s with
      | Selecting, Some a => match cb_items (channel_ (l_outgoing (cs_link (any_set a)))) with [] => true | _ => false end
      | _, _ => false
      end
    | _ => false
    end.

Lemma recv_err_at_rest : (at_rest <$> example_run [CallRecvErr]) = Val true.
Proof. vm_compute. reflexivity. Qed.

Lemma at_rest_inv (cn : example_connection) m' c tasks : at_rest cn = true ->
  example_built = Val (m', c, tasks) -> connection_run 1 [CallRecvErr] (mkConnection c false (Joining tasks)) = Val cn ->
  cn_receiving_err cn = true /\ exists tasks' s set, cn_joined cn = Joining tasks' /\ tasks' !! 0%nat = Some s /\
    st_phase s = Selecting /\ channels_ (cn_handle cn) !! st_type s = Some (mkAnySet (st_type s) set) /\
    cb_items (channel_ (l_outgoing (cs_link set))) = [].
Proof.
  intros Hrest Hb Hrun. unfold at_rest in Hrest. apply andb_true_iff in Hrest as [Hr Hrest]. split; [exact Hr|].
  destruct (connection_run_ok _ _ _ _ _ (built_inv _ _ _ _ _ Hb) Hrun) as [Hm _ _ _].
  destruct (cn_joined cn) as [[|s tasks']|]; try discriminate Hrest.
  destruct (st_phase s) eqn:Hp; try discriminate Hrest. destruct (channels_ (cn_handle cn) !! st_type s) as [a|] eqn:Ha; [|discriminate Hrest].
  destruct (typed_lookup _ _ _ Hm Ha) as (set & Hset & _). rewrite Ha in Hset. injection Hset as ->.
  exists (s :: tasks'), s, set. split_and!; try reflexivity; try assumption. cbn [any_set any_type] in Hrest.
  destruct (cb_items (channel_ (l_outgoing (cs_link set)))) eqn:Hi; [reflexivity|discriminate Hrest].
Qed.

Lemma recv_err_ends_tasks_witness : exists (cn cn' : example_connection) name, example_run [CallRecvErr] = Val cn /\
  connection_exec 1 (PollJoined [(0%nat, Branch_Outgoing)] 7) cn = Val cn' /\
  example_result cn' = Ready (mkChannelTaskError name (TaskEnded ChannelDisconnected)).
Proof.
  pose proof recv_err_at_rest as Hr. destruct (example_run [CallRecvErr]) as [cn|] eqn:Hrun; [|discriminate Hr]. injection Hr as Hrest.
  destruct (example_run_inv _ _ Hrun) as (m' & c & tasks & Hb & Hc).
  destruct (at_rest_inv cn m' c tasks Hrest Hb Hc) as (Hr & tasks' & s & set & Hj & Hs & Hp & Hset & Hi).
  destruct (proj2 (recv_err_ends_tasks 1 [CallRecvErr] example_registrations example_mux m' c tasks tasks' cn Hb Hc Hr Hj [] 7)
    0%nat Branch_Outgoing s set Hs Hset Hi (or_introl (conj Hp eq_refl))) as (cn' & Hx & He).
  exists cn, cn', (st_name s). split; [reflexivity|]. split; [exact Hx|exact He].
Defined.
