(* ===== verification/TypeNodes.v ===== *)
(** The tasks of [MessageChannels], one by one: the task and the queues of a message
    type, taken out of the joined tasks and the map of the channels, are those of a node
    of ChannelTask, over any channel whose image is the typed channel of the task. A
    poll of a joined task, a call on the queues of a type, and what others do to its
    channel are steps of the node of that type, and of no other one. *)

From stdpp Require Import gmap strings.
From S2P Require Import Prelude BandwidthLimiter Packet Wire ReliableChannel ReliableSafety Async Spsc SpscSafety EventWatch Unreliable Mux.
From S2P Require Import Bincode MessageChannel Compressed CompressedSafety Maps ChannelTask MessageChannels MessageChannelsSafety JoinedTasks JoinedTasksSafety.

Section nodes.
Context {MT : MessageTypes}.
Context {T Instant Pool Snd Sl BE SE : Type}.
Context {P Qp W K : Type} {Q : Type -> Type} {PI : Packet P} {PPI : PacketPool Pool P} {TI : Timer T Instant}.
Context {SLP : Sleeper T Sl K} {SI : PacketSink Snd (MuxPacket P)} {BO : ByteOrder} {SN : Snap SE}.
Context {BC : forall t, Bincode (Message t) BE} {CS : ChannelSink Snd P}.
Context {CBp : Crossbeam Qp (MuxPacket P)} {CB : forall A, Crossbeam (Q A) A} {CL : forall A, CrossbeamLaws (Q A) A}.
Context {AW : AtomicWaker W K}.
Context (fuel : nat).

Abbreviation ChannelsMap := (gmap TypeId (AnySet (W := W) (K := K) (Q := Q))).
Abbreviation MessageChannels := (MessageChannels (W := W) (K := K) (Q := Q)).
Abbreviation TypedChannel := (TypedChannel (T := T) (Instant := Instant) (Pool := Pool) (Snd := Snd) (Sl := Sl)
  (P := P) (Qp := Qp) (W := W) (K := K)).
Abbreviation TypedError := (TypedError (BE := BE) (SE := SE)).
Abbreviation StartedTask := (StartedTask (T := T) (Instant := Instant) (Pool := Pool) (Snd := Snd) (Sl := Sl) (BE := BE) (SE := SE)
  (P := P) (Qp := Qp) (W := W) (K := K)).
Abbreviation connection := (connection (T := T) (Instant := Instant) (Pool := Pool) (Snd := Snd) (Sl := Sl) (BE := BE) (SE := SE)
  (P := P) (Qp := Qp) (W := W) (K := K) (Q := Q)).
Abbreviation Multiplexer := (PacketMultiplexer P Qp W K).

(** * The task of a type *)

Abbreviation task t := (task (TypedChannel (Message t)) (Q (Message t)) W K (Message t) TypedError).

Definition as_type (t : TypeId) (s : StartedTask) : option (TypedChannel (Message t) * phase (Message t) TypedError) :=
  match decide (st_type s = t) with
  | left H => Some (eq_rect (st_type s) (fun t => (TypedChannel (Message t) * phase (Message t) TypedError)%type) (st_channel s, st_phase s) t H)
  | right _ => None
  end.
Definition task_of (t : TypeId) (tasks : list StartedTask) : option (TypedChannel (Message t) * phase (Message t) TypedError) :=
  head (omap (as_type t) tasks).

(** The task, with the queues that it shares with the user. *)
Definition view_of (t : TypeId) (tasks : list StartedTask) (channels : ChannelsMap) : option (task t) :=
  match task_of t tasks, channels !! t with
  | Some (ch, p), Some a => match downcast t a with Some set => Some (ChannelTask.mkTask ch (cs_link set) p) | None => None end
  | _, _ => None
  end.
(** ** Finding it *)

Lemma as_type_same (s : StartedTask) : as_type (st_type s) s = Some (st_channel s, st_phase s).
Proof. unfold as_type. destruct (decide (st_type s = st_type s)) as [H|]; [|done]. by rewrite (proof_irrel H eq_refl). Qed.
Lemma as_type_other t (s : StartedTask) : st_type s <> t -> as_type t s = None.
Proof. unfold as_type. by destruct (decide (st_type s = t)). Qed.

Lemma task_of_lookup (tasks : list StartedTask) : forall i s, NoDup (st_type <$> tasks) -> tasks !! i = Some s ->
  task_of (st_type s) tasks = Some (st_channel s, st_phase s).
Proof.
  unfold task_of. induction tasks as [|s0 tasks IH]; intros i s Hnd Hs; [done|]. apply NoDup_cons in Hnd as [Hn Hnd]. cbn [omap list_omap].
  destruct i as [|i]; cbn in Hs.
  - injection Hs as ->. by rewrite as_type_same.
  - rewrite as_type_other; [by eapply IH|]. intros Heq. apply Hn. rewrite Heq. apply list_elem_of_fmap. exists s. split; [done|].
    by eapply list_elem_of_lookup_2.
Qed.

Lemma task_of_insert_ne t (tasks : list StartedTask) : forall i s s', tasks !! i = Some s -> st_type s' = st_type s -> st_type s <> t ->
  task_of t (<[i := s']> tasks) = task_of t tasks.
Proof.
  unfold task_of. induction tasks as [|s0 tasks IH]; intros i s s' Hs Hty Hne; [done|]. destruct i as [|i]; cbn in Hs |- *.
  - injection Hs as ->. by rewrite !as_type_other by congruence.
  - destruct (as_type t s0); [done|]. by eapply IH.
Qed.

Lemma types_insert (tasks : list StartedTask) i s s' : tasks !! i = Some s -> st_type s' = st_type s ->
  st_type <$> <[i := s']> tasks = st_type <$> tasks.
Proof. intros Hs Hty. rewrite list_fmap_insert, Hty. apply list_insert_id. by rewrite list_lookup_fmap, Hs. Qed.

Lemma view_of_lookup t (tasks : list StartedTask) (channels : ChannelsMap) tk : view_of t tasks channels = Some tk ->
  task_of t tasks = Some (t_channel tk, t_phase tk) /\ exists a set, channels !! t = Some a /\ downcast t a = Some set /\ t_link tk = cs_link set.
Proof.
  unfold view_of. destruct (task_of t tasks) as [[ch p]|]; [|done]. destruct (channels !! t) as [a|]; [|done].
  destruct (downcast t a) as [set|] eqn:Hd; [|done]. intros [= <-]. split; [done|]. by exists a, set.
Qed.

Lemma view_of_insert t (tasks : list StartedTask) (channels : ChannelsMap) ch p set :
  task_of t tasks = Some (ch, p) -> view_of t tasks (<[t := mkAnySet t set]> channels) = Some (ChannelTask.mkTask ch (cs_link set) p).
Proof. intros H. unfold view_of. rewrite H, lookup_insert_eq. cbn. by rewrite downcast_same. Qed.
Lemma view_of_insert_ne t t' (tasks : list StartedTask) (channels : ChannelsMap) a :
  t <> t' -> view_of t tasks (<[t' := a]> channels) = view_of t tasks channels.
Proof. intros H. unfold view_of. by rewrite lookup_insert_ne. Qed.

(** What others do to a channel. *)
Lemma set_channel_same (s : StartedTask) ch : set_channel (st_type s) ch s = mkStartedTask (st_type s) (st_name s) ch (st_phase s).
Proof. unfold set_channel. destruct (decide (st_type s = st_type s)) as [H|]; [|done]. by rewrite (proof_irrel H eq_refl). Qed.
Lemma set_channel_other t ch (s : StartedTask) : t <> st_type s -> set_channel t ch s = s.
Proof. unfold set_channel. by destruct (decide _). Qed.

Lemma task_of_set_channel t ch (tasks : list StartedTask) : task_of t (set_channel t ch <$> tasks) = (fun '(_, p) => (ch, p)) <$> task_of t tasks.
Proof.
  unfold task_of. induction tasks as [|s tasks IH]; [done|]. cbn [fmap list_fmap omap list_omap].
  destruct (decide (st_type s = t)) as [<-|Hne].
  - rewrite set_channel_same, as_type_same. pose proof (as_type_same (mkStartedTask (st_type s) (st_name s) ch (st_phase s))) as H.
    cbn [st_type st_channel st_phase] in H. by rewrite H.
  - by rewrite set_channel_other, as_type_other by done.
Qed.
Lemma task_of_set_channel_ne t t' ch (tasks : list StartedTask) : t' <> t -> task_of t (set_channel t' ch <$> tasks) = task_of t tasks.
Proof.
  intros Hne. unfold task_of. induction tasks as [|s tasks IH]; [done|]. cbn [fmap list_fmap omap list_omap].
  destruct (decide (st_type s = t)) as [<-|Hne']; [by rewrite set_channel_other, as_type_same|].
  rewrite !as_type_other; [exact IH|done|]. by destruct (set_channel_id t' ch s) as [-> _].
Qed.

(** * Nodes *)

Context {Ch1 : TypeId -> Type} {E1 : Type} {MC1 : forall t, MessageChannel (Ch1 t) K (Message t) E1}.
Context (h : forall t, Ch1 t -> TypedChannel (Message t)) (f : E1 -> TypedError).

#[local] Instance typed_instance t : MessageChannel (TypedChannel (Message t)) K (Message t) TypedError := typed_message_channel fuel t.

Context {CM : forall t, ChannelMap (h t) f}.

Abbreviation node t := (node (Ch1 t) (Q (Message t)) W K (Message t) E1).

(** The task that a node's one is mapped to. *)
Definition image {t} (x : node t) : task t := task_map (h t) f (unlog (n_task x)).

(** The task and the queues of a type are those of a node, whose task goes on. *)
Definition is_node t (tasks : list StartedTask) (channels : ChannelsMap) (x : node t) : Prop :=
  view_of t tasks channels = Some (image x) /\ failed (t_phase (n_task x)) = false.

(** A poll of the task of a node is one of the task without its history. *)
Lemma node_poll {t} b w (x : node t) tk : task_poll b w (image x) = Val tk ->
  exists x', node_exec (NodeTask b w) x = Val x' /\ image x' = tk /\ n_accepted x' = n_accepted x /\ n_delivered x' = n_delivered x.
Proof.
  unfold image. rewrite (task_poll_map (h t) f), task_poll_unlog. cbn [node_exec].
  destruct (task_poll b w (n_task x)) as [t'|]; [|done]. cbn. intros [= <-]. by eexists.
Qed.

(** A poll of one of the joined tasks. *)
Lemma poll_started_node b w i (s s1 : StartedTask) (tasks : list StartedTask) (channels channels1 : ChannelsMap) :
  map_typed channels -> NoDup (st_type <$> tasks) -> tasks !! i = Some s ->
  poll_started fuel b w s channels = Val (s1, channels1) -> failed (st_phase s1) = false ->
  (forall x : node (st_type s), is_node (st_type s) tasks channels x ->
    exists x', node_exec (NodeTask b w) x = Val x' /\ is_node (st_type s) (<[i := s1]> tasks) channels1 x' /\
      n_accepted x' = n_accepted x /\ n_delivered x' = n_delivered x) /\
  (forall t (x : node t), t <> st_type s -> is_node t tasks channels x -> is_node t (<[i := s1]> tasks) channels1 x) /\
  map_typed channels1 /\ st_type s1 = st_type s.
Proof.
  intros Hm Hnd Hs H Hf. unfold poll_started in H. destruct (channels !! st_type s) as [a|] eqn:Ha; [|done].
  destruct (typed_lookup _ _ _ Hm Ha) as (set & Hset & Hd). cbn [unwrap mbind res_bind] in H. rewrite Hd in H. cbn [unwrap mbind res_bind] in H.
  apply bind_val in H as (tk & Htk & [= <- <-]). cbn [st_type st_phase] in *. split_and!; [| |by apply map_typed_insert|done].
  - intros x [Hx Hxf]. unfold view_of in Hx. rewrite (task_of_lookup _ _ _ Hnd Hs), Ha, Hd in Hx. apply (inj Some) in Hx.
    rewrite Hx in Htk. destruct (node_poll b w x tk Htk) as (x1 & Hx1 & Hu1 & Hacc & Hdel). exists x1. split; [done|]. split; [|done].
    split; [|rewrite <- Hu1 in Hf; unfold image, task_map, unlog in Hf; cbn in Hf; by destruct (t_phase (n_task x1))].
    assert (NoDup (st_type <$> <[i := mkStartedTask (st_type s) (st_name s) (t_channel tk) (t_phase tk)]> tasks)) as Hnd1 by by erewrite types_insert.
    pose proof (task_of_lookup _ i (mkStartedTask (st_type s) (st_name s) (t_channel tk) (t_phase tk)) Hnd1) as Ht.
    rewrite list_lookup_insert_eq in Ht by (by eapply lookup_lt_Some). specialize (Ht eq_refl). cbn [st_type st_channel st_phase] in Ht.
    rewrite (view_of_insert _ _ _ _ _ _ Ht), Hu1. by destruct tk.
  - intros t x Hne [Hx Hxf]. split; [|done]. rewrite view_of_insert_ne by done. unfold view_of. by rewrite (task_of_insert_ne _ _ _ s).
Qed.

(** A poll with which the task fails. *)
Lemma poll_started_failed b w (s s1 : StartedTask) i (tasks : list StartedTask) (channels channels1 : ChannelsMap) (x : node (st_type s)) :
  map_typed channels -> NoDup (st_type <$> tasks) -> tasks !! i = Some s ->
  poll_started fuel b w s channels = Val (s1, channels1) -> failed (st_phase s1) = true -> is_node (st_type s) tasks channels x ->
  exists x', node_exec (NodeTask b w) x = Val x' /\ failed (t_phase (n_task x')) = true /\ n_accepted x' = n_accepted x.
Proof.
  intros Hm Hnd Hs H Hf [Hx _]. unfold poll_started in H. destruct (channels !! st_type s) as [a|] eqn:Ha; [|done].
  destruct (typed_lookup _ _ _ Hm Ha) as (set & Hset & Hd). cbn [unwrap mbind res_bind] in H. rewrite Hd in H. cbn [unwrap mbind res_bind] in H.
  apply bind_val in H as (tk & Htk & [= <- <-]). cbn [st_phase] in Hf.
  unfold view_of in Hx. rewrite (task_of_lookup _ _ _ Hnd Hs), Ha, Hd in Hx. apply (inj Some) in Hx.
  rewrite Hx in Htk. destruct (node_poll b w x tk Htk) as (x1 & Hx1 & Hu1 & Hacc & _). exists x1. split; [done|]. split; [|done].
  rewrite <- Hu1 in Hf. unfold image, task_map, unlog in Hf. cbn in Hf. by destruct (t_phase (n_task x1)).
Qed.

(** A call on the queues of a type, which its node makes as [o]. *)
Lemma link_op_node {t} (o : node_op K (Message t)) (tasks : list StartedTask) (channels : ChannelsMap) set l n a d :
  channels !! t = Some (mkAnySet t set) ->
  (forall x : node t, t_link (n_task x) = cs_link set ->
    node_exec o x = Val (mkNode (on_link l (n_task x)) (n_accepted x ++ a) (n_delivered x ++ d))) ->
  (forall x : node t, is_node t tasks channels x ->
    exists x', node_exec o x = Val x' /\ is_node t tasks (<[t := mkAnySet t (mkChannelSet l n)]> channels) x' /\
      n_accepted x' = n_accepted x ++ a /\ n_delivered x' = n_delivered x ++ d) /\
  (forall t' (x : node t'), t' <> t -> is_node t' tasks channels x -> is_node t' tasks (<[t := mkAnySet t (mkChannelSet l n)]> channels) x).
Proof.
  intros Hset Ho. split.
  - intros x [Hx Hf]. destruct (view_of_lookup _ _ _ _ Hx) as (Ht & a0 & set' & Ha & Hd & Hl). rewrite Hset in Ha. injection Ha as <-.
    rewrite downcast_same in Hd. injection Hd as <-. cbn [image task_map unlog t_link] in Hl.
    eexists. split; [by apply Ho|]. split; [|done]. split; [|exact Hf]. cbn [image task_map unlog t_channel t_phase] in Ht.
    by rewrite (view_of_insert _ _ _ _ _ _ Ht).
  - intros t' x Hne [Hx Hf]. split; [|done]. by rewrite view_of_insert_ne.
Qed.

(** What others do to the channel of a type. *)
Definition with_channel {t} (ch : Ch1 t) (x : node t) : node t :=
  mkNode (ChannelTask.mkTask (mkLogged ch (n_sent x) (n_received x)) (t_link (n_task x)) (t_phase (n_task x))) (n_accepted x) (n_delivered x).

Lemma set_channel_node {t} (ch : Ch1 t) (tasks : list StartedTask) (channels : ChannelsMap) :
  (forall x : node t, is_node t tasks channels x -> is_node t (set_channel t (h t ch) <$> tasks) channels (with_channel ch x)) /\
  (forall t' (x : node t'), t' <> t -> is_node t' tasks channels x -> is_node t' (set_channel t (h t ch) <$> tasks) channels x).
Proof.
  split.
  - intros x [Hx Hf]. split; [|exact Hf]. destruct (view_of_lookup _ _ _ _ Hx) as (Ht & a & set & Ha & Hd & Hl).
    unfold view_of. rewrite task_of_set_channel, Ht, Ha. cbn. rewrite Hd. unfold image, task_map, unlog in *. cbn in *. by rewrite Hl.
  - intros t' x Hne [Hx Hf]. split; [|exact Hf]. unfold view_of. by rewrite task_of_set_channel_ne.
Qed.
End nodes.
