(* ===== verification/ChannelsRefinement.v ===== *)
(** [MessageChannels] with its joined tasks refines a family of nodes, one for each
    message type: as long as no task has failed, what the user's calls and the polls of
    the tasks do to a type is a run of the node of ChannelTask that starts with the
    channel that the settings make, and other types have no part in it. What is proved
    of nodes then holds of the messages that the calls take and give. *)

From stdpp Require Import gmap strings.
From S2P Require Import Prelude BandwidthLimiter Packet Wire ReliableChannel ReliableSafety Async Spsc SpscSafety EventWatch Unreliable Mux.
From S2P Require Import Bincode MessageChannel Compressed CompressedSafety Maps ChannelTask MessageChannels MessageChannelsSafety JoinedTasks JoinedTasksSafety TypeNodes.

Section refinement.
Context {MT : MessageTypes}.
Context {T Instant Pool Snd Sl BE SE : Type}.
Context {P Qp W K : Type} {Q : Type -> Type} {PI : Packet P} {PPI : PacketPool Pool P} {TI : Timer T Instant}.
Context {SLP : Sleeper T Sl K} {SI : PacketSink Snd (MuxPacket P)} {BO : ByteOrder} {SN : Snap SE}.
Context {BC : forall t, Bincode (Message t) BE} {CS : ChannelSink Snd P}.
Context {CBp : Crossbeam Qp (MuxPacket P)} {CB : forall A, Crossbeam (Q A) A} {CL : forall A, CrossbeamLaws (Q A) A}.
Context {AW : AtomicWaker W K}.
Context (fuel : nat).

Abbreviation ChannelsMap := (gmap TypeId (AnySet (W := W) (K := K) (Q := Q))).
Abbreviation MessageChannels := (MessageChannels (W := W) (K := K) (Q := Q)).
Abbreviation TypedChannel := (TypedChannel (T := T) (Instant := Instant) (Pool := Pool) (Snd := Snd) (Sl := Sl)
  (P := P) (Qp := Qp) (W := W) (K := K)).
Abbreviation TypedError := (TypedError (BE := BE) (SE := SE)).
Abbreviation StartedTask := (StartedTask (T := T) (Instant := Instant) (Pool := Pool) (Snd := Snd) (Sl := Sl) (BE := BE) (SE := SE)
  (P := P) (Qp := Qp) (W := W) (K := K)).
Abbreviation connection := (connection (T := T) (Instant := Instant) (Pool := Pool) (Snd := Snd) (Sl := Sl) (BE := BE) (SE := SE)
  (P := P) (Qp := Qp) (W := W) (K := K) (Q := Q)).
Abbreviation Multiplexer := (PacketMultiplexer P Qp W K).

(** * What the user sees *)

(** Calls, polls of the futures of [async_send] (with the message as long as it is not
    handed over) and of [async_recv], which may be dropped at any time, polls of the
    joined tasks, and what the multiplexer and the task of a reliable
    channel do to the channel of a type. *)
Inductive user_op :=
| UserSend (t : TypeId) (message : Message t)
| UserAsyncSend (t : TypeId) (item : option (Message t)) (w : K)
| UserRecv (t : TypeId)
| UserAsyncRecv (t : TypeId) (w : K)
| UserFlush (t : TypeId)
| UserPoll (polls : list (nat * branch)) (w : K)
| OthersAct (t : TypeId) (ch : TypedChannel (Message t)).

(** A message that [try_send] or a future of [async_send] took, and one that [try_recv] or
    [async_recv] gave. *)
Inductive user_event :=
| Accepted (t : TypeId) (message : Message t)
| Delivered (t : TypeId) (message : Message t).

Definition user_exec (o : user_op) (c : connection) : res (connection * list user_event) :=
  match o with
  | UserSend t message =>
    '(h, r) ← try_send t message (cn_handle c);
    Val (mkConnection h (cn_receiving_err c) (cn_joined c), match r with inl None => [Accepted t message] | _ => [] end)
  | UserAsyncSend t item w =>
    '(h, item', _) ← poll_async_send w t item (cn_handle c);
    Val (mkConnection h (cn_receiving_err c) (cn_joined c), Accepted t <$> taken item item')
  | UserRecv t =>
    '(h, r) ← try_recv t (cn_handle c);
    Val (mkConnection h (cn_receiving_err c) (cn_joined c), match r with inl (Some message) => [Delivered t message] | _ => [] end)
  | UserAsyncRecv t w =>
    '(h, r) ← poll_async_recv w t (cn_handle c);
    Val (mkConnection h (cn_receiving_err c) (cn_joined c), match r with Ready (inl message) => [Delivered t message] | _ => [] end)
  | UserFlush t =>
    '(h, r) ← try_flush t (cn_handle c); Val (mkConnection h (cn_receiving_err c) (cn_joined c), [])
  | UserPoll polls w => c ← connection_exec fuel (PollJoined polls w) c; Val (c, [])
  | OthersAct t ch => c ← connection_exec fuel (ChannelActs t ch) c; Val (c, [])
  end.

Fixpoint user_run (ops : list user_op) (c : connection) : res (connection * list user_event) :=
  match ops with
  | [] => Val (c, [])
  | o :: ops => '(c, es) ← user_exec o c; '(c, es') ← user_run ops c; Val (c, es ++ es')
  end.

(** The messages of a type, in the order in which they were sent or received. *)
Definition as_message (t t' : TypeId) (message : Message t') : list (Message t) :=
  match decide (t' = t) with left H => [eq_rect t' Message message t H] | right _ => [] end.
Definition accepted (t : TypeId) (es : list user_event) : list (Message t) :=
  es ≫= fun e => match e with Accepted t' message => as_message t t' message | Delivered _ _ => [] end.
Definition delivered (t : TypeId) (es : list user_event) : list (Message t) :=
  es ≫= fun e => match e with Delivered t' message => as_message t t' message | Accepted _ _ => [] end.

(** * Runs of a node *)

#[local] Instance typed_channel_instance t : MessageChannel (TypedChannel (Message t)) K (Message t) TypedError := typed_message_channel fuel t.

Abbreviation node t := (node (TypedChannel (Message t)) (Q (Message t)) W K (Message t) TypedError).

(** The node of a type is over the typed channel itself. *)
Abbreviation is_node := (is_node (Ch1 := fun t => TypedChannel (Message t)) (fun _ ch => ch) (fun e => e)).

(** What happens at a node, to whose channel others may do anything. *)
Inductive type_op (t : TypeId) :=
| TypeNode (o : node_op K (Message t))
| TypeChannel (ch : TypedChannel (Message t)).
#[local] Arguments TypeNode {t} _.
#[local] Arguments TypeChannel {t} _.

Definition type_exec {t} (o : type_op t) (x : node t) : res (node t) :=
  match o with
  | TypeNode o => node_exec o x
  | TypeChannel ch => Val (with_channel (Ch1 := fun t => TypedChannel (Message t)) ch x)
  end.
Fixpoint type_run {t} (ops : list (type_op t)) (x : node t) : res (node t) :=
  match ops with
  | [] => Val x
  | o :: ops => x ← type_exec o x; type_run ops x
  end.

Lemma type_run_app {t} (ops ops' : list (type_op t)) : forall x x1 x2 : node t,
  type_run ops x = Val x1 -> type_run ops' x1 = Val x2 -> type_run (ops ++ ops') x = Val x2.
Proof.
  induction ops as [|o ops IH]; intros x x1 x2; cbn [type_run app]; [by intros [= ->]|].
  intros H H'. apply bind_val in H as (x' & -> & H). cbn [mbind res_bind]. by eapply IH.
Qed.

(** Its history is the one that node_inv speaks of. *)
Lemma type_run_inv {t} (ops : list (type_op t)) : forall x x' : node t, node_inv x -> type_run ops x = Val x' -> node_inv x'.
Proof.
  induction ops as [|o ops IH]; intros x x' Hx; cbn [type_run]; [by intros [= <-]|].
  intros H. apply bind_val in H as (x1 & H1 & H). eapply IH, H. destruct o as [o|ch]; [by eapply node_exec_inv|].
  injection H1 as <-. destruct Hx as [Ho Hi Hs]. by split.
Qed.

(** ** Polls of the tasks, and calls of the user *)

Lemma as_message_same t message : as_message t t message = [message].
Proof. unfold as_message. destruct (decide (t = t)) as [H|]; [|done]. by rewrite (proof_irrel H eq_refl). Qed.
Lemma as_message_other t t' message : t' <> t -> as_message t t' message = [].
Proof. unfold as_message. by destruct (decide (t' = t)). Qed.

(** A node of [t] makes the step [o] if its type is [t0]. *)
Definition steps_of {t0} (o : type_op t0) t : list (type_op t) :=
  match decide (t0 = t) with left H => [eq_rect t0 type_op o t H] | right _ => [] end.

(** What is done to the nodes of type [t0] is done to the node of [t]. *)
Lemma one_node {t0} (o : type_op t0) (tasks tasks' : list StartedTask) (channels channels' : ChannelsMap) a d t (x : node t) :
  (forall x : node t0, is_node t0 tasks channels x -> exists x', type_exec o x = Val x' /\ is_node t0 tasks' channels' x' /\
    n_accepted x' = n_accepted x ++ a /\ n_delivered x' = n_delivered x ++ d) ->
  (forall t (x : node t), t <> t0 -> is_node t tasks channels x -> is_node t tasks' channels' x) ->
  is_node t tasks channels x ->
  exists x', type_run (steps_of o t) x = Val x' /\ is_node t tasks' channels' x' /\
    n_accepted x' = n_accepted x ++ (a ≫= as_message t t0) /\ n_delivered x' = n_delivered x ++ (d ≫= as_message t t0).
Proof.
  intros Hsame Hother Hx. unfold steps_of. destruct (decide (t0 = t)) as [->|Hne].
  - assert (forall ms : list (Message t), ms ≫= as_message t t = ms) as Hms.
    { induction ms as [|m ms IH]; [done|]. cbn. by rewrite as_message_same, IH. }
    destruct (Hsame x Hx) as (x' & Hx' & H). exists x'. cbn. rewrite Hx', !Hms. by split.
  - assert (forall ms : list (Message t0), ms ≫= as_message t t0 = []) as Hms.
    { induction ms as [|m ms IH]; [done|]. cbn. by rewrite as_message_other. }
    exists x. rewrite !Hms, !app_nil_r. split; [done|]. split; [|done]. by apply Hother.
Qed.

Lemma poll_tasks_refines polls w t : forall (tasks : list StartedTask) (channels : ChannelsMap) tasks' channels' (x : node t),
  map_typed channels -> NoDup (st_type <$> tasks) -> poll_tasks fuel polls w tasks channels = Val (Joining tasks', channels') ->
  is_node t tasks channels x ->
  exists ops (x' : node t), type_run ops x = Val x' /\ is_node t tasks' channels' x' /\
    n_accepted x' = n_accepted x /\ n_delivered x' = n_delivered x.
Proof.
  induction polls as [|[i b] polls IH]; intros tasks channels tasks' channels' x Hm Hnd H Hx; cbn [poll_tasks] in H.
  { injection H as <- <-. by exists [], x. }
  destruct (tasks !! i) as [s|] eqn:Hs; [|by eapply IH]. apply bind_val in H as ([s1 channels1] & H1 & H).
  assert (failed (st_phase s1) = false /\ poll_tasks fuel polls w (<[i := s1]> tasks) channels1 = Val (Joining tasks', channels')) as [Hf Hrest]
    by (by destruct (st_phase s1)).
  destruct (poll_started_node fuel (fun _ ch => ch) (fun e => e) b w i s s1 tasks channels channels1 Hm Hnd Hs H1 Hf) as (Hsame & Hother & Hm1 & Hty).
  destruct (one_node (t0 := st_type s) (TypeNode (NodeTask b w)) tasks (<[i := s1]> tasks) channels channels1 [] [] t x) as (x1 & Hx1 & Hv1 & Ha1 & Hd1); [|done..|].
  { intros x0 Hx0. destruct (Hsame x0 Hx0) as (x' & Hx' & Hv' & Ha' & Hd'). exists x'. by rewrite !app_nil_r. }
  destruct (IH _ _ _ _ x1 Hm1 ltac:(by erewrite types_insert) Hrest Hv1) as (ops & x' & Hrun & Hv & Hacc & Hdel).
  exists (steps_of (t0 := st_type s) (TypeNode (NodeTask b w)) t ++ ops), x'. split; [by eapply type_run_app|]. split; [done|]. rewrite Hacc, Hdel, Ha1, Hd1. by rewrite !app_nil_r.
Qed.

(** ** Steps *)

Lemma user_exec_connection names o (c c' : connection) es : connection_inv names c -> cn_receiving_err c = false ->
  user_exec o c = Val (c', es) -> connection_inv names c' /\ cn_receiving_err c' = false.
Proof.
  intros Hc Hr H.
  assert (exists co, connection_exec fuel co c = Val c') as [co Hco].
  { destruct o as [t m|t item w|t|t w|t|polls w|t ch]; cbn [user_exec] in H.
    - exists (Call (HandleSend t m)). apply bind_val in H as ([h r] & Hh & [= <- _]). cbn. unfold callable. rewrite Hr. cbn. by rewrite Hh.
    - exists (Call (HandleAsyncSend w t item)). apply bind_val in H as ([[h i] r] & Hh & [= <- _]). cbn. unfold callable. rewrite Hr. cbn. by rewrite Hh.
    - exists (Call (HandleRecv t)). apply bind_val in H as ([h r] & Hh & [= <- _]). cbn. unfold callable. rewrite Hr. cbn. by rewrite Hh.
    - exists (Call (HandleAsyncRecv w t)). apply bind_val in H as ([h r] & Hh & [= <- _]). cbn. unfold callable. rewrite Hr. cbn. by rewrite Hh.
    - exists (Call (HandleFlush t)). apply bind_val in H as ([h r] & Hh & [= <- _]). cbn. unfold callable. rewrite Hr. cbn. by rewrite Hh.
    - exists (PollJoined polls w). by apply bind_val in H as (c1 & H1 & [= -> _]).
    - exists (ChannelActs t ch). by injection H as <- _. }
  split; [by eapply connection_exec_ok|].
  destruct o; cbn [user_exec] in H; try (apply bind_val in H as (h & _ & H); repeat case_match; injection H as <- _; exact Hr);
    [|by injection H as <- _].
  apply bind_val in H as (c1 & H1 & [= <- _]). cbn [connection_exec] in H1. by apply bind_val in H1 as ([j chs] & _ & [= <-]).
Qed.

Lemma user_exec_joined o (c c' : connection) es e : user_exec o c = Val (c', es) -> cn_joined c = Joined e -> cn_joined c' = Joined e.
Proof.
  intros H He. destruct o; cbn [user_exec] in H; try (apply bind_val in H as (h & _ & H); repeat case_match; injection H as <- _; exact He).
  2: { injection H as <- _. cbn. by rewrite He. }
  apply bind_val in H as (c1 & H1 & [= <- _]). cbn [connection_exec] in H1. rewrite He in H1. by injection H1 as <-.
Qed.
Lemma user_run_joined ops e : forall (c c' : connection) es, user_run ops c = Val (c', es) -> cn_joined c = Joined e -> cn_joined c' = Joined e.
Proof.
  induction ops as [|o ops IH]; intros c c' es H He; cbn [user_run] in H; [by injection H as <- _|].
  apply bind_val in H as ([c1 es1] & H1 & H). apply bind_val in H as ([c2 es2] & H2 & [= <- _]).
  eapply IH; [exact H2|]. by eapply user_exec_joined.
Qed.

(** The task and the queues of a type, as long as the tasks are joined. *)
Definition has_node t (c : connection) (x : node t) : Prop :=
  match cn_joined c with Joining tasks => is_node t tasks (channels_ (cn_handle c)) x | Joined _ => False end.

(** What a call does to the node of a type. *)
Definition refines_node t (c : connection) es (x : node t) : Prop :=
  exists ops (x' : node t), type_run ops x = Val x' /\ has_node t c x' /\
    n_accepted x' = n_accepted x ++ accepted t es /\ n_delivered x' = n_delivered x ++ delivered t es.

Lemma refines_same t (c : connection) (x : node t) : has_node t c x -> refines_node t c [] x.
Proof. intros H. exists [], x. by rewrite !app_nil_r. Qed.

(** What a call does to the queues of a type, if it is registered: what [no] does to those
    of a node, over any channel. *)
Definition called (t0 : TypeId) (no : node_op K (Message t0)) (c c' : connection) (es : list user_event) : Prop :=
  (channels_ (cn_handle c') = channels_ (cn_handle c) /\ es = []) \/
  exists set l n a d, channels_ (cn_handle c) !! t0 = Some (mkAnySet t0 set) /\
    (forall (Ch E : Type) (MC : MessageChannel Ch K (Message t0) E) (x : ChannelTask.node Ch (Q (Message t0)) W K (Message t0) E),
      t_link (n_task x) = cs_link set -> node_exec no x = Val (mkNode (on_link l (n_task x)) (n_accepted x ++ a) (n_delivered x ++ d))) /\
    channels_ (cn_handle c') = <[t0 := mkAnySet t0 (mkChannelSet l n)]> (channels_ (cn_handle c)) /\
    es = (Accepted t0 <$> a) ++ (Delivered t0 <$> d).

Lemma user_exec_called names o (c c' : connection) es tasks :
  connection_inv names c -> cn_joined c = Joining tasks -> user_exec o c = Val (c', es) ->
  match o with
  | UserSend t m => cn_joined c' = Joining tasks /\ called t (NodeSend m) c c' es
  | UserAsyncSend t item w => cn_joined c' = Joining tasks /\ called t (NodePollSend item w) c c' es
  | UserAsyncRecv t w => cn_joined c' = Joining tasks /\ called t (NodePollRecv w) c c' es
  | UserRecv t => cn_joined c' = Joining tasks /\ called t NodeRecv c c' es
  | UserFlush t => cn_joined c' = Joining tasks /\ called t NodeFlush c c' es
  | _ => True
  end.
Proof.
  intros [Hm Hd Hends Hj] Hjoin H. rewrite Hjoin in Hj. destruct Hj as [_ Hdis].
  destruct o as [t0 m|t0 item w|t0|t0 w|t0|polls w|t0 ch]; cbn [user_exec] in H; [..|done|done];
    apply bind_val in H as (hr & Hh & H); pose proof (ChannelsMap_get_ok _ t0 Hm) as Hg;
    unfold try_send, try_recv, try_flush, poll_async_send, poll_async_recv, with_channels in Hh;
    (destruct (channels_ (cn_handle c) !! t0) as [a|] eqn:Ha; [destruct Hg as (set & -> & Hg)|]); rewrite Hg in Hh; cbn [mbind res_bind] in Hh;
    try (injection Hh as <-; injection H as <- <-; split; [done|left; by rewrite ?taken_same]); rewrite ?Hdis in Hh.
  - destruct (link_try_send m (cs_link set)) as [l q] eqn:Hl.
    assert (cn_joined c' = Joining tasks /\ channels_ (cn_handle c') = <[t0 := mkAnySet t0 (mkChannelSet l (cs_statistics set))]> (channels_ (cn_handle c)) /\
      es = (Accepted t0 <$> match q with inl _ => [m] | inr _ => [] end) ++ []) as (Hj' & Hch & He)
      by (by destruct q as [[]|[u|u]]; injection Hh as <-; injection H as <- <-).
    split; [exact Hj'|]. right. exists set, l, (cs_statistics set), (match q with inl _ => [m] | inr _ => [] end), [].
    split; [done|]. split; [intros Ch E MC x Hx; cbn [node_exec]; by rewrite Hx, Hl, app_nil_r|by split].
  - apply bind_val in Hh as ([[l item'] q] & Hl & Hh).
    assert (cn_joined c' = Joining tasks /\ channels_ (cn_handle c') = <[t0 := mkAnySet t0 (mkChannelSet l (cs_statistics set))]> (channels_ (cn_handle c)) /\
      es = Accepted t0 <$> taken item item') as (Hj' & Hch & He) by (by destruct q as [|[[]|e]]; injection Hh as <-; injection H as <- <-).
    split; [exact Hj'|]. right. exists set, l, (cs_statistics set), (taken item item'), [].
    split; [done|]. split; [intros Ch E MC x Hx; cbn [node_exec]; by rewrite Hx, Hl; cbn; rewrite app_nil_r|]. split; [done|]. by rewrite He, app_nil_r.
  - destruct (link_try_recv (cs_link set)) as [l q] eqn:Hl.
    assert (cn_joined c' = Joining tasks /\ channels_ (cn_handle c') = <[t0 := mkAnySet t0 (mkChannelSet l (cs_statistics set))]> (channels_ (cn_handle c)) /\
      es = Delivered t0 <$> ready_msg q) as (Hj' & Hch & He) by (by destruct q as [u|[]]; injection Hh as <-; injection H as <- <-).
    split; [exact Hj'|]. right. exists set, l, (cs_statistics set), [], (ready_msg q).
    split; [done|]. split; [intros Ch E MC x Hx; cbn [node_exec]; by rewrite Hx, Hl, app_nil_r|by split].
  - destruct (link_poll_recv w (cs_link set)) as [l q] eqn:Hl.
    assert (cn_joined c' = Joining tasks /\ channels_ (cn_handle c') = <[t0 := mkAnySet t0 (mkChannelSet l (cs_statistics set))]> (channels_ (cn_handle c)) /\
      es = Delivered t0 <$> match q with Ready (Some msg) => [msg] | _ => [] end) as (Hj' & Hch & He)
      by (by destruct q as [|[u|]]; injection Hh as <-; injection H as <- <-).
    split; [exact Hj'|]. right. exists set, l, (cs_statistics set), [], (match q with Ready (Some msg) => [msg] | _ => [] end).
    split; [done|]. split; [intros Ch E MC x Hx; cbn [node_exec]; by rewrite Hx, Hl, app_nil_r|by split].
  - injection Hh as <-. injection H as <- <-. split; [done|]. right. exists set, (link_signal (cs_link set)), (cs_statistics set), [], [].
    split; [done|]. split; [intros Ch E MC x Hx; cbn [node_exec]; by rewrite Hx, !app_nil_r|done].
Qed.

Lemma accepted_called t t0 (a d : list (Message t0)) :
  accepted t ((Accepted t0 <$> a) ++ (Delivered t0 <$> d)) = a ≫= as_message t t0.
Proof.
  unfold accepted. rewrite bind_app. assert ((Delivered t0 <$> d) ≫= (fun e => match e with Accepted t' message => as_message t t' message | Delivered _ _ => [] end) = []) as ->.
  { by induction d as [|m d IH]. }
  rewrite app_nil_r. induction a as [|m a IH]; [done|]. cbn. by rewrite IH.
Qed.
Lemma delivered_called t t0 (a d : list (Message t0)) :
  delivered t ((Accepted t0 <$> a) ++ (Delivered t0 <$> d)) = d ≫= as_message t t0.
Proof.
  unfold delivered. rewrite bind_app. assert ((Accepted t0 <$> a) ≫= (fun e => match e with Delivered t' message => as_message t t' message | Accepted _ _ => [] end) = []) as ->.
  { by induction a as [|m a IH]. }
  induction d as [|m d IH]; [done|]. cbn in *. by rewrite IH.
Qed.

Lemma called_refines t t0 no (c c' : connection) es (tasks : list StartedTask) (x : node t) :
  cn_joined c = Joining tasks -> cn_joined c' = Joining tasks -> called t0 no c c' es -> has_node t c x -> refines_node t c' es x.
Proof.
  intros Hj Hj' [[Hch ->]|(set & l & n & a & d & Hset & Hno & Hch & ->)] Hx.
  - apply refines_same. unfold has_node in *. by rewrite Hj', Hch, Hj in *.
  - unfold has_node in Hx. rewrite Hj in Hx.
    destruct (link_op_node (fun _ ch => ch) (fun e => e) no tasks _ set l n a d Hset (Hno _ _ _)) as [Hsame Hother].
    destruct (one_node (TypeNode no) tasks tasks _ _ a d t x Hsame Hother Hx) as (x' & Hx' & Hv' & Ha' & Hd').
    exists (steps_of (TypeNode no) t), x'. rewrite accepted_called, delivered_called. split; [done|]. split; [|done].
    unfold has_node. by rewrite Hj', Hch.
Qed.

Lemma user_exec_refines names o (c c' : connection) es tasks' t (x : node t) :
  connection_inv names c -> NoDup names.*1 -> user_exec o c = Val (c', es) -> cn_joined c' = Joining tasks' ->
  has_node t c x -> refines_node t c' es x.
Proof.
  intros Hc Hnd H Hc' Hx. destruct (cn_joined c) as [tasks|e] eqn:Hjoin; [|by rewrite (user_exec_joined _ _ _ _ _ H Hjoin) in Hc'].
  pose proof (user_exec_called _ _ _ _ _ _ Hc Hjoin H) as Hcall.
  destruct o as [t0 m|t0 item w|t0|t0 w|t0|polls w|t0 ch]; cbn [user_exec] in H; try (destruct Hcall as [Hj' Hcall]; by apply (called_refines t t0 _ c c' es tasks x Hjoin Hj' Hcall)).
  - destruct Hc as [Hm Hd Hends Hj]. rewrite Hjoin in Hj. destruct Hj as [Hn Hdis]. unfold has_node in Hx. rewrite Hjoin in Hx.
    apply bind_val in H as (c1 & H1 & [= <- <-]). cbn [connection_exec] in H1. apply bind_val in H1 as ([j chs] & Hp & [= <-]).
    cbn [cn_joined] in Hc'. subst j. rewrite Hjoin in Hp. destruct tasks as [|s tasks]; [done|]. cbn [joined_poll] in Hp.
    rewrite <- (tasks_types _ _ Hn) in Hnd.
    destruct (poll_tasks_refines _ _ t _ _ _ _ x Hm Hnd Hp Hx) as (ops & x' & Hrun & Hv & Hacc & Hdel).
    exists ops, x'. rewrite !app_nil_r. by split_and!.
  - unfold has_node in Hx. rewrite Hjoin in Hx. injection H as <- <-. rewrite Hjoin.
    destruct (set_channel_node (Ch1 := fun t => TypedChannel (Message t)) (fun _ ch => ch) (fun e => e) ch tasks (channels_ (cn_handle c))) as [Hsame Hother].
    destruct (one_node (TypeChannel ch) tasks (set_channel t0 ch <$> tasks) (channels_ (cn_handle c)) (channels_ (cn_handle c)) [] [] t x) as (x' & Hx' & Hv' & Ha' & Hd'); [|done..|].
    { intros x0 Hx0. eexists. split; [done|]. split; [by apply Hsame|]. by rewrite !app_nil_r. }
    exists (steps_of (TypeChannel ch) t), x'. by split_and!.
Qed.

Lemma user_run_refines names ops tasks' t : NoDup names.*1 -> forall (c c' : connection) es (x : node t),
  connection_inv names c -> cn_receiving_err c = false -> user_run ops c = Val (c', es) -> cn_joined c' = Joining tasks' ->
  has_node t c x -> refines_node t c' es x.
Proof.
  intros Hnd. induction ops as [|o ops IH]; intros c c' es x Hc Hr H Hj Hx; cbn [user_run] in H.
  { injection H as <- <-. by apply refines_same. }
  apply bind_val in H as ([c1 es1] & H1 & H). apply bind_val in H as ([c2 es2] & H2 & [= <- <-]).
  destruct (user_exec_connection _ _ _ _ _ Hc Hr H1) as [Hc1 Hr1].
  destruct (cn_joined c1) as [tasks1|e] eqn:Hj1; [|by rewrite (user_run_joined _ _ _ _ _ H2 Hj1) in Hj].
  destruct (user_exec_refines _ _ _ _ _ _ t x Hc Hnd H1 Hj1 Hx) as (os1 & x1 & Hrun1 & Hv1 & Ha1 & Hd1).
  destruct (IH c1 c2 es2 x1 Hc1 Hr1 H2 Hj Hv1) as (os2 & x2 & Hrun2 & Hv2 & Ha2 & Hd2).
  exists (os1 ++ os2), x2. split; [by eapply type_run_app|]. split; [done|]. unfold accepted, delivered in *.
  by rewrite Ha2, Hd2, Ha1, Hd1, !bind_app, !app_assoc.
Qed.

(** ** What [build] starts *)

Lemma into_iter_NoDup {A} (m : gmap TypeId A) : NoDup (into_iter m).*1.
Proof. rewrite (fmap_Permutation fst _ _ (into_iter_ok m)). apply NoDup_fst_map_to_list. Qed.

Lemma open_channel_slot n size (m m' : Multiplexer) r slot : open_channel n size m = (m', r) ->
  unwrap (match r with inl slot => Some slot | inr _ => None end) = Val slot -> slot = None.
Proof. unfold open_channel. destruct (pm_incoming m !! n); [by intros [= <- <-]|]. unfold Spsc.channel. by intros [= <- <-] [= <-]. Qed.

Lemma register_all_tasks timer pool (fns : list (TypeId * (string * MessageChannelSettings))) :
  forall (m m' : Multiplexer) (map map' : ChannelsMap) (tasks : list StartedTask),
  register_all timer pool fns m map = Val (m', map', tasks) -> NoDup fns.*1 ->
  (forall t, t ∉ fns.*1 -> map' !! t = map !! t) /\
  forall t name s, (t, (name, s)) ∈ fns -> exists mux_channel typed n, mkStartedTask t name typed Selecting ∈ tasks /\
    typed_channel s timer (mkMuxPacketPool pool) None mux_channel = Val typed /\
    map' !! t = Some (mkAnySet t (mkChannelSet (link_new (message_buffer_size s)) n)).
Proof.
  induction fns as [|[t0 [name0 s0]] fns IH]; intros m m' map map' tasks H Hnd; cbn [register_all] in H.
  { injection H as <- <- <-. split; [done|]. by intros t name s []%not_elem_of_nil. }
  apply bind_val in H as ([[m1 map1] typed] & H1 & H). apply bind_val in H as ([[m2 map2] tasks2] & H2 & [= <- <- <-]).
  unfold register_message_type in H1. destruct (open_channel _ _ _) as [m0 r] eqn:Ho. apply bind_val in H1 as (slot & ->%(open_channel_slot _ _ _ _ _ _ Ho) & H1).
  apply bind_val in H1 as (mux_channel & _ & H1). apply bind_val in H1 as (typed' & Ht & H1). injection H1 as <- <- <-.
  cbn in Hnd. apply NoDup_cons in Hnd as [Hn Hnd]. destruct (IH _ _ _ _ _ H2 Hnd) as [Hout Hin]. split.
  - intros t Hnt. cbn in Hnt. apply not_elem_of_cons in Hnt as [Hne Hnt]. rewrite Hout by done. by rewrite lookup_insert_ne.
  - intros t name s [[= -> -> ->]|Hs]%elem_of_cons.
    + exists mux_channel, typed', (channel s0). split; [by left|]. split; [done|]. by rewrite Hout, lookup_insert_eq.
    + destruct (Hin t name s Hs) as (mc & typed & n & Hty & Hrest). exists mc, typed, n. split; [by right|done].
Qed.

(** The task and the queues of a registered type after [build]. *)
Lemma built_task b (m m' : Multiplexer) (c : MessageChannels) (tasks : list StartedTask) t name settings :
  build b m = Val (m', c, tasks) -> register_fns b !! t = Some (name, settings) ->
  exists mux_channel typed, typed_channel settings (timer b) (mkMuxPacketPool (pool b)) None mux_channel = Val typed /\
    view_of t tasks (channels_ c) = Some (ChannelTask.mkTask typed (link_new (message_buffer_size settings)) Selecting).
Proof.
  intros Hb Ht. pose proof (built_inv _ _ _ _ _ Hb) as [_ _ _ [Hn _]]. apply tasks_types in Hn.
  pose proof (into_iter_NoDup (register_fns b)) as Hfns.
  assert (NoDup (st_type <$> tasks)) as Hnd by (rewrite Hn; unfold registered_names; rewrite <- list_fmap_compose; exact Hfns).
  unfold build in Hb. apply bind_val in Hb as ([[m1 map] tasks1] & Hb & [= <- <- <-]).
  destruct (register_all_tasks _ _ _ _ _ _ _ _ Hb Hfns) as [_ Hin].
  destruct (Hin t name settings) as (mux_channel & typed & n & Hty & Hch & Hmap).
  { rewrite into_iter_ok. by apply elem_of_map_to_list. }
  apply list_elem_of_lookup in Hty as [i Hi]. exists mux_channel, typed. split; [done|].
  pose proof (task_of_lookup _ _ _ Hnd Hi) as Htk. cbn [st_type st_channel st_phase] in Htk.
  unfold view_of. cbn [channels_]. by rewrite Htk, Hmap, downcast_same.
Qed.

(** C25. Refinement: after [build], as long as no task has failed, whatever the user calls,
    however the joined tasks are polled and whatever happens to the channels, the task and
    the queues of each registered type are those of a run of its node alone, which
    starts with the channel that its settings make and with empty queues; the messages
    of that type that the calls took and gave are those of that run; and none of them
    is lost: each that was taken is in the channel, or in order in the task's hands, the
    queue or its slot, and each out of the channel was given or is on its way. *)
Theorem channels_refine_tasks ops b (m m' : Multiplexer) (c : MessageChannels) (tasks : list StartedTask) (cn : connection) es t name settings :
  build b m = Val (m', c, tasks) -> register_fns b !! t = Some (name, settings) ->
  user_run ops (mkConnection c false (Joining tasks)) = Val (cn, es) -> poll_recv_err (cn_joined cn) = Pending ->
  exists sender mux_channel typed type_ops (x : node t),
    typed_channel settings (timer b) (mkMuxPacketPool (pool b)) sender mux_channel = Val typed /\
    type_run type_ops (node_new typed (message_buffer_size settings)) = Val x /\ has_node t cn x /\
    n_accepted x = accepted t es /\ n_delivered x = delivered t es /\
    accepted t es = n_sent x ++ going_out (n_task x) /\ n_received x = delivered t es ++ going_in (n_task x).
Proof.
  intros Hb Ht Hrun Hj. destruct (cn_joined cn) as [tasks'|e] eqn:Hjoin; [|done].
  pose proof (built_inv _ _ _ _ _ Hb) as Hinv.
  assert (NoDup (registered_names b).*1) as Hnd by (unfold registered_names; rewrite <- list_fmap_compose; exact (into_iter_NoDup (register_fns b))).
  destruct (built_task _ _ _ _ _ _ _ _ Hb Ht) as (mux_channel & typed & Hch & Hview).
  assert (has_node t (mkConnection c false (Joining tasks)) (node_new typed (message_buffer_size settings))) as Hv by by split.
  destruct (user_run_refines _ _ _ t Hnd _ _ _ _ Hinv eq_refl Hrun Hjoin Hv) as (type_ops & x & Hx & Hvx & Ha & Hd).
  cbn [node_new n_accepted n_delivered app] in Ha, Hd. pose proof Hvx as Hf. unfold has_node in Hf. rewrite Hjoin in Hf. destruct Hf as [_ Hf].
  destruct (type_run_inv _ _ _ (node_new_inv _ _) Hx) as [(out & Ho & Hout) (inc & Hi' & Hinc) _].
  rewrite Hf in Hinc. subst inc. rewrite (Hout Hf) in Ho. rewrite Ha in Ho. rewrite Hd in Hi'.
  exists None, mux_channel, typed, type_ops, x. by split_and!.
Qed.
End refinement.

(** * An example: a number is sent, another one comes in *)

Module RefinementExample.
Import Example RunLength ChannelsExample JoinedExample.

Abbreviation example_typed := (TypedChannel (T := nat) (Instant := nat) (Pool := BufferPacketPool bool) (Snd := bool) (Sl := unit)
  (P := BufferPacket) (Qp := list_queue (MuxPacket BufferPacket)) (W := option Z) (K := Z) (Message number)).
Abbreviation example_user_op := (user_op (T := nat) (Instant := nat) (Pool := BufferPacketPool bool) (Snd := bool) (Sl := unit)
  (P := BufferPacket) (Qp := list_queue (MuxPacket BufferPacket)) (W := option Z) (K := Z)).

(** The channel of numbers, for which a packet has come in. *)
Definition packets (ps : list (MuxPacket BufferPacket)) : Shared (list_queue (MuxPacket BufferPacket)) (option Z) Z :=
  mkShared (mkListQueue 4 ps true true) aw_new aw_new [] [].
Definition after_packet : res example_typed :=
  typed_channel (example_settings 1) 0%nat (mkMuxPacketPool (mkBufferPacketPool true)) None
    (mkMuxChannel (packets [mkMuxPacket (mkBufferPacket [1; 1; 0; 9] 4)]) (packets []) (mkChannelStatisticsData 0 0 0 0)).

Definition every (b : branch) : example_user_op := UserPoll [(0%nat, b); (1%nat, b)] 7.
Definition example_user_ops : list example_user_op :=
  [UserSend number five; UserFlush number; every Branch_Outgoing; UserSend truth yes] ++
  match after_packet with Val ch => [OthersAct number ch] | Fault _ => [] end ++
  [every Branch_Outgoing; every Branch_Incoming; every Branch_Incoming; UserRecv number].

Definition example_user_run : res (example_connection * list (user_event)) :=
  '(_, c, tasks) ← example_built; user_run 1 example_user_ops (mkConnection c false (Joining tasks)).
End RefinementExample.

Import Example RunLength ChannelsExample JoinedExample RefinementExample.

Definition example_seen (r : example_connection * list user_event) :=
  (poll_recv_err (cn_joined r.1), accepted number r.2, delivered number r.2).
Lemma example_user_seen : (example_seen <$> example_user_run) = Val (Pending, [five], [9]).
Proof. vm_compute. reflexivity. Qed.

Lemma example_user_inv (r : example_connection * list user_event) : example_user_run = Val r ->
  exists m' c tasks, example_built = Val (m', c, tasks) /\ user_run 1 example_user_ops (mkConnection c false (Joining tasks)) = Val r.
Proof. intros H. apply bind_val in H as ([[m' c] tasks] & Hb & H). by exists m', c, tasks. Qed.

Lemma example_number : register_fns example_registrations !! number = Some ("i64"%string, example_settings 1).
Proof. unfold example_registrations. rewrite example_register_fns. reflexivity. Qed.

Lemma channels_refine_tasks_witness : exists (cn : example_connection) es sent received,
  example_user_run = Val (cn, es) /\ accepted number es = [five] /\ delivered number es = [9] /\
  (exists on_the_way, [five] = sent ++ on_the_way) /\ (exists on_the_way, received = [9] ++ on_the_way).
Proof.
  pose proof example_user_seen as Hs. destruct example_user_run as [[cn es]|] eqn:Hrun; [|discriminate Hs].
  injection Hs as Hp Ha Hd. destruct (example_user_inv _ Hrun) as (m' & c & tasks & Hb & Hc).
  destruct (channels_refine_tasks 1 example_user_ops example_registrations example_mux m' c tasks cn es number _ _ Hb example_number Hc Hp)
    as (_ & _ & _ & _ & x & _ & _ & _ & _ & _ & Hacc & Hdel).
  rewrite Ha in Hacc. rewrite Hd in Hdel.
  exists cn, es, (n_sent x), (n_received x). split; [reflexivity|]. split; [exact Ha|]. split; [exact Hd|].
  split; eexists; [exact Hacc|exact Hdel].
Defined.
