(* ===== verification/MuxSystem.v ===== *)
(** Two hosts that share one network between many channels: on each a packet
    multiplexer, and over every channel a station, such as a reliable channel with its
    user. Every channel behaves as if it had a lossy network of its own: the packets
    of a channel reach the same channel of the other host, and no other one. *)

From stdpp Require Import relations gmap.
From S2P Require Import Prelude Packet Wire Async Spsc SpscSafety Mux MuxSafety.

(** * Families indexed by channel numbers *)

Section upd.
Context {A : Z -> Type}.

Definition upd (c : Z) (x : A c) (f : forall c, A c) (c' : Z) : A c' :=
  match decide (c = c') with left e => eq_rect c A x c' e | right _ => f c' end.

Lemma upd_eq c x f : upd c x f c = x.
Proof. unfold upd. destruct (decide (c = c)) as [e|]; [|done]. by rewrite (proof_irrel e eq_refl). Qed.
Lemma upd_ne c x f c' : c <> c' -> upd c x f c' = f c'.
Proof. intros Hne. unfold upd. by destruct (decide (c = c')). Qed.
End upd.

(** * Stations *)

(** What lives over a channel of packets [P]: it moves by itself, or handles a packet
    that it takes from its queue; [st_sent] are the packets it has handed to its
    sink so far, and [st_ok] what its user may do. *)
Class Station (N P : Type) := {
  st_op : Type;
  st_key : Type;
  st_ok : st_op -> Prop;
  st_exec : st_op -> N -> res N;
  st_receive : st_key -> P -> N -> res N;
  st_sent : N -> list P;
  st_running : N -> Prop;
}.
#[global] Hint Mode Station ! - : typeclass_instances.

(** A station next to its peer, with a network of their own that loses, repeats and
    reorders packets. *)
Inductive station_step {N P} {PI : Packet P} {ST : Station N P} (peer : N) : N -> N -> Prop :=
| station_op o x x' : st_ok o -> st_exec o x = Val x' -> st_running x' -> station_step peer x x'
| station_packet k p q x x' :
    q ∈ st_sent peer -> deref q = deref p -> st_receive k p x = Val x' -> st_running x' -> station_step peer x x'.

Inductive pair_step {N P} {PI : Packet P} {ST : Station N P} : N * N -> N * N -> Prop :=
| pair_left x y x' : station_step y x x' -> pair_step (x, y) (x', y)
| pair_right x y y' : station_step x y y' -> pair_step (x, y) (x, y').

(** * Ports *)

Section ports.
Context {P Q W K : Type} {PI : Packet P} {CB : Crossbeam Q (MuxPacket P)} {AW : AtomicWaker W K} {HO : HashOrder}.

(** The multiplexer of a host: the handle for incoming packets with the store that all
    handles share, the slots of the channels' senders and how many of its packets each
    has got rid of, and the packets that were put on the network. *)
Record port := mkPort {
  pt_mux : IncomingMultiplexedPackets P Q W K;
  pt_slots : gmap Z (option (MuxPacket P));
  pt_admitted : Z -> nat;
  pt_wire : list P;
}.

Inductive port_op :=
| PortSubmit (c : Z) (w : K)
| PortFlush (c : Z) (w : K)
| MuxOutgoing (c : Z) (w : K)
| MuxTrySend (q : P)
| MuxReady (w : K)
| MuxStartSend (q : P)
| MuxFlush (w : K).

Definition pt_set_mux m p := mkPort m (pt_slots p) (pt_admitted p) (pt_wire p).
Definition pt_set_channel c mc p := pt_set_mux (set_im_store (<[c := mc]> (im_store (pt_mux p))) (pt_mux p)) p.
Definition pt_set_slot c slot p := mkPort (pt_mux p) (<[c := slot]> (pt_slots p)) (pt_admitted p) (pt_wire p).
Definition pt_admit c p := mkPort (pt_mux p) (pt_slots p) (fun c' => if c =? c' then S (pt_admitted p c) else pt_admitted p c') (pt_wire p).
Definition pt_send q p := mkPort (pt_mux p) (pt_slots p) (pt_admitted p) (pt_wire p ++ q).

(** A method of a channel's sender. *)
Definition on_outgoing {R} (c : Z) (call : option (MuxPacket P) -> snd_prog (MuxPacket P) K (option (MuxPacket P) * R)) (p : port)
    : res (port * R) :=
  mc ← unwrap (im_store (pt_mux p) !! c);
  slot ← unwrap (pt_slots p !! c);
  let '(sh, (slot, r)) := snd_run (call slot) (mc_outgoing mc) in
  Val (pt_set_slot c slot (pt_set_channel c (set_mc_outgoing sh mc) p), r).

(** A call of the handle for incoming packets, whatever it answers. *)
Definition on_mux {E} (call : handler (IncomingMultiplexedPackets P Q W K) E unit) (p : port) : res port :=
  '(m, _) ← call (pt_mux p); Val (pt_set_mux m p).

(** A channel's receiver is polled. *)
Definition port_receive (c : Z) (w : K) (p : port) : res (port * Poll (option (MuxPacket P))) :=
  mc ← unwrap (im_store (pt_mux p) !! c);
  let (sh, r) := rcv_run (Receiver_poll_next w) (mc_incoming mc) in
  Val (pt_set_channel c (set_mc_incoming sh mc) p, r).

(** [sent c] are the packets that were sent on a channel so far; they go out by
    [SinkExt::send]: a packet goes to the slot as soon as the sender is ready, and is
    flushed from there. *)
Definition port_exec (sent : Z -> list (MuxPacket P)) (o : port_op) (p : port) : res port :=
  match o with
  | PortSubmit c w =>
    '(p, r) ← on_outgoing c (fun slot => Sender_poll_ready slot w) p;
    match r, sent c !! pt_admitted p c with
    | Ready (inl _), Some q =>
      slot ← unwrap (pt_slots p !! c);
      slot ← Sender_start_send slot q;
      Val (pt_admit c (pt_set_slot c slot p))
    | _, _ => Val p
    end
  | PortFlush c w => '(p, _) ← on_outgoing c (fun slot => Sender_poll_flush slot w) p; Val p
  | MuxOutgoing c w =>
    '(store, r) ← ChannelReceiver_poll_next c w (im_store (pt_mux p));
    let p := pt_set_mux (set_im_store store (pt_mux p)) p in
    Val (pt_send match r with Ready (Some q) => [q] | _ => [] end p)
  | MuxTrySend q => on_mux (Incoming_try_send q) p
  | MuxReady w => on_mux (Incoming_poll_ready w) p
  | MuxStartSend q => on_mux (Incoming_start_send q) p
  | MuxFlush w => on_mux (Incoming_poll_flush w) p
  end.

(** The network delivers packets that the other host has put on it. *)
Definition on_wire (q : P) (peer : port) : Prop := exists r, r ∈ pt_wire peer /\ deref r = deref q.

Definition port_allowed (o : port_op) (peer : port) : Prop :=
  match o with MuxTrySend q | MuxStartSend q => on_wire q peer | _ => True end.
End ports.

Arguments port P Q W K : clear implicits.
Arguments port_op P K : clear implicits.

(** * Hosts *)

Section hosts.
Context {P Q W K : Type} {PI : Packet P} {CB : Crossbeam Q (MuxPacket P)} {AW : AtomicWaker W K} {HO : HashOrder}.
Context {N : Z -> Type} {ST : forall c, Station (N c) (MuxPacket P)}.

(** The stations, and the multiplexer below them. *)
Record host := mkHost {
  h_stations : forall c, N c;
  h_port : port P Q W K;
}.

Definition h_mux (h : host) := pt_mux (h_port h).
Definition h_slots (h : host) := pt_slots (h_port h).
Definition h_wire (h : host) := pt_wire (h_port h).

Inductive host_op :=
| HostStation (c : Z) (o : st_op (N := N c))
| HostReceive (c : Z) (w : K) (k : st_key (N := N c))
| HostPort (o : port_op P K).

Definition h_set_station c x h := mkHost (upd c x (h_stations h)) (h_port h).
Definition h_set_port p h := mkHost (h_stations h) p.

Definition host_exec (o : host_op) (h : host) : res host :=
  match o with
  | HostStation c o => x ← st_exec o (h_stations h c); Val (h_set_station c x h)
  | HostReceive c w k =>
    '(p, r) ← port_receive c w (h_port h);
    let h := h_set_port p h in
    match r with
    | Ready (Some p) => x ← st_receive k p (h_stations h c); Val (h_set_station c x h)
    | _ => Val h
    end
  | HostPort o => p ← port_exec (fun c => st_sent (h_stations h c)) o (h_port h); Val (h_set_port p h)
  end.

(** What the users of the stations and the network may do; a step after which a
    station is not running is not looked at. *)
Definition host_allowed (o : host_op) (peer : host) : Prop :=
  match o with
  | HostStation c o => st_ok o
  | HostReceive _ _ _ => True
  | HostPort o => port_allowed o (h_port peer)
  end.

Definition host_running (o : host_op) (h : host) : Prop :=
  match o with HostStation c _ | HostReceive c _ _ => st_running (h_stations h c) | _ => True end.

(** The channel whose station makes a step. *)
Definition op_station (o : host_op) : option Z :=
  match o with HostStation c _ | HostReceive c _ _ => Some c | _ => None end.

Inductive hosts_step : host * host -> host * host -> Prop :=
| hosts_left a b o a' : host_allowed o b -> host_exec o a = Val a' -> host_running o a' -> hosts_step (a, b) (a', b)
| hosts_right a b o b' : host_allowed o a -> host_exec o b = Val b' -> host_running o b' -> hosts_step (a, b) (a, b').

(** A host with the given channels, each with its buffer size; a channel that is opened
    twice is [expect]ed not to be. *)
Fixpoint open_channels (channels : list (Z * Z)) (m : PacketMultiplexer P Q W K) (slots : gmap Z (option (MuxPacket P)))
    : res (PacketMultiplexer P Q W K * gmap Z (option (MuxPacket P))) :=
  match channels with
  | [] => Val (m, slots)
  | (c, size) :: channels =>
    let (m, r) := open_channel c size m in
    slot ← unwrap (match r with inl slot => Some slot | inr _ => None end);
    open_channels channels m (<[c := slot]> slots)
  end.

Definition host_new (channels : list (Z * Z)) (stations : forall c, N c) : res host :=
  '(m, slots) ← open_channels channels PacketMultiplexer_new ∅;
  let (mux, _) := start m in
  Val (mkHost stations (mkPort mux slots (fun _ => 0%nat) [])).
End hosts.

Arguments host P Q W K N : clear implicits.
Arguments host_op P K N {ST} : rename.

(** * Laws of stations *)

(** What is relied on: a station forgets no packet it has sent, and as long as what its
    user does stays within [st_bound], which is given up only for good, the packets of
    a station that has talked to its peer from the start are well-formed. *)
Class StationLaws (N P : Type) {PI : Packet P} {PL : PacketLaws P} {ST : Station N P} := {
  st_new : N -> N -> Prop;
  st_bound : N -> N -> Prop;
  st_sent_mono (x x' : N) : (exists o, st_exec o x = Val x') \/ (exists k (p : P), st_receive k p x = Val x') ->
    forall p : P, p ∈ st_sent x -> p ∈ st_sent x';
  st_bound_mono (x x' y : N) : (exists o, st_exec o x = Val x') \/ (exists k (p : P), st_receive k p x = Val x') ->
    (st_bound x' y -> st_bound x y) /\ (st_bound y x' -> st_bound y x);
  st_wf (x0 y0 x y : N) : st_new x0 y0 -> rtc (pair_step (P := P)) (x0, y0) (x, y) -> st_bound x y ->
    Forall packet_wf (st_sent x : list P) /\ Forall packet_wf (st_sent y : list P);
}.

Section laws.
Context {N P : Type} {PI : Packet P} {PL : PacketLaws P} {ST : Station N P} {SL : StationLaws N P}.

Lemma station_step_moves (peer x x' : N) :
  station_step (P := P) peer x x' -> (exists o, st_exec o x = Val x') \/ (exists k (p : P), st_receive k p x = Val x').
Proof. destruct 1; [left|right]; by eauto. Qed.
End laws.

(** * The invariant *)

Section safety.
Context {P Q W K : Type} {PI : Packet P} {PL : PacketLaws P}.
Context {CB : Crossbeam Q (MuxPacket P)} {CL : CrossbeamLaws Q (MuxPacket P)} {AW : AtomicWaker W K} {HO : HashOrder}.
Context {N : Z -> Type} {ST : forall c, Station (N c) (MuxPacket P)} {SL : forall c, StationLaws (N c) (MuxPacket P)}.

Abbreviation host := (host P Q W K N).
Abbreviation h_set_mux m h := (h_set_port (pt_set_mux m (h_port h)) h).
Abbreviation h_set_channel c mc h := (h_set_port (pt_set_channel c mc (h_port h)) h).
Abbreviation h_set_slot c slot h := (h_set_port (pt_set_slot c slot (h_port h)) h).

(** The bytes of a packet of channel [c] on the network. *)
Definition carried (c : Z) (h : host) (bytes : list Z) : Prop :=
  exists q, q ∈ st_sent (h_stations h c) /\ bytes = c :: deref q.

(** Wherever a packet is between two stations, it is one that the station of its
    channel has sent. *)
Record host_inv (h peer : host) : Prop := {
  hi_mux : im_inv (h_mux h);
  hi_alive : all_alive (h_mux h);
  hi_queue c mc p : im_store (h_mux h) !! c = Some mc -> p ∈ cb_items (channel_ (mc_outgoing mc)) ->
    p ∈ st_sent (h_stations h c);
  hi_slot c p : h_slots h !! c = Some (Some p) -> p ∈ st_sent (h_stations h c);
  hi_wire r : r ∈ h_wire h -> zlen (deref r) < usize_modulus /\ exists c, carried c h (deref r);
  hi_packets c p : p ∈ packets_for (h_mux h) c -> carried c peer (deref (mux_inner p));
}.

Definition sent_wf (h : host) : Prop := forall c, Forall packet_wf (st_sent (h_stations h c)).

Definition sent_mono (h h' : host) : Prop := forall c p, p ∈ st_sent (h_stations h c) -> p ∈ st_sent (h_stations h' c).

Lemma carried_mono c h h' bytes : sent_mono h h' -> carried c h bytes -> carried c h' bytes.
Proof. intros Hm (q & Hq & ->). exists q. auto. Qed.

Lemma host_inv_peer h p p' : sent_mono p p' -> host_inv h p -> host_inv h p'.
Proof. intros Hm []. constructor; try done. intros c q Hq. eapply carried_mono; eauto. Qed.

Lemma sent_mono_stations (h h' : host) : (forall c, h_stations h' c = h_stations h c) -> sent_mono h h'.
Proof. intros He c p. by rewrite He. Qed.

(** A channel of the store has changed. *)
Lemma set_channel_inv c mc mc' (m : IncomingMultiplexedPackets P Q W K) :
  im_inv m -> all_alive m -> im_store m !! c = Some mc ->
  cb_receiver (channel_ (mc_incoming mc')) = cb_receiver (channel_ (mc_incoming mc)) ->
  (forall p, p ∈ cb_items (channel_ (mc_incoming mc')) -> p ∈ cb_items (channel_ (mc_incoming mc))) ->
  let m' := set_im_store (<[c := mc']> (im_store m)) m in
  im_inv m' /\ all_alive m' /\ forall c' p, p ∈ packets_for m' c' -> p ∈ packets_for m c'.
Proof.
  intros [Hst Hfl Hsl Hse] Hal Hc Hr Hit m'. split_and!.
  - split; cbn; try done. intros c'. rewrite Hst. destruct (decide (c' = c)) as [->|]; [|by rewrite lookup_insert_ne].
    rewrite lookup_insert_eq, Hc. by split; eauto.
  - intros c' mc2. cbn. destruct (decide (c' = c)) as [->|]; rewrite ?lookup_insert_eq, ?lookup_insert_ne by done; [|by apply Hal].
    intros [= <-]. rewrite Hr. by eapply Hal.
  - intros c' p. unfold packets_for. cbn. destruct (decide (c' = c)) as [->|];
      rewrite ?lookup_insert_eq, ?lookup_insert_ne by done; [|done].
    rewrite Hc. destruct (im_incoming m !! c); [|done]. rewrite !elem_of_app. change (waiting_for m' c) with (waiting_for m c). naive_solver.
Qed.

(** The handle for incoming packets was called. *)
Lemma host_inv_mux h peer m :
  host_inv h peer -> im_inv m -> all_alive m ->
  (forall c, mc_outgoing <$> im_store m !! c = mc_outgoing <$> im_store (h_mux h) !! c) ->
  (forall c p, p ∈ packets_for m c -> p ∈ packets_for (h_mux h) c \/ carried c peer (deref (mux_inner p))) ->
  host_inv (h_set_mux m h) peer.
Proof.
  intros [] Hm Hal Hout Hp. constructor; cbn; try done.
  - intros c mc p Hc Hin. specialize (Hout c). rewrite Hc in Hout.
    destruct (im_store (h_mux h) !! c) as [mc0|] eqn:Hc0; [|done]. injection Hout as Heq. rewrite Heq in Hin. by eapply hi_queue0.
  - intros c p Hin. destruct (Hp c p Hin) as [?|?]; [by apply hi_packets0|done].
Qed.

Lemma host_inv_kept h peer m : host_inv h peer -> kept (h_mux h) m -> host_inv (h_set_mux m h) peer.
Proof.
  intros Hh [Hm Hal Hp Hout]. apply host_inv_mux; try done. intros c p. rewrite Hp. by left.
Qed.

(** A packet that the network delivers is one of the peer's stations. *)
Lemma on_wire_carried h peer q :
  host_inv peer h -> on_wire q (h_port peer) -> 1 <= zlen (deref q) < usize_modulus /\
  forall c, zlookup 0 (deref q) = Some c -> carried c peer (deref q).
Proof.
  intros Hp (r & Hr & Hd). destruct (hi_wire _ _ Hp r Hr) as (Hl & c & q' & Hq' & Hc). rewrite <- Hd. split.
  - rewrite Hc, zlen_cons in *. zlen_facts. lia.
  - intros c' Hc'. rewrite Hc in Hc'. injection Hc' as <-. by exists q'.
Qed.

Lemma on_mux_inv {E} (call : handler (IncomingMultiplexedPackets P Q W K) E unit) h p' peer :
  host_inv h peer -> on_mux call (h_port h) = Val p' ->
  completes call (h_mux h) (fun m _ => im_inv m /\ all_alive m /\
    (forall c, mc_outgoing <$> im_store m !! c = mc_outgoing <$> im_store (h_mux h) !! c) /\
    forall c p, p ∈ packets_for m c -> p ∈ packets_for (h_mux h) c \/ carried c peer (deref (mux_inner p))) ->
  host_inv (h_set_port p' h) peer.
Proof.
  intros Hh Hrun (m & o & Hcall & Hm & Hal & Hout & Hp)%completes_inv. unfold on_mux in Hrun.
  change (h_mux h) with (pt_mux (h_port h)) in Hcall. rewrite Hcall in Hrun. injection Hrun as <-. by apply host_inv_mux.
Qed.

(** ** The steps of a host *)

(** The host [h'] after a step of [h]: its stations have made steps as if next to
    their peers. *)
Definition step_ok (h peer h' : host) : Prop :=
  host_inv h' peer /\
  forall c, h_stations h' c = h_stations h c \/ station_step (P := MuxPacket P) (h_stations peer c) (h_stations h c) (h_stations h' c).

Lemma station_moves_mono c (x x' : N c) h : h_stations h c = x ->
  (exists o, st_exec o x = Val x') \/ (exists k (p : MuxPacket P), st_receive k p x = Val x') ->
  sent_mono h (h_set_station c x' h).
Proof.
  intros <- Hm c' p. cbn. destruct (decide (c = c')) as [<-|Hne]; [rewrite upd_eq|by rewrite upd_ne].
  by apply (st_sent_mono _ _ Hm).
Qed.

(** A station has moved, in a host that is otherwise [h]. *)
Lemma host_inv_own h h' peer :
  sent_mono h h' -> h_port h' = h_port h -> host_inv h peer -> host_inv h' peer.
Proof.
  intros Hm Hp []. constructor; unfold h_mux, h_slots, h_wire in *; rewrite ?Hp; try done.
  - intros. eapply Hm, hi_queue0; done.
  - intros. by eapply Hm, hi_slot0.
  - intros r Hr. destruct (hi_wire0 r Hr) as (Hl & c & Hc). split; [done|]. exists c. by eapply carried_mono.
Qed.

Lemma station_ok h h0 peer c (x' : N c) :
  host_inv h0 peer -> h_stations h0 = h_stations h -> station_step (P := MuxPacket P) (h_stations peer c) (h_stations h c) x' ->
  step_ok h peer (h_set_station c x' h0).
Proof.
  intros Hh He Hstep. pose proof (station_step_moves _ _ _ Hstep) as Hm. split.
  - apply (host_inv_own h0); try done. apply (station_moves_mono c (h_stations h c)); [by rewrite He|done].
  - intros c'. cbn. destruct (decide (c = c')) as [<-|Hne]; [rewrite upd_eq; by right|]. left. by rewrite upd_ne, He.
Qed.

(** A queue of incoming packets gives one away. *)
Lemma receive_ok h peer c mc sh :
  host_inv h peer -> im_store (h_mux h) !! c = Some mc -> same_queue (mc_incoming mc) sh ->
  (forall p, p ∈ cb_items (channel_ sh) -> p ∈ cb_items (channel_ (mc_incoming mc))) ->
  host_inv (h_set_channel c (set_mc_incoming sh mc) h) peer.
Proof.
  intros Hh Hc (_ & _ & Hr) Hi. pose proof Hh as [Hm Hal _ _ _ _].
  destruct (set_channel_inv c mc (set_mc_incoming sh mc) (h_mux h) Hm Hal Hc Hr Hi) as (Hm' & Hal' & Hp').
  apply host_inv_mux; try done; [|intros; left; by apply Hp'].
  intros c'. cbn. destruct (decide (c' = c)) as [->|]; [by rewrite lookup_insert_eq, Hc|by rewrite lookup_insert_ne].
Qed.

Lemma incoming_packet h peer c mc p :
  host_inv h peer -> im_store (h_mux h) !! c = Some mc -> p ∈ cb_items (channel_ (mc_incoming mc)) ->
  exists q, q ∈ st_sent (h_stations peer c) /\ deref q = deref p.
Proof.
  intros Hh Hc Hp. destruct (proj2 (ii_store _ (hi_mux _ _ Hh) c)) as [slot Hslot]; [by rewrite Hc|].
  destruct (hi_packets _ _ Hh c p) as (q & Hq & Hd).
  - unfold packets_for. rewrite Hc, Hslot. apply elem_of_app. by left.
  - exists q. split; [done|]. change (deref p) with (MuxPacket_deref p). unfold MuxPacket_deref. by rewrite Hd.
Qed.

(** The queue of outgoing packets or its sender has changed. *)
Lemma outgoing_channel h peer c mc sh slot :
  host_inv h peer -> im_store (h_mux h) !! c = Some mc ->
  (forall p, p ∈ cb_items (channel_ sh) ++ option_list slot -> p ∈ st_sent (h_stations h c)) ->
  host_inv (h_set_slot c slot (h_set_channel c (set_mc_outgoing sh mc) h)) peer.
Proof.
  intros Hh Hc Hin. pose proof Hh as [Hm Hal Hqu Hsl Hwi Hp].
  destruct (set_channel_inv c mc (set_mc_outgoing sh mc) (h_mux h) Hm Hal Hc) as (Hm' & Hal' & Hp'); [done..|].
  constructor; cbn; try done.
  - intros c' mc' p. destruct (decide (c' = c)) as [->|]; rewrite ?lookup_insert_eq, ?lookup_insert_ne by done; [|by apply Hqu].
    intros [= <-] Hp0. apply Hin, elem_of_app. by left.
  - intros c' p. destruct (decide (c' = c)) as [->|]; rewrite ?lookup_insert_eq, ?lookup_insert_ne by done; [|by apply Hsl].
    intros [= ->]. apply Hin, elem_of_app. right. by left.
  - intros c' p Hp0. by apply Hp, Hp'.
Qed.

Lemma poll_outgoing_ok h peer c w p' r :
  host_inv h peer -> on_outgoing c (fun slot => Sender_poll_ready slot w) (h_port h) = Val (p', r) ->
  host_inv (h_set_port p' h) peer.
Proof.
  intros Hh. unfold on_outgoing. destruct (im_store (pt_mux (h_port h)) !! c) as [mc|] eqn:Hc; [|done].
  destruct (pt_slots (h_port h) !! c) as [slot|] eqn:Hs; [|done]. cbn [unwrap mbind res_bind].
  destruct (poll_ready_run slot w (mc_outgoing mc)) as (sh & slot' & r' & -> & _ & Hr). intros [= <- <-].
  apply (outgoing_channel h peer c mc sh slot' Hh Hc). intros p Hp.
  assert (p ∈ cb_items (channel_ (mc_outgoing mc)) ++ option_list slot) as [Hin|Hin]%elem_of_app.
  - destruct r' as [|[[]|e]].
    + destruct Hr as (-> & _ & Hi & _). by rewrite <- Hi.
    + destruct Hr as (-> & Hi & _). by rewrite Hi, app_nil_r in Hp.
    + destruct Hr as (_ & _ & -> & Hi). rewrite Hi, app_nil_r in Hp. apply elem_of_app. by left.
  - by eapply (hi_queue _ _ Hh).
  - destruct slot as [p1|]; [|by apply not_elem_of_nil in Hin]. apply list_elem_of_singleton in Hin as ->. by eapply (hi_slot _ _ Hh).
Qed.

(** What the stations have sent. *)
Abbreviation sents h := (fun c => st_sent (h_stations (h : host) c)).

Lemma submit_ok h peer c w p' :
  host_inv h peer -> port_exec (sents h) (PortSubmit c w) (h_port h) = Val p' -> host_inv (h_set_port p' h) peer.
Proof.
  intros Hh H. cbn [port_exec] in H. apply bind_val in H as ([p1 r] & Hp & H).
  pose proof (poll_outgoing_ok _ _ _ _ _ _ Hh Hp) as Hh1.
  destruct r as [|[[]|e]]; try by injection H as <-.
  destruct (st_sent (h_stations h c) !! pt_admitted p1 c) as [q|] eqn:Hs; [|by injection H as <-].
  destruct (pt_slots p1 !! c) as [[?|]|]; try done. cbn in H. injection H as <-.
  destruct Hh1. constructor; cbn; try done. intros c' q'. unfold h_slots. cbn.
  destruct (decide (c' = c)) as [->|]; rewrite ?lookup_insert_eq, ?lookup_insert_ne by done; [|by apply hi_slot0].
  intros [= <-]. by eapply list_elem_of_lookup_2.
Qed.

Lemma mux_outgoing_ok h peer c w p' :
  host_inv h peer -> sent_wf h -> port_exec (sents h) (MuxOutgoing c w) (h_port h) = Val p' -> host_inv (h_set_port p' h) peer.
Proof.
  intros Hh Hwf H. pose proof Hh as [Hm Hal Hqu Hsl Hwi Hp]. cbn [port_exec] in H.
  apply bind_val in H as ([store r] & Hrun & [= <-]). unfold ChannelReceiver_poll_next in Hrun.
  change (pt_mux (h_port h)) with (h_mux h) in *. destruct (im_store (h_mux h) !! c) as [mc|] eqn:Hc; [|done]. cbn [unwrap mbind res_bind] in Hrun.
  destruct (poll_next_run w (mc_outgoing mc)) as (sh & r' & Hnext & _ & Hr). rewrite Hnext in Hrun.
  assert (forall (mc' : MuxChannel Q W K) q, mc_incoming mc' = mc_incoming mc -> mc_outgoing mc' = sh ->
    (forall r, r ∈ q -> zlen (deref r) < usize_modulus /\ carried c h (deref r)) ->
    host_inv (h_set_port (pt_send q (pt_set_mux (set_im_store (<[c := mc']> (im_store (h_mux h))) (h_mux h)) (h_port h))) h) peer) as Hfin.
  { intros mc' q Hi Ho Hq. destruct (set_channel_inv c mc mc' (h_mux h) Hm Hal Hc) as (Hm' & Hal' & Hp'); [by rewrite Hi|by rewrite Hi|].
    constructor; cbn; try done.
    - intros c' mc2 p. destruct (decide (c' = c)) as [->|]; rewrite ?lookup_insert_eq, ?lookup_insert_ne by done; [|by apply Hqu].
      intros [= <-]. rewrite Ho. intros Hin. apply (Hqu c mc p Hc).
      destruct (cb_items (channel_ (mc_outgoing mc))); destruct Hr as [_ Hr]; rewrite Hr in Hin; [done|by right].
    - intros r0 [Hr0|Hr0]%elem_of_app; [by apply Hwi|]. destruct (Hq r0 Hr0). split; [done|by exists c].
    - intros c' p Hin. by apply Hp, Hp'. }
  destruct (cb_items (channel_ (mc_outgoing mc))) as [|p rest] eqn:Hi.
  - destruct Hr as [-> _]. destruct (cb_sender _); injection Hrun as <- <-; (apply Hfin; [done..|]); intros ? []%not_elem_of_nil.
  - destruct Hr as [-> Hi']. assert (p ∈ st_sent (h_stations h c)) as Hin by (apply (Hqu c mc); [done|rewrite Hi; by left]).
    pose proof (Hwf c) as Hw. rewrite Forall_forall in Hw. specialize (Hw p Hin).
    destruct (outgoing_ok c w (im_store (h_mux h)) mc p rest Hc Hi Hw) as (mc1 & q & Hrun' & (_ & _ & _ & Hd) & Hq & Hqc).
    unfold ChannelReceiver_poll_next in Hrun'. rewrite Hc in Hrun'. cbn [unwrap mbind res_bind] in Hrun'. rewrite Hnext in Hrun'.
    apply bind_val in Hrun as (q1 & Hq1 & Hrun). rewrite Hq1 in Hrun'. cbn [mbind res_bind] in Hrun'.
    apply bind_val in Hrun as (len & Hlen & [= <- <-]). rewrite Hlen in Hrun'. cbn [mbind res_bind] in Hrun'. injection Hrun' as _ ->.
    apply Hfin; [done..|]. intros r0 ->%list_elem_of_singleton. pose proof (deref_len _ Hq). destruct Hw as (_ & _ & Hcap).
    split; [lia|]. by exists p.
Qed.

Lemma kept_packets (h peer : host) m : kept (h_mux h) m ->
  im_inv m /\ all_alive m /\ (forall c, mc_outgoing <$> im_store m !! c = mc_outgoing <$> im_store (h_mux h) !! c) /\
  forall c p, p ∈ packets_for m c -> p ∈ packets_for (h_mux h) c \/ carried c peer (deref (mux_inner p)).
Proof. intros [Hm Ha Hp Ho]. split_and!; try done. intros c p. rewrite Hp. by left. Qed.

(** A packet of the network waits in the sink. *)
Lemma mux_start_send_ok (h peer : host) q p' :
  host_inv h peer -> host_inv peer h -> on_wire q (h_port peer) -> port_exec (sents h) (MuxStartSend q) (h_port h) = Val p' ->
  host_inv (h_set_port p' h) peer.
Proof.
  intros Hh Hpeer Hal H. destruct (on_wire_carried _ _ _ Hpeer Hal) as [Hl Hc]. cbn [port_exec] in H.
  unfold on_mux, Incoming_start_send in H. change (pt_mux (h_port h)) with (h_mux h) in *. destruct (im_to_send (h_mux h)) eqn:Hs;
    unfold mbind, handler_bind, get, lift, modify in H; rewrite Hs in H; [done|]. cbn in H. injection H as <-.
  pose proof Hh as [[Hst Hfl Hsl Hse] Ha _ _ _ _]. apply host_inv_mux; try done.
  - split; cbn; try done. by intros p [= <-].
  - intros c p. unfold packets_for. cbn. destruct (im_store (h_mux h) !! c); [|by left].
    destruct (im_incoming (h_mux h) !! c); [|by left]. unfold waiting_for. rewrite Hs. cbn.
    case_bool_decide as Hz; [|by left]. rewrite app_nil_r, !elem_of_app, list_elem_of_singleton.
    intros [?|[?| ->]]; [left; by auto|left; by auto|]. right. by apply Hc.
Qed.

Lemma port_exec_ok o (h peer : host) p' :
  host_inv h peer -> host_inv peer h -> sent_wf h -> port_allowed o (h_port peer) -> port_exec (sents h) o (h_port h) = Val p' ->
  host_inv (h_set_port p' h) peer.
Proof.
  intros Hh Hpeer Hwf Hal H. destruct o as [c w|c w|c w|q|w|q|w].
  - by eapply submit_ok.
  - cbn [port_exec] in H. apply bind_val in H as ([p1 r] & Hp & [= <-]). by eapply poll_outgoing_ok.
  - by eapply mux_outgoing_ok.
  - destruct (on_wire_carried _ _ _ Hpeer Hal) as [Hl Hc]. eapply on_mux_inv; [done|exact H|].
    eapply completes_mono; [apply try_send_ok; [apply Hh|apply Hh|done]|]. intros m _ (Hm & Ha & Ho & Hp).
    split_and!; try done. intros c p Hin. destruct (Hp c p Hin) as [?|[-> Hz]]; [by left|]. right. by apply Hc.
  - eapply on_mux_inv; [done|exact H|]. eapply completes_mono; [apply poll_ready_ok; apply Hh|].
    intros m _ [Hk _]. by apply kept_packets.
  - by eapply mux_start_send_ok.
  - eapply on_mux_inv; [done|exact H|]. eapply completes_mono; [apply mux_poll_flush_ok; apply Hh|].
    intros m _ [Hk _]. by apply kept_packets.
Qed.

(** A packet that a channel's receiver gives is one that the peer's station has sent. *)
Lemma port_receive_ok (h peer : host) c w p' r :
  host_inv h peer -> port_receive c w (h_port h) = Val (p', r) -> host_inv (h_set_port p' h) peer /\
  forall p, r = Ready (Some p) -> exists q, q ∈ st_sent (h_stations peer c) /\ deref q = deref p.
Proof.
  intros Hh H. unfold port_receive in H. change (pt_mux (h_port h)) with (h_mux h) in *.
  destruct (im_store (h_mux h) !! c) as [mc|] eqn:Hc; [|done]. cbn [unwrap mbind res_bind] in H.
  destruct (poll_next_run w (mc_incoming mc)) as (sh & r' & Hnext & Hsq & Hr). rewrite Hnext in H. injection H as <- <-. split.
  - apply (receive_ok h peer c mc sh Hh Hc Hsq). intros p. destruct (cb_items (channel_ (mc_incoming mc))); destruct Hr as [_ ->]; [done|by right].
  - intros p ->. destruct (cb_items (channel_ (mc_incoming mc))) as [|p0 rest] eqn:Hi; destruct Hr as [Hp Hr].
    { by destruct (cb_sender _). }
    injection Hp as ->. apply (incoming_packet h peer c mc p0 Hh Hc). rewrite Hi. by left.
Qed.

Lemma host_exec_ok o (h peer h' : host) :
  host_inv h peer -> host_inv peer h -> sent_wf h -> host_allowed o peer -> host_exec o h = Val h' -> host_running o h' ->
  step_ok h peer h'.
Proof.
  intros Hh Hpeer Hwf Hal H Hrun. destruct o as [c o|c w k|o]; cbn [host_exec] in H.
  - apply bind_val in H as (x & Hx & [= <-]). apply station_ok; try done.
    cbn [host_running h_set_station h_stations] in Hrun. rewrite upd_eq in Hrun. by eapply station_op.
  - apply bind_val in H as ([p1 r] & Hp & H). destruct (port_receive_ok _ _ _ _ _ _ Hh Hp) as [Hh1 Hr].
    destruct r as [|[p|]]; [injection H as <-; split; [exact Hh1|by left]| |injection H as <-; split; [exact Hh1|by left]].
    apply bind_val in H as (x & Hx & [= <-]). apply (station_ok h (h_set_port p1 h)); try done.
    destruct (Hr p eq_refl) as (q & Hq & Hd).
    cbn [host_running h_set_station h_stations] in Hrun. rewrite upd_eq in Hrun. by eapply station_packet.
  - apply bind_val in H as (p1 & Hp & [= <-]). split; [|by left]. by eapply port_exec_ok.
Qed.

(** ** New hosts *)

(** Nothing is on its way in a multiplexer whose channels were just opened. *)
Record fresh (m : PacketMultiplexer P Q W K) (slots : gmap Z (option (MuxPacket P))) : Prop := {
  fr_store c : is_Some (pm_incoming m !! c) <-> is_Some (pm_store m !! c);
  fr_slot c slot : pm_incoming m !! c = Some slot -> slot = None;
  fr_sender c slot : slots !! c = Some slot -> slot = None;
  fr_channel c mc : pm_store m !! c = Some mc -> cb_items (channel_ (mc_incoming mc)) = [] /\
    cb_items (channel_ (mc_outgoing mc)) = [] /\ cb_receiver (channel_ (mc_incoming mc)) = true;
}.

Lemma open_channels_fresh channels : forall (m : PacketMultiplexer P Q W K) slots m' slots',
  fresh m slots -> open_channels channels m slots = Val (m', slots') -> fresh m' slots'.
Proof.
  induction channels as [|[c size] channels IH]; intros m slots m' slots' Hf; cbn [open_channels]; [by intros [= <- <-]|].
  unfold open_channel. destruct (pm_incoming m !! c) eqn:Hc; [done|]. unfold Spsc.channel. cbn [unwrap mbind res_bind].
  apply IH. destruct Hf as [Hst Hsl Hse Hch]. destruct (cb_bounded_ok (Q := Q) (A := MuxPacket P) size) as (_ & Hi & _ & Hr).
  split; cbn; intros c'; destruct (decide (c' = c)) as [->|]; rewrite ?lookup_insert_eq, ?lookup_insert_ne by done; try done; try by eauto.
  - intros ? [= <-]. done.
  - intros ? [= <-]. done.
  - intros ? [= <-]. done.
Qed.

Lemma host_new_inv channels (stations : forall c, N c) (h h' : host) :
  host_new channels stations = Val h -> host_inv h h' /\ h_stations h = stations.
Proof.
  unfold host_new. intros ([m slots] & Hm & [= <-])%bind_val. split; [|done].
  assert (fresh m slots) as [Hst Hsl Hse Hch].
  { eapply open_channels_fresh, Hm. split; cbn; intros c; rewrite ?lookup_empty; done. }
  constructor; cbn.
  - split; cbn; try done. intros c p Hc. by apply Hsl in Hc.
  - intros c mc Hc. by apply Hch in Hc as (_ & _ & ?).
  - intros c mc p Hc. destruct (Hch c mc Hc) as (_ & -> & _). by intros ?%not_elem_of_nil.
  - intros c p Hc. by apply Hse in Hc.
  - by intros r ?%not_elem_of_nil.
  - intros c p. unfold packets_for. cbn. destruct (pm_store m !! c) as [mc|] eqn:Hc; [|by intros ?%not_elem_of_nil].
    destruct (pm_incoming m !! c) as [slot|] eqn:Hs; [|by intros ?%not_elem_of_nil].
    destruct (Hch c mc Hc) as (-> & _). rewrite (Hsl c slot Hs). by intros ?%not_elem_of_nil.
Qed.

(** Two hosts after any number of steps, from new ones with the given stations. *)
Definition hosts_connected (stations stations' : forall c, N c) (h h' : host) : Prop :=
  exists channels channels' h0 h0', host_new channels stations = Val h0 /\ host_new channels' stations' = Val h0' /\
    rtc hosts_step (h0, h0') (h, h').

(** What holds between two hosts. *)
Record hosts_inv (stations stations' : forall c, N c) (h h' : host) : Prop := {
  hs_left : host_inv h h';
  hs_right : host_inv h' h;
  hs_steps c : rtc (pair_step (P := MuxPacket P)) (stations c, stations' c) (h_stations h c, h_stations h' c);
}.

Lemma step_ok_mono h peer h' : step_ok h peer h' -> sent_mono h h'.
Proof.
  intros [_ Hs] c p. destruct (Hs c) as [->|Hstep]; [done|]. apply st_sent_mono. by eapply station_step_moves.
Qed.

(** The bound is tighter after a step. *)
Lemma host_exec_moves o (h h' : host) c : host_exec o h = Val h' ->
  h_stations h' c = h_stations h c \/ op_station o = Some c /\ ((exists o, st_exec o (h_stations h c) = Val (h_stations h' c)) \/
    exists k (p : MuxPacket P), st_receive k p (h_stations h c) = Val (h_stations h' c)).
Proof.
  destruct o as [c' o|c' w k|o]; cbn [host_exec]; intros H.
  - apply bind_val in H as (x & Hx & [= <-]). cbn. destruct (decide (c' = c)) as [->|Hne]; [|left; by apply upd_ne].
    rewrite upd_eq. right. split; [done|]. left. by exists o.
  - apply bind_val in H as ([p1 r] & _ & H). destruct r as [|[p|]]; [by left; injection H as <-| |by left; injection H as <-].
    apply bind_val in H as (x & Hx & [= <-]). cbn. destruct (decide (c' = c)) as [->|Hne]; [|left; by apply upd_ne].
    rewrite upd_eq. right. split; [done|]. right. by exists k, p.
  - apply bind_val in H as (p1 & _ & [= <-]). by left.
Qed.

Lemma hosts_step_bound (a b a' b' : host) c :
  hosts_step (a, b) (a', b') ->
  st_bound (P := MuxPacket P) (h_stations a' c) (h_stations b' c) -> st_bound (P := MuxPacket P) (h_stations a c) (h_stations b c).
Proof.
  intros Hstep. inversion Hstep as [? ? o ? _ Hx _|? ? o ? _ Hx _]; simplify_eq;
    (destruct (host_exec_moves _ _ _ c Hx) as [Heq|[_ Hm]]; [by rewrite Heq|by apply (st_bound_mono (P := MuxPacket P) _ _ _ Hm)]).
Qed.

Lemma hosts_inv_wf (stations stations' : forall c, N c) h h' :
  (forall c, st_new (P := MuxPacket P) (stations c) (stations' c)) -> hosts_inv stations stations' h h' ->
  (forall c, st_bound (P := MuxPacket P) (h_stations h c) (h_stations h' c)) -> sent_wf h /\ sent_wf h'.
Proof. intros Hnew [_ _ Hs] Hb. split; intros c; by apply (st_wf _ _ _ _ (Hnew c) (Hs c) (Hb c)). Qed.

Lemma hosts_inv_step (stations stations' : forall c, N c) (a b a' b' : host) :
  hosts_inv stations stations' a b -> sent_wf a -> sent_wf b -> hosts_step (a, b) (a', b') -> hosts_inv stations stations' a' b'.
Proof.
  intros [Ha Hb Hs] Hwa Hwb Hstep. inversion Hstep as [x y o x' Hal Hx Hr|x y o y' Hal Hx Hr]; subst.
  - pose proof (host_exec_ok o a b' a' Ha Hb Hwa Hal Hx Hr) as Hok.
    split; [apply Hok|by eapply host_inv_peer, Hb; eapply step_ok_mono|].
    intros c. destruct Hok as [_ Hst]. destruct (Hst c) as [->|Hc]; [done|]. eapply rtc_r; [apply Hs|by left].
  - pose proof (host_exec_ok o b a' b' Hb Ha Hwb Hal Hx Hr) as Hok.
    split; [by eapply host_inv_peer, Ha; eapply step_ok_mono|apply Hok|].
    intros c. destruct Hok as [_ Hst]. destruct (Hst c) as [->|Hc]; [done|]. eapply rtc_r; [apply Hs|by right].
Qed.

Lemma hosts_connected_inv (stations stations' : forall c, N c) (a b : host) :
  (forall c, st_new (P := MuxPacket P) (stations c) (stations' c)) -> hosts_connected stations stations' a b ->
  (forall c, st_bound (P := MuxPacket P) (h_stations a c) (h_stations b c)) -> hosts_inv stations stations' a b.
Proof.
  intros Hnew (channels & channels' & a0 & b0 & Ha0 & Hb0 & Hsteps). change a with (a, b).1. change b with (a, b).2.
  revert Hsteps. apply (rtc_ind_r (R := hosts_step) (fun ab : host * host =>
    (forall c, st_bound (P := MuxPacket P) (h_stations ab.1 c) (h_stations ab.2 c)) -> hosts_inv stations stations' ab.1 ab.2) (a0, b0)).
  - intros _. destruct (host_new_inv _ _ a0 b0 Ha0) as [Hi Hs]. destruct (host_new_inv _ _ b0 a0 Hb0) as [Hi' Hs'].
    split; [done|done|]. intros c. cbn. by rewrite Hs, Hs'.
  - intros [a1 b1] [a2 b2] _ Hstep IH Hb. cbn [fst snd] in *.
    assert (forall c, st_bound (P := MuxPacket P) (h_stations a1 c) (h_stations b1 c)) as Hb1
      by (intros c; by eapply hosts_step_bound).
    pose proof (IH Hb1) as Hinv. destruct (hosts_inv_wf _ _ _ _ Hnew Hinv Hb1). by eapply hosts_inv_step.
Qed.

(** Channels that share a network do not meet: whatever the hosts and the network do,
    what the two stations of a channel have done is a run of these two over a lossy
    network of their own, and every packet of a channel that is on its way to a station
    is one that the peer of this station has sent. *)
Theorem multiplexed_channels_separate (stations stations' : forall c, N c) (a b : host) c :
  (forall c, st_new (P := MuxPacket P) (stations c) (stations' c)) -> hosts_connected stations stations' a b ->
  (forall c, st_bound (P := MuxPacket P) (h_stations a c) (h_stations b c)) ->
  rtc (pair_step (P := MuxPacket P)) (stations c, stations' c) (h_stations a c, h_stations b c) /\
  (forall p, p ∈ packets_for (h_mux b) c -> exists q, q ∈ st_sent (h_stations a c) /\ deref q = deref p).
Proof.
  intros Hnew Hab Hbound. destruct (hosts_connected_inv _ _ _ _ Hnew Hab Hbound) as [_ Hb Hs]. split; [done|].
  intros p Hp. destruct (hi_packets _ _ Hb c p Hp) as (q & Hq & Hd). exists q. split; [done|].
  change (deref p) with (MuxPacket_deref p). unfold MuxPacket_deref. by rewrite Hd.
Qed.
End safety.

(** * Runs of two hosts *)

Section run.
Context {P Q W K : Type} {PI : Packet P} {CB : Crossbeam Q (MuxPacket P)} {AW : AtomicWaker W K} {HO : HashOrder}.
Context {N : Z -> Type} {ST : forall c, Station (N c) (MuxPacket P)}.
Context (okb : forall c, st_op (N := N c) -> bool) (runb : forall c, N c -> bool).
Context (Hok : forall c o, okb c o = true -> st_ok o) (Hrun : forall c x, runb c x = true -> st_running x).

Abbreviation host := (host P Q W K N).

Definition host_allowedb (o : host_op P K N) (peer : host) : bool :=
  match o with
  | HostStation c o => okb c o
  | HostPort (MuxTrySend q) | HostPort (MuxStartSend q) => existsb (fun r => bool_decide (deref r = deref q)) (h_wire peer)
  | _ => true
  end.

Definition host_runningb (o : host_op P K N) (h : host) : bool :=
  match op_station o with Some c => runb c (h_stations h c) | None => true end.

Fixpoint hosts_run (ops : list (bool * host_op P K N)) (a b : host) : option (host * host) :=
  match ops with
  | [] => Some (a, b)
  | (is_left, o) :: ops =>
    let (h, peer) := if is_left : bool then (a, b) else (b, a) in
    if host_allowedb o peer then
      match host_exec o h with
      | Val h => if host_runningb o h then if is_left then hosts_run ops h b else hosts_run ops a h else None
      | Fault _ => None
      end
    else None
  end.

Lemma hosts_run_steps ops : forall a b a' b' : host,
  hosts_run ops a b = Some (a', b') -> rtc hosts_step (a, b) (a', b') /\
    forall c, Forall (fun o => op_station o.2 <> Some c) ops -> h_stations a' c = h_stations a c /\ h_stations b' c = h_stations b c.
Proof.
  assert (forall o (peer : host), host_allowedb o peer = true -> host_allowed o peer) as Hal.
  { assert (forall q (peer : host), existsb (fun r => bool_decide (deref r = deref q)) (h_wire peer) = true -> on_wire q (h_port peer)) as Hw.
    { intros q peer (r & Hr & Hd%bool_decide_eq_true)%existsb_exists. exists r. by rewrite list_elem_of_In. }
    intros [c o|c w k|[]]; cbn; auto. }
  assert (forall o (h : host), host_runningb o h = true -> host_running o h) as Hr.
  { intros []; cbn; auto. }
  induction ops as [|[is_left o] ops IH]; intros a b a' b'; cbn [hosts_run]; [by intros [= -> ->]|].
  destruct is_left; (destruct (host_allowedb o _) eqn:Ho; [|done]); (destruct (host_exec o _) as [h|] eqn:Hx; [|done]);
    (destruct (host_runningb o h) eqn:Hrn; [|done]); intros [Hs Hst]%IH; (split; [eapply rtc_l; [|exact Hs]|]).
  - eapply hosts_left; eauto.
  - intros c [Hc Hops]%Forall_cons. destruct (Hst c Hops) as [-> ->]. split; [|done].
    by destruct (host_exec_moves _ _ _ c Hx) as [?|[? _]].
  - eapply hosts_right; eauto.
  - intros c [Hc Hops]%Forall_cons. destruct (Hst c Hops) as [-> ->]. split; [done|].
    by destruct (host_exec_moves _ _ _ c Hx) as [?|[? _]].
Qed.
End run.
