(* ===== verification/MuxedChannels.v ===== *)
(** The whole stack: on each of two hosts, [MessageChannels]-style users and message
    tasks, typed channels, reliable channels and their tasks, and one packet
    multiplexer for all of them, over one network. Every channel delivers its messages
    in order, whatever the others do. *)

From stdpp Require Import relations gmap.
From S2P Require Import Prelude StreamPos RingBuffer Segments SendWindow RecvWindow.
From S2P Require Import BandwidthLimiter Packet Wire ReliableChannel ReliableTask ReliableSafety System.
From S2P Require Import Async Spsc SpscSafety EventWatch Mux MuxSafety Bincode BincodeSafety MessageChannel.
From S2P Require Import Compressed CompressedSafety CompressedMessages Messages ChannelTask ChannelSystem MuxSystem.

(** * A task forgets nothing that it has sent *)

Section emits.
Context {T Instant P Pool Snd : Type}.
Context {TI : Timer T Instant} {PI : Packet P} {PPI : PacketPool Pool P}.
Context {SI : PacketSink Snd P} {BO : ByteOrder}.

Abbreviation task := (Task T Instant P Pool Snd).
Abbreviation side := (side T Instant P Pool Snd).

Definition emits (t t' : task) : Prop := t_effects t `prefix_of` t_effects t'.

#[export] Instance emits_preorder : PreOrder emits.
Proof. split; unfold emits; [intros t|intros t1 t2 t3 ? ?; etrans]; done. Qed.

Lemma emits_modify f : (forall t, emits t (f t)) -> preserves emits (modify f : handler task Error unit).
Proof. apply preserves_modify. Qed.

Local Ltac emits_tac := preserves_tac; try (apply emits_modify; intros ?; unfold emits; first [by exists []; rewrite app_nil_r|by eexists]).

Lemma send_packet_emits (p : P) : preserves emits (send_packet p : handler task Error unit).
Proof. unfold send_packet. emits_tac. Qed.
Lemma task_acquire_emits : preserves emits (task_acquire : handler task Error P).
Proof. unfold task_acquire. emits_tac. Qed.
Lemma task_now_emits : preserves emits (task_now : handler task Error Instant).
Proof. unfold task_now. emits_tac. Qed.

Local Ltac emits_calls := emits_tac; try first [apply task_acquire_emits|apply task_now_emits|apply send_packet_emits].

Lemma send_emits : preserves emits (send : handler task Error unit).
Proof. unfold send, task_take_bytes. emits_calls. Qed.
Lemma resend_one_emits key (u : UnackedRange Instant) : preserves emits (resend_one key u : handler task Error unit).
Proof. unfold resend_one, resend_due, task_take_bytes. emits_calls. Qed.
Lemma resend_emits keys : preserves emits (resend keys : handler task Error unit).
Proof.
  induction keys as [|key keys IH]; cbn [resend]; [emits_tac|].
  emits_tac; first [apply resend_one_emits|apply IH].
Qed.
Lemma recv_ack_emits n bytes : preserves emits (recv_ack n bytes : handler task Error unit).
Proof. unfold recv_ack, remote_window, take_acked, update_rtt. emits_calls; apply send_emits. Qed.
Lemma recv_data_emits n bytes : preserves emits (recv_data n bytes : handler task Error unit).
Proof. unfold recv_data. emits_calls. Qed.

Lemma iteration_emits reason keys : preserves emits (iteration reason keys : handler task Error unit).
Proof.
  unfold iteration, task_update_available, reset_resend_timer, recv_packet.
  emits_tac; try first [apply resend_emits|apply send_emits|apply recv_ack_emits|apply recv_data_emits].
  all: apply emits_modify; intros ?; unfold emits, unstall; case_match; by exists []; rewrite app_nil_r.
Qed.

Definition side_emits (a a' : side) : Prop := emits (s_task a) (s_task a').

#[export] Instance side_emits_preorder : PreOrder side_emits.
Proof. split; unfold side_emits; [intros a|intros a1 a2 a3 ? ?; etrans]; done. Qed.

Lemma run_task_emits c reason keys (c' : ReliableChannel T Instant P Pool Snd) :
  run_task c reason keys = Val c' -> emits (rc_task c) (rc_task c').
Proof.
  unfold run_task. destruct (rc_status c); [|by intros [= <-]..]. intros ([t o] & Ht & [= <-])%bind_val. by eapply iteration_emits.
Qed.

Lemma rc_write_emits c data (c' : ReliableChannel T Instant P Pool Snd) n :
  rc_write c data = Val (c', n) -> t_effects (rc_task c') = t_effects (rc_task c).
Proof. unfold rc_write. by intros ([w len] & _ & [= <- _])%bind_val. Qed.
Lemma rc_read_emits c buf buf' (c' : ReliableChannel T Instant P Pool Snd) n :
  rc_read c buf = Val (c', buf', n) -> t_effects (rc_task c') = t_effects (rc_task c).
Proof. unfold rc_read. by intros ([[w data] len] & _ & [= <- _ _])%bind_val. Qed.

Lemma poll_write_emits c data (c' : ReliableChannel T Instant P Pool Snd) r :
  poll_write c data = Val (c', r) -> emits (rc_task c) (rc_task c').
Proof.
  unfold poll_write. destruct (rc_status c); [|by intros [= <- _]..]. destruct data as [|b data]; [by intros [= <- _]|].
  intros ([c1 n1] & H1%rc_write_emits & H)%bind_val. unfold emits. destruct (0 <? n1); [injection H as <- _; by rewrite H1|].
  apply bind_val in H as ([c2 n2] & H2%rc_write_emits & H). rewrite <- H1, <- H2.
  destruct (0 <? n2); injection H as <- _; [done|by eexists].
Qed.

Lemma poll_read_emits c buf buf' (c' : ReliableChannel T Instant P Pool Snd) r :
  poll_read c buf = Val (c', buf', r) -> emits (rc_task c) (rc_task c').
Proof.
  unfold poll_read. destruct (rc_status c); [|by intros [= <- _ _]..]. destruct buf as [|b buf]; [by intros [= <- _ _]|].
  intros ([[c1 buf1] n1] & H1%rc_read_emits & H)%bind_val. unfold emits. destruct (0 <? n1); [injection H as <- _ _; by rewrite H1|].
  apply bind_val in H as ([[c2 buf2] n2] & H2%rc_read_emits & H). rewrite <- H1, <- H2. by destruct (0 <? n2); injection H as <- _ _.
Qed.

Lemma flush_emits (c c' : ReliableChannel T Instant P Pool Snd) r : flush c = (c', r) -> emits (rc_task c) (rc_task c').
Proof. unfold flush, emits. destruct (rc_status c); intros [= <- _]; [by eexists|done..]. Qed.

(** ... whatever the user of a side does. *)
Lemma bs_emits :
  (forall w data, preserves side_emits (bs_write (C := side) (K := unit) w data)) /\
  (forall w buf, preserves side_emits (bs_read (C := side) (K := unit) w buf)) /\
  preserves side_emits (bs_flush (C := side) (K := unit)).
Proof.
  split_and!; intros; intros a a' o H; cbn in H; unfold side_emits, s_task.
  - apply bind_val in H as ([c r] & ([c' r'] & H & [= <- _])%bind_val & [= <- _]). by eapply poll_write_emits.
  - apply bind_val in H as ([c r] & ([[c' buf'] r'] & H & [= <- _])%bind_val & [= <- _]). by eapply poll_read_emits.
  - destruct (flush (s_chan a)) as [c r] eqn:Hf. injection H as <- _. by eapply flush_emits.
Qed.
End emits.

(** * Nodes as stations *)

Section stations.
Context {T Instant P Pool Snd Ch Q W M E' : Type}.
Context {TI : Timer T Instant} {TL : TimerLaws T Instant}.
Context {PI : Packet P} {PL : PacketLaws P} {PPI : PacketPool Pool P} {PPL : PacketPoolLaws Pool P}.
Context {SI : PacketSink Snd P} {BO : ByteOrder} {BOL : ByteOrderLaws}.
Context {CB : Crossbeam Q M} {CL : CrossbeamLaws Q M} {AW : AtomicWaker W unit}.

Abbreviation side := (side T Instant P Pool Snd).

Context {OS : OverStream Ch side} {MC : MessageChannel Ch unit M E'}.

Abbreviation node := (node Ch Q W unit M E').

(** The packets that the task of a node has handed to its sink. *)
Definition sent_packets (es : list (effect P)) : list P := omap (fun e => match e with Sent p => Some p | _ => None end) es.

Lemma sent_packets_elem es p : p ∈ sent_packets es <-> Sent p ∈ es.
Proof.
  unfold sent_packets. rewrite list_elem_of_omap. split; [|by exists (Sent p)].
  intros ([] & He & Hs); try done. by injection Hs as ->.
Qed.

Definition node_ok_op (ok : M -> Prop) (o : sys_op M P) : Prop :=
  match o with
  | SysNode o => Forall ok (node_messages o)
  | SysIterate (IncomingPacket (Some _)) _ => False
  | SysIterate _ _ => True
  end.

(** A node of messages [ok] to send: what its user and its tasks do, and an iteration of
    the channel's task for a packet. *)
#[export] Instance node_station (ok : M -> Prop) : Station node P := {|
  st_op := sys_op M P;
  st_key := list StreamPos;
  st_ok := node_ok_op ok;
  st_exec := sys_exec;
  st_receive keys p := sys_exec (SysIterate (IncomingPacket (Some p)) keys);
  st_sent x := sent_packets (t_effects (s_task (ep_side (ep_of x))));
  st_running x := rc_status (s_chan (ep_side (ep_of x))) = Running;
|}.

Lemma station_sys_step ok (x x' y : node) :
  station_step (ST := node_station ok) y x x' ->
  exists o : sys_op M P, sys_allowed ok o y /\ sys_exec o x = Val x' /\ rc_status (s_chan (ep_side (ep_of x'))) = Running.
Proof.
  intros [o ? ? Hok Hx Hr|k p q ? ? Hq Hd Hx Hr].
  - exists o. split; [|done]. by destruct o as [[]|[|[p|]|] keys].
  - exists (SysIterate (IncomingPacket (Some p)) k). split; [|done]. exists q. by rewrite <- sent_packets_elem.
Qed.

Lemma pair_sys_steps ok (x y x' y' : node) :
  rtc (pair_step (ST := node_station ok)) (x, y) (x', y') -> rtc (sys_step (P := P) ok) (x, y) (x', y').
Proof.
  apply (rtc_subrel _ _). clear. intros ? ? [x y x' Hs|x y y' Hs];
    destruct (station_sys_step _ _ _ _ Hs) as (o & Hal & Hx & Hr); [by eapply sys_left|by eapply sys_right].
Qed.

Context {ML : MessageChannelLaws Ch side unit M Error E'}.

Lemma sys_exec_emits (o : sys_op M P) (x x' : node) :
  sys_exec o x = Val x' -> forall p, p ∈ sent_packets (t_effects (s_task (ep_side (ep_of x)))) ->
  p ∈ sent_packets (t_effects (s_task (ep_side (ep_of x')))).
Proof.
  intros H p. rewrite !sent_packets_elem.
  assert (side_emits (ep_side (ep_of x)) (ep_side (ep_of x'))) as [es ->].
  { apply (sys_exec_stream side_emits o); [apply bs_emits| |done].
    intros reason keys a a' Ha. apply bind_val in Ha as (c & Hc%run_task_emits & [= <-]). exact Hc. }
  rewrite elem_of_app. by left.
Qed.

(** New nodes over new reliable channels of the given settings. *)
Definition nodes_new (sa sb : Settings) (x y : node) : Prop :=
  settings_ok sa /\ settings_ok sb /\ exists ta tb pa pb sa' sb' a0 b0 na nb,
    10 <= pool_capacity pa <= MAX_PACKET_LEN /\ 10 <= pool_capacity pb <= MAX_PACKET_LEN /\
    side_new ta pa sa sa' = Val a0 /\ side_new tb pb sb sb' = Val b0 /\
    x = node_new (mc_new a0) na /\ y = node_new (mc_new b0) nb.

Definition nodes_bound (sa sb : Settings) (x y : node) : Prop := horizons sa sb (ep_side (ep_of x)) (ep_side (ep_of y)).

Lemma nodes_connected sa sb (x0 y0 x y : node) ok :
  nodes_new sa sb x0 y0 -> rtc (pair_step (ST := node_station ok)) (x0, y0) (x, y) -> nodes_bound sa sb x y ->
  sys_connected (P := P) ok sa sb x y.
Proof.
  intros (Hsa & Hsb & ta & tb & pa & pb & sa' & sb' & a0 & b0 & na & nb & Hpa & Hpb & Ha & Hb & -> & ->) Hs%pair_sys_steps Hbd.
  split; [done|]. split; [done|]. exists ta, tb, pa, pb, sa', sb', a0, b0, na, nb. split_and!; done || apply Hpa || apply Hpb || exact Hbd.
Qed.

Lemma node_sent_wf sa sb (x y : node) :
  both_ok sa sb x y -> Forall packet_wf (sent_packets (t_effects (s_task (ep_side (ep_of x))))).
Proof.
  intros (_ & _ & (out & peer & Hx & _)). apply Forall_forall. intros p Hp%sent_packets_elem.
  destruct (ep_half_sys _ _ _ _ _ _ Hx) as ((S & rs & R & st & us & S2 & rs2 & R2 & st2 & us2 & Hh & _) & _).
  pose proof (hf_sent _ _ _ _ _ _ _ _ _ Hh) as Hs. rewrite Forall_forall in Hs. by destruct (Hs _ Hp).
Qed.

#[export] Instance node_station_laws (sa sb : Settings) : StationLaws node P (ST := node_station mc_sendable).
Proof.
  refine {| st_new := nodes_new sa sb; st_bound := nodes_bound sa sb |}.
  - intros x x' [[o Hx]|(k & p & Hx)]; exact (sys_exec_emits _ _ _ Hx).
  - intros x x' y Hm. assert (zlen (s_written (ep_side (ep_of x))) <= zlen (s_written (ep_side (ep_of x')))) as Hle.
    { destruct Hm as [[o Hx]|(k & p & Hx)]; exact (sys_exec_written _ _ _ Hx). }
    unfold nodes_bound, horizons, horizon. split; lia.
  - intros x0 y0 x y Hnew Hs Hbd. pose proof (sys_connected_ok _ _ _ _ (nodes_connected _ _ _ _ _ _ _ Hnew Hs Hbd)) as Hok.
    split; [by eapply node_sent_wf|]. apply (node_sent_wf sb sa y x). destruct Hok as (Hx & Hy & Hinv).
    split; [done|]. split; [done|]. by apply ep_inv_sym.
Defined.
End stations.

(** * The whole stack *)

Section stack.
Context {P Qm Wm Km : Type} {PI : Packet P} {PL : PacketLaws P}.
Context {CBm : Crossbeam Qm (MuxPacket P)} {CLm : CrossbeamLaws Qm (MuxPacket P)} {AWm : AtomicWaker Wm Km} {HO : HashOrder}.
Context {T Instant Pool Snd W : Type}.
Context {TI : Timer T Instant} {TL : TimerLaws T Instant}.
Context {PPI : PacketPool Pool (MuxPacket P)} {PPL : PacketPoolLaws Pool (MuxPacket P)}.
Context {SI : PacketSink Snd (MuxPacket P)} {BO : ByteOrder} {BOL : ByteOrderLaws} {AW : AtomicWaker W unit}.

Abbreviation side := (side T Instant (MuxPacket P) Pool Snd).

(** Every channel has its own message type and kind of typed channel. *)
Context {Q Ch M E' : Z -> Type} {CB : forall c, Crossbeam (Q c) (M c)} {CL : forall c, CrossbeamLaws (Q c) (M c)}.
Context {OS : forall c, OverStream (Ch c) side} {MC : forall c, MessageChannel (Ch c) unit (M c) (E' c)}.
Context {ML : forall c, MessageChannelLaws (Ch c) side unit (M c) Error (E' c)}.

Abbreviation node c := (node (Ch c) (Q c) W unit (M c) (E' c)).

(** C2. The whole stack: two hosts, on each any number of message channels, every one with
    its own message type, settings and kind of reliable typed channel, its users and
    tasks, and one multiplexer for all of them over one network that loses, repeats and
    reorders packets. Whatever all these do in whatever order, the messages that a user
    has received on a channel are the first ones that the other user has sent on this
    channel, in order, and the message tasks of the channel have not failed. Three
    conditions are on the steps and the state: the users send only messages that their
    channel can encode ([mc_sendable]); after every step of a channel its reliable task
    still runs ([st_running], which a disconnected sink ends); and the bytes of each
    channel's stream, with the window of its receiver, are fewer than [2^31]
    ([nodes_bound]). *)
Theorem multiplexed_messages_in_order (sa sb : Z -> Settings) (stations stations' : forall c, node c)
    (a b : host P Qm Wm Km (fun c => node c)) c :
  (forall c, nodes_new (P := MuxPacket P) (sa c) (sb c) (stations c) (stations' c)) ->
  hosts_connected (ST := fun c => node_station mc_sendable) stations stations' a b ->
  (forall c, nodes_bound (P := MuxPacket P) (sa c) (sb c) (h_stations a c) (h_stations b c)) ->
  (exists rest, n_accepted (h_stations a c) = n_delivered (h_stations b c) ++ rest) /\
  (exists rest, n_accepted (h_stations b c) = n_delivered (h_stations a c) ++ rest) /\
  failed (t_phase (n_task (h_stations a c))) = false /\ failed (t_phase (n_task (h_stations b c))) = false.
Proof.
  intros Hnew Hab Hbd.
  pose proof (hosts_connected_inv (N := fun c => node c) (ST := fun c => node_station mc_sendable)
    (SL := fun c => node_station_laws (sa c) (sb c)) stations stations' a b Hnew Hab Hbd) as [_ _ Hs].
  apply (channels_in_order (ML := ML c) (sa c) (sb c)). by eapply nodes_connected, Hbd.
Qed.
End stack.

(** * An example: a message on each of two channels *)

Module MuxedExample.
Import Example BincodeExample MuxExample.

(** A sink that takes every packet. *)
#[export] Instance mux_sink : PacketSink bool (MuxPacket BufferPacket) := {| sink_send connected _ := (connected, connected) |}.

Lemma buffers_pos (pool : BufferPacketPool bool) : 1 <= pool_capacity pool.
Proof. destruct pool as [[]]; cbn; lia. Qed.
#[export] Instance mux_pool_laws : PacketPoolLaws (MuxPacketPool (BufferPacketPool bool)) (MuxPacket BufferPacket) :=
  MuxPacketPool_laws buffers_pos.

Abbreviation muxed_stream := (side nat nat (MuxPacket BufferPacket) (MuxPacketPool (BufferPacketPool bool)) bool).
Abbreviation muxed_node := (node (ReliableBincodeChannel muxed_stream) (list_queue (option Z)) (option unit) unit (option Z)
  (TaskError Error unit unit)).
Abbreviation muxed_host := (host BufferPacket (list_queue (MuxPacket BufferPacket)) (option Z) Z (fun _ : Z => muxed_node)).

#[export] Instance muxed_station : forall c : Z, Station muxed_node (MuxPacket BufferPacket) :=
  fun _ => node_station (sendable (BE := unit)).

Definition muxed_side : res muxed_stream := side_new 0%nat (mkMuxPacketPool (mkBufferPacketPool true)) Example.settings true.

Definition muxed_okb (c : Z) (o : sys_op (option Z) (MuxPacket BufferPacket)) : bool :=
  match o with
  | SysNode o => forallb byte_ok (node_messages o)
  | SysIterate (IncomingPacket (Some _)) _ => false
  | SysIterate _ _ => true
  end.

Abbreviation muxed_op := (host_op BufferPacket Z (fun _ : Z => muxed_node) (ST := muxed_station)).
Definition at_station (c : Z) (o : sys_op (option Z) (MuxPacket BufferPacket)) : muxed_op :=
  HostStation (ST := muxed_station) c o.
Definition at_node (c : Z) (o : node_op unit (option Z)) : muxed_op := at_station c (SysNode o).
Definition at_port (o : port_op BufferPacket Z) : muxed_op := HostPort (ST := muxed_station) o.
Definition no_keys : list StreamPos := [].
Definition receive_on (c : Z) : muxed_op := HostReceive (ST := muxed_station) c 0 no_keys.

Definition muxed_runb (c : Z) (x : muxed_node) : bool := running (ep_side (ep_of x)).
Definition muxed_new (a : muxed_stream) : muxed_node := node_new (mc_new a) 2.

(** What a host does to send a message on a channel, and what the other one does when
    it gets the packet. *)
Definition sending_on (c msg : Z) : list muxed_op :=
  [at_node c (NodeSend (Some msg)); at_node c (NodeTask Branch_Outgoing tt); at_node c (NodeTask Branch_Outgoing tt);
   at_node c NodeFlush; at_node c (NodeTask Branch_Flush tt); at_node c (NodeTask Branch_Flush tt);
   at_node c (NodeTask Branch_Flush tt); at_station c (SysIterate SendAvailable []);
   at_port (PortSubmit c 0); at_port (PortFlush c 0); at_port (MuxOutgoing c 0)].

Definition arriving_on (c msg : Z) : list muxed_op :=
  let bytes := [c; 3; 0; 0; 0; 0; 0; 1; 0; msg] in
  [at_port (MuxTrySend (mkBufferPacket bytes (zlen bytes))); receive_on c;
   at_node c (NodeTask Branch_Incoming tt); at_node c (NodeTask Branch_Incoming tt); at_node c NodeRecv].

Definition muxed_ops : list (bool * muxed_op) :=
  (pair true <$> sending_on 4 7 ++ sending_on 32 9) ++ (pair false <$> arriving_on 32 9 ++ arriving_on 4 7).

Definition muxed_hosts : option (muxed_host * muxed_host) :=
  match muxed_side with
  | Val a =>
    match host_new [(4, 2); (32, 2)] (fun _ => muxed_new a) with
    | Val h => hosts_run (ST := muxed_station) muxed_okb muxed_runb muxed_ops h h
    | Fault _ => None
    end
  | Fault _ => None
  end.

Definition muxed_view (ab : muxed_host * muxed_host) :=
  (fun c => (n_accepted (h_stations ab.1 c), n_delivered (h_stations ab.2 c),
    zlen (s_written (ep_side (ep_of (h_stations ab.1 c)))), zlen (s_written (ep_side (ep_of (h_stations ab.2 c)))))) <$> [4; 32].
End MuxedExample.

Import Example BincodeExample MuxExample MuxedExample.

Lemma muxed_hosts_view : option_map muxed_view muxed_hosts = Some [([Some 7], [Some 7], 3, 0); ([Some 9], [Some 9], 3, 0)].
Proof. vm_compute. reflexivity. Qed.

Lemma muxed_nodes_new a (c : Z) : muxed_side = Val a ->
  nodes_new (T := nat) (Instant := nat) (P := MuxPacket BufferPacket) (Pool := MuxPacketPool (BufferPacketPool bool)) (Snd := bool)
    Example.settings Example.settings (muxed_new a) (muxed_new a).
Proof.
  intros Ha. split; [apply example_settings|]. split; [apply example_settings|].
  exists 0%nat, 0%nat, (mkMuxPacketPool (mkBufferPacketPool true)), (mkMuxPacketPool (mkBufferPacketPool true)), true, true, a, a, 2, 2.
  split; [vm_compute; split; discriminate|]. split; [vm_compute; split; discriminate|].
  split; [exact Ha|]. split; [exact Ha|]. by split.
Qed.

Lemma muxed_ops_channels :
  forallb (fun o : bool * muxed_op => match op_station o.2 with Some c => (c =? 4) || (c =? 32) | None => true end) muxed_ops = true.
Proof. vm_compute. reflexivity. Qed.

Lemma muxed_hosts_connected (a b : muxed_host) : muxed_hosts = Some (a, b) ->
  exists s, muxed_side = Val s /\ hosts_connected (ST := muxed_station) (fun _ => muxed_new s) (fun _ => muxed_new s) a b /\
    forall c, c <> 4 -> c <> 32 -> h_stations a c = muxed_new s /\ h_stations b c = muxed_new s.
Proof.
  unfold muxed_hosts. destruct muxed_side as [s|] eqn:Hs; [|discriminate].
  destruct (host_new _ _) as [h|] eqn:Hh; [|discriminate]. intros Hrun. exists s. split; [done|].
  apply hosts_run_steps in Hrun as [Hsteps Hst].
  - split; [by exists [(4, 2); (32, 2)], [(4, 2); (32, 2)], h, h|]. intros c H4 H32.
    destruct (Hst c) as [-> ->].
    { apply Forall_forall. intros o Ho%list_elem_of_In Hc.
      pose proof (proj1 (forallb_forall _ _) muxed_ops_channels o Ho) as Hin. cbv beta in Hin. rewrite Hc in Hin. lia. }
    unfold host_new in Hh. apply bind_val in Hh as ([m slots] & _ & [= <-]). done.
  - intros c o. destruct o as [o|[|[p|]|] keys]; cbn; try done. apply node_messages_ok, byte_ok_sendable.
  - intros c x. unfold muxed_runb, running. cbn. by destruct (rc_status _).
Qed.

Lemma muxed_bound a b : muxed_hosts = Some (a, b) ->
  forall c, nodes_bound (T := nat) (Instant := nat) (P := MuxPacket BufferPacket) (Pool := MuxPacketPool (BufferPacketPool bool)) (Snd := bool)
    Example.settings Example.settings (h_stations a c) (h_stations b c).
Proof.
  intros Hrun. pose proof muxed_hosts_view as Hv. rewrite Hrun in Hv. injection Hv as _ _ Ha4 Hb4 _ _ Ha32 Hb32.
  change (zlen (s_written (ep_side (ep_of (h_stations a 4)))) = 3) in Ha4. change (zlen (s_written (ep_side (ep_of (h_stations b 4)))) = 0) in Hb4.
  change (zlen (s_written (ep_side (ep_of (h_stations a 32)))) = 3) in Ha32. change (zlen (s_written (ep_side (ep_of (h_stations b 32)))) = 0) in Hb32.
  destruct (muxed_hosts_connected _ _ Hrun) as (s & Hs & _ & Hrest). intros c.
  assert (s_recv_window_size Example.settings = 16) as Hw by reflexivity. unfold nodes_bound, horizons, horizon. rewrite Hw.
  destruct (decide (c = 4)) as [->|H4]; [rewrite Ha4, Hb4; lia|]. destruct (decide (c = 32)) as [->|H32]; [rewrite Ha32, Hb32; lia|].
  destruct (Hrest c H4 H32) as [-> ->]. assert (s_written (ep_side (ep_of (muxed_new s))) = []) as ->; [|rewrite zlen_nil; lia].
  unfold muxed_side, side_new in Hs. by apply bind_val in Hs as (ch & _ & [= <-]).
Qed.

Lemma multiplexed_messages_in_order_witness :
  exists a b, muxed_hosts = Some (a, b) /\ n_delivered (h_stations b 4) = [Some 7] /\ n_delivered (h_stations b 32) = [Some 9] /\
  exists rest, n_accepted (h_stations a 32) = n_delivered (h_stations b 32) ++ rest.
Proof.
  pose proof muxed_hosts_view as Hv. destruct muxed_hosts as [[a b]|] eqn:Hrun; [|discriminate Hv].
  injection Hv as _ H4 _ _ _ H32 _ _. exists a, b. split; [reflexivity|]. split; [exact H4|]. split; [exact H32|].
  destruct (muxed_hosts_connected a b Hrun) as (s & Hs & Hab & _).
  refine (proj1 (multiplexed_messages_in_order (ML := fun _ => reliable_message_laws) (fun _ => Example.settings) (fun _ => Example.settings)
    (fun _ => muxed_new s) (fun _ => muxed_new s) a b 32 _ _ _)).
  - intros c. exact (muxed_nodes_new s c Hs).
  - exact Hab.
  - exact (muxed_bound a b Hrun).
Defined.
