(* ===== verification/NodeBounds.v ===== *)
(** Nodes as stations whose bound is what their users have sent: the bytes on the stream
    of a node are at most what its messages cost, so that a bound on the messages keeps
    the positions of the stream from coming around. *)

From stdpp Require Import relations.
From S2P Require Import Prelude StreamPos RingBuffer Segments SendWindow RecvWindow.
From S2P Require Import BandwidthLimiter Packet Wire ReliableChannel ReliableTask ReliableSafety System.
From S2P Require Import Async Spsc SpscSafety EventWatch Bincode BincodeSafety MessageChannel.
From S2P Require Import Messages ChannelTask ChannelSystem MuxSystem MuxedChannels.

(** * Running *)

Section running.
Context {T Instant P Pool Snd Ch Q W M E' : Type}.
Context {TI : Timer T Instant} {PI : Packet P} {PPI : PacketPool Pool P} {SI : PacketSink Snd P} {BO : ByteOrder}.
Context {CB : Crossbeam Q M} {AW : AtomicWaker W unit}.

Abbreviation side := (side T Instant P Pool Snd).

Context {BOL : ByteOrderLaws} {OS : OverStream Ch side} {MC : MessageChannel Ch unit M E'}.
Context {ML : MessageChannelLaws Ch side unit M Error E'}.

Abbreviation node := (node Ch Q W unit M E').

(** A call on a stream whose task is running leaves it running. *)
Definition stays_running (a a' : side) : Prop := rc_status (s_chan a) = Running -> rc_status (s_chan a') = Running.

#[export] Instance stays_running_preorder : PreOrder stays_running.
Proof. split; unfold stays_running; [by intros a|intros a1 a2 a3; auto]. Qed.

Lemma rc_write_status c data (c' : ReliableChannel T Instant P Pool Snd) n : rc_write c data = Val (c', n) -> rc_status c' = rc_status c.
Proof. unfold rc_write. by intros ([w len] & _ & [= <- _])%bind_val. Qed.
Lemma rc_read_status c buf buf' (c' : ReliableChannel T Instant P Pool Snd) n : rc_read c buf = Val (c', buf', n) -> rc_status c' = rc_status c.
Proof. unfold rc_read. by intros ([[w data] len] & _ & [= <- _ _])%bind_val. Qed.

Lemma calls_stay_running : stream_calls stays_running.
Proof.
  split_and!; intros; intros a a' o H Hr; cbn in H.
  - apply bind_val in H as ([c r] & ([c' r'] & H & [= <- _])%bind_val & [= <- _]). unfold poll_write in H. rewrite Hr in H.
    destruct data as [|b data]; [by injection H as <- _|]. apply bind_val in H as ([c1 n1] & H1%rc_write_status & H).
    destruct (0 <? n1); [injection H as <- _; cbn; congruence|]. apply bind_val in H as ([c2 n2] & H2%rc_write_status & H).
    destruct (0 <? n2); injection H as <- _; cbn; congruence.
  - apply bind_val in H as ([c r] & ([[c' buf'] r'] & H & [= <- _])%bind_val & [= <- _]). unfold poll_read in H. rewrite Hr in H.
    destruct buf as [|b buf]; [by injection H as <- _ _|]. apply bind_val in H as ([[c1 buf1] n1] & H1%rc_read_status & H).
    destruct (0 <? n1); [injection H as <- _ _; cbn; congruence|]. apply bind_val in H as ([[c2 buf2] n2] & H2%rc_read_status & H).
    destruct (0 <? n2); injection H as <- _ _; cbn; congruence.
  - unfold flush in H. rewrite Hr in H. by injection H as <- _.
Qed.

(** So the user and the message task of a node leave it running. *)
Lemma node_exec_running (o : node_op unit M) (x x' : node) : node_exec o x = Val x' ->
  rc_status (s_chan (ep_side (ep_of x))) = Running -> rc_status (s_chan (ep_side (ep_of x'))) = Running.
Proof.
  intros [Hch|(b & Ht)]%node_exec_channel; [by unfold ep_side, ep_of; rewrite Hch|].
  exact (task_poll_stream stays_running _ _ _ calls_stay_running Ht).
Qed.
End running.

(** * Bounds *)

Section bounds.
Context {T Instant P Pool Snd Ch Q W M E' : Type}.
Context {TI : Timer T Instant} {TL : TimerLaws T Instant}.
Context {PI : Packet P} {PL : PacketLaws P} {PPI : PacketPool Pool P} {PPL : PacketPoolLaws Pool P}.
Context {SI : PacketSink Snd P} {BO : ByteOrder} {BOL : ByteOrderLaws}.
Context {CB : Crossbeam Q M} {CL : CrossbeamLaws Q M} {AW : AtomicWaker W unit}.

Abbreviation side := (side T Instant P Pool Snd).

Context {OS : OverStream Ch side} {MC : MessageChannel Ch unit M E'}.
Context {ML : MessageChannelLaws Ch side unit M Error E'}.

Abbreviation node := (node Ch Q W unit M E').

(** What messages cost, at most, when they are put on the stream. *)
Context (cost : list M -> Z) (cost_app : forall a b, cost (a ++ b) = cost a + cost b) (cost_nonneg : forall a, 0 <= cost a).
Context (cost_blocks : forall bs, Forall mc_block bs -> zlen (blocks_bytes bs) <= cost (blocks_msgs bs)).

Definition nodes_cost (sa sb : Settings) (x y : node) : Prop :=
  cost (n_accepted x) + s_recv_window_size sb < u32_half /\ cost (n_accepted y) + s_recv_window_size sa < u32_half.

Lemma written_cost sa sb (x y : node) : both_ok sa sb x y -> zlen (s_written (ep_side (ep_of x))) <= cost (n_accepted x).
Proof.
  intros ([[(out0 & Ho & _) _ _] _ _ _] & _ & (out & peer & (rcvd & (Hi & Hb & (open & Hs) & (rest & Hw))%mc_rep_sent & _) & _)).
  rewrite Ho. change (n_sent x) with (ep_sent (ep_of x)). rewrite Hs, !cost_app. apply cost_blocks in Hb. rewrite Hw, zlen_app in Hb.
  change (bs_written (mc_stream (ep_chan (ep_of x)))) with (s_written (ep_side (ep_of x))) in Hb.
  pose proof (cost_nonneg open). pose proof (cost_nonneg out0). zlen_facts. lia.
Qed.

Lemma both_ok_horizons sa sb (x y : node) : both_ok sa sb x y -> nodes_cost sa sb x y -> nodes_bound sa sb x y.
Proof.
  intros Hok [HA HB]. assert (both_ok sb sa y x) as Hok'.
  { destruct Hok as (Hx & Hy & Hinv). split; [done|]. split; [done|]. by apply ep_inv_sym. }
  apply written_cost in Hok, Hok'. split; unfold horizon; lia.
Qed.

(** The messages that were sent are sent for good. *)
Lemma sys_exec_accepted (o : sys_op M P) (x x' : node) : sys_exec o x = Val x' -> cost (n_accepted x) <= cost (n_accepted x').
Proof.
  intros H. destruct o as [[msg|item w| |w| |b []]|reason keys]; cbn [sys_exec node_exec] in H.
  - destruct (link_try_send _ _) as [l r]. injection H as <-. cbn. rewrite cost_app.
    pose proof (cost_nonneg match r with inl _ => [msg] | inr _ => [] end). lia.
  - apply bind_val in H as ([[l item'] r] & _ & [= <-]). cbn. rewrite cost_app. pose proof (cost_nonneg (taken item item')). lia.
  - destruct (link_try_recv _) as [l r]. injection H as <-. cbn. lia.
  - destruct (link_poll_recv _ _) as [l r]. injection H as <-. cbn. lia.
  - injection H as <-. cbn. lia.
  - apply bind_val in H as (t' & _ & [= <-]). cbn. lia.
  - apply bind_val in H as (a & _ & [= <-]). cbn. lia.
Qed.

Lemma sys_step_cost ok sa sb (x y x' y' : node) : sys_step (P := P) ok (x, y) (x', y') -> nodes_cost sa sb x' y' -> nodes_cost sa sb x y.
Proof.
  intros Hstep [HA HB]. inversion Hstep as [? ? o ? _ Hx%sys_exec_accepted _|? ? o ? _ Hx%sys_exec_accepted _]; simplify_eq;
    split; lia.
Qed.

Lemma nodes_ok sa sb (x0 y0 x y : node) :
  nodes_new sa sb x0 y0 -> rtc (pair_step (ST := node_station mc_sendable)) (x0, y0) (x, y) -> nodes_cost sa sb x y ->
  both_ok sa sb x y.
Proof.
  intros Hnew Hsteps%pair_sys_steps. revert Hsteps. change x with (x, y).1. change y with (x, y).2.
  apply (rtc_ind_r (R := sys_step mc_sendable) (fun xy : node * node => nodes_cost sa sb xy.1 xy.2 -> both_ok sa sb xy.1 xy.2) (x0, y0)).
  - cbn [fst snd]. intros [HA HB]. apply (sys_connected_ok sa sb), (nodes_connected sa sb x0 y0 _ _ _ Hnew (rtc_refl _ _)).
    destruct Hnew as (Hsa & Hsb & ta & tb & pa & pb & xa & xb & a0 & b0 & na & nb & Hpa & Hpb & Ha & Hb & -> & ->).
    destruct (side_new_half ta pa sa xa Hsa Hpa) as (a1 & Ha1 & Hwa & _). destruct (side_new_half tb pb sb xb Hsb Hpb) as (b1 & Hb1 & Hwb & _).
    rewrite Ha in Ha1. rewrite Hb in Hb1. simplify_eq. unfold nodes_bound, horizons, horizon.
    unfold ep_side, ep_of, ep_of_log, node_new. cbn. rewrite !mc_stream_new, Hwa, Hwb, zlen_nil.
    pose proof (cost_nonneg (n_accepted (node_new (mc_new a1) na : node))). pose proof (cost_nonneg (n_accepted (node_new (mc_new b1) nb : node))). lia.
  - intros [x1 y1] [x2 y2] _ Hstep IH Hc. cbn [fst snd] in *.
    pose proof (sys_step_cost _ _ _ _ _ _ _ Hstep Hc) as Hc1. pose proof (IH Hc1) as Hok. destruct Hnew as (Hsa & Hsb & _).
    eapply (sys_step_ok sa sb x1 y1 x2 y2); [| |exact Hok|by apply both_ok_horizons|exact Hstep];
      [pose proof (so_init _ Hsa)|pose proof (so_init _ Hsb)]; lia.
Qed.

(** The bound of the stations. *)
Definition costed_station_laws (sa sb : Settings) : StationLaws node P (ST := node_station mc_sendable).
Proof.
  refine {| st_new := nodes_new sa sb; st_bound := nodes_cost sa sb |}.
  - intros x x' [[o Hx]|(k & p & Hx)]; exact (sys_exec_emits _ _ _ Hx).
  - intros x x' y Hm. assert (cost (n_accepted x) <= cost (n_accepted x')) as Hle.
    { destruct Hm as [[o Hx]|(k & p & Hx)]; exact (sys_exec_accepted _ _ _ Hx). }
    unfold nodes_cost. split; lia.
  - intros x0 y0 x y Hnew Hs Hbd. pose proof (nodes_ok _ _ _ _ _ _ Hnew Hs Hbd) as Hok.
    split; [by eapply node_sent_wf|]. apply (node_sent_wf sb sa y x). destruct Hok as (Hx & Hy & Hinv).
    split; [done|]. split; [done|]. by apply ep_inv_sym.
Defined.
End bounds.
