(* ===== verification/Stack.v ===== *)
(** The whole program on a host: [MessageChannels] with its joined tasks, the tasks of
    the reliable channels of its message types, and the packet multiplexer below them;
    and two hosts with a network between them. *)

From stdpp Require Import relations gmap strings.
From S2P Require Import Prelude StreamPos BandwidthLimiter Packet Wire ReliableChannel ReliableSafety Async Spsc EventWatch Unreliable Mux.
From S2P Require Import Bincode MessageChannel Compressed CompressedMessages OrderedChannel ChannelTask MessageChannels JoinedTasks.
From S2P Require Import TypeNodes ChannelsRefinement MuxSystem MuxedChannels.

(** * A host *)

Section stack.
Context {MT : MessageTypes}.
Context {T Instant Pool Snd Sl BE SE : Type}.
Context {P Qp W : Type} {Q : Type -> Type} {PI : Packet P} {PPI : PacketPool Pool P} {TI : Timer T Instant}.
Context {SLP : Sleeper T Sl unit} {SI : PacketSink Snd (MuxPacket P)} {BO : ByteOrder} {SN : Snap SE}.
Context {BC : forall t, Bincode (Message t) BE} {CS : ChannelSink Snd P}.
Context {CBp : Crossbeam Qp (MuxPacket P)} {CB : forall A, Crossbeam (Q A) A} {AW : AtomicWaker W unit} {HO : HashOrder}.
Context (fuel : nat).

Abbreviation TypedChannel := (TypedChannel (T := T) (Instant := Instant) (Pool := Pool) (Snd := Snd) (Sl := Sl)
  (P := P) (Qp := Qp) (W := W) (K := unit)).
Abbreviation StartedTask := (StartedTask (T := T) (Instant := Instant) (Pool := Pool) (Snd := Snd) (Sl := Sl) (BE := BE) (SE := SE)
  (P := P) (Qp := Qp) (W := W) (K := unit)).
Abbreviation connection := (connection (T := T) (Instant := Instant) (Pool := Pool) (Snd := Snd) (Sl := Sl) (BE := BE) (SE := SE)
  (P := P) (Qp := Qp) (W := W) (K := unit) (Q := Q)).
Abbreviation user_op := (user_op (T := T) (Instant := Instant) (Pool := Pool) (Snd := Snd) (Sl := Sl) (P := P) (Qp := Qp) (W := W) (K := unit)).
Abbreviation MessageChannelsBuilder := (MessageChannelsBuilder (T := T) (Pool := Pool)).
Abbreviation reliable := (ReliableChannel T Instant (MuxPacket P) (MuxPacketPool Pool) Snd).

(** The joined tasks and the handle, the multiplexer with what is on its way through it,
    and the history of the messages that the calls took and gave. *)
Record stack := mkStack {
  sk_conn : connection;
  sk_port : port P Qp W unit;
  sk_log : list user_event;
}.

(** ** The reliable channel of a type *)

Definition stream_of {M} (ch : TypedChannel M) : option reliable :=
  match ch with
  | UnreliableTyped _ => None
  | ReliableTyped c => Some (rb_channel c)
  | CompressedTyped c => Some (rb_channel (cc_io c))
  end.
Definition set_stream {M} (r : reliable) (ch : TypedChannel M) : TypedChannel M :=
  match ch with
  | UnreliableTyped c => UnreliableTyped c
  | ReliableTyped c => ReliableTyped (set_rb_channel r c)
  | CompressedTyped c => CompressedTyped (set_cc_io (set_rb_channel r (cc_io c)) c)
  end.

Definition channel_of (t : TypeId) (c : connection) : option (TypedChannel (Message t)) :=
  match cn_joined c with
  | Joining tasks => match task_of t tasks with Some (ch, _) => Some ch | None => None end
  | Joined _ => None
  end.
Definition reliable_of (t : TypeId) (c : connection) : option reliable :=
  match channel_of t c with Some ch => stream_of ch | None => None end.

(** An iteration of its task's main loop. *)
Definition iterate (t : TypeId) (reason : WakeReason (MuxPacket P)) (keys : list StreamPos) (c : connection) : res connection :=
  ch ← unwrap (channel_of t c);
  r ← unwrap (stream_of ch);
  r ← run_task r reason keys;
  connection_exec fuel (ChannelActs t (set_stream r ch)) c.

(** ** Its number *)

Definition channel_number (b : MessageChannelsBuilder) (t : TypeId) : option Z :=
  match register_fns b !! t with Some (_, settings) => Some (channel settings) | None => None end.
Definition type_on (b : MessageChannelsBuilder) (c : Z) : option TypeId :=
  head (omap (fun fn : TypeId * (string * MessageChannelSettings) => if channel fn.2.2 =? c then Some fn.1 else None) (into_iter (register_fns b))).

(** The packets that the task of the channel has handed to its sink. *)
Definition stack_sent (b : MessageChannelsBuilder) (s : stack) (c : Z) : list (MuxPacket P) :=
  match type_on b c with
  | Some t => match reliable_of t (sk_conn s) with Some r => sent_packets (t_effects (rc_task r)) | None => [] end
  | None => []
  end.

(** ** Steps *)

(** A call or a poll of the joined tasks; an iteration of the task of a reliable channel,
    or one with the packet that its queue gives; and what the multiplexer does. *)
Inductive stack_op :=
| StackUser (o : user_op)
| StackIterate (t : TypeId) (reason : WakeReason (MuxPacket P)) (keys : list StreamPos)
| StackReceive (t : TypeId) (keys : list StreamPos)
| StackPort (o : port_op P unit).

Definition stack_exec (b : MessageChannelsBuilder) (o : stack_op) (s : stack) : res stack :=
  match o with
  | StackUser o => '(c, es) ← user_exec fuel o (sk_conn s); Val (mkStack c (sk_port s) (sk_log s ++ es))
  | StackIterate t reason keys => c ← iterate t reason keys (sk_conn s); Val (mkStack c (sk_port s) (sk_log s))
  | StackReceive t keys =>
    n ← unwrap (channel_number b t);
    '(p, r) ← port_receive n tt (sk_port s);
    match r with
    | Ready (Some q) => c ← iterate t (IncomingPacket (Some q)) keys (sk_conn s); Val (mkStack c p (sk_log s))
    | _ => Val (mkStack (sk_conn s) p (sk_log s))
    end
  | StackPort o => p ← port_exec (stack_sent b s) o (sk_port s); Val (mkStack (sk_conn s) p (sk_log s))
  end.

(** A new host. *)
Definition stack_new (b : MessageChannelsBuilder) : res stack :=
  '(m, c, tasks) ← build b PacketMultiplexer_new;
  let (mux, _) := start m in
  let slots := foldl (fun slots (fn : TypeId * (string * MessageChannelSettings)) => <[channel fn.2.2 := None]> slots)
    (∅ : gmap Z (option (MuxPacket P))) (into_iter (register_fns b)) in
  Val (mkStack (mkConnection c false (Joining tasks)) (mkPort mux slots (fun _ => 0%nat) []) []).

(** * Two hosts *)

(** Messages that the channel of their type can send: those that bincode encodes within
    its limit, and for a compressed channel in one byte at least. *)
Definition can_send (b : MessageChannelsBuilder) (t : TypeId) (message : Message t) : Prop :=
  match register_fns b !! t with
  | Some (_, settings) =>
    match channel_mode settings with
    | MessageChannels.Unreliable _ => True
    | Reliable _ => sendable (BE := BE) message
    | Compressed _ => chunkable (BE := BE) message
    end
  | None => True
  end.

(** Calls send messages that can be sent; what others do to the channels is what the
    other steps of a host do. *)
Definition user_allowed (b : MessageChannelsBuilder) (o : user_op) : Prop :=
  match o with
  | UserSend t message | UserAsyncSend t (Some message) _ => can_send b t message
  | OthersAct _ _ => False
  | _ => True
  end.

(** Packets come from the multiplexer only, which gets those that the peer has put on
    the network, any number of times and in any order. *)
Definition stack_allowed (b : MessageChannelsBuilder) (o : stack_op) (peer : stack) : Prop :=
  match o with
  | StackUser o => user_allowed b o
  | StackIterate _ (IncomingPacket (Some _)) _ => False
  | StackPort o => port_allowed o (sk_port peer)
  | _ => True
  end.

(** No task of a reliable channel has ended. *)
Definition stack_running (s : stack) : Prop :=
  forall t r, reliable_of t (sk_conn s) = Some r -> rc_status r = Running.

Inductive stack_step (ba bb : MessageChannelsBuilder) : stack * stack -> stack * stack -> Prop :=
| stack_left a b o a' : stack_allowed ba o b -> stack_exec ba o a = Val a' -> stack_running a' -> stack_step ba bb (a, b) (a', b)
| stack_right a b o b' : stack_allowed bb o a -> stack_exec bb o b = Val b' -> stack_running b' -> stack_step ba bb (a, b) (a, b').

(** Two hosts after any number of steps. *)
Definition stacks_connected (ba bb : MessageChannelsBuilder) (a b : stack) : Prop :=
  exists a0 b0, stack_new ba = Val a0 /\ stack_new bb = Val b0 /\ rtc (stack_step ba bb) (a0, b0) (a, b).

(** ** What the two builders agree on *)

(** Whether the channel of a type is compressed, and the settings of the reliable channel
    below it. *)
Definition ordered_settings (s : MessageChannelSettings) : option (bool * Settings) :=
  match channel_mode s with
  | MessageChannels.Unreliable _ => None
  | Reliable rs => Some (false, rs)
  | Compressed rs => Some (true, rs)
  end.

(** The same types are registered, under the same channel numbers and with the same kind
    of channels, each reliable or compressed; the other settings may differ. *)
Definition builders_agree (ba bb : MessageChannelsBuilder) : Prop :=
  forall t, match register_fns ba !! t, register_fns bb !! t with
  | Some (_, s), Some (_, s') => channel s = channel s' /\ exists compressed rs rs',
      ordered_settings s = Some (compressed, rs) /\ ordered_settings s' = Some (compressed, rs') /\ settings_ok rs /\ settings_ok rs'
  | None, None => True
  | _, _ => False
  end.

(** Packets have room for the header of a reliable channel. *)
Definition packets_fit (b : MessageChannelsBuilder) : Prop := 10 <= pool_capacity (mkMuxPacketPool (pool b)) <= MAX_PACKET_LEN.

(** What was sent of every type, with the receive window of the peer, takes less than
    [2^31] bytes of its stream. *)
Definition messages_bound (ba bb : MessageChannelsBuilder) (a b : stack) : Prop :=
  forall t name s name' s' compressed rs rs',
    register_fns ba !! t = Some (name, s) -> register_fns bb !! t = Some (name', s') ->
    ordered_settings s = Some (compressed, rs) -> ordered_settings s' = Some (compressed, rs') ->
    messages_cost (BE := BE) (accepted t (sk_log a)) + s_recv_window_size rs' < u32_half /\
    messages_cost (BE := BE) (accepted t (sk_log b)) + s_recv_window_size rs < u32_half.
End stack.
