(* ===== verification/StackSim.v ===== *)
(** The host of Stack is simulated by one of MuxSystem, whose stations are the nodes of
    the message types over reliable channels that keep their history: a step of the stack
    is made by steps of the stations, as long as no task of a type fails, which none does
    while the positions of the streams do not come around. *)

From stdpp Require Import relations gmap strings.
From S2P Require Import Prelude StreamPos BandwidthLimiter Packet Wire ReliableChannel ReliableTask ReliableSafety System.
From S2P Require Import Async Spsc SpscSafety EventWatch Unreliable Mux MuxSafety Bincode BincodeSafety MessageChannel.
From S2P Require Import Compressed CompressedSafety CompressedMessages Messages Maps OrderedChannel ChannelTask ChannelSystem.
From S2P Require Import MessageChannels MessageChannelsSafety JoinedTasks JoinedTasksSafety TypeNodes ChannelsRefinement.
From S2P Require Import MuxSystem MuxedChannels NodeBounds Stack.

(** * A stream that keeps its history is the stream *)

#[export] Instance chan_map {T Instant P Pool Snd K : Type} {TI : Timer T Instant} {PI : Packet P} {PPI : PacketPool Pool P}
    {SI : PacketSink Snd P} {BO : ByteOrder} :
  StreamMap (C1 := side T Instant P Pool Snd) (C2 := ReliableChannel T Instant P Pool Snd) K Error s_chan.
Proof.
  split; intros; intros s; unfold maps_at; cbn [bs_write bs_read bs_flush side_stream].
  - by destruct (bs_write w data (s_chan s)) as [[c o]|].
  - by destruct (bs_read w buf (s_chan s)) as [[c o]|].
  - by destruct (bs_flush (s_chan s)) as [[c o]|].
Qed.

Section stack.
Context {MT : MessageTypes}.
Context {T Instant Pool Snd Sl BE SE : Type}.
Context {P Qp W : Type} {Q : Type -> Type} {PI : Packet P} {PL : PacketLaws P} {PPI : PacketPool Pool P} {PPL : PacketPoolLaws (MuxPacketPool Pool) (MuxPacket P)}.
Context {TI : Timer T Instant} {TL : TimerLaws T Instant}.
Context {SLP : Sleeper T Sl unit} {SI : PacketSink Snd (MuxPacket P)} {BO : ByteOrder} {BOL : ByteOrderLaws} {SN : Snap SE} {SNL : SnapLaws SE}.
Context {BC : forall t, Bincode (Message t) BE} {BCL : forall t, BincodeLaws (Message t) BE} {CS : ChannelSink Snd P}.
Context {CBp : Crossbeam Qp (MuxPacket P)} {CLp : CrossbeamLaws Qp (MuxPacket P)}.
Context {CB : forall A, Crossbeam (Q A) A} {CL : forall A, CrossbeamLaws (Q A) A} {AW : AtomicWaker W unit} {HO : HashOrder}.
Context (fuel : nat).

Abbreviation TypedChannel := (TypedChannel (T := T) (Instant := Instant) (Pool := Pool) (Snd := Snd) (Sl := Sl)
  (P := P) (Qp := Qp) (W := W) (K := unit)).
Abbreviation TypedError := (TypedError (BE := BE) (SE := SE)).
Abbreviation StartedTask := (StartedTask (T := T) (Instant := Instant) (Pool := Pool) (Snd := Snd) (Sl := Sl) (BE := BE) (SE := SE)
  (P := P) (Qp := Qp) (W := W) (K := unit)).
Abbreviation connection := (connection (T := T) (Instant := Instant) (Pool := Pool) (Snd := Snd) (Sl := Sl) (BE := BE) (SE := SE)
  (P := P) (Qp := Qp) (W := W) (K := unit) (Q := Q)).
Abbreviation ChannelsMap := (gmap TypeId (AnySet (W := W) (K := unit) (Q := Q))).
Abbreviation MessageChannelsBuilder := (MessageChannelsBuilder (T := T) (Pool := Pool)).
Abbreviation stack := (stack (T := T) (Instant := Instant) (Pool := Pool) (Snd := Snd) (Sl := Sl) (BE := BE) (SE := SE) (P := P) (Qp := Qp) (W := W) (Q := Q)).
Abbreviation side := (side T Instant (MuxPacket P) (MuxPacketPool Pool) Snd).
Abbreviation task_error := (TaskError Error BE SE).

(** * The nodes of the types *)

#[local] Instance ordered_instance t : MessageChannel (OrderedChannel side) unit (Message t) task_error := ordered_message_channel (S fuel).
#[local] Instance typed_instance t : MessageChannel (TypedChannel (Message t)) unit (Message t) TypedError := typed_message_channel (S fuel) t.

Definition typed_of {M} (ch : OrderedChannel side) : TypedChannel M :=
  match ch with
  | OrderedReliable c => ReliableTyped (rb_map s_chan c)
  | OrderedCompressed c => CompressedTyped (cc_map s_chan c)
  end.
Definition typed_error : task_error -> TypedError := JoinedTasks.task_error inl.

Lemma in_mode_maps {M Ch1 Ch2 A} (kind : Ch1 -> OrderedChannel side) (mode : Ch2 -> TypedChannel M) (g : Ch1 -> Ch2)
    (m1 : polling Ch1 task_error A) (m2 : polling Ch2 task_error A) (m : polling (OrderedChannel side) task_error A) c :
  (forall c, typed_of (kind c) = mode (g c)) -> m (kind c) = in_kind kind m1 c -> maps g m1 m2 ->
  in_mode mode typed_error m2 (g c) = (fun '(c', o) => (typed_of c', o)) <$> map_err typed_error m (kind c).
Proof.
  intros Hk Hm Hmap. unfold in_mode, map_err, in_kind in *. rewrite (Hmap c), Hm. destruct (m1 c) as [[c' [a|e]]|]; [| |done]; cbn; by rewrite Hk.
Qed.

#[local] Instance typed_map t : ChannelMap (MC1 := ordered_instance t) (MC2 := typed_instance t) typed_of typed_error.
Proof.
  pose proof (reliable_maps (M := Message t) (BE := BE) (SE := SE) (K := unit) (E := Error) s_chan) as Hr.
  pose proof (compressed_maps (M := Message t) (BE := BE) (SE := SE) (K := unit) (E := Error) s_chan (S fuel)) as Hc.
  split; intros; intros [c|c]; unfold maps_at.
  - exact (in_mode_maps OrderedReliable ReliableTyped (rb_map s_chan) _ _ _ c (fun _ => eq_refl) eq_refl (proj1 (Hr w))).
  - exact (in_mode_maps OrderedCompressed CompressedTyped (cc_map s_chan) _ _ _ c (fun _ => eq_refl) eq_refl (proj1 (Hc w))).
  - exact (in_mode_maps OrderedReliable ReliableTyped (rb_map s_chan) _ _ _ c (fun _ => eq_refl) eq_refl (proj1 (proj2 (Hr w)) msg)).
  - exact (in_mode_maps OrderedCompressed CompressedTyped (cc_map s_chan) _ _ _ c (fun _ => eq_refl) eq_refl (proj1 (proj2 (Hc w)) msg)).
  - exact (in_mode_maps OrderedReliable ReliableTyped (rb_map s_chan) _ _ _ c (fun _ => eq_refl) eq_refl (proj2 (proj2 (Hr w)))).
  - exact (in_mode_maps OrderedCompressed CompressedTyped (cc_map s_chan) _ _ _ c (fun _ => eq_refl) eq_refl (proj2 (proj2 (Hc w)))).
Qed.

(** ** Channel numbers *)

Lemma type_on_number (b : MessageChannelsBuilder) c t : builder_ok b -> type_on b c = Some t <-> channel_number b t = Some c.
Proof.
  intros Hb. unfold type_on, channel_number.
  assert (forall t', t' ∈ omap (fun fn : TypeId * (string * MessageChannelSettings) => if channel fn.2.2 =? c then Some fn.1 else None) (into_iter (register_fns b)) <->
    exists ns, register_fns b !! t' = Some ns /\ channel ns.2 = c) as Hin.
  { intros t'. rewrite list_elem_of_omap. split.
    - intros ([t1 ns] & H & Hc). rewrite into_iter_ok, elem_of_map_to_list in H. cbn in Hc.
      destruct (Z.eqb_spec (channel ns.2) c); [|done]. injection Hc as <-. by exists ns.
    - intros (ns & H & Hc). exists (t', ns). rewrite into_iter_ok, elem_of_map_to_list. cbn. by rewrite Hc, Z.eqb_refl. }
  destruct (omap _ _) as [|t1 ts] eqn:Ho; cbn [head].
  - split; [done|]. destruct (register_fns b !! t) as [[name s]|] eqn:Ht; [|done]. intros [= Hc].
    assert (t ∈ ([] : list TypeId)) as []%not_elem_of_nil. apply Hin. by exists (name, s).
  - destruct (proj1 (Hin t1)) as (ns & Hns & Hc); [by left|]. split.
    + intros [= <-]. rewrite Hns. destruct ns. cbn in *. by rewrite Hc.
    + destruct (register_fns b !! t) as [[name s]|] eqn:Ht; [|done]. intros [= Hc']. f_equal.
      eapply (bo_distinct _ Hb); [exact Hns|exact Ht|]. cbn. congruence.
Qed.

Lemma type_on_inj (b : MessageChannelsBuilder) c c' t : builder_ok b -> type_on b c = Some t -> type_on b c' = Some t -> c = c'.
Proof. intros Hb. rewrite !type_on_number by done. congruence. Qed.

(** * The simulation *)

Section sim.
(** The type of every channel, whose number is not taken into account when it is not
    registered; and whether it is compressed. *)
Context (typ : Z -> TypeId) (compressed : Z -> bool).

Abbreviation N c := (node (OrderedChannel side) (Q (Message (typ c))) W unit (Message (typ c)) task_error).
Abbreviation over c := (ordered_over_stream (C := side) (compressed c)).

Definition station c : Station (N c) (MuxPacket P) :=
  node_station (OS := over c) (MC := ordered_instance (typ c)) (ordered_sendable (BE := BE) (compressed c)).

Abbreviation host := (host P Qp W unit (fun c => N c)).
Abbreviation is_node := (is_node (Ch1 := fun _ => OrderedChannel side) (fun t => typed_of (M := Message t)) typed_error).

(** A host makes a step. *)
Definition host_move (peer h h' : host) : Prop :=
  exists o : host_op P unit (fun c => N c) (ST := station), host_allowed o peer /\ host_exec o h = Val h' /\ host_running o h'.
Abbreviation running c x := (st_running (Station := station c) x).

(** The stations of the registered channels are the nodes of their types, with the
    messages of the log. *)
Definition nodes_sim (b : MessageChannelsBuilder) (tasks : list StartedTask) (channels : ChannelsMap) (log : list user_event) (h : host) : Prop :=
  forall c, type_on b c = Some (typ c) -> is_node (typ c) tasks channels (h_stations h c) /\ running c (h_stations h c) /\
    n_accepted (h_stations h c) = accepted (typ c) log /\ n_delivered (h_stations h c) = delivered (typ c) log.

Lemma accepted_app t (es es' : list user_event) : accepted t (es ++ es') = accepted t es ++ accepted t es'.
Proof. apply bind_app. Qed.
Lemma delivered_app t (es es' : list user_event) : delivered t (es ++ es') = delivered t es ++ delivered t es'.
Proof. apply bind_app. Qed.

(** The station of a channel has changed, in a host [h0] with the stations of [h]. *)
Lemma nodes_sim_upd b c (x' : N c) (tasks tasks' : list StartedTask) (channels channels' : ChannelsMap) log es (h h0 : host) :
  builder_ok b -> nodes_sim b tasks channels log h -> type_on b c = Some (typ c) -> h_stations h0 = h_stations h ->
  running c x' -> is_node (typ c) tasks' channels' x' ->
  n_accepted x' = n_accepted (h_stations h c) ++ accepted (typ c) es ->
  n_delivered x' = n_delivered (h_stations h c) ++ delivered (typ c) es ->
  (forall t (x : ChannelTask.node (OrderedChannel side) (Q (Message t)) W unit (Message t) task_error), t <> typ c ->
    is_node t tasks channels x -> is_node t tasks' channels' x) ->
  (forall t, t <> typ c -> accepted t es = [] /\ delivered t es = []) ->
  nodes_sim b tasks' channels' (log ++ es) (h_set_station c x' h0) /\
    forall c', type_on b c' = None -> h_stations (h_set_station c x' h0) c' = h_stations h c'.
Proof.
  intros Hb Hs Hc H0 Hr' Hn' Ha' Hd' Hother Hes. destruct (Hs c Hc) as (_ & _ & Ha & Hd). split.
  - intros c' Hc'. cbn [h_set_station h_stations]. destruct (decide (c = c')) as [<-|Hne].
    + rewrite !upd_eq. split; [done|]. split; [done|]. by rewrite Ha', Hd', Ha, Hd, accepted_app, delivered_app.
    + rewrite !upd_ne by done. rewrite H0. destruct (Hs c' Hc') as (Hy & Hry & Hay & Hdy).
      assert (typ c' <> typ c) as Htne.
      { intros Heq. apply Hne. rewrite Heq in Hc'. by apply (type_on_inj b c c' (typ c)). }
      destruct (Hes (typ c') Htne) as [He He']. rewrite accepted_app, delivered_app, He, He', !app_nil_r.
      split; [by apply Hother|done].
  - intros c' Hc'. cbn [h_set_station h_stations]. rewrite <- H0. apply (upd_ne (A := fun c => N c)). intros ->. congruence.
Qed.

(** ** A host *)

Section host.
Context (b : MessageChannelsBuilder) (Hb : builder_ok b) (Htyp : forall c t, type_on b c = Some t -> typ c = t).
Context (Hord : forall t name s, register_fns b !! t = Some (name, s) -> exists rs, ordered_settings s = Some (compressed (channel s), rs)).
Context (peer : host).

(** What follows when the stations of [h] make steps. *)
Definition moves (h : host) (tasks' : list StartedTask) (channels' : ChannelsMap) (log' : list user_event) : Prop :=
  exists h', rtc (host_move peer) h h' /\ h_port h' = h_port h /\ nodes_sim b tasks' channels' log' h' /\
    forall c, type_on b c = None -> h_stations h' c = h_stations h c.

(** What follows when the task of a type fails. *)
Definition fails (h : host) (log : list user_event) : Prop :=
  exists h', rtc (host_move peer) h h' /\ (forall c, type_on b c = None -> h_stations h' c = h_stations h c) /\
    (forall c, type_on b c = Some (typ c) -> n_accepted (h_stations h' c) = accepted (typ c) log) /\
    exists c, failed (t_phase (n_task (h_stations h' c))) = true.

Definition outcome (h : host) (j : joined) (channels' : ChannelsMap) (log : list user_event) : Prop :=
  match j with Joining tasks' => moves h tasks' channels' log | Joined _ => fails h log end.

Lemma moves_refl h (tasks : list StartedTask) (channels : ChannelsMap) log : nodes_sim b tasks channels log h -> moves h tasks channels log.
Proof. intros H. exists h. by split. Qed.
Lemma moves_trans h (tasks1 tasks2 : list StartedTask) (channels1 channels2 : ChannelsMap) log1 log2 :
  moves h tasks1 channels1 log1 -> (forall h1, nodes_sim b tasks1 channels1 log1 h1 -> moves h1 tasks2 channels2 log2) ->
  moves h tasks2 channels2 log2.
Proof.
  intros (h1 & Hr1 & Hp1 & Hs1 & Hi1) H. destruct (H h1 Hs1) as (h2 & Hr2 & Hp2 & Hs2 & Hi2). exists h2.
  split; [by etrans|]. split; [congruence|]. split; [done|]. intros c Hc. by rewrite Hi2, Hi1.
Qed.

Lemma moves_outcome h (tasks1 : list StartedTask) (channels1 : ChannelsMap) log1 j (channels2 : ChannelsMap) log2 :
  moves h tasks1 channels1 log1 -> (forall h1, nodes_sim b tasks1 channels1 log1 h1 -> outcome h1 j channels2 log2) -> outcome h j channels2 log2.
Proof.
  intros Hm H. destruct j as [tasks2|e]; [by eapply moves_trans|]. destruct Hm as (h1 & Hr1 & _ & Hs1 & Hi1).
  destruct (H h1 Hs1) as (h2 & Hr2 & Hi2 & Ha2 & Hf2). exists h2. split; [by etrans|]. split; [|done]. intros c Hc. by rewrite Hi2, Hi1.
Qed.

Lemma registered_channel t : (exists ns, register_fns b !! t = Some ns) -> exists c, type_on b c = Some (typ c) /\ typ c = t.
Proof.
  intros [[name s] Ht]. assert (type_on b (channel s) = Some t) as Hon by (apply type_on_number; [done|]; unfold channel_number; by rewrite Ht).
  exists (channel s). by rewrite (Htyp _ _ Hon).
Qed.

(** A step of the user or of the task of a type. *)
Lemma node_move c (no : node_op unit (Message (typ c))) (x' : N c) (h : host) :
  type_on b c = Some (typ c) -> running c (h_stations h c) -> Forall (can_send b (typ c)) (node_messages no) ->
  node_exec no (h_stations h c) = Val x' -> host_move peer h (h_set_station c x' h) /\ running c x'.
Proof.
  intros Hon Hr Hsend Hx'. apply type_on_number in Hon; [|done]. unfold channel_number in Hon.
  destruct (register_fns b !! typ c) as [[name s]|] eqn:Ht; [|done]. injection Hon as Hc. destruct (Hord _ _ _ Ht) as [rs Hrs]. rewrite Hc in Hrs.
  pose proof (node_exec_running (OS := over c) (MC := ordered_instance (typ c)) (ML := ordered_message_laws (compressed c) fuel) no _ x' Hx' Hr) as Hr'.
  split; [|done]. exists (HostStation (ST := station) c (SysNode no)). split_and!.
  - cbn. eapply Forall_impl; [exact Hsend|]. intros m Hm. unfold can_send in Hm. rewrite Ht in Hm.
    unfold ordered_settings in Hrs. unfold ordered_sendable.
    destruct (channel_mode s); [done|..]; injection Hrs as <- _; exact Hm.
  - cbn [host_exec st_exec station node_station sys_exec]. by rewrite Hx'.
  - cbn [host_running h_set_station h_stations]. by rewrite upd_eq.
Qed.

Lemma node_moves t0 (no : node_op unit (Message t0)) (tasks tasks' : list StartedTask) (channels channels' : ChannelsMap) log es (h : host) :
  nodes_sim b tasks channels log h -> (exists ns, register_fns b !! t0 = Some ns) ->
  Forall (can_send b t0) (node_messages no) ->
  (forall x : ChannelTask.node (OrderedChannel side) (Q (Message t0)) W unit (Message t0) task_error, is_node t0 tasks channels x ->
    exists x', node_exec no x = Val x' /\ is_node t0 tasks' channels' x' /\
      n_accepted x' = n_accepted x ++ accepted t0 es /\ n_delivered x' = n_delivered x ++ delivered t0 es) ->
  (forall t (x : ChannelTask.node (OrderedChannel side) (Q (Message t)) W unit (Message t) task_error), t <> t0 ->
    is_node t tasks channels x -> is_node t tasks' channels' x) ->
  (forall t, t <> t0 -> accepted t es = [] /\ delivered t es = []) ->
  moves h tasks' channels' (log ++ es).
Proof.
  intros Hs Hreg Hsend Hsame Hother Hes. destruct (registered_channel _ Hreg) as (c & Hon & <-).
  destruct (Hs c Hon) as (Hx & Hr & _). destruct (Hsame _ Hx) as (x' & Hx' & Hn & Hacc & Hdel).
  destruct (node_move c no x' h Hon Hr Hsend Hx') as [Hm Hr'].
  exists (h_set_station c x' h). split; [by apply rtc_once|]. split; [done|]. by apply (nodes_sim_upd b c x' tasks tasks' channels channels' log es h h).
Qed.

(** The task of a type fails. *)
Lemma node_fails t0 (no : node_op unit (Message t0)) (tasks : list StartedTask) (channels : ChannelsMap) log (h : host) :
  nodes_sim b tasks channels log h -> (exists ns, register_fns b !! t0 = Some ns) -> Forall (can_send b t0) (node_messages no) ->
  (forall x : ChannelTask.node (OrderedChannel side) (Q (Message t0)) W unit (Message t0) task_error, is_node t0 tasks channels x ->
    exists x', node_exec no x = Val x' /\ failed (t_phase (n_task x')) = true /\ n_accepted x' = n_accepted x) ->
  fails h log.
Proof.
  intros Hs Hreg Hsend Hsame. destruct (registered_channel _ Hreg) as (c & Hon & <-).
  destruct (Hs c Hon) as (Hx & Hr & Hacc & _). destruct (Hsame _ Hx) as (x' & Hx' & Hf & Ha').
  destruct (node_move c no x' h Hon Hr Hsend Hx') as [Hm _]. exists (h_set_station c x' h). split; [by apply rtc_once|].
  cbn [h_set_station h_stations]. split_and!.
  - intros c' Hc'. apply (upd_ne (A := fun c => N c)). intros ->. congruence.
  - intros c' Hc'. destruct (decide (c = c')) as [<-|Hne]; [by rewrite upd_eq, Ha'|]. rewrite (upd_ne (A := fun c => N c)) by done. by apply Hs.
  - exists c. by rewrite upd_eq.
Qed.

Lemma poll_tasks_outcome polls w log : forall (tasks : list StartedTask) (channels : ChannelsMap) j channels' (h : host),
  map_typed channels -> NoDup (st_type <$> tasks) -> (forall s, s ∈ tasks -> exists ns, register_fns b !! st_type s = Some ns) ->
  poll_tasks (S fuel) polls w tasks channels = Val (j, channels') -> nodes_sim b tasks channels log h ->
  outcome h j channels' log.
Proof.
  induction polls as [|[i br] polls IH]; intros tasks channels j channels' h Hm Hnd Hreg H Hs; cbn [poll_tasks] in H.
  { injection H as <- <-. by apply moves_refl. }
  destruct (tasks !! i) as [s|] eqn:Hi; [|by eapply IH]. apply bind_val in H as ([s1 channels1] & H1 & H).
  assert (exists ns, register_fns b !! st_type s = Some ns) as Hregs by (apply Hreg; by eapply list_elem_of_lookup_2).
  destruct (failed (st_phase s1)) eqn:Hf.
  { assert (fails h log) as Hfail.
    { apply (node_fails (st_type s) (NodeTask br w) tasks channels); try done. intros x Hx.
      by apply (poll_started_failed (S fuel) (fun t => typed_of (M := Message t)) typed_error br w s s1 i tasks channels channels1 x). }
    destruct (st_phase s1); try done. by injection H as <- <-. }
  assert (poll_tasks (S fuel) polls w (<[i := s1]> tasks) channels1 = Val (j, channels')) as Hrest by (by destruct (st_phase s1)).
  destruct (poll_started_node (S fuel) (fun t => typed_of (M := Message t)) typed_error br w i s s1 tasks channels channels1 Hm Hnd Hi H1 Hf)
    as (Hsame & Hother & Hm1 & Hty).
  apply (moves_outcome h (<[i := s1]> tasks) channels1 log).
  - rewrite <- (app_nil_r log). apply (node_moves (st_type s) (NodeTask br w) tasks _ channels); try done.
    intros x Hx. destruct (Hsame x Hx) as (x' & Hx' & Hn & Ha & Hd). exists x'. by rewrite !app_nil_r.
  - intros h1 Hs1. apply (IH (<[i := s1]> tasks) channels1); try done; [by erewrite types_insert|].
    intros s2 Hs2. apply list_elem_of_lookup in Hs2 as [k Hk]. destruct (decide (i = k)) as [<-|Hne].
    + rewrite list_lookup_insert_eq in Hk by (by eapply lookup_lt_Some). injection Hk as <-. by rewrite Hty.
    + rewrite list_lookup_insert_ne in Hk by done. apply Hreg. by eapply list_elem_of_lookup_2.
Qed.

Lemma as_message_all t (ms : list (Message t)) : ms ≫= as_message t t = ms.
Proof. induction ms as [|m ms IH]; [done|]. cbn. by rewrite as_message_same, IH. Qed.
Lemma as_message_none t t0 (ms : list (Message t0)) : t <> t0 -> ms ≫= as_message t t0 = [].
Proof. intros Hne. induction ms as [|m ms IH]; [done|]. cbn. by rewrite as_message_other. Qed.

Lemma called_moves t0 no (c c' : connection) es (tasks : list StartedTask) log (h : host) :
  (forall t a, channels_ (cn_handle c) !! t = Some a -> exists ns, register_fns b !! t = Some ns) ->
  Forall (can_send b t0) (node_messages no) ->
  called t0 no c c' es -> nodes_sim b tasks (channels_ (cn_handle c)) log h -> moves h tasks (channels_ (cn_handle c')) (log ++ es).
Proof.
  intros Hreg Hsend [[-> ->]|(set & l & n & a & d & Hset & Hno & -> & ->)] Hs; [rewrite app_nil_r; by apply moves_refl|].
  destruct (link_op_node (Ch1 := fun _ => OrderedChannel side) (fun t => typed_of (M := Message t)) typed_error no tasks _ set l n a d Hset (Hno _ _ _))
    as [Hsame Hother].
  apply (node_moves t0 no tasks tasks (channels_ (cn_handle c))); try done; [by eapply Hreg| |].
  - intros x Hx. destruct (Hsame x Hx) as (x' & Hx' & Hn & Ha & Hd). exists x'.
    by rewrite accepted_called, delivered_called, !as_message_all.
  - intros t Hne. by rewrite accepted_called, delivered_called, !as_message_none.
Qed.

(** An iteration of the task of a reliable channel. *)
Lemma iterate_inv t reason keys (c c' : connection) (tasks : list StartedTask) : cn_joined c = Joining tasks ->
  iterate (S fuel) t reason keys c = Val c' -> exists ch p r r', task_of t tasks = Some (ch, p) /\ stream_of ch = Some r /\
    run_task r reason keys = Val r' /\
    c' = mkConnection (cn_handle c) (cn_receiving_err c) (Joining (set_channel t (set_stream r' ch) <$> tasks)).
Proof.
  intros Hj H. unfold iterate in H. apply bind_val in H as (ch & Hch & H). apply bind_val in H as (r & Hr & H). apply bind_val in H as (r' & Hr' & H).
  unfold channel_of in Hch. rewrite Hj in Hch. destruct (task_of t tasks) as [[ch0 p]|]; [|done]. injection Hch as ->.
  destruct (stream_of ch) as [r0|] eqn:Hs; [|done]. injection Hr as ->. exists ch, p, r, r'. split_and!; try done.
  cbn [connection_exec] in H. rewrite Hj in H. by injection H as <-.
Qed.

Lemma iterate_node k t reason keys (tasks : list StartedTask) (channels : ChannelsMap) ch p r r' :
  task_of t tasks = Some (ch, p) -> stream_of ch = Some r -> run_task r reason keys = Val r' ->
  (forall x : ChannelTask.node (OrderedChannel side) (Q (Message t)) W unit (Message t) task_error, is_node t tasks channels x ->
    exists x', sys_exec (OS := ordered_over_stream k) (MC := ordered_instance t) (SysIterate reason keys) x = Val x' /\
      rc_status (s_chan (ep_side (OS := ordered_over_stream k) (ep_of x'))) = rc_status r' /\
      is_node t (set_channel t (set_stream r' ch) <$> tasks) channels x' /\
      n_accepted x' = n_accepted x /\ n_delivered x' = n_delivered x) /\
  (forall t' (x : ChannelTask.node (OrderedChannel side) (Q (Message t')) W unit (Message t') task_error), t' <> t ->
    is_node t' tasks channels x -> is_node t' (set_channel t (set_stream r' ch) <$> tasks) channels x).
Proof.
  intros Ht Hr Hrun. split.
  - intros x Hx. pose proof Hx as [Hv _]. apply view_of_lookup in Hv as [Hv _]. rewrite Ht in Hv. injection Hv as Hch Hp.
    cbn [image task_map unlog t_channel] in Hch. set (ch1 := lg_channel (t_channel (n_task x))) in *.
    set (a := mc_stream (OverStream := ordered_over_stream k) ch1).
    assert (r = s_chan a) as -> by (subst ch a; by destruct ch1; injection Hr as <-).
    set (a' := mkSide r' (s_written a) (s_read a)). set (ch1' := mc_set_stream (OverStream := ordered_over_stream k) a' ch1).
    exists (with_channel (Ch1 := fun _ => OrderedChannel side) ch1' x). split_and!.
    + cbn [sys_exec side_exec]. change (ep_side (OS := ordered_over_stream k) (ep_of x)) with a. by rewrite Hrun.
    + change (ep_side (OS := ordered_over_stream k) (ep_of (with_channel (Ch1 := fun _ => OrderedChannel side) ch1' x)))
        with (mc_stream (OverStream := ordered_over_stream k) ch1'). subst ch1'. by destruct ch1.
    + assert (set_stream r' ch = typed_of ch1') as -> by (subst ch ch1'; by destruct ch1).
      destruct (set_channel_node (t := t) (Ch1 := fun _ => OrderedChannel side) (fun t => typed_of (M := Message t)) typed_error ch1' tasks channels) as [H _].
      by apply H.
    + done.
    + done.
  - intros t' x Hne [Hv Hf]. split; [|done]. unfold view_of. by rewrite task_of_set_channel_ne.
Qed.

(** ** Steps of the stack *)

(** The stations of channels that are not registered stay as they were made, and have
    sent nothing. *)
Context (stations : forall c, N c) (Hquiet : forall c, st_sent (Station := station c) (stations c) = []).

Record sim (s : stack) (h : host) : Prop := {
  sm_conn : connection_inv (registered_names b) (sk_conn s);
  sm_recv : cn_receiving_err (sk_conn s) = false;
  sm_port : h_port h = sk_port s;
  sm_idle c : type_on b c = None -> h_stations h c = stations c;
  sm_tasks : exists tasks, cn_joined (sk_conn s) = Joining tasks /\
    nodes_sim b tasks (channels_ (cn_handle (sk_conn s))) (sk_log s) h;
}.

Lemma registered_type t : t ∈ (registered_names b).*1 -> exists ns, register_fns b !! t = Some ns.
Proof.
  intros ([t' name] & -> & Hin)%list_elem_of_fmap. apply registered_names_elem in Hin as [s Hs]. by eexists.
Qed.

Lemma sim_types names (c : connection) (tasks : list StartedTask) : names = registered_names b -> connection_inv names c -> cn_joined c = Joining tasks ->
  NoDup (st_type <$> tasks) /\ (forall s, s ∈ tasks -> exists ns, register_fns b !! st_type s = Some ns) /\
  (forall t a, channels_ (cn_handle c) !! t = Some a -> exists ns, register_fns b !! t = Some ns).
Proof.
  intros -> [Hm Hd Hends Hj] Hjoin. rewrite Hjoin in Hj. destruct Hj as [Hn _]. apply tasks_types in Hn. rewrite Hn. split_and!.
  - unfold registered_names. rewrite <- list_fmap_compose. exact (into_iter_NoDup (register_fns b)).
  - intros s Hs. apply registered_type. rewrite <- Hn. apply list_elem_of_fmap. by exists s.
  - intros t a Ha. apply registered_type. apply elem_of_dom_2 in Ha. rewrite Hd in Ha. by apply elem_of_list_to_set in Ha.
Qed.

Lemma tasks_nonempty (c : connection) : (exists t ns, register_fns b !! t = Some ns) -> connection_inv (registered_names b) c ->
  cn_joined c = Joining [] -> False.
Proof.
  intros (t & [name s] & Ht) [_ _ _ Hj] Hjoin. rewrite Hjoin in Hj. destruct Hj as [Hn%tasks_types _].
  assert (t ∈ (registered_names b).*1) as Hin.
  { apply list_elem_of_fmap. exists (t, name). split; [done|]. apply registered_names_elem. by exists s. }
  rewrite <- Hn in Hin. by apply not_elem_of_nil in Hin.
Qed.

(** The state after steps of the stations. *)
Lemma moves_sim s s' h (tasks' : list StartedTask) :
  sim s h -> connection_inv (registered_names b) (sk_conn s') -> cn_receiving_err (sk_conn s') = false -> sk_port s' = sk_port s ->
  cn_joined (sk_conn s') = Joining tasks' -> moves h tasks' (channels_ (cn_handle (sk_conn s'))) (sk_log s') ->
  exists h', rtc (host_move peer) h h' /\ sim s' h'.
Proof.
  intros [_ _ Hp Hi _] Hc Hr Hp' Hj (h' & Hrun & Hph & Hs & Hi'). exists h'. split; [done|]. split; try done; [congruence| |by exists tasks'].
  intros c Hno. by rewrite Hi', Hi.
Qed.

(** A step of the user, after which a task may have failed. *)
Definition result s h : Prop :=
  match cn_joined (sk_conn s) with
  | Joining _ => exists h', rtc (host_move peer) h h' /\ sim s h'
  | Joined _ => fails h (sk_log s)
  end.

Lemma user_sim o s c' es h : (exists t ns, register_fns b !! t = Some ns) -> sim s h -> user_exec (S fuel) o (sk_conn s) = Val (c', es) ->
  user_allowed b o -> result (mkStack c' (sk_port s) (sk_log s ++ es)) h.
Proof.
  intros Hne Hsim H Hal. pose proof Hsim as [Hc Hr _ _ (tasks & Hj & Hs)].
  destruct (user_exec_connection _ _ _ _ _ _ Hc Hr H) as [Hc' Hr'].
  destruct (sim_types _ _ _ eq_refl Hc Hj) as (Hnd & Hreg & Hmap). pose proof (user_exec_called _ _ _ _ _ _ _ Hc Hj H) as Hcall.
  assert (outcome h (cn_joined c') (channels_ (cn_handle c')) (sk_log s ++ es)) as Hout.
  { destruct o as [t m|t item w|t|t w|t|polls w|t ch];
      [destruct Hcall as [-> Hcall]; (eapply called_moves; [done| |exact Hcall|exact Hs]); cbn; try by constructor..| |done].
    - destruct item; by repeat constructor.
    - cbn [user_exec] in H. apply bind_val in H as (c1 & H1 & [= <- <-]). cbn [connection_exec] in H1. apply bind_val in H1 as ([j chs] & Hp & [= <-]).
      cbn [cn_joined cn_handle channels_] in *. rewrite Hj in Hp. rewrite app_nil_r. destruct tasks as [|s0 tasks]; [by destruct (tasks_nonempty _ Hne Hc Hj)|].
      cbn [joined_poll] in Hp. destruct Hc as [Hm _ _ _].
      by apply (poll_tasks_outcome polls w (sk_log s) (s0 :: tasks) (channels_ (cn_handle (sk_conn s)))). }
  unfold result. cbn [sk_conn sk_log]. destruct (cn_joined c') as [tasks'|e] eqn:Hj'; [|done]. by apply (moves_sim s _ h tasks' Hsim).
Qed.

(** What an iteration of the task of a type does to its station, in a host [h0] with the
    stations of [h]. *)
Lemma iterate_station s h c c' reason keys p' :
  sim s h -> type_on b c = Some (typ c) -> iterate (S fuel) (typ c) reason keys (sk_conn s) = Val c' -> stack_running (mkStack c' p' (sk_log s)) ->
  exists x', sys_exec (OS := over c) (MC := ordered_instance (typ c)) (SysIterate reason keys) (h_stations h c) = Val x' /\ running c x' /\
    forall h0, h_stations h0 = h_stations h -> h_port h0 = p' -> sim (mkStack c' p' (sk_log s)) (h_set_station c x' h0).
Proof.
  intros Hsim Hon H Hrun. pose proof Hsim as [Hc Hr _ Hi (tasks & Hj & Hs)].
  destruct (iterate_inv _ _ _ _ _ _ Hj H) as (ch & p & r & r' & Hch & Hst & Hr' & ->).
  destruct (iterate_node (compressed c) (typ c) reason keys tasks (channels_ (cn_handle (sk_conn s))) ch p r r' Hch Hst Hr') as [Hsame Hother].
  destruct (Hs c Hon) as (Hx & _). destruct (Hsame _ Hx) as (x' & Hx' & Hstat & Hn & Ha & Hd).
  assert (running c x') as Hrx.
  { change (rc_status (s_chan (ep_side (OS := over c) (ep_of x'))) = Running). rewrite Hstat. apply (Hrun (typ c)).
    unfold reliable_of, channel_of. cbn [sk_conn cn_joined]. rewrite task_of_set_channel, Hch. cbn. by destruct ch. }
  exists x'. split; [done|]. split; [done|]. intros h0 H0 Hp0.
  destruct (nodes_sim_upd b c x' tasks (set_channel (typ c) (set_stream r' ch) <$> tasks) (channels_ (cn_handle (sk_conn s)))
    (channels_ (cn_handle (sk_conn s))) (sk_log s) [] h h0) as [Hs' Hi']; try done; [by rewrite Ha, app_nil_r|by rewrite Hd, app_nil_r|].
  rewrite app_nil_r in Hs'. split; cbn [sk_conn sk_port sk_log cn_joined cn_handle cn_receiving_err]; try done.
  - eapply (connection_exec_ok (S fuel) (ChannelActs (typ c) (set_stream r' ch)) _ (sk_conn s)); [done|]. cbn [connection_exec]. by rewrite Hj.
  - intros c0 Hno. by rewrite Hi', Hi.
  - by eexists.
Qed.

Lemma iterated_type s h t reason keys c' : sim s h -> iterate (S fuel) t reason keys (sk_conn s) = Val c' ->
  exists c, type_on b c = Some (typ c) /\ typ c = t.
Proof.
  intros [Hc _ _ _ (tasks & Hj & _)] H. destruct (iterate_inv _ _ _ _ _ _ Hj H) as (ch & p & r & r' & Hch & _).
  destruct (sim_types _ _ _ eq_refl Hc Hj) as (_ & Hreg & _).
  apply registered_channel. unfold task_of in Hch. destruct (omap (as_type t) tasks) as [|x xs] eqn:Ho; [done|].
  assert (x ∈ omap (as_type t) tasks) as (s0 & Hs0 & Hx)%list_elem_of_omap by (rewrite Ho; by left).
  destruct (decide (st_type s0 = t)) as [<-|Hne]; [by apply Hreg|by rewrite as_type_other in Hx].
Qed.

(** What the tasks have sent is what the stations have sent. *)
Lemma sent_sim s h c : sim s h -> stack_sent b s c = st_sent (Station := station c) (h_stations h c).
Proof.
  intros [_ _ _ Hi (tasks & Hj & Hs)]. unfold stack_sent. destruct (type_on b c) as [t|] eqn:Hon; [|by rewrite Hi].
  pose proof (Htyp _ _ Hon) as <-. destruct (Hs c Hon) as ([Hv _] & _). apply view_of_lookup in Hv as [Hv _].
  unfold reliable_of, channel_of. rewrite Hj, Hv. cbn. unfold ep_side, ep_of, ep_of_log. cbn. by destruct (lg_channel _).
Qed.

Lemma port_exec_ext (sent sent' : Z -> list (MuxPacket P)) o (p : port P Qp W unit) : (forall c, sent c = sent' c) -> port_exec sent o p = port_exec sent' o p.
Proof. intros He. destruct o; cbn [port_exec]; by rewrite ?He. Qed.

Lemma port_sim p' s h : sim s h -> sim (mkStack (sk_conn s) p' (sk_log s)) (h_set_port p' h).
Proof. by intros []. Qed.

Lemma sim_result s h : (exists h', rtc (host_move peer) h h' /\ sim s h') -> result s h.
Proof. intros (h' & Hm & Hs). unfold result. pose proof (sm_tasks _ _ Hs) as (tasks & -> & _). by exists h'. Qed.
Lemma move_result s h (o : host_op P unit (fun c => N c) (ST := station)) h' :
  host_allowed o peer -> host_exec o h = Val h' -> host_running o h' -> sim s h' -> result s h.
Proof. intros Ha Hx Hr Hs. apply sim_result. exists h'. split; [|done]. apply rtc_once. by exists o. Qed.

(** A packet for the task of a type. *)
Lemma receive_sim t keys s s' h : sim s h -> stack_exec (S fuel) b (StackReceive t keys) s = Val s' -> stack_running s' -> result s' h.
Proof.
  intros Hsim H Hrun. cbn [stack_exec] in H. apply bind_val in H as (n & Hn & H). apply bind_val in H as ([p' r] & Hp & H).
  assert (type_on b n = Some t) as Hon by (apply type_on_number; [done|]; destruct (channel_number b t); [by injection Hn as ->|done]).
  pose proof (Htyp _ _ Hon) as <-. rewrite <- (sm_port _ _ Hsim) in Hp.
  assert (match r with Ready (Some _) => True | _ => s' = mkStack (sk_conn s) p' (sk_log s) -> result s' h end) as Hnone.
  { assert (host_running (HostReceive (ST := station) n tt keys) (h_set_port p' h)) as Hrn.
    { cbn [host_running h_set_port h_stations]. destruct Hsim as [_ _ _ _ (tasks & _ & Hs)]. by apply Hs. }
    destruct r as [|[q|]]; try done; intros ->; (apply (move_result _ _ (HostReceive (ST := station) n tt keys) (h_set_port p' h)); [done| |done|by apply port_sim]);
      cbn [host_exec]; by rewrite Hp. }
  destruct r as [|[q|]]; [injection H as <-; by apply Hnone| |injection H as <-; by apply Hnone].
  apply bind_val in H as (c' & H & [= <-]).
  destruct (iterate_station s h n c' _ keys p' Hsim Hon H Hrun) as (x' & Hx' & Hrx & Hs').
  apply (move_result _ _ (HostReceive (ST := station) n tt keys) (h_set_station n x' (h_set_port p' h))); [done| | |by apply Hs'].
  - cbn [host_exec]. rewrite Hp. cbn [mbind res_bind st_receive station node_station]. cbn [h_set_port h_stations]. by rewrite Hx'.
  - cbn [host_running h_set_station h_stations]. by rewrite upd_eq.
Qed.

(** Every step of the stack is made by the stations. *)
Lemma stack_exec_sim o s s' (speer : stack) h : (exists t ns, register_fns b !! t = Some ns) -> sim s h -> h_port peer = sk_port speer ->
  stack_allowed b o speer -> stack_exec (S fuel) b o s = Val s' -> stack_running s' -> result s' h.
Proof.
  intros Hne Hsim Hpeer Hal H Hrun. destruct o as [o|t reason keys|t keys|o]; [..|by eapply receive_sim|]; cbn [stack_exec] in H.
  - apply bind_val in H as ([c' es] & H & [= <-]). by eapply user_sim.
  - apply bind_val in H as (c' & H & [= <-]). destruct (iterated_type _ _ _ _ _ _ Hsim H) as (c & Hon & <-).
    destruct (iterate_station s h c c' reason keys (sk_port s) Hsim Hon H Hrun) as (x' & Hx' & Hrx & Hs').
    apply (move_result _ _ (HostStation (ST := station) c (SysIterate reason keys)) (h_set_station c x' h)); [exact Hal| | |apply Hs'; [done|apply Hsim]].
    + cbn [host_exec st_exec station node_station]. by rewrite Hx'.
    + cbn [host_running h_set_station h_stations]. by rewrite upd_eq.
  - apply bind_val in H as (p' & H & [= <-]).
    apply (move_result _ _ (HostPort (ST := station) o) (h_set_port p' h)); [cbn [host_allowed]; by rewrite Hpeer|cbn [host_exec]|done|by apply port_sim].
    rewrite <- (port_exec_ext (stack_sent b s) _ o _ (fun c => sent_sim s h c Hsim)), (sm_port _ _ Hsim). by rewrite H.
Qed.
End host.

(** ** A new host *)

Section new.
Context (b : MessageChannelsBuilder) (Hb : builder_ok b) (Htyp : forall c t, type_on b c = Some t -> typ c = t).
Context (Hpool : 10 <= pool_capacity (mkMuxPacketPool (pool b)) <= MAX_PACKET_LEN).
Context (settings_of : Z -> MessageChannelSettings) (reliable_settings_of : Z -> Settings).
Context (Hset : forall c, exists name, register_fns b !! typ c = Some (name, settings_of c)).
Context (Hrs : forall c, ordered_settings (settings_of c) = Some (compressed c, reliable_settings_of c)).
Context (Hok : forall c, settings_ok (reliable_settings_of c)) (any_side : side).

(** The stream and the node of a channel. *)
Definition stream_new c : side :=
  match side_new (timer b) (mkMuxPacketPool (pool b)) (reliable_settings_of c) (channel_sink (channel (settings_of c)) None) with
  | Val a => a
  | Fault _ => any_side
  end.
Definition station_new c : N c := node_new (mc_new (OverStream := over c) (stream_new c)) (message_buffer_size (settings_of c)).

Lemma stream_new_ok c :
  side_new (timer b) (mkMuxPacketPool (pool b)) (reliable_settings_of c) (channel_sink (channel (settings_of c)) None) = Val (stream_new c) /\
  rc_status (s_chan (stream_new c)) = Running /\ sent_packets (t_effects (s_task (stream_new c))) = [].
Proof.
  unfold stream_new, side_new.
  destruct (ReliableChannel_new_ok (fun _ => 0) (timer b) (mkMuxPacketPool (pool b)) (reliable_settings_of c)
    (channel_sink (channel (settings_of c)) None) (Hok c) Hpool) as (t & -> & _ & _ & _ & _ & _ & _ & _ & Heff).
  cbn. unfold s_task. cbn. by rewrite Heff.
Qed.

Lemma typed_new c mux_channel (typed : TypedChannel (Message (typ c))) :
  typed_channel (settings_of c) (timer b) (mkMuxPacketPool (pool b)) None mux_channel = Val typed ->
  typed = typed_of (mc_new (OverStream := over c) (stream_new c)).
Proof.
  intros H. destruct (stream_new_ok c) as (Hs & _). unfold side_new in Hs. apply bind_val in Hs as (r & Hr & Hs). injection Hs as Hs. rewrite <- Hs.
  specialize (Hrs c). unfold ordered_settings in Hrs. unfold typed_channel in H.
  destruct (channel_mode (settings_of c)) as [us|rs|rs]; [done|..]; injection Hrs as Hc Hrseq; rewrite Hrseq, Hr in H; injection H as <-; by rewrite <- Hc.
Qed.

Lemma registered_settings c : type_on b c = Some (typ c) -> channel (settings_of c) = c.
Proof.
  intros Hon. apply type_on_number in Hon; [|done]. unfold channel_number in Hon. destruct (Hset c) as [name Ht]. rewrite Ht in Hon. by injection Hon.
Qed.

Lemma ordered_registered t name s : register_fns b !! t = Some (name, s) -> exists rs, ordered_settings s = Some (compressed (channel s), rs).
Proof.
  intros Ht. assert (type_on b (channel s) = Some t) as Hon by (apply type_on_number; [done|]; unfold channel_number; by rewrite Ht).
  pose proof (Htyp _ _ Hon) as Heq. destruct (Hset (channel s)) as [name' Ht']. rewrite Heq, Ht in Ht'. injection Ht' as _ Hs.
  exists (reliable_settings_of (channel s)). rewrite <- Hrs. by rewrite <- Hs.
Qed.

(** The channels are opened as [host_new] opens them. *)
Lemma register_all_opens timer0 pool0 (fns : list (TypeId * (string * MessageChannelSettings))) :
  forall (m m' : PacketMultiplexer P Qp W unit) (map map' : ChannelsMap) (tasks : list StartedTask) (slots : gmap Z (option (MuxPacket P))),
  register_all timer0 pool0 fns m map = Val (m', map', tasks) ->
  open_channels ((fun fn : TypeId * (string * MessageChannelSettings) => (channel fn.2.2, packet_buffer_size fn.2.2)) <$> fns) m slots =
    Val (m', foldl (fun slots (fn : TypeId * (string * MessageChannelSettings)) => <[channel fn.2.2 := None]> slots) slots fns).
Proof.
  induction fns as [|[t [name s]] fns IH]; intros m m' map map' tasks slots H; cbn [register_all] in H; [by injection H as -> _ _|].
  apply bind_val in H as ([[m1 map1] typed] & H1 & H). apply bind_val in H as ([[m2 map2] tasks2] & H2 & [= <- <- <-]).
  unfold register_message_type in H1. cbn [fmap list_fmap open_channels foldl fst snd].
  destruct (open_channel _ _ _) as [m0 r] eqn:Ho. apply bind_val in H1 as (slot & Hs & H1). rewrite Hs. cbn [mbind res_bind].
  pose proof (open_channel_slot _ _ _ _ _ _ Ho Hs) as ->.
  apply bind_val in H1 as (mux_channel & _ & H1). apply bind_val in H1 as (typed' & _ & H1). injection H1 as <- <- <-. by eapply IH.
Qed.

Lemma stack_new_sim s : stack_new b = Val s -> exists channels h, host_new channels station_new = Val h /\ sim b station_new s h.
Proof.
  unfold stack_new. intros H. apply bind_val in H as ([[m c] tasks] & Hbuild & H). pose proof (built_inv _ _ _ _ _ Hbuild) as Hinv.
  pose proof (fun t name settings => built_task b _ _ _ _ t name settings Hbuild) as Htask.
  unfold build in Hbuild. apply bind_val in Hbuild as ([[m1 map] tasks1] & Hreg & [= <- <- <-]).
  pose proof (register_all_opens _ _ _ _ _ _ _ _ ∅ Hreg) as Hopen. destruct (start m1) as [mux out] eqn:Hm. injection H as <-.
  eexists _, _. split; [unfold host_new; rewrite Hopen; cbn [mbind res_bind]; by rewrite Hm|].
  split; try done. exists tasks1. split; [done|]. intros n Hn. cbn [sk_conn sk_log cn_handle channels_ h_stations].
  destruct (Hset n) as [name Hname]. destruct (Htask _ _ _ Hname) as (mux_channel & typed & Htyped & Hview).
  pose proof (typed_new _ _ _ Htyped) as ->. destruct (stream_new_ok n) as (_ & Hr & _). split_and!; [|..|done].
  - by split.
  - change (rc_status (s_chan (ep_side (OS := over n) (ep_of (station_new n)))) = Running). unfold station_new, node_new, ep_of, ep_of_log, ep_side. cbn. by destruct (compressed n).
  - done.
Qed.

Lemma station_new_quiet c : st_sent (Station := station c) (station_new c) = [].
Proof.
  destruct (stream_new_ok c) as (_ & _ & Hs). change (sent_packets (t_effects (s_task (ep_side (OS := over c) (ep_of (station_new c))))) = []).
  unfold station_new, node_new, ep_of, ep_of_log, ep_side. cbn. by destruct (compressed c).
Qed.
End new.

(** ** Two hosts *)

Section hosts.
Context (ba bb : MessageChannelsBuilder) (Hba : builder_ok ba) (Hbb : builder_ok bb).
Context (Htypa : forall c t, type_on ba c = Some t -> typ c = t) (Htypb : forall c t, type_on bb c = Some t -> typ c = t).
Context (Horda : forall t name s, register_fns ba !! t = Some (name, s) -> exists rs, ordered_settings s = Some (compressed (channel s), rs)).
Context (Hordb : forall t name s, register_fns bb !! t = Some (name, s) -> exists rs, ordered_settings s = Some (compressed (channel s), rs)).
Context (Hnea : exists t ns, register_fns ba !! t = Some ns) (Hneb : exists t ns, register_fns bb !! t = Some ns).
Context (sa sb : Z -> Settings) (stations stations' : forall c, N c).
Context (Hnew : forall c, nodes_new (OS := over c) (sa c) (sb c) (stations c) (stations' c)).
Context (Hqa : forall c, st_sent (Station := station c) (stations c) = []) (Hqb : forall c, st_sent (Station := station c) (stations' c) = []).

Abbreviation cost c := (messages_cost (M := Message (typ c)) (BE := BE)).
Abbreviation laws c := (ordered_message_laws (M := Message (typ c)) (SE := SE) (BE := BE) (C := side) (K := unit) (E := Error) (compressed c) fuel).

Definition station_laws c : StationLaws (N c) (MuxPacket P) (ST := station c) :=
  costed_station_laws (OS := over c) (MC := ordered_instance (typ c)) (ML := laws c) (cost c) messages_cost_app messages_cost_nonneg
    (blocks_cost (compressed c)) (sa c) (sb c).

Definition log_bound (la lb : list user_event) : Prop :=
  forall c, cost c (accepted (typ c) la) + s_recv_window_size (sb c) < u32_half /\ cost c (accepted (typ c) lb) + s_recv_window_size (sa c) < u32_half.

(** The stations have taken the messages of the log. *)
Definition counted (b : MessageChannelsBuilder) (stations0 : forall c, N c) (log : list user_event) (h : host) : Prop :=
  (forall c, type_on b c = None -> h_stations h c = stations0 c) /\
  forall c, type_on b c = Some (typ c) -> n_accepted (h_stations h c) = accepted (typ c) log.

Lemma sim_counted b stations0 s h : sim b stations0 s h -> counted b stations0 (sk_log s) h.
Proof. intros [_ _ _ Hi (tasks & _ & Hs)]. split; [done|]. intros c Hc. by apply Hs. Qed.

Lemma counted_cost b stations0 log h c : (forall c t, type_on b c = Some t -> typ c = t) -> n_accepted (stations0 c) = [] ->
  counted b stations0 log h -> cost c (n_accepted (h_stations h c)) <= cost c (accepted (typ c) log).
Proof.
  intros Ht Hn [Hi Ha]. destruct (type_on b c) as [t|] eqn:Hc.
  - rewrite Ha; [done|]. by rewrite (Ht _ _ Hc).
  - rewrite Hi, Hn by done. apply messages_cost_nonneg.
Qed.

Lemma hosts_ok la lb (h h' : host) : hosts_connected (ST := station) stations stations' h h' ->
  counted ba stations la h -> counted bb stations' lb h' -> log_bound la lb ->
  forall c, both_ok (OS := over c) (MC := ordered_instance (typ c)) (ML := laws c) (sa c) (sb c) (h_stations h c) (h_stations h' c).
Proof.
  intros Hcon Ha Hb Hbd. assert (forall c, n_accepted (stations c) = [] /\ n_accepted (stations' c) = []) as Hempty.
  { intros c. by destruct (Hnew c) as (_ & _ & ta & tb & pa & pb & xa & xb & a0 & b0 & na & nb & _ & _ & _ & _ & -> & ->). }
  assert (forall c, nodes_cost (cost c) (sa c) (sb c) (h_stations h c) (h_stations h' c)) as Hcost.
  { intros c. destruct (Hbd c) as [H1 H2]. destruct (Hempty c) as [He He'].
    pose proof (counted_cost ba stations la h c Htypa He Ha). pose proof (counted_cost bb stations' lb h' c Htypb He' Hb). split; lia. }
  intros c. pose proof (hosts_connected_inv (ST := station) (SL := station_laws) stations stations' h h' Hnew Hcon Hcost) as [_ _ Hs].
  exact (nodes_ok (OS := over c) (MC := ordered_instance (typ c)) (ML := laws c) (cost c) messages_cost_app messages_cost_nonneg (blocks_cost (compressed c))
    (sa c) (sb c) _ _ _ _ (Hnew c) (Hs c) (Hcost c)).
Qed.

Lemma stack_exec_log b o (s s' : stack) : stack_exec (S fuel) b o s = Val s' -> exists es, sk_log s' = sk_log s ++ es.
Proof.
  assert (sk_log s = sk_log s ++ []) as Hnil by (by rewrite app_nil_r). destruct o as [o|t reason keys|t keys|o]; cbn [stack_exec]; intros H.
  - apply bind_val in H as ([c' es] & _ & [= <-]). by exists es.
  - apply bind_val in H as (c' & _ & [= <-]). by exists [].
  - apply bind_val in H as (n & _ & H). apply bind_val in H as ([p r] & _ & H). exists [].
    destruct r as [|[q|]]; [by injection H as <-| |by injection H as <-]. by apply bind_val in H as (c' & _ & [= <-]).
  - apply bind_val in H as (p & _ & [= <-]). by exists [].
Qed.

Lemma log_bound_step (a b a' b' : stack) : stack_step (S fuel) ba bb (a, b) (a', b') -> log_bound (sk_log a') (sk_log b') -> log_bound (sk_log a) (sk_log b).
Proof.
  intros Hstep Hbd c. destruct (Hbd c) as [H1 H2].
  inversion Hstep as [? ? o ? _ (es & He)%stack_exec_log _|? ? o ? _ (es & He)%stack_exec_log _]; simplify_eq;
    rewrite He, accepted_app, messages_cost_app in *; pose proof (messages_cost_nonneg (BE := BE) (accepted (typ c) es)); split; lia.
Qed.

Lemma moves_left (h' h h2 : host) : rtc (host_move h') h h2 -> rtc (hosts_step (ST := station)) (h, h') (h2, h').
Proof. apply (rtc_congruence (fun h => (h, h'))). intros x y (o & Ha & Hx & Hr). by apply (hosts_left _ _ o). Qed.
Lemma moves_right (h' h h2 : host) : rtc (host_move h') h h2 -> rtc (hosts_step (ST := station)) (h', h) (h', h2).
Proof. apply (rtc_congruence (fun h => (h', h))). intros x y (o & Ha & Hx & Hr). by apply (hosts_right _ _ o). Qed.

Lemma connected_more (h h' h2 h2' : host) : hosts_connected (ST := station) stations stations' h h' -> rtc (hosts_step (ST := station)) (h, h') (h2, h2') ->
  hosts_connected (ST := station) stations stations' h2 h2'.
Proof. intros (cs & cs' & h0 & h0' & H0 & H0' & Hs) Hs2. exists cs, cs', h0, h0'. split_and!; try done. by etrans. Qed.

Lemma fails_counted b stations0 s0 log (peer h : host) : sim b stations0 s0 h -> fails b peer h log ->
  exists h', rtc (host_move peer) h h' /\ counted b stations0 log h' /\ exists c, failed (t_phase (n_task (h_stations h' c))) = true.
Proof.
  intros Hsim (h' & Hm & Hi & Ha & Hf). exists h'. split; [done|]. split; [|done]. split; [|done]. intros c Hc.
  rewrite Hi by done. by apply (sm_idle _ _ _ _ Hsim).
Qed.

(** No task fails, so every run of the stacks is one of hosts. *)
Definition simulated (a b : stack) : Prop :=
  exists h h', hosts_connected (ST := station) stations stations' h h' /\ sim ba stations a h /\ sim bb stations' b h'.

Lemma simulated_step (a b a' b' : stack) : simulated a b -> stack_step (S fuel) ba bb (a, b) (a', b') -> log_bound (sk_log a') (sk_log b') -> simulated a' b'.
Proof.
  intros (h & h' & Hcon & Ha & Hb) Hstep Hbd. inversion Hstep as [x y o x' Hal Hx Hr|x y o y' Hal Hx Hr]; simplify_eq.
  - pose proof (stack_exec_sim ba Hba Htypa Horda h' stations Hqa o a a' b' h Hnea Ha (sm_port _ _ _ _ Hb) Hal Hx Hr) as H.
    unfold result in H. destruct (cn_joined (sk_conn a')) as [tasks|e].
    + destruct H as (h2 & Hm%moves_left & Ha'). exists h2, h'. split; [by eapply connected_more|done].
    + destruct (fails_counted _ _ _ _ _ _ Ha H) as (h2 & Hm%moves_left & Hc & c & Hf). exfalso.
      pose proof (hosts_ok _ _ _ _ (connected_more _ _ _ _ Hcon Hm) Hc (sim_counted _ _ _ _ Hb) Hbd c) as ([_ _ Hf' _] & _). congruence.
  - pose proof (stack_exec_sim bb Hbb Htypb Hordb h stations' Hqb o b b' a' h' Hneb Hb (sm_port _ _ _ _ Ha) Hal Hx Hr) as H.
    unfold result in H. destruct (cn_joined (sk_conn b')) as [tasks|e].
    + destruct H as (h2 & Hm%moves_right & Hb'). exists h, h2. split; [by eapply connected_more|done].
    + destruct (fails_counted _ _ _ _ _ _ Hb H) as (h2 & Hm%moves_right & Hc & c & Hf). exfalso.
      pose proof (hosts_ok _ _ _ _ (connected_more _ _ _ _ Hcon Hm) (sim_counted _ _ _ _ Ha) Hc Hbd c) as (_ & [_ _ Hf' _] & _). congruence.
Qed.

Lemma simulated_steps (a0 b0 a b : stack) : simulated a0 b0 -> rtc (stack_step (S fuel) ba bb) (a0, b0) (a, b) -> log_bound (sk_log a) (sk_log b) -> simulated a b.
Proof.
  intros H0. change a with (a, b).1 at 2 3. change b with (a, b).2 at 2 4.
  apply (rtc_ind_r (R := stack_step (S fuel) ba bb) (fun ab : stack * stack => log_bound (sk_log ab.1) (sk_log ab.2) -> simulated ab.1 ab.2) (a0, b0)); [done|].
  intros [a1 b1] [a2 b2] _ Hstep IH Hbd. cbn [fst snd] in *. eapply simulated_step; [|exact Hstep|done]. apply IH. by eapply log_bound_step.
Qed.

(** What holds of two hosts. *)
Lemma simulated_delivers (a b : stack) t : simulated a b -> log_bound (sk_log a) (sk_log b) -> (exists c, type_on ba c = Some t /\ type_on bb c = Some t) ->
  (exists rest, accepted t (sk_log a) = delivered t (sk_log b) ++ rest) /\ (exists rest, accepted t (sk_log b) = delivered t (sk_log a) ++ rest) /\
  poll_recv_err (cn_joined (sk_conn a)) = Pending /\ poll_recv_err (cn_joined (sk_conn b)) = Pending.
Proof.
  intros (h & h' & Hcon & Ha & Hb) Hbd (c & Hca & Hcb). pose proof (Htypa _ _ Hca) as <-.
  pose proof (hosts_ok _ _ _ _ Hcon (sim_counted _ _ _ _ Ha) (sim_counted _ _ _ _ Hb) Hbd c) as Hok.
  destruct Ha as [_ _ _ _ (tasks & -> & Hsa)], Hb as [_ _ _ _ (tasks' & -> & Hsb)].
  destruct (Hsa c Hca) as (_ & _ & <- & <-), (Hsb c Hcb) as (_ & _ & <- & <-).
  pose proof Hok as (Hx & Hy & Hinv). split_and!; [|  |done|done].
  { exact (delivered_prefix (OS := over c) (MC := ordered_instance (typ c)) (ML := laws c) (sa c) (sb c) _ _ Hok). }
  apply (delivered_prefix (OS := over c) (MC := ordered_instance (typ c)) (ML := laws c) (sb c) (sa c)). split; [done|]. split; [done|]. by apply ep_inv_sym.
Qed.
End hosts.
End sim.
End stack.
