(* ===== verification/StackSafety.v ===== *)
(** The promise of the whole program: what [recv] of a message type gives on one host is
    what [send] of that type took on the other one, in order, and the joined tasks go on;
    with an example of two hosts with a reliable and a compressed channel. *)

From stdpp Require Import relations gmap strings.
From S2P Require Import Prelude StreamPos BandwidthLimiter Packet Wire ReliableChannel ReliableTask ReliableSafety System.
From S2P Require Import Async Spsc SpscSafety EventWatch Unreliable Mux MuxSafety Bincode BincodeSafety MessageChannel.
From S2P Require Import Compressed CompressedSafety CompressedMessages Messages Maps OrderedChannel ChannelTask ChannelSystem.
From S2P Require Import MessageChannels MessageChannelsSafety JoinedTasks JoinedTasksSafety TypeNodes ChannelsRefinement.
From S2P Require Import MuxSystem MuxedChannels NodeBounds Stack StackSim.

Section stack.
Context {MT : MessageTypes}.
Context {T Instant Pool Snd Sl BE SE : Type}.
Context {P Qp W : Type} {Q : Type -> Type} {PI : Packet P} {PL : PacketLaws P} {PPI : PacketPool Pool P} {PPL : PacketPoolLaws (MuxPacketPool Pool) (MuxPacket P)}.
Context {TI : Timer T Instant} {TL : TimerLaws T Instant}.
Context {SLP : Sleeper T Sl unit} {SI : PacketSink Snd (MuxPacket P)} {BO : ByteOrder} {BOL : ByteOrderLaws} {SN : Snap SE} {SNL : SnapLaws SE}.
Context {BC : forall t, Bincode (Message t) BE} {BCL : forall t, BincodeLaws (Message t) BE} {CS : ChannelSink Snd P}.
Context {CBp : Crossbeam Qp (MuxPacket P)} {CLp : CrossbeamLaws Qp (MuxPacket P)}.
Context {CB : forall A, Crossbeam (Q A) A} {CL : forall A, CrossbeamLaws (Q A) A} {AW : AtomicWaker W unit} {HO : HashOrder}.
Context (fuel : nat).

Abbreviation TypedChannel := (TypedChannel (T := T) (Instant := Instant) (Pool := Pool) (Snd := Snd) (Sl := Sl)
  (P := P) (Qp := Qp) (W := W) (K := unit)).
Abbreviation TypedError := (TypedError (BE := BE) (SE := SE)).
Abbreviation StartedTask := (StartedTask (T := T) (Instant := Instant) (Pool := Pool) (Snd := Snd) (Sl := Sl) (BE := BE) (SE := SE)
  (P := P) (Qp := Qp) (W := W) (K := unit)).
Abbreviation connection := (connection (T := T) (Instant := Instant) (Pool := Pool) (Snd := Snd) (Sl := Sl) (BE := BE) (SE := SE)
  (P := P) (Qp := Qp) (W := W) (K := unit) (Q := Q)).
Abbreviation ChannelsMap := (gmap TypeId (AnySet (W := W) (K := unit) (Q := Q))).
Abbreviation MessageChannelsBuilder := (MessageChannelsBuilder (T := T) (Pool := Pool)).
Abbreviation stack := (stack (T := T) (Instant := Instant) (Pool := Pool) (Snd := Snd) (Sl := Sl) (BE := BE) (SE := SE) (P := P) (Qp := Qp) (W := W) (Q := Q)).
Abbreviation side := (side T Instant (MuxPacket P) (MuxPacketPool Pool) Snd).
Abbreviation task_error := (TaskError Error BE SE).

(** * The whole program *)

Section agree.
Context (ba bb : MessageChannelsBuilder) (Hba : builder_ok ba) (Hbb : builder_ok bb) (Hagree : builders_agree ba bb).
Context (t0 : TypeId) (s0 : MessageChannelSettings) (rs0 : Settings).

Definition typ_of (c : Z) : TypeId := default t0 (type_on ba c).
Definition settings_of (b : MessageChannelsBuilder) (c : Z) : MessageChannelSettings :=
  match register_fns b !! typ_of c with Some (_, s) => s | None => s0 end.
Definition reliable_settings_of (b : MessageChannelsBuilder) (c : Z) : Settings :=
  match ordered_settings (settings_of b c) with Some (_, rs) => rs | None => rs0 end.
Definition compressed_of (c : Z) : bool :=
  match ordered_settings (settings_of ba c) with Some (compressed, _) => compressed | None => false end.

Lemma agree_registered t name s : register_fns ba !! t = Some (name, s) ->
  exists name' s' compressed rs rs', register_fns bb !! t = Some (name', s') /\ channel s = channel s' /\
    ordered_settings s = Some (compressed, rs) /\ ordered_settings s' = Some (compressed, rs') /\ settings_ok rs /\ settings_ok rs'.
Proof.
  intros Ht. pose proof (Hagree t) as H. rewrite Ht in H. destruct (register_fns bb !! t) as [[name' s']|]; [|done].
  destruct H as (Hc & k & rs & rs' & H). by exists name', s', k, rs, rs'.
Qed.

Lemma agree_number t : channel_number ba t = channel_number bb t.
Proof.
  pose proof (Hagree t) as H. unfold channel_number. destruct (register_fns ba !! t) as [[name s]|], (register_fns bb !! t) as [[name' s']|]; try done.
  by destruct H as [-> _].
Qed.
Lemma agree_type_on c : type_on bb c = type_on ba c.
Proof. apply option_eq. intros t. by rewrite !type_on_number, agree_number. Qed.

Context (Hreg : exists name, register_fns ba !! t0 = Some (name, s0)).

Lemma typ_of_registered c : exists name name' s s' compressed rs rs', register_fns ba !! typ_of c = Some (name, s) /\
  register_fns bb !! typ_of c = Some (name', s') /\ settings_of ba c = s /\ settings_of bb c = s' /\
  ordered_settings s = Some (compressed, rs) /\ ordered_settings s' = Some (compressed, rs') /\
  compressed_of c = compressed /\ reliable_settings_of ba c = rs /\ reliable_settings_of bb c = rs' /\ settings_ok rs /\ settings_ok rs'.
Proof.
  assert (exists name s, register_fns ba !! typ_of c = Some (name, s)) as (name & s & Ht).
  { unfold typ_of. destruct (type_on ba c) as [t|] eqn:Hc; cbn; [|destruct Hreg as [name H]; by exists name, s0].
    apply type_on_number in Hc; [|done]. unfold channel_number in Hc. destruct (register_fns ba !! t) as [[name s]|]; [|done]. by exists name, s. }
  destruct (agree_registered _ _ _ Ht) as (name' & s' & k & rs & rs' & Ht' & _ & Ho & Ho' & Hok & Hok').
  exists name, name', s, s', k, rs, rs'. unfold compressed_of, reliable_settings_of, settings_of. rewrite Ht, Ht', Ho, Ho'. by split_and!.
Qed.
Context (Hpa : packets_fit ba) (Hpb : packets_fit bb).

Abbreviation typ := typ_of.
Abbreviation N c := (node (OrderedChannel side) (Q (Message (typ c))) W unit (Message (typ c)) task_error).
Abbreviation new b any := (station_new typ compressed_of b (settings_of b) (reliable_settings_of b) any : forall c, N c).

(** What the settings of one host are. *)
Record settings_given (b : MessageChannelsBuilder) : Prop := {
  sg_builder : builder_ok b;
  sg_packets : packets_fit b;
  sg_typ c t : type_on b c = Some t -> typ c = t;
  sg_registered c : exists name, register_fns b !! typ c = Some (name, settings_of b c);
  sg_ordered c : ordered_settings (settings_of b c) = Some (compressed_of c, reliable_settings_of b c);
  sg_ok c : settings_ok (reliable_settings_of b c);
}.

Lemma settings_given_a : settings_given ba.
Proof.
  split; try done; intros c; [intros t H; unfold typ_of; by rewrite H|..];
    destruct (typ_of_registered c) as (name & name' & s & s' & k & rs & rs' & Ht & Ht' & <- & _ & Ho & Ho' & <- & <- & _ & Hok & Hok');
    by eauto.
Qed.
Lemma settings_given_b : settings_given bb.
Proof.
  split; try done; intros c; [intros t; rewrite agree_type_on; intros H; unfold typ_of; by rewrite H|..];
    destruct (typ_of_registered c) as (name & name' & s & s' & k & rs & rs' & Ht & Ht' & _ & <- & Ho & Ho' & <- & _ & <- & Hok & Hok');
    by eauto.
Qed.

Lemma given_nonempty b : settings_given b -> exists t ns, register_fns b !! t = Some ns.
Proof. intros [_ _ _ H _ _]. destruct (H 0) as [name Ht]. by eexists _, _. Qed.
Lemma given_ordered b : settings_given b ->
  forall t name s, register_fns b !! t = Some (name, s) -> exists rs, ordered_settings s = Some (compressed_of (channel s), rs).
Proof. intros [Hb Hp Ht Hr Ho Hok]. by apply (ordered_registered typ compressed_of b Hb Ht (settings_of b) (reliable_settings_of b) Hr Ho). Qed.

Lemma given_stream b any c : settings_given b -> side_new (timer b) (mkMuxPacketPool (pool b)) (reliable_settings_of b c)
  (channel_sink (channel (settings_of b c)) None) = Val (stream_new b (settings_of b) (reliable_settings_of b) any c).
Proof. intros [Hb Hp Ht Hr Ho Hok]. by apply stream_new_ok. Qed.

Lemma new_nodes any c : nodes_new (OS := ordered_over_stream (C := side) (compressed_of c)) (reliable_settings_of ba c) (reliable_settings_of bb c) (new ba any c) (new bb any c).
Proof.
  pose proof settings_given_a as Ha. pose proof settings_given_b as Hb.
  split; [apply Ha|]. split; [apply Hb|]. do 10 eexists. split; [apply Ha|]. split; [apply Hb|].
  split; [by apply (given_stream ba any)|]. split; [by apply (given_stream bb any)|]. by split.
Qed.

Lemma new_sim b any (s : stack) : settings_given b -> stack_new b = Val s ->
  exists channels h, host_new channels (new b any) = Val h /\ sim fuel typ compressed_of b (new b any) s h.
Proof. intros [Hb Hp Ht Hr Ho Hok]. by apply stack_new_sim. Qed.
Lemma new_quiet b any c : settings_given b -> st_sent (Station := station fuel typ compressed_of c) (new b any c) = [].
Proof. intros [Hb Hp Ht Hr Ho Hok]. by apply station_new_quiet. Qed.

Lemma bound_log (a b : stack) : messages_bound ba bb a b ->
  log_bound typ (reliable_settings_of ba) (reliable_settings_of bb) (sk_log a) (sk_log b).
Proof.
  intros H c. destruct (typ_of_registered c) as (name & name' & s & s' & k & rs & rs' & Ht & Ht' & _ & _ & Ho & Ho' & _ & -> & -> & _).
  exact (H _ _ _ _ _ _ _ _ Ht Ht' Ho Ho').
Qed.

Lemma connected_simulated (a b : stack) : stacks_connected (S fuel) ba bb a b -> messages_bound ba bb a b ->
  exists stations stations' : forall c, N c,
    (forall c, nodes_new (OS := ordered_over_stream (C := side) (compressed_of c)) (reliable_settings_of ba c) (reliable_settings_of bb c) (stations c) (stations' c)) /\
    simulated fuel typ compressed_of ba bb stations stations' a b.
Proof.
  intros (a0 & b0 & Ha0 & Hb0 & Hsteps) Hbd%bound_log. pose proof settings_given_a as Ha. pose proof settings_given_b as Hb.
  destruct (side_new_half (timer ba) (mkMuxPacketPool (pool ba)) (reliable_settings_of ba 0) (channel_sink 0 None)) as (any & _); [apply Ha..|].
  exists (new ba any), (new bb any). split; [apply new_nodes|].
  destruct (new_sim ba any a0 Ha Ha0) as (cs & h & Hh & Hsa). destruct (new_sim bb any b0 Hb Hb0) as (cs' & h' & Hh' & Hsb).
  apply (simulated_steps fuel typ compressed_of ba bb Hba Hbb (sg_typ _ Ha) (sg_typ _ Hb) (given_ordered _ Ha) (given_ordered _ Hb) (given_nonempty _ Ha) (given_nonempty _ Hb)
    (reliable_settings_of ba) (reliable_settings_of bb) (new ba any) (new bb any) (new_nodes any) (fun c => new_quiet ba any c Ha) (fun c => new_quiet bb any c Hb) a0 b0); try done.
  exists h, h'. split; [|done]. by exists cs, cs', h, h'.
Qed.
End agree.

(** C1. The whole program: on each of two hosts any number of message types, registered
    with reliable or compressed channels, one [MessageChannels] for all of them with the
    joined tasks, the tasks of their reliable channels and one multiplexer, over one
    network that loses, repeats and reorders packets. Whatever the users call and however
    all these are polled, futures of [async_send] and [async_recv] that may be dropped
    included, the messages that were received of a type are the first ones that were sent
    of this type on the other host, in order, and the joined tasks have not ended. This
    holds as long as no task of a reliable channel has ended and fewer than [2^31] bytes
    were sent of each type, when both hosts register the same types with the same
    settings and the users send only messages that their channels can encode
    ([can_send]; one that is too long ends the tasks). *)
Theorem stack_messages_in_order timer timer' pool pool' rs rs' (a b : stack) t name settings :
  let ba : MessageChannelsBuilder := register_many rs (MessageChannelsBuilder_new timer pool) in
  let bb : MessageChannelsBuilder := register_many rs' (MessageChannelsBuilder_new timer' pool') in
  packets_fit ba -> packets_fit bb -> builders_agree ba bb ->
  stacks_connected (S fuel) ba bb a b -> messages_bound ba bb a b -> register_fns ba !! t = Some (name, settings) ->
  (exists rest, accepted t (sk_log a) = delivered t (sk_log b) ++ rest) /\ (exists rest, accepted t (sk_log b) = delivered t (sk_log a) ++ rest) /\
  poll_recv_err (cn_joined (sk_conn a)) = Pending /\ poll_recv_err (cn_joined (sk_conn b)) = Pending.
Proof.
  intros ba bb Hpa Hpb Hagree Hcon Hbd Ht.
  assert (builder_ok ba /\ builder_ok bb) as [Hba Hbb] by (split; apply register_many_ok, builder_new_ok).
  destruct (agree_registered ba bb Hagree _ _ _ Ht) as (name' & s' & k & rs0 & rs1 & _ & _ & _ & _ & _).
  assert (exists name, register_fns ba !! t = Some (name, settings)) as Hreg by eauto.
  destruct (connected_simulated ba bb Hba Hbb Hagree t settings rs0 Hreg Hpa Hpb a b Hcon Hbd) as (stations & stations' & Hnew & Hsim).
  assert (type_on ba (channel settings) = Some t) as Hon by (apply type_on_number; [done|]; unfold channel_number; by rewrite Ht).
  pose proof (settings_given_a ba bb Hba Hagree t settings rs0 Hreg Hpa) as Ga. pose proof (settings_given_b ba bb Hba Hbb Hagree t settings rs0 Hreg Hpb) as Gb.
  apply (simulated_delivers fuel (typ_of ba t) (compressed_of ba t settings) ba bb (sg_typ _ _ _ _ _ Ga) (sg_typ _ _ _ _ _ Gb) _ _ stations stations' Hnew a b t Hsim).
  - by apply bound_log.
  - exists (channel settings). by rewrite (agree_type_on ba bb Hba Hbb Hagree).
Qed.
End stack.

(** * An example: a message over a reliable channel, and one over a compressed channel *)

Module StackExample.
Import Example RunLength BincodeExample MuxExample MuxedExample.

(** Two message types. *)
#[export] Instance stack_types : MessageTypes := {|
  TypeId := bool;
  TypeId_eq := _;
  TypeId_countable := _;
  Message t := option Z;
  type_name t := if t : bool then "u8" else "i8";
  into_iter A m := map_to_list m;
  into_iter_ok A m := reflexivity _;
|}.
Definition plain : TypeId := true.
Definition squeezed : TypeId := false.

Definition stack_settings : list (TypeId * MessageChannelSettings) :=
  [(plain, mkMessageChannelSettings 4 (Reliable Example.settings) 2 2);
   (squeezed, mkMessageChannelSettings 32 (Compressed Example.settings) 2 2)].

#[export] Instance stack_sink : ChannelSink bool BufferPacket := {| channel_sink _ _ := true |}.
#[export] Instance stack_sleeper : Sleeper nat unit unit := {| sleep t _ := (t, tt); poll_sleep t s _ := (t, s, true) |}.
#[export] Instance stack_bincode : forall t : TypeId, Bincode (Message t) unit := fun _ => byte_bincode.
#[export] Instance stack_bincode_laws : forall t : TypeId, BincodeLaws (Message t) unit := fun _ => byte_bincode_laws.

Abbreviation example_stack := (stack (T := nat) (Instant := nat) (Pool := BufferPacketPool bool) (Snd := bool) (Sl := unit)
  (BE := unit) (SE := unit) (P := BufferPacket) (Qp := list_queue (MuxPacket BufferPacket)) (W := option unit) (Q := list_queue)).
Abbreviation example_op := (stack_op (T := nat) (Instant := nat) (Pool := BufferPacketPool bool) (Snd := bool) (Sl := unit)
  (P := BufferPacket) (Qp := list_queue (MuxPacket BufferPacket)) (W := option unit)).

Abbreviation example_user_op := (user_op (T := nat) (Instant := nat) (Pool := BufferPacketPool bool) (Snd := bool) (Sl := unit)
  (P := BufferPacket) (Qp := list_queue (MuxPacket BufferPacket)) (W := option unit) (K := unit)).

Definition stack_builder : MessageChannelsBuilder := register_many stack_settings (MessageChannelsBuilder_new 0%nat (mkBufferPacketPool true)).

(** The guards of a step, as functions. *)
Definition stack_allowedb (o : example_op) (peer : example_stack) : bool :=
  match o with
  | StackUser (UserSend t message) | StackUser (UserAsyncSend t (Some message) _) => byte_ok message
  | StackUser (OthersAct _ _) => false
  | StackIterate _ (IncomingPacket (Some _)) _ => false
  | StackPort (MuxTrySend q) | StackPort (MuxStartSend q) => existsb (fun r => bool_decide (deref r = deref q)) (pt_wire (sk_port peer))
  | _ => true
  end.
Definition type_runningb (s : example_stack) (t : TypeId) : bool :=
  match reliable_of t (sk_conn s) with Some r => match rc_status r with Running => true | _ => false end | None => true end.
Definition stack_runningb (s : example_stack) : bool := type_runningb s plain && type_runningb s squeezed.

Fixpoint stacks_run (ops : list (bool * example_op)) (a b : example_stack) : option (example_stack * example_stack) :=
  match ops with
  | [] => Some (a, b)
  | (is_left, o) :: ops =>
    let (s, peer) := if is_left : bool then (a, b) else (b, a) in
    if stack_allowedb o peer then
      match stack_exec 1 stack_builder o s with
      | Val s => if stack_runningb s then if is_left then stacks_run ops s b else stacks_run ops a s else None
      | Fault _ => None
      end
    else None
  end.

(** What a host does to send a message of a type by a call [sends], and what the other one does when it
    gets the packet and its user calls [receives]. *)
Definition every (b : branch) : example_op := StackUser (UserPoll [(0%nat, b); (1%nat, b)] tt).
Definition stack_sending (sends : example_user_op) (t : TypeId) (c : Z) : list example_op :=
  [StackUser sends; every Branch_Outgoing; every Branch_Outgoing; StackUser (UserFlush t);
   every Branch_Flush; every Branch_Flush; every Branch_Flush; StackIterate t SendAvailable [];
   StackPort (PortSubmit c tt); StackPort (PortFlush c tt); StackPort (MuxOutgoing c tt)].
Definition stack_arriving (receives : example_user_op) (t : TypeId) (bytes : list Z) : list example_op :=
  [StackPort (MuxTrySend (mkBufferPacket bytes (zlen bytes))); StackReceive t [];
   every Branch_Incoming; every Branch_Incoming; StackUser receives].

Definition stack_ops : list (bool * example_op) :=
  (pair true <$> stack_sending (UserSend plain (Some 7)) plain 4 ++ stack_sending (UserAsyncSend squeezed (Some (Some 9)) tt) squeezed 32) ++
  (pair false <$> stack_arriving (UserAsyncRecv squeezed tt) squeezed [32; 4; 0; 0; 0; 0; 0; 0; 1; 0; 9] ++
    stack_arriving (UserRecv plain) plain [4; 3; 0; 0; 0; 0; 0; 1; 0; 7]).

Definition example_stacks : option (example_stack * example_stack) :=
  match stack_new stack_builder with Val s => stacks_run stack_ops s s | Fault _ => None end.
Definition stacks_view (ab : example_stack * example_stack) :=
  (fun t => (accepted t (sk_log ab.1) : list (option Z), delivered t (sk_log ab.2) : list (option Z), accepted t (sk_log ab.2) : list (option Z))) <$> [plain; squeezed].
End StackExample.

Import Example RunLength BincodeExample MuxExample MuxedExample StackExample.

Lemma example_stacks_view : option_map stacks_view example_stacks = Some [([Some 7], [Some 7], []); ([Some 9], [Some 9], [])].
Proof. vm_compute. reflexivity. Qed.

Lemma stack_registered t : exists name n compressed rs size size', register_fns stack_builder !! t = Some (name, mkMessageChannelSettings n rs size size') /\
  ordered_settings (mkMessageChannelSettings n rs size size') = Some (compressed, Example.settings) /\
  can_send (BE := unit) stack_builder t = (if compressed then chunkable (BE := unit) else sendable (BE := unit)).
Proof. destruct t; eexists _, _, _, _, _, _; (split; [vm_compute; reflexivity|]); split; [reflexivity| |reflexivity|]; vm_compute; reflexivity. Qed.

Lemma stack_allowed_ok o (peer : example_stack) : stack_allowedb o peer = true -> stack_allowed stack_builder o peer.
Proof.
  assert (forall q, existsb (fun r => bool_decide (deref r = deref q)) (pt_wire (sk_port peer)) = true -> on_wire q (sk_port peer)) as Hw.
  { intros q (r & Hr & Hd%bool_decide_eq_true)%existsb_exists. exists r. by rewrite list_elem_of_In. }
  destruct o as [[t m|t [m|] w|t|t w|t|ps w|t ch]|t [|[p|]|] keys|t keys|[]];
    cbn [stack_allowedb stack_allowed user_allowed port_allowed]; try done; [| |by apply Hw..].
  all: intros Hm; destruct (stack_registered t) as (name & n & k & rs & size & size' & _ & _ & ->); destruct k; [by apply byte_ok_chunkable|by apply byte_ok_sendable].
Qed.

Lemma stack_running_ok (s : example_stack) : stack_runningb s = true -> stack_running s.
Proof.
  unfold stack_runningb, type_runningb. intros [H1 H2]%andb_prop t r Hr. destruct t.
  - unfold plain in H1. rewrite Hr in H1. by destruct (rc_status r).
  - unfold squeezed in H2. rewrite Hr in H2. by destruct (rc_status r).
Qed.

Lemma stacks_run_steps ops : forall a b a' b' : example_stack, stacks_run ops a b = Some (a', b') -> rtc (stack_step 1 stack_builder stack_builder) (a, b) (a', b').
Proof.
  induction ops as [|[is_left o] ops IH]; intros a b a' b'; cbn [stacks_run]; [by intros [= -> ->]|].
  destruct is_left; (destruct (stack_allowedb o _) eqn:Ho; [|done]); (destruct (stack_exec 1 stack_builder o _) as [s|] eqn:Hs; [|done]);
    (destruct (stack_runningb s) eqn:Hr; [|done]); intros Hrun; (eapply rtc_l; [|by apply IH]).
  - by apply (stack_left _ _ _ _ _ o); [apply stack_allowed_ok| |apply stack_running_ok].
  - by apply (stack_right _ _ _ _ _ o); [apply stack_allowed_ok| |apply stack_running_ok].
Qed.

Lemma example_stacks_connected (a b : example_stack) : example_stacks = Some (a, b) -> stacks_connected 1 stack_builder stack_builder a b.
Proof.
  unfold example_stacks. destruct (stack_new stack_builder) as [s|] eqn:Hs; [|discriminate]. intros Hrun%stacks_run_steps.
  exists s, s. by split_and!.
Qed.

Lemma stack_builders_agree : builders_agree stack_builder stack_builder.
Proof.
  intros t. destruct (stack_registered t) as (name & n & k & rs & size & size' & -> & Ho & _). split; [done|].
  exists k, Example.settings, Example.settings. split_and!; done || apply example_settings.
Qed.

Lemma example_messages_bound (a b : example_stack) : example_stacks = Some (a, b) -> messages_bound stack_builder stack_builder a b.
Proof.
  intros Hrun t name s name' s' k rs rs' Ht Ht' Ho Ho'. rewrite Ht in Ht'. injection Ht' as <- <-.
  destruct (stack_registered t) as (name1 & n & k1 & m & size & size' & Ht1 & Ho1 & _). rewrite Ht1 in Ht. injection Ht as _ <-.
  rewrite Ho1 in Ho, Ho'. injection Ho as _ <-. injection Ho' as _ <-.
  pose proof example_stacks_view as Hv. rewrite Hrun in Hv. injection Hv as H1 _ H2 H3 _ H4.
  destruct t; [change true with plain; rewrite H1, H2|change false with squeezed; rewrite H3, H4]; vm_compute; by split.
Qed.

Lemma example_stacks_delivered (a b : example_stack) : example_stacks = Some (a, b) ->
  delivered plain (sk_log b) = [Some 7] /\ delivered squeezed (sk_log b) = [Some 9].
Proof. intros Hrun. pose proof example_stacks_view as Hv. rewrite Hrun in Hv. injection Hv as _ H1 _ _ H2 _. by split. Qed.

Lemma stack_messages_in_order_witness : exists a b : example_stack, example_stacks = Some (a, b) /\
  delivered plain (sk_log b) = [Some 7] /\ delivered squeezed (sk_log b) = [Some 9] /\
  exists rest, accepted squeezed (sk_log a) = delivered squeezed (sk_log b) ++ rest.
Proof.
  pose proof example_stacks_view as Hv. destruct example_stacks as [[a b]|] eqn:Hrun; [|discriminate Hv]. clear Hv.
  destruct (example_stacks_delivered a b Hrun) as [H1 H2]. exists a, b. split; [reflexivity|]. split; [exact H1|]. split; [exact H2|].
  destruct (stack_registered squeezed) as (name & n & k & rs & size & size' & Ht & _).
  refine (proj1 (stack_messages_in_order 0 0%nat 0%nat (mkBufferPacketPool true) (mkBufferPacketPool true) stack_settings stack_settings a b squeezed name _ _ _ _ _ _ Ht)).
  - vm_compute. split; discriminate.
  - vm_compute. split; discriminate.
  - exact stack_builders_agree.
  - exact (example_stacks_connected a b Hrun).
  - exact (example_messages_bound a b Hrun).
Defined.
